(* ===== verification/_CoqProject ===== *)
-Q . S2P
Prelude.v
GoTime.v
GoFloat.v
GoFloatFacts.v
GoNet.v
GoNetFacts.v
Packet.v
PacketFacts.v
PacketSpec.v
Conntrack.v
ConntrackFacts.v
ConntrackSpec.v
RateLimit.v
RateLimitFacts.v
L2Filter.v
L2FilterFacts.v
Cidr.v
ThreatIntel.v
ThreatIntelFacts.v
Alert.v
Opa.v
OpaFacts.v
ShippedPolicy.v
ShippedPolicyFacts.v
Engine.v
PacketSteps.v
EngineFacts.v
EngineInv.v
EndToEnd.v
Guarantees.v
Interrupted.v
BlockLog.v
Metrics.v
Syncer.v
SyncerFacts.v
Watch.v
Admin.v
AdminFacts.v
GoFS.v
GoFSFacts.v
SecurePath.v
SecurePathFacts.v
Persist.v
PersistFacts.v
GoJSON.v
GoJSONFacts.v
Restart.v
PolicyFile.v
PolicyFileFacts.v
Plane.v
GeoIP.v
AuditLog.v
TimeStamp.v
DirFacts.v
AuditLogFacts.v
EventText.v
Capture.v
CaptureFacts.v
Lifecycle.v
LifecycleFacts.v
GoStrconv.v
Startup.v
StartupFacts.v
GoStrconvFacts.v
Flags.v
FlagsFacts.v
Process.v
