(* ===== verification/Prelude.v ===== *)
(** * l3-firewall: verification library

    ** The program

    l3-firewall is a packet filter written in Go.  The kernel hands packets to it
    through an NFQUEUE; the engine decides each one and sends a verdict back.  The
    parts and how they interact:

    - [internal/packet] parses the raw bytes of a packet;
    - [internal/engine] runs the pipeline for one packet: connection tracking,
      port history, MAC filter, rates, threat intelligence, GeoIP, policy, and
      the accounting, audit and alert calls of every decision;
    - [internal/conntrack], [internal/ratelimit], [internal/l2filter],
      [internal/threatintel] and [internal/alert] hold the bounded state the
      pipeline reads and updates;
    - [internal/opa] builds the policy input and evaluates the Rego policy, by
      default opa-policies/l3.rego;
    - [internal/syncer] receives policies from etcd and hands them to the
      evaluator;
    - [internal/admin] serves statistics and the reload request over HTTP;
    - [internal/persist], [internal/audit], [internal/capture] and
      [internal/geoip] write and read files, through the symlink checks of
      [internal/securepath]; [internal/metrics] registers collectors;
    - [cmd/server] wires the parts together, reloads the policy file when it
      changes and shuts the process down.

    ** The files

    A component has a file with its data and operations, translated function by
    function with the names of the source, and a file [...Facts] or [...Spec] with
    its invariants and theorems.

    - [Prelude]: outcomes of Go code ([res]), 64-bit wrap-around, the iteration
      order of maps ([range_order]), shared lemmas, tactics and hints.
    - [GoTime], [GoFloat] and [GoFloatFacts], [GoNet] and [GoNetFacts], [Cidr]:
      what the program uses of the packages [time], [math] (binary64) and [net].
      [GoFloatFacts] proves which quotients are finite, [GoNetFacts] that printing
      and parsing of addresses are inverse, [Cidr] that a network contains exactly
      the addresses with its prefix.
    - [Packet], [PacketFacts], [PacketSpec]: src/internal/packet/parser.go.
    - [Conntrack], [ConntrackFacts], [ConntrackSpec]: src/internal/conntrack/table.go.
    - [RateLimit], [RateLimitFacts]: src/internal/ratelimit/ratelimit.go.
    - [L2Filter], [L2FilterFacts]: src/internal/l2filter/l2filter.go.
    - [ThreatIntel], [ThreatIntelFacts]: src/internal/threatintel/threatintel.go.
    - [Alert]: src/internal/alert/alert.go.
    - [Opa], [OpaFacts]: src/internal/opa.
    - [ShippedPolicy], [ShippedPolicyFacts]: src/opa-policies/l3.rego.
    - [Engine], [EngineFacts], [EngineInv]: src/internal/engine, and the lookup of
      src/internal/geoip/geoip.go.
    - [PacketSteps]: the same pipeline as a sequence of critical sections, between
      which the maintenance goroutine of [Run] may act ([engine_step]).
    - [EndToEnd], [Guarantees], [BlockLog]: the engine with the evaluator and the
      policy.
    - [Interrupted]: what the guarantees become for a packet whose handling is
      interrupted between its critical sections.
    - [Metrics]: src/internal/metrics/metrics.go.
    - [Syncer], [SyncerFacts] (the handlers), [Watch] (the goroutine and its
      life): src/internal/syncer/syncer.go.
    - [Admin], [AdminFacts]: src/internal/admin/api.go.
    - [GoFS], [GoFSFacts], [DirFacts]: the file system the program works on, and
      the path functions of package [filepath].
    - [SecurePath], [SecurePathFacts]: src/internal/securepath/securepath.go.
    - [Persist], [PersistFacts]: src/internal/persist/persist.go.
    - [GoJSON], [GoJSONFacts]: what the program uses of [encoding/json].
    - [Restart]: [saveState] and [restoreState] of the engine over the state file.
    - [PolicyFile], [PolicyFileFacts]: [readPolicyFile], [pollPolicyFile] and
      [watchPolicyFile] of src/cmd/server/main.go.
    - [Plane]: loads of policies and polls of the policy file among packets.
    - [GeoIP]: opening of the database of src/internal/geoip/geoip.go.
    - [AuditLog], [TimeStamp] (UTC calendar and its order), [AuditLogFacts]:
      src/internal/audit/audit.go.
    - [EventText]: the JSON of audit events and of the alerts that
      src/internal/alert/alert.go sends.
    - [Capture], [CaptureFacts]: src/internal/capture/capture.go.
    - [Lifecycle], [LifecycleFacts]: [Run] and [Stop] of the engine and the
      shutdown of main.
    - [Startup], [StartupFacts]: the body of main up to [Run], and the HTTP
      servers.
    - [GoStrconv], [GoStrconvFacts]: what package [flag] uses of [strconv] and
      [time] to read values.
    - [Flags], [FlagsFacts]: the command line of main, with package [flag].
    - [Process]: main from its arguments to the packets it decides.

    ** How the code is represented

    A function that can fail or panic returns a [res]; the engine's methods are
    state transformers whose panics keep the effects made so far, so that
    [recover] resumes from them ([Engine.recovering]).  A method that holds a
    mutex is one atomic step; methods that lock more than once are split at the
    point where they unlock ([Opa.load_swap], [Opa.load_rebuild]; the engine's
    pipeline steps).  Interleavings are reflexive-transitive closures of step
    relations.  The handling of a packet exists in both forms: as a function
    ([Engine.handleQueuePacket], the packet that nothing interrupts) and as a
    task of critical sections ([PacketSteps.callback_task]) that other
    goroutines interleave with; the two agree when nothing comes in between
    ([PacketSteps.callback_uninterrupted]).  Every reading of the clock and every iteration order of a map is
    an argument, so the theorems hold for all of them.  Counters are [int64] with
    wrap-around, rates are IEEE 754 binary64 numbers, strings are byte strings, a
    map is a [gmap], a nil pointer is [None].

    A file system is a tree of directories, files, symbolic links and FIFOs with
    inodes ([GoFS.FS]); resolution follows at most 40 links, as the kernel does.
    A computation that changes it is an [IO]: it also lists every state it goes
    through, each partial write included, so that a crash is a prefix of the
    list.  Failures of system calls are chosen by an argument ([Faults]), and
    the readers that run beside other processes ([readPolicyFile], [NewReader],
    the polls) see a state of the file system for each system call, every
    [Lstat] of the symlink walk included, so that what other processes do in
    between is arbitrary.  The readers and writers of the state file, the audit
    log and the captures act on one file system that no other process changes
    meanwhile.  The
    goroutines of the process ([Lifecycle.step]) and of the syncer
    ([Watch.syncer_step]) are step relations, one statement or one turn of a
    loop at a time.

    Code outside the repository is a parameter: the packet decoder ([NewPacket]),
    the Rego compiler and interpreter ([Opa.Rego], and [ShippedPolicy.Builtins] for
    the built-in functions the policy calls), the GeoIP database decoder, the pcap
    encoder, the HTTP and etcd clients, the netlink queue, the Prometheus
    registry ([Metrics.Registry]).  The engine is proved against the interface
    [Opa.Evaluator], which the embedded evaluator implements; that the interpreter
    evaluates the shipped policy to the document its rules give
    ([ShippedPolicy.runs_policy]) is a hypothesis of the theorems that need it.

    ** What is proved

    - Verdicts: exactly the packets that pass every stage are accepted; every
      packet with an identifier gets one verdict; what cannot be decided is
      dropped; no packet panics the receive loop; counters match decisions; an
      acceptance keeps its meaning, and blocked ports stay closed, when
      maintenance runs in the middle of the packet.
    - The firewall with its policy: the engine, the evaluator and the rules of
      l3.rego together accept exactly the packets no rule matches; with the
      constants of the repository this is an explicit list of denials, for both
      address families; blocked ports stay closed, for every process a
      command line can start, and a first fragment with part of its L4 header
      does not pass, from the raw bytes, whatever options or extension headers
      the packet has (an IPv6 first fragment with no L4 byte at all, and a chain
      that is itself cut, are not marked incomplete:
      [empty_first_fragment_accepted], [cut_chain_not_incomplete]); a denial is logged with the
      reason of the least rule that matches, and the log has nothing else.
    - Parsing: no read out of range for any bytes; extension headers do not hide
      the L4 header; the header-chain walk inverts the encoding of a chain;
      fragments report only what is on the wire.
    - Tables: every reachable connection table, limiter, binding table, blocklist
      and engine is within its bounds and its counters agree with its contents,
      for the engine in every interleaving of packets and maintenance;
      lookups refine an abstract contract; expiry and cleanup are exact.
    - Policies: only policies that compile and declare the decision package
      govern; under traffic every packet follows the last load that succeeded; an
      edit of the policy file comes into force at the first poll that can read it,
      and stays; no stale policy survives a resynchronization; reloads are rate
      limited and queued policies are not lost.
    - Administration: without a credential nothing is read or changed.
    - Files: an accepted path is not redirected by a link; a crash at any moment
      of a save leaves the old or the new state; a restart after it restores
      the counters, through the JSON text; what is loaded as policy is what a
      regular file held that was reached without a final link after a walk that
      saw no link: the file the path spells, unless a directory is replaced
      between the walk and the open, the race that securepath.go documents
      ([swap_wins_race]); rotation and retention keep the newest
      files; an audit line or an alert, whatever bytes it reports, is one JSON
      object with exactly the members of the event.
    - Process: every option arrives as it is written on the command line, and an
      argument that is not a flag hides those behind it; a start succeeds exactly
      when the named files can be used, whatever the network does, and leaves a
      valid policy in force that the watcher does not undo; the flags of the
      running engine agree with the program points of its goroutines in every
      interleaving.

    Where the code behaves in a way its comments do not describe, a theorem says
    what it does ([rst_closes], [cut_chain_not_incomplete],
    [dropped_counted_allowed], [missing_allow_allows], [failed_write_is_final],
    [early_signal_lost], [refresher_keeps_spaces], [every_rst_dropped],
    [leftover_hides_flags], [empty_first_fragment_accepted],
    [history_outlives_flow], [swap_wins_race], ...).

    ** Bounds and fuel

    Loops that the source bounds by the input are given fuel computed from the
    input and proved never to run out: the header-chain walk advances at least
    one byte per header, so the length of the packet plus one is enough
    ([PacketSpec.ParsePacket_no_panic]); the feed parser consumes at least one byte
    per read, so the length of the feed plus one is enough
    ([ThreatIntelFacts.parseReader_total]); the JSON parser consumes a byte at least
    every second call, so twice the length plus one is enough
    ([GoJSONFacts.json_Decode_total]); every round of the flag parser takes an
    argument ([FlagsFacts.Parse_step]), and every component of a duration takes
    a byte ([GoStrconvFacts.duration_loop_fuel]).

    ** What is not modelled

    Log output; how long the calls of the queue library take, and whether they
    return; the sockets and the TLS handshake below the HTTP servers and the
    queue; the size estimate of an audit event by package [fmt]; the interpreter
    of Rego, whose reading of l3.rego is translated by hand.  The theorems of
    [EngineInv] take the evaluator as it is when a packet arrives; how loads
    interleave with packets is the subject of [OpaFacts] and [Plane]. *)
From Stdlib Require Import ZArith Lia ZifyBool.
From stdpp Require Import base gmap sets list strings pretty.

Local Open Scope Z_scope.

(** ** Outcomes of Go code

    A Go function that can fail returns a value, returns an error, or panics.
    [Ok], [Err] and [Panic] are these three outcomes. *)
Inductive res (A : Type) : Type :=
| Ok (a : A)
| Err (e : string)
| Panic (msg : string).
Arguments Ok {A} _.
Arguments Err {A} _.
Arguments Panic {A} _.

Definition res_bind {A B : Type} (r : res A) (k : A -> res B) : res B :=
  match r with
  | Ok a => k a
  | Err e => Err e
  | Panic m => Panic m
  end.

Declare Scope go_scope.
Delimit Scope go_scope with go.
Notation "'let*' x ':=' e 'in' k" := (res_bind e (fun x => k))
  (at level 10, x pattern, e at level 100, k at level 200) : go_scope.
Open Scope go_scope.


(** A result that is a value or an error, never a panic. *)
Definition no_panic {A : Type} (r : res A) : Prop :=
  match r with Panic _ => False | _ => True end.

Lemma no_panic_bind {A B : Type} (r : res A) (k : A -> res B) :
  no_panic r -> (forall a, r = Ok a -> no_panic (k a)) -> no_panic (res_bind r k).
Proof. destruct r; simpl; intros H Hk; [by apply Hk | done | done]. Qed.

Lemma res_bind_ok {A B : Type} (r : res A) (k : A -> res B) b :
  res_bind r k = Ok b -> exists a, r = Ok a /\ k a = Ok b.
Proof. destruct r; simpl; naive_solver. Qed.

(** ** Machine integers

    [int] and [int64] are 64-bit two's complement on the supported targets;
    [wrap64] is the value the hardware keeps of a mathematical result. *)
Definition wrap64 (x : Z) : Z := (x + 2 ^ 63) mod 2 ^ 64 - 2 ^ 63.

Definition int64_range (x : Z) : Prop := - 2 ^ 63 <= x < 2 ^ 63.

Lemma wrap64_small x : int64_range x -> wrap64 x = x.
Proof. unfold int64_range, wrap64. intros H. rewrite Z.mod_small by lia. lia. Qed.

Lemma wrap64_range x : int64_range (wrap64 x).
Proof.
  unfold int64_range, wrap64. pose proof (Z.mod_pos_bound (x + 2 ^ 63) (2 ^ 64)). lia.
Qed.

Lemma wrap64_cong x y : x mod 2 ^ 64 = y mod 2 ^ 64 -> wrap64 x = wrap64 y.
Proof.
  unfold wrap64. intros H. f_equal.
  rewrite (Z.add_mod x), (Z.add_mod y), H by lia. done.
Qed.

Lemma wrap64_mod x : wrap64 x mod 2 ^ 64 = x mod 2 ^ 64.
Proof.
  unfold wrap64. rewrite Zminus_mod_idemp_l. f_equal. lia.
Qed.

Lemma wrap64_add_l x y : wrap64 (wrap64 x + y) = wrap64 (x + y).
Proof.
  apply wrap64_cong. rewrite Z.add_mod, wrap64_mod, <-Z.add_mod by lia. done.
Qed.

Lemma wrap64_add_r x y : wrap64 (x + wrap64 y) = wrap64 (x + y).
Proof. rewrite Z.add_comm, wrap64_add_l. f_equal. lia. Qed.

(** ** Iteration over Go maps

    A [range] loop over a map visits every entry once, in an order the language
    leaves unspecified.  A [range_order] is one such choice of order for every
    map; the theorems hold for all of them. *)
Record range_order (K V : Type) `{Countable K} : Type := RangeOrder {
  range_keys : gmap K V -> list K;
  range_keys_perm : forall m, range_keys m ≡ₚ (map_to_list m).*1;
}.
Arguments RangeOrder {K V _ _} _ _.
Arguments range_keys {K V _ _} _ _.
Arguments range_keys_perm {K V _ _} _ _.

Definition map_order (K V : Type) `{Countable K} : range_order K V :=
  RangeOrder (fun m => (map_to_list m).*1) (fun m => Permutation_refl _).

Section range_order.
Context {K V : Type} `{Countable K} (o : range_order K V).
Implicit Types m : gmap K V.

Lemma elem_of_range_keys m k : k ∈ range_keys o m <-> is_Some (m !! k).
Proof.
  rewrite (range_keys_perm o m), list_elem_of_fmap. split.
  - intros ([k' v] & -> & Hin). apply elem_of_map_to_list in Hin. eauto.
  - intros [v Hv]. exists (k, v). split; [done | by apply elem_of_map_to_list].
Qed.

Lemma NoDup_range_keys m : NoDup (range_keys o m).
Proof. rewrite (range_keys_perm o m). apply NoDup_fst_map_to_list. Qed.

Lemma length_range_keys m : length (range_keys o m) = size m.
Proof. rewrite (range_keys_perm o m), length_fmap. apply length_map_to_list. Qed.

Lemma range_keys_nil m : range_keys o m = [] -> m = ∅.
Proof.
  intros Hnil. apply map_size_empty_inv. by rewrite <-length_range_keys, Hnil.
Qed.
End range_order.

(** ** Bounded lists *)
Section bounded_lists.
Context {A : Type}.
Implicit Types l : list A.

Lemma NoDup_snoc l x : x ∉ l -> NoDup l -> NoDup (l ++ [x]).
Proof.
  intros Hx Hl. apply NoDup_app. split; [done |]. split; [| apply NoDup_singleton].
  intros y Hy ->%list_elem_of_singleton. done.
Qed.

Lemma length_filter_ext (P Q : A -> Prop) `{forall x, Decision (P x), forall x, Decision (Q x)} l :
  Forall (fun x => P x <-> Q x) l -> length (filter P l) = length (filter Q l).
Proof.
  induction 1 as [|x l Hx _ IH]; [done |]. rewrite !filter_cons.
  destruct (decide (P x)), (decide (Q x)); simpl; try tauto; lia.
Qed.

Lemma length_filter_none (P : A -> Prop) `{forall x, Decision (P x)} l :
  Forall (fun x => ~ P x) l -> length (filter P l) = 0%nat.
Proof. induction 1 as [|x l Hx _ IH]; [done |]. by rewrite filter_cons_False. Qed.

End bounded_lists.

(** ** Strings *)
Section strings.
Local Open Scope string_scope.

Fixpoint has_char (c : Ascii.ascii) (s : string) : Prop :=
  match s with
  | EmptyString => False
  | String c' s' => c' = c \/ has_char c s'
  end.

Lemma str_app_cons a s t : String a s +:+ t = String a (s +:+ t).
Proof. reflexivity. Qed.

Lemma str_app_assoc (s t u : string) : (s +:+ t) +:+ u = s +:+ (t +:+ u).
Proof. induction s as [|a s IH]; [done |]. by rewrite !str_app_cons, IH. Qed.

Lemma str_app_nil (s : string) : s +:+ "" = s.
Proof. induction s as [|a s IH]; [done |]. by rewrite str_app_cons, IH. Qed.

Lemma str_length_app (s t : string) : String.length (s +:+ t) = (String.length s + String.length t)%nat.
Proof. induction s as [|a s IH]; [done |]. rewrite str_app_cons. simpl. by rewrite IH. Qed.

Lemma str_app_ne (s t : string) : s +:+ t = s -> t = "".
Proof. induction s as [|a s IH]; [done |]. rewrite str_app_cons. intros [= H]. auto. Qed.

Lemma has_char_app c s t : has_char c (s +:+ t) <-> has_char c s \/ has_char c t.
Proof. induction s as [|c' s IH]; simpl; [tauto |]. rewrite IH. tauto. Qed.

(** A separator that does not occur after it splits a string in one way. *)
Lemma last_sep_inj c s t x y :
  ~ has_char c x -> ~ has_char c y ->
  s +:+ String c x = t +:+ String c y -> s = t /\ x = y.
Proof.
  intros Hx Hy. revert t. induction s as [|a s IH]; intros [|b t] H; simpl in H.
  - by injection H.
  - exfalso. injection H as -> ->. apply Hx. apply has_char_app. right. by left.
  - exfalso. injection H as -> <-. apply Hy. apply has_char_app. right. by left.
  - injection H as -> H. by destruct (IH t H) as [-> ->].
Qed.

Definition colon : Ascii.ascii := Ascii.ascii_of_nat 58.

(** A character that no number is written with. *)
Definition not_numeric (c : Ascii.ascii) : Prop :=
  (forall x, pretty_N_char x <> c) /\ c <> Ascii.ascii_of_nat 45.

Lemma not_numeric_colon : not_numeric colon.
Proof. split; [|done]. intros x. unfold pretty_N_char. by repeat case_match. Qed.

Lemma pretty_N_go_sep c x s : not_numeric c -> ~ has_char c s -> ~ has_char c (pretty_N_go x s).
Proof.
  intros [Hc _]. revert s. induction (N.lt_wf_0 x) as [x _ IH]; intros s Hs.
  destruct (decide (x = 0)%N) as [->|Hne]; [by rewrite pretty_N_go_0 |].
  rewrite pretty_N_go_step by lia. apply IH; [apply N.div_lt; lia |].
  simpl. intros [H|H]; [by apply Hc in H | done].
Qed.

Lemma pretty_Z_sep c (z : Z) : not_numeric c -> ~ has_char c (pretty z).
Proof.
  intros Hc. assert (c <> Ascii.ascii_of_nat 48) as H0 by (intros ->; by apply (proj1 Hc 0%N)).
  assert (forall n : N, ~ has_char c (pretty n)) as HN.
  { intros n. unfold pretty, pretty_N. case_decide; [simpl; intros [|]; done |].
    apply pretty_N_go_sep; [done |]. simpl. tauto. }
  destruct Hc as [_ Hm]. unfold pretty, pretty_Z. case_match; [simpl; intros [|]; done | apply HN |].
  simpl. intros [|H']; [done | by apply HN in H'].
Qed.
End strings.

(** ** Tactics and hints *)
Create HintDb fw.
Create Rewrite HintDb fw.
#[export] Hint Resolve wrap64_range : fw.
#[export] Hint Rewrite wrap64_add_l wrap64_add_r : fw.

(** Case analysis on the boolean conditions and option matches of a goal. *)
Ltac case_bool :=
  match goal with
  | |- context [if ?b then _ else _] =>
      lazymatch type of b with bool => destruct b eqn:? end
  | H : context [if ?b then _ else _] |- _ =>
      lazymatch type of b with bool => destruct b eqn:? end
  end.

(** Turn the boolean connectives of the hypotheses into propositions. *)
Ltac bool_hyps :=
  repeat match goal with
  | H : (_ && _)%bool = true |- _ => apply andb_true_iff in H as [? ?]
  | H : (_ || _)%bool = false |- _ => apply orb_false_iff in H as [? ?]
  | H : negb _ = true |- _ => apply negb_true_iff in H
  | H : negb _ = false |- _ => apply negb_false_iff in H
  | H : bool_decide _ = true |- _ => apply bool_decide_eq_true in H
  | H : bool_decide _ = false |- _ => apply bool_decide_eq_false in H
  | H : String.eqb _ _ = true |- _ => apply String.eqb_eq in H
  | H : String.eqb _ _ = false |- _ => apply String.eqb_neq in H
  end.
