(* ===== verification/GoTime.v ===== *)
(** * The part of package [time] the firewall uses

    [Time] values carry a wall-clock reading and, when they come from
    [time.Now], a monotonic one.  [Sub], [Before] and [After] use the monotonic
    readings when both operands have one; [Unix] uses the wall clock.
    Durations are [int64] nanoseconds and [Sub] saturates. *)
From S2P Require Import Prelude.
From Stdlib Require Import ZArith Lia ZifyBool.
From stdpp Require Import base gmap list.

Local Open Scope Z_scope.

Definition Nanosecond : Z := 1.
Definition Millisecond : Z := 1000000.
Definition Second : Z := 1000000000.
Definition Minute : Z := 60 * Second.

Definition minDuration : Z := - 2 ^ 63.
Definition maxDuration : Z := 2 ^ 63 - 1.

(** Wall clock in nanoseconds since the Unix epoch. *)
Record Time : Type := mkTime { wall : Z; mono : option Z }.

#[export] Instance Time_eq_dec : EqDecision Time.
Proof. solve_decision. Defined.

(** [time.Time{}]: January 1, year 1, with no monotonic reading. *)
Definition zeroTime : Time := mkTime (-62135596800 * Second) None.

Definition saturate (d : Z) : Z := Z.max minDuration (Z.min maxDuration d).

Definition time_diff (t u : Time) : Z :=
  match mono t, mono u with
  | Some a, Some b => a - b
  | _, _ => wall t - wall u
  end.

Definition time_sub (t u : Time) : Z := saturate (time_diff t u).
Definition time_before (t u : Time) : bool := time_diff t u <? 0.
Definition time_after (t u : Time) : bool := 0 <? time_diff t u.
Definition time_is_zero (t : Time) : bool := wall t =? -62135596800 * Second.
Definition unix (t : Time) : Z := wall t / Second.

(** The readings of [time.Now] that one call makes, in program order.  Every
    reading has a monotonic part, the monotonic parts do not decrease, and the
    wall clock is past the Unix epoch. *)
Record Clock : Type := mkClock {
  reading : nat -> Time;
  reading_mono : forall n, is_Some (mono (reading n));
  reading_le : forall n, time_diff (reading n) (reading (S n)) <= 0;
  reading_epoch : forall n, 0 <= wall (reading n);
}.

(** A clock that stands still at [n] nanoseconds. *)
Program Definition frozenClock (n : nat) : Clock :=
  {| reading := fun _ => mkTime (Z.of_nat n) (Some (Z.of_nat n)) |}.
Next Obligation. simpl. eauto. Qed.
Next Obligation. unfold time_diff. simpl. lia. Qed.
Next Obligation. simpl. lia. Qed.

Lemma saturate_range d : int64_range (saturate d).
Proof. unfold saturate, int64_range, minDuration, maxDuration. lia. Qed.

Lemma saturate_id d : int64_range d -> saturate d = d.
Proof. unfold saturate, int64_range, minDuration, maxDuration. lia. Qed.

Lemma unix_nonneg (c : Clock) n : 0 <= unix (reading c n).
Proof. unfold unix, Second. pose proof (reading_epoch c n). apply Z.div_pos; lia. Qed.

(** ** Sampled eviction

    The scan both bounded tables run when they are full: look at no more than
    [limit] entries in iteration order and remember the one whose timestamp is
    the oldest.  [best = None] is the source's [first] flag. *)
Section sample.
Context {K V : Type} `{Countable K} (stamp : V -> Time).

Fixpoint sample_oldest (limit : nat) (m : gmap K V) (keys : list K)
    (best : option (K * Time)) {struct keys} : option (K * Time) :=
  match keys with
  | [] => best
  | k :: ks =>
      match limit with
      | O => best
      | S limit' =>
          match m !! k with
          | None => sample_oldest limit' m ks best
          | Some v =>
              let best' :=
                match best with
                | None => Some (k, stamp v)
                | Some (_, oldest) =>
                    if time_before (stamp v) oldest then Some (k, stamp v) else best
                end in
              sample_oldest limit' m ks best'
          end
      end
  end.

Implicit Types m : gmap K V.

Definition sampled_ok m (b : option (K * Time)) : Prop :=
  match b with
  | None => True
  | Some (k, t) => exists v, m !! k = Some v /\ t = stamp v
  end.

Lemma sample_oldest_ok limit m keys best :
  sampled_ok m best -> sampled_ok m (sample_oldest limit m keys best).
Proof.
  revert limit best. induction keys as [|k ks IH]; intros limit best Hb; [exact Hb |].
  simpl. destruct limit as [|limit]; [exact Hb |].
  destruct (m !! k) as [v|] eqn:Hk; [|by apply IH].
  apply IH. destruct best as [[k' t]|]; [|simpl; eauto].
  destruct (time_before _ _); [simpl; eauto | exact Hb].
Qed.

Lemma sample_oldest_some limit m keys b :
  exists b', sample_oldest limit m keys (Some b) = Some b'.
Proof.
  revert limit b. induction keys as [|k ks IH]; intros limit [k' t]; simpl; [eauto |].
  destruct limit as [|limit]; [eauto |].
  destruct (m !! k) as [v|]; [|by apply IH].
  destruct (time_before _ _); apply IH.
Qed.

(** The sample of a non-empty map is non-empty and names a live entry. *)
Lemma sample_oldest_live (o : range_order K V) limit m :
  (0 < limit)%nat -> m <> ∅ ->
  exists k v, sample_oldest limit m (range_keys o m) None = Some (k, stamp v)
              /\ m !! k = Some v.
Proof.
  intros Hl Hm. destruct (range_keys o m) as [|k ks] eqn:Hks.
  { by apply range_keys_nil in Hks. }
  assert (is_Some (m !! k)) as [v Hv].
  { apply (elem_of_range_keys o). rewrite Hks. by left. }
  destruct limit as [|limit]; [lia |]. simpl. rewrite Hv.
  pose proof (sample_oldest_ok limit m ks (Some (k, stamp v))) as Hok.
  destruct (sample_oldest_some limit m ks (k, stamp v)) as [[k' t] Heq].
  rewrite Heq in *. destruct Hok as (v' & Hv' & ->); [by exists v |]. eauto.
Qed.

Lemma sample_oldest_none (o : range_order K V) limit :
  sample_oldest limit ∅ (range_keys o ∅) None = None.
Proof.
  assert (range_keys o ∅ = []) as ->; [|done].
  apply length_zero_iff_nil. by rewrite length_range_keys, map_size_empty.
Qed.
End sample.
