(* ===== verification/GoFloat.v ===== *)
(** * float64

    IEEE 754 binary64 arithmetic, rounding to nearest even, on the reference
    semantics [SpecFloat] of the standard library.  Products and sums are
    rounded separately, as the compiler does on amd64. *)
From S2P Require Import Prelude.
From Stdlib Require Import ZArith Lia ZifyBool SpecFloat.
From stdpp Require Import base list strings pretty.

Local Open Scope Z_scope.

Definition float64 : Type := spec_float.

Definition prec64 : Z := 53.
Definition emax64 : Z := 1024.

Definition fadd : float64 -> float64 -> float64 := SFadd prec64 emax64.
Definition fsub : float64 -> float64 -> float64 := SFsub prec64 emax64.
Definition fmul : float64 -> float64 -> float64 := SFmul prec64 emax64.
Definition fdiv : float64 -> float64 -> float64 := SFdiv prec64 emax64.
Definition flt (a b : float64) : bool := SFltb a b.
Definition fle (a b : float64) : bool := SFleb a b.
Definition feq (a b : float64) : bool := SFeqb a b.

(** [float64(n)] for an integer [n] *)
Definition of_int (n : Z) : float64 := binary_normalize prec64 emax64 n 0 false.

(** [math.IsInf(f, 0)] *)
Definition isInf (f : float64) : bool :=
  match f with S754_infinity _ => true | _ => false end.

Definition isNaN (f : float64) : bool :=
  match f with S754_nan => true | _ => false end.

(** Constants of the sources, correctly rounded. *)
Definition f0 : float64 := S754_zero false.
Definition f1 : float64 := S754_finite false 4503599627370496 (-52).
Definition f0_001 : float64 := S754_finite false 4611686018427388 (-62).
Definition f0_3 : float64 := S754_finite false 5404319552844595 (-54).
Definition f1e9 : float64 := S754_finite false 8388608000000000 (-23).
Definition f1e12 : float64 := S754_finite false 8192000000000000 (-13).
Definition f1e15 : float64 := S754_finite false 8000000000000000 (-3).

(** [Duration.Seconds] *)
Definition seconds (d : Z) : float64 :=
  fadd (of_int (Z.quot d 1000000000)) (fdiv (of_int (Z.rem d 1000000000)) f1e9).

(** The integer nearest to [m * 2 ^ e], ties to even. *)
Definition round_to_int (m : positive) (e : Z) : Z :=
  if 0 <=? e then Zpos m * 2 ^ e
  else
    let d := 2 ^ (- e) in
    let q := Zpos m / d in
    let r := Zpos m mod d in
    if 2 * r <? d then q
    else if d <? 2 * r then q + 1
    else if Z.even q then q else q + 1.

(** The verb [%.0f] of package [fmt]. *)
Definition fmt_f0 (f : float64) : string :=
  match f with
  | S754_nan => "NaN"
  | S754_infinity false => "+Inf"
  | S754_infinity true => "-Inf"
  | S754_zero false => "0"
  | S754_zero true => "-0"
  | S754_finite s m e => (if s then "-" else "") +:+ pretty (round_to_int m e)
  end.

(** ** Signs

    [has_sign s f]: [f] is a number whose sign is [s], or a zero. *)
Definition has_sign (s : bool) (f : float64) : Prop :=
  match f with
  | S754_zero _ => True
  | S754_infinity s' | S754_finite s' _ _ => s' = s
  | S754_nan => False
  end.

(** Positive and not a zero. *)
Definition positive64 (f : float64) : Prop :=
  match f with
  | S754_infinity s | S754_finite s _ _ => s = false
  | _ => False
  end.

Definition finite64 (f : float64) : Prop :=
  match f with S754_zero _ | S754_finite _ _ _ => True | _ => False end.

Lemma shr_1_nonneg mrs : 0 <= shr_m mrs -> 0 <= shr_m (shr_1 mrs).
Proof. destruct mrs as [[|[p|p|]|p] r s]; simpl; lia. Qed.

Lemma iter_pos_inv {A} (P : A -> Prop) (f : A -> A) (n : positive) x :
  (forall y, P y -> P (f y)) -> P x -> P (@SpecFloat.iter_pos A f n x).
Proof. intros Hf. revert x. induction n; simpl; auto. Qed.

Lemma shr_nonneg mrs e n : 0 <= shr_m mrs -> 0 <= shr_m (shr mrs e n).1.
Proof.
  intros H. destruct n; simpl; try done.
  by apply (iter_pos_inv (fun m => 0 <= shr_m m)); [apply shr_1_nonneg |].
Qed.

Lemma shr_fexp_nonneg m e l : 0 <= m -> 0 <= shr_m (shr_fexp prec64 emax64 m e l).1.
Proof.
  intros H. unfold shr_fexp. apply shr_nonneg. destruct l as [|[]]; done.
Qed.

Lemma round_nearest_even_nonneg m l : 0 <= m -> 0 <= round_nearest_even m l.
Proof. intros H. destruct l as [|[]]; simpl; try lia. destruct (Z.even m); lia. Qed.

Lemma round_aux_sign s m e l : 0 <= m -> has_sign s (binary_round_aux prec64 emax64 s m e l).
Proof.
  intros H. unfold binary_round_aux.
  pose proof (shr_fexp_nonneg m e l H) as H1.
  destruct (shr_fexp prec64 emax64 m e l) as [mrs' e']. simpl in H1.
  pose proof (shr_fexp_nonneg _ e' loc_Exact
    (round_nearest_even_nonneg _ (loc_of_shr_record mrs') H1)) as H2.
  destruct (shr_fexp _ _ (round_nearest_even _ _) _ _) as [mrs'' e'']. simpl in H2.
  destruct (shr_m mrs'') as [|p|p]; simpl; [done | by case_match | lia].
Qed.

Lemma round_sign s m e : has_sign s (binary_round prec64 emax64 s m e).
Proof.
  unfold binary_round. destruct (shl_align _ _ _). apply round_aux_sign. lia.
Qed.

Lemma of_int_sign n : has_sign (n <? 0) (of_int n).
Proof. unfold of_int. destruct n; simpl; [done | apply round_sign..]. Qed.

Lemma fadd_sign s a b : has_sign s a -> has_sign s b -> has_sign s (fadd a b).
Proof.
  destruct a as [sa|sa| |sa ma ea], b as [sb|sb| |sb mb eb]; simpl; try done;
    intros Ha Hb; subst; try (by destruct s); try (by destruct sa, sb).
  destruct s; simpl; apply round_sign.
Qed.

Lemma fmul_sign a b : positive64 a -> finite64 a -> has_sign false b -> has_sign false (fmul a b).
Proof.
  destruct a as [sa|sa| |sa ma ea], b as [sb|sb| |sb mb eb]; simpl; try done;
    intros Ha _ Hb; subst; try done.
  by apply round_aux_sign.
Qed.

Lemma new_quotient_nonneg m1 m2 s :
  0 <= (Z.div_eucl (match s with Zpos _ => Z.shiftl (Zpos m1) s | Z0 => Zpos m1 | Zneg _ => Z0 end)
          (Zpos m2)).1.
Proof.
  match goal with |- 0 <= (Z.div_eucl ?x ?y).1 =>
    assert (0 <= x); [|pose proof (Z.div_pos x y) as Hd; unfold Z.div in Hd;
                       destruct (Z.div_eucl x y); simpl in *; lia] end.
  destruct s; [lia | apply Z.shiftl_nonneg; lia | lia].
Qed.

Lemma fdiv_sign s a b :
  has_sign s a -> positive64 b -> finite64 a \/ finite64 b -> has_sign s (fdiv a b).
Proof.
  destruct a as [sa|sa| |sa ma ea], b as [sb|sb| |sb mb eb]; simpl; try done;
    intros Ha Hb Hf; subst; try (by destruct s); try (by destruct Hf).
  unfold fdiv, SFdiv, SFdiv_core_binary.
  match goal with |- context [Z.div_eucl ?x ?y] =>
    pose proof (new_quotient_nonneg ma mb) as Hq; destruct (Z.div_eucl x y) as [q r] eqn:E end.
  rewrite xorb_false_r. apply round_aux_sign.
  match type of E with Z.div_eucl (match ?s0 with _ => _ end) _ = _ => specialize (Hq s0) end.
  rewrite E in Hq. exact Hq.
Qed.

(** ** Integers are finite *)
Lemma digits2_pos_lower p k : 0 <= k -> Zpos p < 2 ^ k -> Zpos (digits2_pos p) <= k.
Proof.
  revert k. induction p as [p IH|p IH|]; intros k Hk Hp; simpl; rewrite ?Pos2Z.inj_succ.
  1,2: assert (k <> 0) by (intros ->; simpl in Hp; lia);
       assert (2 ^ k = 2 * 2 ^ (k - 1)) as He by (rewrite <-Z.pow_succ_r by lia; f_equal; lia);
       specialize (IH (k - 1)); lia.
  destruct (Z.eq_dec k 0) as [->|]; [simpl in Hp |]; lia.
Qed.

Lemma digits2_pos_upper p : Zpos p < 2 ^ Zpos (digits2_pos p).
Proof.
  induction p as [p IH|p IH|]; simpl; rewrite ?Pos2Z.inj_succ, ?Z.pow_succ_r by lia; lia.
Qed.

Lemma shr_1_le mrs : 0 <= shr_m mrs -> shr_m (shr_1 mrs) <= shr_m mrs.
Proof. destruct mrs as [[|[p|p|]|p] r s]; simpl; lia. Qed.

Lemma shr_le mrs e n : 0 <= shr_m mrs -> shr_m (shr mrs e n).1 <= shr_m mrs.
Proof.
  intros H. destruct n; simpl; try done.
  apply (iter_pos_inv (fun m => 0 <= shr_m m <= shr_m mrs)); [|lia].
  intros y Hy. pose proof (shr_1_nonneg y). pose proof (shr_1_le y). lia.
Qed.

Lemma shr_fexp_bound m e l k :
  0 <= m < 2 ^ k -> 0 <= k ->
  let r := shr_fexp prec64 emax64 m e l in
  0 <= shr_m r.1 <= m /\ r.2 <= Z.max e (Z.max (k + e - 53) (-1074)).
Proof.
  intros Hm Hk. split.
  - split; [apply shr_fexp_nonneg; lia |]. unfold shr_fexp.
    replace m with (shr_m (shr_record_of_loc m l)) at 3 by (by destruct l as [|[]]).
    apply shr_le. destruct l as [|[]]; simpl; lia.
  - assert (Zdigits2 m <= k) as Hd.
    { destruct m as [|p|p]; simpl; [lia | apply digits2_pos_lower; lia | lia]. }
    unfold shr_fexp, fexp, emin, shr, prec64, emax64.
    match goal with |- context [match ?x with _ => _ end] => destruct x eqn:E end; simpl; lia.
Qed.

Lemma round_nearest_even_le m l : 0 <= m -> round_nearest_even m l <= m + 1.
Proof. intros H. destruct l as [|[]]; simpl; try lia. destruct (Z.even m); lia. Qed.

Lemma round_aux_finite s m e l :
  0 <= m < 2 ^ 64 -> e <= 0 -> finite64 (binary_round_aux prec64 emax64 s m e l).
Proof.
  intros Hm He. unfold binary_round_aux.
  pose proof (shr_fexp_bound m e l 64 Hm ltac:(lia)) as [H1 H2].
  destruct (shr_fexp prec64 emax64 m e l) as [mrs' e']. simpl in H1, H2.
  pose proof (round_nearest_even_le _ (loc_of_shr_record mrs') (proj1 H1)) as H3.
  pose proof (round_nearest_even_nonneg _ (loc_of_shr_record mrs') (proj1 H1)) as H4.
  pose proof (shr_fexp_bound (round_nearest_even (shr_m mrs') (loc_of_shr_record mrs')) e' loc_Exact 65
                ltac:(lia) ltac:(lia)) as [H5 H6].
  destruct (shr_fexp _ _ (round_nearest_even _ _) _ _) as [mrs'' e'']. simpl in H5, H6.
  destruct (shr_m mrs'') as [|p|p]; simpl; [done | | lia].
  unfold prec64, emax64. destruct (Z.leb_spec e'' (1024 - 53)); [done | lia].
Qed.

Lemma shift_pos_spec d m : Zpos (shift_pos d m) = Zpos m * 2 ^ Zpos d.
Proof. rewrite shift_pos_correct, Z.mul_comm. by rewrite Z.pow_pos_fold. Qed.

Lemma round_finite s m : Zpos m < 2 ^ 64 -> finite64 (binary_round prec64 emax64 s m 0).
Proof.
  intros Hm. unfold binary_round, shl_align.
  pose proof (digits2_pos_upper m) as Hu.
  unfold fexp, emin, prec64, emax64. simpl Zdigits2.
  destruct (Z.max (Zpos (digits2_pos m) + 0 - 53) (3 - 1024 - 53) - 0) as [|d|d] eqn:E;
    apply round_aux_finite; try lia.
  change (Pos.iter xO m d) with (shift_pos d m). rewrite shift_pos_spec. split; [lia |].
  assert (Zpos d <= 53 - Zpos (digits2_pos m)) as Hd by lia.
  assert (2 ^ Zpos d <= 2 ^ (53 - Zpos (digits2_pos m))) by (apply Z.pow_le_mono_r; lia).
  assert (2 ^ Zpos (digits2_pos m) * 2 ^ (53 - Zpos (digits2_pos m)) = 2 ^ 53) as He
    by (rewrite <-Z.pow_add_r by lia; f_equal; lia).
  assert (0 < 2 ^ Zpos d) by (apply Z.pow_pos_nonneg; lia). nia.
Qed.

Lemma of_int_finite n : int64_range n -> finite64 (of_int n).
Proof.
  unfold int64_range, of_int. intros Hn. destruct n; simpl; [done | apply round_finite; lia..].
Qed.
