(* ===== verification/GoFloatFacts.v ===== *)
(** * Quotients of integers are finite

    Bounds on what rounding produces, and that the average the connection tracker
    computes, the quotient of an [int64] by the length of its window, is never infinite. *)
From Stdlib Require Import ZArith Lia ZifyBool SpecFloat.
From stdpp Require Import base list strings pretty.
From S2P Require Import Prelude GoFloat.

Local Open Scope Z_scope.

Lemma shr_1_half mrs : 0 <= shr_m mrs -> shr_m (shr_1 mrs) = shr_m mrs / 2.
Proof.
  destruct mrs as [[|[p|p|]|p] r s]; simpl; intros; try lia; try done.
  - rewrite (Pos2Z.inj_xI p), Z.mul_comm, Z.div_add_l by lia. change (1 / 2) with 0. lia.
  - rewrite (Pos2Z.inj_xO p), Z.mul_comm, Z.div_mul by lia. done.
Qed.

Lemma iter_shr_nonneg n mrs : 0 <= shr_m mrs -> 0 <= shr_m (SpecFloat.iter_pos shr_1 n mrs).
Proof. intros H. by apply (iter_pos_inv (fun m => 0 <= shr_m m)); [apply shr_1_nonneg |]. Qed.

Lemma pow_double n : 2 ^ Zpos n * 2 ^ Zpos n = 2 ^ (2 * Zpos n).
Proof. rewrite <-Z.pow_add_r by lia. f_equal. lia. Qed.

Lemma iter_shr n mrs :
  0 <= shr_m mrs -> shr_m (SpecFloat.iter_pos shr_1 n mrs) = shr_m mrs / 2 ^ Zpos n.
Proof.
  revert mrs. induction n as [n IH|n IH|]; intros mrs Hm; cbn [SpecFloat.iter_pos]; [| |by apply shr_1_half].
  - pose proof (shr_1_nonneg mrs Hm) as H1. rewrite IH by (by apply iter_shr_nonneg). rewrite IH by done.
    rewrite shr_1_half, !Z.div_div by lia. f_equal.
    rewrite Pos2Z.inj_xI, Z.pow_add_r, <-pow_double by lia. lia.
  - rewrite IH by (by apply iter_shr_nonneg). rewrite IH, Z.div_div by lia. f_equal.
    by rewrite Pos2Z.inj_xO, pow_double.
Qed.

Lemma shr_record_m m l : shr_m (shr_record_of_loc m l) = m.
Proof. by destruct l as [|[]]. Qed.

(** After the first shift the mantissa has at most 53 bits. *)
Lemma shr_fexp_small m e l : 0 <= m -> shr_m (shr_fexp prec64 emax64 m e l).1 < 2 ^ 53.
Proof.
  intros Hm. unfold shr_fexp, shr. set (n := _ - e).
  assert (m < 2 ^ Zdigits2 m) as Hu by (destruct m as [|p|p]; simpl; [lia | apply digits2_pos_upper | lia]).
  assert (Zdigits2 m - 53 <= n) as Hn by (unfold n, fexp, prec64; lia).
  assert (0 <= n /\ m < 2 ^ (53 + n) \/ n < 0 /\ m < 2 ^ 53) as Hb.
  { destruct (Z_lt_le_dec n 0); [right | left]; (split; [done |]);
      (eapply Z.lt_le_trans; [exact Hu |]; apply Z.pow_le_mono_r; lia). }
  destruct n as [|q|q] eqn:Hq; cbn [fst]; rewrite ?shr_record_m; [rewrite Z.add_0_r in Hb; lia | | destruct Hb; lia].
  rewrite iter_shr by (by rewrite shr_record_m). rewrite shr_record_m.
  apply Z.div_lt_upper_bound; [apply Z.pow_pos_nonneg; lia |].
  destruct Hb as [[_ Hb]|[]]; [|lia]. rewrite Z.pow_add_r, Z.mul_comm in Hb by lia. exact Hb.
Qed.

(** What rounding gives, for a mantissa below [2 ^ k]. *)
Lemma round_aux_spec s m e l k :
  0 <= m < 2 ^ k -> 0 <= k ->
  let bound := Z.max (Z.max e (k + e - 53)) (-1074) + 1 in
  bound <= 971 ->
  match binary_round_aux prec64 emax64 s m e l with
  | S754_finite _ m' e' => Zpos m' < 2 ^ 53 /\ e' <= bound
  | S754_zero _ => True
  | _ => False
  end.
Proof.
  intros Hm Hk bound Hb. unfold binary_round_aux.
  pose proof (shr_fexp_bound m e l k Hm Hk) as [H1 H2]. pose proof (shr_fexp_small m e l (proj1 Hm)) as H0.
  destruct (shr_fexp prec64 emax64 m e l) as [mrs' e']. simpl in H0, H1, H2.
  pose proof (round_nearest_even_le _ (loc_of_shr_record mrs') (proj1 H1)) as H3.
  pose proof (round_nearest_even_nonneg _ (loc_of_shr_record mrs') (proj1 H1)) as H4.
  set (m1 := round_nearest_even _ _) in *.
  pose proof (shr_fexp_bound m1 e' loc_Exact 54 ltac:(lia) ltac:(lia)) as [H5 H6].
  pose proof (shr_fexp_small m1 e' loc_Exact H4) as H7.
  destruct (shr_fexp prec64 emax64 m1 e' loc_Exact) as [mrs'' e'']. simpl in H5, H6, H7.
  destruct (shr_m mrs'') as [|p|p]; simpl; [done | | lia].
  unfold prec64, emax64. destruct (Z.leb_spec e'' (1024 - 53)); [|lia]. lia.
Qed.

(** An integer of 64 bits as a float: small mantissa and exponent. *)
Lemma of_int_spec n :
  int64_range n ->
  match of_int n with
  | S754_finite _ m e => Zpos m < 2 ^ 53 /\ e <= 12
  | S754_zero _ => True
  | _ => False
  end.
Proof.
  intros Hn. unfold int64_range in Hn.
  assert (forall s p, Zpos p < 2 ^ 64 -> match binary_round prec64 emax64 s p 0 with
    | S754_finite _ m e => Zpos m < 2 ^ 53 /\ e <= 12 | S754_zero _ => True | _ => False end) as H.
  { intros s p Hp. unfold binary_round, shl_align.
    pose proof (digits2_pos_upper p) as Hu. unfold fexp, emin, prec64, emax64. simpl Zdigits2.
    destruct (Z.max (Zpos (digits2_pos p) + 0 - 53) (3 - 1024 - 53) - 0) as [|d|d] eqn:E.
    1,2: exact (round_aux_spec s (Zpos p) 0 loc_Exact 64 ltac:(lia) ltac:(lia) ltac:(lia)).
    change (Pos.iter xO p d) with (shift_pos d p).
    assert (Zpos d <= 53 - Zpos (digits2_pos p)) as Hd by lia.
    assert (2 ^ Zpos d <= 2 ^ (53 - Zpos (digits2_pos p))) by (apply Z.pow_le_mono_r; lia).
    assert (2 ^ Zpos (digits2_pos p) * 2 ^ (53 - Zpos (digits2_pos p)) = 2 ^ 53) as He
      by (rewrite <-Z.pow_add_r by lia; f_equal; lia).
    assert (0 < 2 ^ Zpos d) by (apply Z.pow_pos_nonneg; lia).
    pose proof (round_aux_spec s (Zpos (shift_pos d p)) (Zneg d) loc_Exact 64) as Hr.
    rewrite shift_pos_spec in Hr. specialize (Hr ltac:(nia) ltac:(lia) ltac:(lia)).
    rewrite <-shift_pos_spec in Hr. unfold prec64, emax64 in Hr.
    replace (Z.max _ _) with (Zneg d) by lia.
    destruct (binary_round_aux _ _ _ _ _ _); [done | done | done |]. lia. }
  unfold of_int. destruct n as [|p|p]; simpl; [done | apply H; lia..].
Qed.

(** A quotient by a number that is not tiny is finite. *)
Lemma fdiv_finite a s2 m2 e2 :
  match a with S754_finite _ m e => Zpos m < 2 ^ 53 /\ e <= 12 | S754_zero _ => True | _ => False end ->
  -100 <= e2 -> finite64 (fdiv a (S754_finite s2 m2 e2)).
Proof.
  destruct a as [s|s| |s m e]; try done. intros [Hm He] He2. unfold fdiv, SFdiv, SFdiv_core_binary.
  set (e' := Z.min _ _). assert (e' <= e - e2) as Hmin by (unfold e'; lia). set (sh := e - e2 - e').
  assert (0 <= match sh with Zpos _ => Z.shiftl (Zpos m) sh | Z0 => Zpos m | Zneg _ => 0 end < 2 ^ (53 + Z.max 0 sh)) as Hm'.
  { destruct sh as [|p|p] eqn:Hsh; [rewrite Z.max_id, Z.add_0_r; lia | | lia].
    rewrite Z.shiftl_mul_pow2, Z.max_r, Z.pow_add_r by lia. nia. }
  set (m' := match sh with Zpos _ => _ | Z0 => _ | Zneg _ => _ end) in *.
  assert (0 <= m' / Zpos m2 <= m') as Hq by (split; [apply Z.div_pos; lia | apply Z.div_le_upper_bound; nia]).
  unfold Z.div in Hq. destruct (Z.div_eucl m' (Zpos m2)) as [q r].
  pose proof (round_aux_spec (xorb s s2) q e' (new_location (Zpos m2) r) (53 + Z.max 0 sh)) as Hr.
  cbv zeta in Hr. specialize (Hr ltac:(lia) ltac:(lia) ltac:(unfold sh in *; lia)).
  by destruct (binary_round_aux _ _ _ _ _ _).
Qed.
