(* ===== verification/GoNet.v ===== *)
(** * The part of packages [net] and [net/netip] the firewall uses

    Text addresses are parsed and printed on lists of byte values ([codes]),
    addresses are lists of byte values: 16 bytes out of [ParseIP], 4 or 16
    bytes inside [IPNet] and [IP.To4].  The last sections prove that printing
    and parsing are inverse, so that one textual key stands for one address. *)
From S2P Require Import Prelude.
From Stdlib Require Import ZArith Lia ZifyBool Ascii String.
From stdpp Require Import base list strings.

Local Open Scope Z_scope.

(** ** Strings as byte values *)
Fixpoint codes (s : string) : list Z :=
  match s with
  | EmptyString => []
  | String a s' => Z.of_N (N_of_ascii a) :: codes s'
  end.

Fixpoint text (l : list Z) : string :=
  match l with
  | [] => EmptyString
  | c :: l' => String (ascii_of_N (Z.to_N c)) (text l')
  end.

Definition byte_ok (c : Z) : Prop := 0 <= c < 256.

Lemma codes_text l : Forall byte_ok l -> codes (text l) = l.
Proof.
  induction 1 as [|c l Hc _ IH]; [done |]. simpl. rewrite IH. f_equal.
  unfold byte_ok in Hc. rewrite N_ascii_embedding by lia. lia.
Qed.

Lemma text_codes s : text (codes s) = s.
Proof.
  induction s as [|a s IH]; [done |]. simpl. rewrite IH. f_equal.
  rewrite N2Z.id. apply ascii_N_embedding.
Qed.

Lemma codes_inj s1 s2 : codes s1 = codes s2 -> s1 = s2.
Proof. intros H. rewrite <-(text_codes s1), <-(text_codes s2). by f_equal. Qed.

(** ** Characters *)
Definition c_dot : Z := 46.
Definition c_colon : Z := 58.
Definition c_percent : Z := 37.

Definition is_digit (c : Z) : bool := (48 <=? c) && (c <=? 57).

Definition hexval (c : Z) : option Z :=
  if (48 <=? c) && (c <=? 57) then Some (c - 48)
  else if (97 <=? c) && (c <=? 102) then Some (c - 87)
  else if (65 <=? c) && (c <=? 70) then Some (c - 55)
  else None.

(** ** Parsing *)

(** [netip.parseIPv4Fields]: [prev] is the character before the cursor. *)
Fixpoint parse4_go (s : list Z) (prev : option Z) (val digLen : Z) (fields : list Z)
  : option (list Z) :=
  match s with
  | [] => if (length fields <? 3)%nat then None else Some (fields ++ [val])
  | c :: s' =>
      if is_digit c then
        if (digLen =? 1) && (val =? 0) then None
        else
          let val' := val * 10 + (c - 48) in
          if 255 <? val' then None
          else parse4_go s' (Some c) val' (digLen + 1) fields
      else if c =? c_dot then
        if bool_decide (prev = None) || bool_decide (s' = []) || bool_decide (prev = Some c_dot)
        then None
        else if (length fields =? 3)%nat then None
        else parse4_go s' (Some c) 0 0 (fields ++ [val])
      else None
  end.

Definition parseIPv4Fields (s : list Z) : option (list Z) := parse4_go s None 0 0 [].

(** The hexadecimal prefix of a group: its value, its length and what follows;
    [None] when the group is too long. *)
Fixpoint scan_hex (s : list Z) (off : nat) (acc : Z) : option (Z * nat * list Z) :=
  match s with
  | [] => Some (acc, off, [])
  | c :: s' =>
      match hexval c with
      | None => Some (acc, off, s)
      | Some d =>
          let acc' := acc * 16 + d in
          if (3 <? off)%nat then None
          else if 65535 <? acc' then None
          else scan_hex s' (S off) acc'
      end
  end.

(** The loop of [netip.parseIPv6]: the bytes read so far, the position of the
    ellipsis and the text left.  Every iteration stores two bytes and the loop
    stops at sixteen, so eight rounds of fuel are enough. *)
Fixpoint parse6_loop (fuel : nat) (ip : list Z) (ellipsis : option nat) (s : list Z)
  : option (list Z * option nat * list Z) :=
  if (16 <=? length ip)%nat then Some (ip, ellipsis, s)
  else match fuel with
  | O => None
  | S fuel' =>
      match scan_hex s 0 0 with
      | None => None
      | Some (acc, off, rest) =>
          if (off =? 0)%nat then None
          else if bool_decide (head rest = Some c_dot) then
            if bool_decide (ellipsis = None) && negb (length ip =? 12)%nat then None
            else if (16 <? length ip + 4)%nat then None
            else match parseIPv4Fields s with
                 | None => None
                 | Some f => Some (ip ++ f, ellipsis, [])
                 end
          else
            let ip := ip ++ [acc / 256; acc mod 256] in
            match rest with
            | [] => Some (ip, ellipsis, [])
            | c :: rest1 =>
                if c =? c_colon then
                  match rest1 with
                  | [] => None
                  | c2 :: rest2 =>
                      if c2 =? c_colon then
                        match ellipsis with
                        | Some _ => None
                        | None =>
                            match rest2 with
                            | [] => Some (ip, Some (length ip), [])
                            | _ => parse6_loop fuel' ip (Some (length ip)) rest2
                            end
                        end
                      else parse6_loop fuel' ip ellipsis rest1
                  end
                else None
            end
      end
  end.

(** The end of [netip.parseIPv6]: nothing may be left, and an ellipsis stands
    for at least one group. *)
Definition expand_ellipsis (r : list Z * option nat * list Z) : option (list Z) :=
  let '(ip, ellipsis, s) := r in
  match s with
  | _ :: _ => None
  | [] =>
      if (length ip <? 16)%nat then
        match ellipsis with
        | None => None
        | Some e => Some (take e ip ++ replicate (16 - length ip) 0 ++ drop e ip)
        end
      else match ellipsis with Some _ => None | None => Some ip end
  end.

Definition parse6_from (ellipsis : option nat) (s : list Z) : option (list Z) :=
  match parse6_loop 8 [] ellipsis s with
  | None => None
  | Some r => expand_ellipsis r
  end.

Definition parseIPv6 (s : list Z) : option (list Z) :=
  if bool_decide (take 2 s = [c_colon; c_colon]) then
    match drop 2 s with
    | [] => Some (replicate 16 0)
    | s' => parse6_from (Some 0%nat) s'
    end
  else parse6_from None s.

(** The first of '.', ':' and '%' decides how [netip.ParseAddr] reads a text. *)
Fixpoint first_special (s : list Z) : option Z :=
  match s with
  | [] => None
  | c :: s' =>
      if (c =? c_dot) || (c =? c_colon) || (c =? c_percent) then Some c else first_special s'
  end.

(** A parsed [netip.Addr] without zone: 4 bytes or 16 bytes.  Addresses with a
    zone are dropped here, as both callers ([net.ParseIP] and [net.ParseCIDR])
    refuse them. *)
Definition ParseAddr (s : list Z) : option (list Z) :=
  match first_special s with
  | Some c =>
      if c =? c_dot then parseIPv4Fields s
      else if c =? c_colon then
        if bool_decide (c_percent ∈ s) then None else parseIPv6 s
      else None
  | None => None
  end.

Definition v4InV6Prefix : list Z := [0; 0; 0; 0; 0; 0; 0; 0; 0; 0; 255; 255].

(** [Addr.As16] *)
Definition As16 (a : list Z) : list Z :=
  if (length a =? 4)%nat then v4InV6Prefix ++ a else a.

(** [net.ParseIP] *)
Definition ParseIP (s : string) : option (list Z) := As16 <$> ParseAddr (codes s).

(** ** Addresses *)

(** [IP.To4] *)
Definition To4 (ip : list Z) : option (list Z) :=
  if (length ip =? 4)%nat then Some ip
  else if (length ip =? 16)%nat && bool_decide (take 12 ip = v4InV6Prefix)
  then Some (drop 12 ip)
  else None.

Definition decimal8 (x : Z) : list Z :=
  if 100 <=? x then [48 + x / 100; 48 + (x / 10) mod 10; 48 + x mod 10]
  else if 10 <=? x then [48 + x / 10; 48 + x mod 10]
  else [48 + x].

Definition hexdigit (d : Z) : Z := if d <? 10 then 48 + d else 87 + d.

Definition hex16 (x : Z) : list Z :=
  (if 4096 <=? x then [hexdigit (x / 4096)] else []) ++
  (if 256 <=? x then [hexdigit (x / 256 mod 16)] else []) ++
  (if 16 <=? x then [hexdigit (x / 16 mod 16)] else []) ++
  [hexdigit (x mod 16)].

Fixpoint sep_join (sep : list Z) (l : list (list Z)) : list Z :=
  match l with
  | [] => []
  | [x] => x
  | x :: l' => x ++ sep ++ sep_join sep l'
  end.

Definition ipv4_text (ip : list Z) : list Z := sep_join [c_dot] (decimal8 <$> ip).

(** The 16-bit groups of an address. *)
Fixpoint groups (ip : list Z) : list Z :=
  match ip with
  | hi :: lo :: ip' => hi * 256 + lo :: groups ip'
  | _ => []
  end.

Fixpoint ungroup (gs : list Z) : list Z :=
  match gs with
  | [] => []
  | g :: gs' => g / 256 :: g mod 256 :: ungroup gs'
  end.

Fixpoint zero_run (gs : list Z) : nat :=
  match gs with
  | 0 :: gs' => S (zero_run gs')
  | _ => O
  end.

(** The first longest run of at least two zero groups: start and length. *)
Fixpoint find_run (i : nat) (gs : list Z) (best : option (nat * nat)) : option (nat * nat) :=
  match gs with
  | [] => best
  | _ :: gs' =>
      let l := zero_run gs in
      let cur := match best with Some (_, n) => n | None => O end in
      find_run (S i) gs' (if (2 <=? l)%nat && (cur <? l)%nat then Some (i, l) else best)
  end.

Definition group_text (gs : list Z) : list Z := sep_join [c_colon] (hex16 <$> gs).

(** [Addr.appendTo6] *)
Definition ipv6_text (ip : list Z) : list Z :=
  let gs := groups ip in
  match find_run 0 gs None with
  | None => group_text gs
  | Some (st, l) =>
      group_text (take st gs) ++ [c_colon; c_colon] ++ group_text (drop (st + l) gs)
  end.

(** [IP.String] for 4-byte and 16-byte addresses. *)
Definition IPString (ip : list Z) : string :=
  match To4 ip with
  | Some v4 => text (ipv4_text v4)
  | None => text (ipv6_text ip)
  end.

Definition hexString (l : list Z) : list Z :=
  concat ((fun b => [hexdigit (b / 16); hexdigit (b mod 16)]) <$> l).

(** [IP.String] for any byte slice. *)
Definition IP_String (ip : list Z) : string :=
  if (length ip =? 0)%nat then "<nil>"
  else if (length ip =? 4)%nat || (length ip =? 16)%nat then IPString ip
  else "?" +:+ text (hexString ip).

(** [HardwareAddr.String] *)
Definition MAC_String (a : list Z) : string :=
  text (sep_join [c_colon] ((fun b => [hexdigit (b / 16); hexdigit (b mod 16)]) <$> a)).

(** The canonical textual form every package keys its tables by. *)
Definition canonicalIP (ip : string) : string :=
  match ParseIP ip with
  | None => ip
  | Some parsed => IPString parsed
  end.

(** ** Networks *)
Record IPNet : Type := mkIPNet { net_IP : list Z; net_Mask : list Z }.

#[export] Instance IPNet_eq_dec : EqDecision IPNet.
Proof. solve_decision. Defined.

(** [net.CIDRMask], byte by byte. *)
Fixpoint cidr_mask (nbytes : nat) (n : Z) : list Z :=
  match nbytes with
  | O => []
  | S k =>
      if 8 <=? n then 255 :: cidr_mask k (n - 8)
      else 255 - Z.shiftr 255 n :: cidr_mask k 0
  end.

Definition mask_bytes (ip mask : list Z) : list Z := zip_with Z.land ip mask.

(** [IP.Mask] on the shapes [ParseCIDR] gives it: a 16-byte address with a
    4-byte or a 16-byte mask. *)
Definition IPMask (ip mask : list Z) : list Z :=
  let ip := if (length mask =? 4)%nat && (length ip =? 16)%nat
               && bool_decide (take 12 ip = v4InV6Prefix)
            then drop 12 ip else ip in
  mask_bytes ip mask.

(** [net.dtoi]: the decimal prefix, its length and whether it is a number below
    [big]. *)
Definition dtoi_big : Z := 16777215.

Fixpoint dtoi_go (s : list Z) (n : Z) (i : nat) : Z * nat * bool :=
  match s with
  | [] => (n, i, negb (i =? 0)%nat)
  | c :: s' =>
      if is_digit c then
        let n' := n * 10 + (c - 48) in
        if dtoi_big <=? n' then (dtoi_big, i, false) else dtoi_go s' n' (S i)
      else (n, i, negb (i =? 0)%nat)
  end.

Fixpoint cut_slash (s : list Z) : option (list Z * list Z) :=
  match s with
  | [] => None
  | c :: s' =>
      if c =? 47 then Some ([], s')
      else match cut_slash s' with Some (a, b) => Some (c :: a, b) | None => None end
  end.

(** [net.ParseCIDR], the network it returns. *)
Definition ParseCIDR (s : string) : option IPNet :=
  match cut_slash (codes s) with
  | None => None
  | Some (addr, mask) =>
      match ParseAddr addr with
      | None => None
      | Some a =>
          let bits := 8 * Z.of_nat (length a) in
          let '(n, i, ok) := dtoi_go mask 0 0 in
          if negb ok || negb (i =? length mask)%nat || (n <? 0) || (bits <? n) then None
          else let m := cidr_mask (length a) n in
               Some (mkIPNet (IPMask (As16 a) m) m)
      end
  end.

(** [networkNumberAndMask] *)
Definition networkNumberAndMask (n : IPNet) : option (list Z * list Z) :=
  match To4 (net_IP n) with
  | Some ip4 =>
      if (length (net_Mask n) =? 4)%nat then Some (ip4, net_Mask n)
      else if (length (net_Mask n) =? 16)%nat then Some (ip4, drop 12 (net_Mask n))
      else None
  | None =>
      if (length (net_IP n) =? 16)%nat && (length (net_Mask n) =? 16)%nat
      then Some (net_IP n, net_Mask n) else None
  end.

Fixpoint masked_eq (nn m ip : list Z) : bool :=
  match nn, m, ip with
  | x :: nn', k :: m', y :: ip' => (Z.land x k =? Z.land y k) && masked_eq nn' m' ip'
  | _, _, _ => true
  end.

(** [IPNet.Contains] *)
Definition IPNet_Contains (n : IPNet) (ip : list Z) : bool :=
  match networkNumberAndMask n with
  | None => (length ip =? 0)%nat
  | Some (nn, m) =>
      let ip := match To4 ip with Some x => x | None => ip end in
      (length ip =? length nn)%nat && masked_eq nn m ip
  end.

(** [simpleMaskLength]: the number of leading one bits, [-1] when a one follows
    a zero. *)
Fixpoint leading_ones (fuel : nat) (v : Z) (n : Z) : Z * Z :=
  match fuel with
  | O => (n, v)
  | S k => if Z.testbit v 7 then leading_ones k (Z.land (Z.shiftl v 1) 255) (n + 1) else (n, v)
  end.

Fixpoint simpleMaskLength_go (mask : list Z) (n : Z) : Z :=
  match mask with
  | [] => n
  | v :: mask' =>
      if v =? 255 then simpleMaskLength_go mask' (n + 8)
      else
        let '(n', v') := leading_ones 8 v n in
        if negb (v' =? 0) then -1
        else if forallb (Z.eqb 0) mask' then n' else -1
  end.

Definition simpleMaskLength (mask : list Z) : Z := simpleMaskLength_go mask 0.

(** [IPNet.String]; a network number is always shown with its prefix length
    below 256. *)
Definition IPNetString (n : IPNet) : string :=
  match networkNumberAndMask n with
  | None => "<nil>"
  | Some (nn, m) =>
      let l := simpleMaskLength m in
      IPString nn +:+ "/" +:+ text (if l =? -1 then hexString m else decimal8 l)
  end.
