(* ===== verification/GoNetFacts.v ===== *)
(** * Printing and parsing addresses are inverse

    Lemmas on the model of package [net] the components share: the round trip
    of dotted and colon-hexadecimal text, the injectivity of [IP.String], and
    the idempotence of the canonical form used as a table key. *)
From S2P Require Import Prelude GoNet.
From Stdlib Require Import ZArith Lia ZifyBool.
From stdpp Require Import base list strings sets.

Local Open Scope Z_scope.

Definition octets_ok (l : list Z) : Prop := Forall byte_ok l.
Definition group_ok (g : Z) : Prop := 0 <= g < 65536.

(** Case split on the integer comparisons of the goal, closed by [lia]. *)
Ltac zcases :=
  repeat match goal with
  | |- context [if (?a <=? ?b)%Z then _ else _] => destruct (Z.leb_spec a b)
  | |- context [if (?a <? ?b)%Z then _ else _] => destruct (Z.ltb_spec a b)
  end.

Lemma codes_app s t : codes (s +:+ t) = codes s ++ codes t.
Proof. induction s as [|c s IH]; [done |]. simpl. by rewrite IH. Qed.

(** ** Dotted decimal *)
Lemma parse4_digit c s prev val n fs :
  48 <= c <= 57 -> ~ (n = 1 /\ val = 0) -> val * 10 + (c - 48) <= 255 ->
  parse4_go (c :: s) prev val n fs = parse4_go s (Some c) (val * 10 + (c - 48)) (n + 1) fs.
Proof.
  intros Hc Hz Hv. simpl. unfold is_digit.
  rewrite (proj2 (Z.leb_le 48 c)), (proj2 (Z.leb_le c 57)) by lia. simpl.
  destruct ((n =? 1) && (val =? 0)) eqn:E; [lia |].
  destruct (255 <? val * 10 + (c - 48)) eqn:E2; [lia | done].
Qed.

Lemma parse4_decimal8 x rest prev fs :
  byte_ok x ->
  exists d n, 48 <= d <= 57 /\
    parse4_go (decimal8 x ++ rest) prev 0 0 fs = parse4_go rest (Some d) x n fs.
Proof.
  unfold byte_ok, decimal8. intros Hx.
  pose proof (Z.div_mod x 10). pose proof (Z.mod_pos_bound x 10).
  pose proof (Z.div_mod (x / 10) 10). pose proof (Z.mod_pos_bound (x / 10) 10).
  assert (x / 100 = x / 10 / 10) by (rewrite Z.div_div by lia; done).
  zcases; cbn [app].
  - rewrite !parse4_digit by lia. do 2 eexists. split; [|f_equal; lia]. lia.
  - rewrite !parse4_digit by lia. do 2 eexists. split; [|f_equal; lia]. lia.
  - rewrite parse4_digit by lia. do 2 eexists. split; [|f_equal; lia]. lia.
Qed.

Lemma parse4_dot s d x n fs :
  d <> c_dot -> s <> [] -> (length fs < 3)%nat ->
  parse4_go (c_dot :: s) (Some d) x n fs = parse4_go s (Some c_dot) 0 0 (fs ++ [x]).
Proof.
  intros Hd Hs Hf. cbn [parse4_go].
  change (is_digit c_dot) with false. change (c_dot =? c_dot) with true. cbv iota.
  rewrite !bool_decide_false by congruence. simpl.
  destruct (Nat.eqb_spec (length fs) 3); [lia | done].
Qed.

Lemma decimal8_ne x : decimal8 x <> [].
Proof. unfold decimal8. by zcases. Qed.

Lemma sep_join_cons2 sep x y l : sep_join sep (x :: y :: l) = x ++ sep ++ sep_join sep (y :: l).
Proof. done. Qed.

Lemma sep_join_ne sep x l : x <> [] -> sep_join sep (x :: l) <> [].
Proof. intros Hx. destruct l; simpl; [done |]. destruct x; done. Qed.

Lemma parse4_join ip prev fs :
  octets_ok ip -> ip <> [] -> (length fs + length ip = 4)%nat ->
  parse4_go (ipv4_text ip) prev 0 0 fs = Some (fs ++ ip).
Proof.
  intros Hok. revert prev fs. induction Hok as [|x ip Hx Hok IH]; intros prev fs Hne Hlen; [done |].
  destruct ip as [|y ip].
  - unfold ipv4_text. simpl. rewrite <-(app_nil_r (decimal8 x)).
    destruct (parse4_decimal8 x [] prev fs Hx) as (d & n & _ & ->). simpl in *.
    destruct (Nat.ltb_spec (length fs) 3); [lia | done].
  - unfold ipv4_text. rewrite !fmap_cons, sep_join_cons2.
    destruct (parse4_decimal8 x ([c_dot] ++ sep_join [c_dot] (decimal8 y :: (decimal8 <$> ip))) prev fs Hx)
      as (d & n & Hd & ->).
    cbn [app]. rewrite parse4_dot; [|unfold c_dot; lia|apply sep_join_ne, decimal8_ne|simpl in *; lia].
    change (sep_join [c_dot] (decimal8 y :: (decimal8 <$> ip))) with (ipv4_text (y :: ip)).
    rewrite IH; [by rewrite <-app_assoc | done |]. rewrite length_app. simpl in *. lia.
Qed.

(** ** Colon-hexadecimal *)
Lemma hexval_hexdigit d : 0 <= d < 16 -> hexval (hexdigit d) = Some d.
Proof.
  intros Hd. unfold hexval, hexdigit.
  repeat (case_bool; try lia); f_equal; lia.
Qed.

Lemma scan_hex_digit d s off acc :
  0 <= d < 16 -> (off <= 3)%nat -> acc * 16 + d <= 65535 ->
  scan_hex (hexdigit d :: s) off acc = scan_hex s (S off) (acc * 16 + d).
Proof.
  intros Hd Ho Ha. simpl. rewrite hexval_hexdigit by done.
  destruct (Nat.ltb_spec 3 off); [lia |].
  destruct (Z.ltb_spec 65535 (acc * 16 + d)); [lia | done].
Qed.

Definition hex_stop (rest : list Z) : Prop :=
  match rest with [] => True | c :: _ => hexval c = None end.

Lemma scan_hex_stop rest off acc :
  hex_stop rest -> scan_hex rest off acc = Some (acc, off, rest).
Proof. destruct rest as [|c rest]; [done |]. simpl. by intros ->. Qed.

Lemma scan_hex16 g rest :
  group_ok g -> hex_stop rest ->
  exists n, scan_hex (hex16 g ++ rest) 0 0 = Some (g, S n, rest).
Proof.
  intros Hg Hstop. unfold hex16, group_ok in *.
  pose proof (Z.div_mod g 16). pose proof (Z.mod_pos_bound g 16).
  pose proof (Z.div_mod (g / 16) 16). pose proof (Z.mod_pos_bound (g / 16) 16).
  pose proof (Z.div_mod (g / 256) 16). pose proof (Z.mod_pos_bound (g / 256) 16).
  assert (g / 256 = g / 16 / 16) by (rewrite Z.div_div by lia; done).
  assert (g / 4096 = g / 256 / 16) by (rewrite Z.div_div by lia; done).
  zcases; try lia; cbn [app];
    rewrite ?scan_hex_digit by lia; rewrite scan_hex_stop by done; eexists; do 3 f_equal; lia.
Qed.

Lemma hex16_head g rest :
  group_ok g -> exists d s, hex16 g ++ rest = hexdigit d :: s /\ 0 <= d < 16.
Proof.
  intros Hg. unfold hex16, group_ok in *.
  pose proof (Z.mod_pos_bound g 16). pose proof (Z.mod_pos_bound (g / 16) 16).
  pose proof (Z.mod_pos_bound (g / 256) 16).
  assert (0 <= g / 4096 < 16) by (split; [apply Z.div_pos; lia | apply Z.div_lt_upper_bound; lia]).
  zcases; simpl; do 2 eexists; (split; [done |]); lia.
Qed.

Lemma hexdigit_not_colon d : 0 <= d < 16 -> hexdigit d <> c_colon.
Proof. unfold hexdigit, c_colon. intros. case_bool; lia. Qed.

Lemma group_text_head g gs rest :
  group_ok g -> exists d s, group_text (g :: gs) ++ rest = hexdigit d :: s /\ 0 <= d < 16.
Proof.
  intros Hg. unfold group_text. rewrite fmap_cons.
  destruct (hex16_head g [] Hg) as (d & s & Heq & Hd). rewrite app_nil_r in Heq.
  exists d. destruct (hex16 <$> gs); simpl; rewrite Heq; eauto.
Qed.

(** One round of the parser's loop on a printed group, by what follows it. *)
Lemma parse6_group_end fuel ip ell g :
  group_ok g -> (length ip < 16)%nat ->
  parse6_loop (S fuel) ip ell (hex16 g) = Some (ip ++ [g / 256; g mod 256], ell, []).
Proof.
  intros Hg Hl. destruct (scan_hex16 g [] Hg I) as [n Hs]. rewrite app_nil_r in Hs.
  cbn [parse6_loop]. destruct (Nat.leb_spec 16 (length ip)); [lia |]. by rewrite Hs.
Qed.

Lemma parse6_group_colon fuel ip ell g s d :
  group_ok g -> (length ip < 16)%nat -> 0 <= d < 16 ->
  parse6_loop (S fuel) ip ell (hex16 g ++ c_colon :: hexdigit d :: s) =
  parse6_loop fuel (ip ++ [g / 256; g mod 256]) ell (hexdigit d :: s).
Proof.
  intros Hg Hl Hd.
  destruct (scan_hex16 g (c_colon :: hexdigit d :: s) Hg eq_refl) as [n Hs].
  cbn [parse6_loop]. destruct (Nat.leb_spec 16 (length ip)); [lia |]. rewrite Hs. simpl.
  rewrite (proj2 (Z.eqb_neq (hexdigit d) c_colon)) by (by apply hexdigit_not_colon). done.
Qed.

Lemma parse6_group_ellipsis fuel ip g s :
  group_ok g -> (length ip < 16)%nat ->
  parse6_loop (S fuel) ip None (hex16 g ++ c_colon :: c_colon :: s) =
  let ip' := ip ++ [g / 256; g mod 256] in
  match s with
  | [] => Some (ip', Some (length ip'), [])
  | _ => parse6_loop fuel ip' (Some (length ip')) s
  end.
Proof.
  intros Hg Hl.
  destruct (scan_hex16 g (c_colon :: c_colon :: s) Hg eq_refl) as [n Hs].
  cbn [parse6_loop]. destruct (Nat.leb_spec 16 (length ip)); [lia |]. by rewrite Hs.
Qed.

Lemma ungroup_app gs1 gs2 : ungroup (gs1 ++ gs2) = ungroup gs1 ++ ungroup gs2.
Proof. induction gs1 as [|g gs1 IH]; simpl; [done | by rewrite IH]. Qed.

Lemma length_ungroup gs : length (ungroup gs) = (2 * length gs)%nat.
Proof. induction gs as [|g gs IH]; simpl; lia. Qed.

(** A printed list of groups up to the end of the text. *)
Lemma parse6_groups_end gs fuel ip ell :
  Forall group_ok gs -> gs <> [] -> (length gs <= fuel)%nat ->
  (length ip + 2 * length gs <= 16)%nat ->
  parse6_loop fuel ip ell (group_text gs) = Some (ip ++ ungroup gs, ell, []).
Proof.
  intros Hok. revert fuel ip. induction Hok as [|g gs Hg Hok IH]; intros fuel ip Hne Hf Hl; [done |].
  destruct fuel as [|fuel]; [simpl in *; lia |]. destruct gs as [|g' gs].
  - unfold group_text. simpl. simpl in Hl. by apply parse6_group_end; [done | lia].
  - destruct (group_text_head g' gs [] ltac:(by inversion Hok)) as (d & s & Heq & Hd).
    rewrite app_nil_r in Heq. unfold group_text. rewrite !fmap_cons, sep_join_cons2.
    change (sep_join [c_colon] (hex16 g' :: (hex16 <$> gs))) with (group_text (g' :: gs)).
    cbn [app]. rewrite Heq, parse6_group_colon by (try done; simpl in *; lia).
    rewrite <-Heq, IH; [by rewrite <-app_assoc | done | simpl in *; lia |].
    rewrite length_app. simpl in *. lia.
Qed.

(** A printed list of groups up to an ellipsis. *)
Lemma parse6_groups_ellipsis gs fuel ip s :
  Forall group_ok gs -> gs <> [] -> (length gs <= fuel)%nat ->
  (length ip + 2 * length gs <= 16)%nat ->
  parse6_loop fuel ip None (group_text gs ++ c_colon :: c_colon :: s) =
  let ip' := ip ++ ungroup gs in
  match s with
  | [] => Some (ip', Some (length ip'), [])
  | _ => parse6_loop (fuel - length gs) ip' (Some (length ip')) s
  end.
Proof.
  intros Hok. revert fuel ip. induction Hok as [|g gs Hg Hok IH]; intros fuel ip Hne Hf Hl; [done |].
  destruct fuel as [|fuel]; [simpl in *; lia |]. destruct gs as [|g' gs].
  - unfold group_text. simpl fmap. simpl sep_join.
    rewrite parse6_group_ellipsis by (try done; simpl in *; lia).
    simpl. by rewrite Nat.sub_0_r.
  - destruct (group_text_head g' gs (c_colon :: c_colon :: s) ltac:(by inversion Hok))
      as (d & s' & Heq & Hd).
    unfold group_text. rewrite !fmap_cons, sep_join_cons2.
    change (sep_join [c_colon] (hex16 g' :: (hex16 <$> gs))) with (group_text (g' :: gs)).
    cbn [app]. rewrite <-app_assoc. cbn [app].
    rewrite Heq, parse6_group_colon by (try done; simpl in *; lia).
    rewrite <-Heq, IH; [|done|simpl in *; lia|rewrite length_app; simpl in *; lia].
    rewrite <-app_assoc. done.
Qed.

(** ** Zero compression *)
Definition run_ok (gs : list Z) (r : option (nat * nat)) : Prop :=
  match r with
  | None => True
  | Some (st, l) => (2 <= l)%nat /\ gs = take st gs ++ replicate l 0 ++ drop (st + l) gs
                    /\ (st + l <= length gs)%nat
  end.

Lemma zero_run_prefix gs :
  gs = replicate (zero_run gs) 0 ++ drop (zero_run gs) gs /\ (zero_run gs <= length gs)%nat.
Proof.
  induction gs as [|g gs [IH1 IH2]]; [done |]. destruct g; simpl; try (split; [done | lia]).
  split; [by f_equal | lia].
Qed.

Lemma find_run_ok gs i best :
  run_ok gs best -> (i <= length gs)%nat -> run_ok gs (find_run i (drop i gs) best).
Proof.
  remember (drop i gs) as rest eqn:Hr. revert i best Hr.
  induction rest as [|g rest IH]; intros i best Hr Hb Hi; [done |].
  assert (i < length gs)%nat.
  { assert (length (drop i gs) = S (length rest)) by (by rewrite <-Hr).
    rewrite length_drop in *. lia. }
  cbn [find_run]. apply IH; [|clear IH|lia].
  { by rewrite <-(Nat.add_1_r i), <-drop_drop, <-Hr. }
  destruct (_ && _) eqn:E; [|done]. apply andb_true_iff in E as [E1 E2].
  apply Nat.leb_le in E1. clear E2. rewrite Hr in *.
  destruct (zero_run_prefix (drop i gs)) as [Hz Hle]. rewrite length_drop in Hle.
  split; [done |]. split; [|lia].
  rewrite <-drop_drop, <-Hz. by rewrite take_drop.
Qed.

Lemma ungroup_zeros n : ungroup (replicate n 0) = replicate (2 * n) 0.
Proof.
  induction n as [|n IH]; [done |]. replace (2 * S n)%nat with (S (S (2 * n))) by lia.
  simpl replicate. simpl ungroup. rewrite IH. done.
Qed.

Lemma ungroup_groups (n : nat) ip :
  octets_ok ip -> length ip = (2 * n)%nat ->
  ungroup (groups ip) = ip /\ Forall group_ok (groups ip) /\ length (groups ip) = n.
Proof.
  revert ip. induction n as [|n IH]; intros [|hi [|lo ip]] Hok Hl; simpl in *; try lia; [done|].
  inversion Hok as [|?? Hhi Hok']; subst. inversion Hok' as [|?? Hlo Hok'']; subst.
  unfold byte_ok, group_ok in *.
  destruct (IH ip Hok'' ltac:(lia)) as (IH1 & IH2 & IH3). split; [|split; [|lia]].
  - rewrite IH1. f_equal; [|f_equal].
    + rewrite Z.div_add_l by lia. rewrite Z.div_small by lia. lia.
    + rewrite Z.add_comm, Z.mod_add by lia. apply Z.mod_small. lia.
  - constructor; [lia | done].
Qed.

(** ** Characters of a printed address *)
Definition hex_colon (c : Z) : Prop := is_Some (hexval c) \/ c = c_colon.

Lemma hexdigit_hex_colon d : 0 <= d < 16 -> hex_colon (hexdigit d).
Proof. intros. left. rewrite hexval_hexdigit by done. eauto. Qed.

Lemma hex16_chars g : group_ok g -> Forall hex_colon (hex16 g).
Proof.
  intros Hg. unfold hex16, group_ok in *.
  assert (0 <= g / 4096 < 16) by (split; [apply Z.div_pos; lia | apply Z.div_lt_upper_bound; lia]).
  assert (forall x, hex_colon (hexdigit (x mod 16))) as Hm.
  { intros x. apply hexdigit_hex_colon, Z.mod_pos_bound. lia. }
  assert (hex_colon (hexdigit (g / 4096))) as Ht by (by apply hexdigit_hex_colon).
  zcases; cbn [app]; repeat (apply Forall_cons_2; [apply Hm || exact Ht |]); apply Forall_nil_2.
Qed.

Lemma group_text_chars gs : Forall group_ok gs -> Forall hex_colon (group_text gs).
Proof.
  unfold group_text. induction 1 as [|g gs Hg Hok IH]; [done |]. rewrite fmap_cons.
  destruct (hex16 <$> gs) eqn:E; [by apply hex16_chars |].
  rewrite sep_join_cons2. apply Forall_app_2; [by apply hex16_chars |].
  apply Forall_app_2; [|done]. apply Forall_singleton. by right.
Qed.

Lemma hex_colon_byte c : hex_colon c -> byte_ok c /\ c <> c_dot /\ c <> c_percent.
Proof.
  unfold hex_colon, hexval, c_colon, c_dot, c_percent, byte_ok.
  intros [[v H]|H]; repeat case_bool; try done; lia.
Qed.

Lemma hex_colon_first s :
  Forall hex_colon s -> c_colon ∈ s -> first_special s = Some c_colon.
Proof.
  induction 1 as [|c s Hc _ IH]; intros Hin; [by apply not_elem_of_nil in Hin |].
  apply hex_colon_byte in Hc as (_ & Hd & Hp). simpl.
  rewrite (proj2 (Z.eqb_neq c c_dot) Hd), (proj2 (Z.eqb_neq c c_percent) Hp).
  destruct (Z.eqb_spec c c_colon) as [->|Hne]; [done |]. simpl.
  apply IH. apply elem_of_cons in Hin as [Hin|Hin]; [by destruct Hne | done].
Qed.

Lemma ParseAddr_hex_colon s :
  Forall hex_colon s -> c_colon ∈ s -> ParseAddr s = parseIPv6 s.
Proof.
  intros Hok Hin. unfold ParseAddr. rewrite hex_colon_first by done. simpl.
  rewrite bool_decide_false; [done |]. intros Hp. rewrite Forall_forall in Hok.
  apply Hok in Hp. by apply hex_colon_byte in Hp as (_ & _ & []).
Qed.

(** ** Round trips *)
Definition ip16_ok (ip : list Z) : Prop := octets_ok ip /\ length ip = 16%nat.
Definition ip4_ok (ip : list Z) : Prop := octets_ok ip /\ length ip = 4%nat.

Lemma group_text_no_ellipsis g gs rest :
  group_ok g -> take 2 (group_text (g :: gs) ++ rest) <> [c_colon; c_colon].
Proof.
  intros Hg. destruct (group_text_head g gs rest Hg) as (d & s & -> & Hd).
  intros [= Heq]. by apply (hexdigit_not_colon d).
Qed.

Lemma colon_in_group_text g g' gs : c_colon ∈ group_text (g :: g' :: gs).
Proof. unfold group_text. rewrite !fmap_cons, sep_join_cons2. set_solver. Qed.

Lemma parse6_from_groups gs :
  Forall group_ok gs -> gs <> [] -> (length gs < 8)%nat ->
  parse6_from (Some 0%nat) (group_text gs) =
  Some (replicate (16 - 2 * length gs) 0 ++ ungroup gs).
Proof.
  intros Hok Hne Hl. unfold parse6_from.
  rewrite parse6_groups_end by (try done; simpl; lia).
  unfold expand_ellipsis. cbn [app]. rewrite length_ungroup. destruct (Nat.ltb_spec (2 * length gs) 16); [done | lia].
Qed.

Lemma group_text_cons_ne gs : Forall group_ok gs -> gs <> [] -> group_text gs <> [].
Proof.
  intros Hok Hne. destruct gs as [|g gs]; [done |].
  destruct (group_text_head g gs [] ltac:(by inversion Hok)) as (d & s & Heq & _).
  rewrite app_nil_r in Heq. by rewrite Heq.
Qed.

Lemma parseIPv6_text gs :
  Forall group_ok gs -> length gs = 8%nat ->
  parseIPv6 (group_text gs) = Some (ungroup gs).
Proof.
  intros Hok Hl. destruct gs as [|g gs]; [done |].
  unfold parseIPv6. rewrite bool_decide_false.
  2:{ rewrite <-(app_nil_r (group_text _)). apply group_text_no_ellipsis. by inversion Hok. }
  unfold parse6_from. rewrite parse6_groups_end by (try done; simpl in *; lia).
  unfold expand_ellipsis. cbn [app]. rewrite length_ungroup, Hl. done.
Qed.

Lemma expand_ellipsis_app a b :
  (length (a ++ b) < 16)%nat ->
  expand_ellipsis (a ++ b, Some (length a), []) =
  Some (a ++ replicate (16 - length (a ++ b)) 0 ++ b).
Proof.
  intros Hl. unfold expand_ellipsis. destruct (Nat.ltb_spec (length (a ++ b)) 16); [|lia].
  by rewrite take_app_length, drop_app_length.
Qed.

(** A printed address with an ellipsis reads back as the groups around a run of
    zeros. *)
Lemma parseIPv6_ellipsis gs hs :
  Forall group_ok gs -> Forall group_ok hs -> (length gs + length hs < 8)%nat ->
  parseIPv6 (group_text gs ++ [c_colon; c_colon] ++ group_text hs) =
  Some (ungroup gs ++ replicate (16 - 2 * (length gs + length hs)) 0 ++ ungroup hs).
Proof.
  intros Hg Hh Hl. unfold parseIPv6. destruct gs as [|g gs].
  - simpl group_text. cbn [app]. rewrite bool_decide_true by done. cbn [drop].
    destruct hs as [|h hs]; [done |].
    pose proof (group_text_cons_ne (h :: hs) Hh ltac:(done)) as Hne.
    pose proof (parse6_from_groups (h :: hs) Hh ltac:(done) ltac:(simpl in *; lia)) as Heq.
    destruct (group_text (h :: hs)) eqn:E; [done |]. exact Heq.
  - rewrite bool_decide_false by (apply group_text_no_ellipsis; by inversion Hg).
    unfold parse6_from. cbn [app].
    rewrite parse6_groups_ellipsis by (try done; simpl in *; lia).
    cbv zeta. cbn [app]. destruct hs as [|h hs].
    + change (group_text []) with (@nil Z). cbv iota.
      rewrite <-(app_nil_r (ungroup (g :: gs))) at 1.
      rewrite expand_ellipsis_app by (rewrite app_nil_r, length_ungroup; simpl in *; lia).
      do 3 f_equal. rewrite app_nil_r, length_ungroup. simpl length. f_equal. lia.
    + pose proof (group_text_cons_ne (h :: hs) Hh ltac:(done)) as Hne.
      destruct (group_text (h :: hs)) eqn:E; [done |]. rewrite <-E.
      rewrite parse6_groups_end by (try done; rewrite ?length_ungroup; simpl in *; lia).
      rewrite expand_ellipsis_app by (rewrite length_app, !length_ungroup; simpl in *; lia).
      rewrite length_app, !length_ungroup. do 3 f_equal. f_equal. lia.
Qed.

Lemma ipv6_text_chars ip :
  ip16_ok ip -> Forall hex_colon (ipv6_text ip) /\ c_colon ∈ ipv6_text ip.
Proof.
  intros [Hok Hl]. destruct (ungroup_groups 8 ip Hok Hl) as (_ & Hg & Hgl).
  unfold ipv6_text. destruct (find_run 0 (groups ip) None) as [[st l]|].
  - split; [|set_solver]. apply Forall_app_2; [by apply group_text_chars, Forall_take |].
    apply Forall_app_2; [|by apply group_text_chars, Forall_drop].
    apply Forall_cons_2; [by right |]. apply Forall_singleton. by right.
  - split; [by apply group_text_chars |].
    destruct (groups ip) as [|g [|g' gs]]; [done | done | apply colon_in_group_text].
Qed.

Lemma ParseAddr_ipv6_text ip : ip16_ok ip -> ParseAddr (ipv6_text ip) = Some ip.
Proof.
  intros Hip. destruct (ipv6_text_chars ip Hip) as [Hc Hin].
  rewrite ParseAddr_hex_colon by done. clear Hc Hin. destruct Hip as [Hok Hl].
  destruct (ungroup_groups 8 ip Hok Hl) as (Hu & Hg & Hgl). unfold ipv6_text.
  pose proof (find_run_ok (groups ip) 0 None I ltac:(lia)) as Hrun. rewrite drop_0 in Hrun.
  destruct (find_run 0 (groups ip) None) as [[st l]|].
  - destruct Hrun as (Hl2 & Heq & Hle).
    rewrite parseIPv6_ellipsis; [|by apply Forall_take|by apply Forall_drop|
      rewrite length_take, length_drop; lia].
    f_equal. transitivity (ungroup (groups ip)); [|done].
    transitivity (ungroup (take st (groups ip) ++ replicate l 0 ++ drop (st + l) (groups ip)));
      [|by rewrite <-Heq].
    rewrite !ungroup_app, ungroup_zeros, length_take, length_drop. do 3 f_equal. lia.
  - rewrite parseIPv6_text by done. by rewrite Hu.
Qed.

Lemma decimal8_chars x :
  byte_ok x -> Forall (fun c => byte_ok c /\ c <> c_colon /\ c <> c_percent) (decimal8 x).
Proof.
  unfold byte_ok, decimal8, c_colon, c_percent. intros Hx.
  pose proof (Z.mod_pos_bound x 10). pose proof (Z.mod_pos_bound (x / 10) 10).
  pose proof (Z.div_mod x 10). pose proof (Z.div_mod x 100). pose proof (Z.mod_pos_bound x 100).
  zcases; repeat (apply Forall_cons_2; [lia |]); apply Forall_nil_2.
Qed.

Lemma ipv4_text_chars ip :
  octets_ok ip ->
  Forall (fun c => byte_ok c /\ c <> c_colon /\ c <> c_percent) (ipv4_text ip).
Proof.
  unfold ipv4_text. induction 1 as [|x ip Hx Hok IH]; [done |]. rewrite fmap_cons.
  destruct (decimal8 <$> ip) eqn:E; [by apply decimal8_chars |].
  rewrite sep_join_cons2. apply Forall_app_2; [by apply decimal8_chars |].
  apply Forall_app_2; [|done]. apply Forall_singleton. done.
Qed.

Lemma first_special_dot s :
  Forall (fun c => byte_ok c /\ c <> c_colon /\ c <> c_percent) s -> c_dot ∈ s ->
  first_special s = Some c_dot.
Proof.
  induction 1 as [|c s (_ & Hc & Hp) _ IH]; intros Hin; [by apply not_elem_of_nil in Hin |].
  simpl. rewrite (proj2 (Z.eqb_neq c c_colon) Hc), (proj2 (Z.eqb_neq c c_percent) Hp).
  destruct (Z.eqb_spec c c_dot) as [->|Hne]; [done |]. simpl.
  apply IH. apply elem_of_cons in Hin as [Hin|Hin]; [by destruct Hne | done].
Qed.

Lemma ParseAddr_ipv4_text ip : ip4_ok ip -> ParseAddr (ipv4_text ip) = Some ip.
Proof.
  intros [Hok Hl]. unfold ParseAddr. rewrite first_special_dot; [|by apply ipv4_text_chars|].
  - simpl. unfold parseIPv4Fields. rewrite parse4_join; [done | done | by intros -> | simpl; lia].
  - destruct ip as [|x [|y ip]]; [done | done |].
    unfold ipv4_text. rewrite !fmap_cons, sep_join_cons2. set_solver.
Qed.

Lemma To4_16 ip v4 : length ip = 16%nat -> To4 ip = Some v4 -> ip = v4InV6Prefix ++ v4 /\ length v4 = 4%nat.
Proof.
  intros Hl. unfold To4. rewrite Hl. cbn [Nat.eqb andb]. case_bool_decide as Hp; [|done].
  intros [= <-]. split; [|rewrite length_drop; lia].
  rewrite <-Hp. by rewrite take_drop.
Qed.

Lemma codes_ipv4_text ip : octets_ok ip -> codes (text (ipv4_text ip)) = ipv4_text ip.
Proof.
  intros Hok. apply codes_text. eapply Forall_impl; [by apply ipv4_text_chars |]. by intros c [? _].
Qed.

(** Parsing a printed 16-byte address gives it back. *)
Lemma ParseIP_IPString ip : ip16_ok ip -> ParseIP (IPString ip) = Some ip.
Proof.
  intros Hip. unfold ParseIP, IPString. destruct (To4 ip) as [v4|] eqn:E4.
  - destruct Hip as [Hok Hl]. destruct (To4_16 _ _ Hl E4) as [-> Hl4].
    apply Forall_app in Hok as [_ Hok4]. rewrite codes_ipv4_text by done.
    rewrite ParseAddr_ipv4_text by done. simpl. unfold As16. by rewrite Hl4.
  - rewrite codes_text.
    2:{ eapply Forall_impl; [by apply ipv6_text_chars |]. intros c Hc.
        by apply hex_colon_byte in Hc as [? _]. }
    rewrite ParseAddr_ipv6_text by done. simpl. unfold As16.
    destruct Hip as [_ ->]. done.
Qed.

(** [IP.String] is injective on 16-byte addresses. *)
Lemma IPString_inj ip1 ip2 :
  ip16_ok ip1 -> ip16_ok ip2 -> IPString ip1 = IPString ip2 -> ip1 = ip2.
Proof.
  intros H1 H2 Heq. apply ParseIP_IPString in H1, H2. congruence.
Qed.

(** ** Parsed addresses are well formed *)
Lemma parse4_go_ok s prev val n fs ip :
  octets_ok fs -> byte_ok val -> (length fs <= 3)%nat ->
  parse4_go s prev val n fs = Some ip -> ip4_ok ip.
Proof.
  revert prev val n fs. induction s as [|c s IH]; intros prev val n fs Hfs Hv Hl H; simpl in H.
  - destruct (Nat.ltb_spec (length fs) 3); [done |]. injection H as <-.
    split; [by apply Forall_app_2; [|apply Forall_singleton] | rewrite length_app; simpl; lia].
  - unfold is_digit in H. repeat case_bool; try done.
    + eapply IH; [..|exact H]; try done. unfold byte_ok in *. lia.
    + eapply IH; [..|exact H]; try done.
      * apply Forall_app_2; [done | by apply Forall_singleton].
      * rewrite length_app. simpl. apply Nat.eqb_neq in Heqb0 || idtac. lia.
Qed.

Lemma parseIPv4Fields_ok s ip : parseIPv4Fields s = Some ip -> ip4_ok ip.
Proof.
  apply parse4_go_ok; [apply Forall_nil_2 | unfold byte_ok; lia | simpl; lia].
Qed.

Lemma scan_hex_ok s off acc acc' off' rest :
  group_ok acc -> scan_hex s off acc = Some (acc', off', rest) -> group_ok acc'.
Proof.
  revert off acc. induction s as [|c s IH]; intros off acc Ha H; simpl in H; [by simplify_eq |].
  destruct (hexval c) as [d|] eqn:Hd; [|by simplify_eq].
  repeat case_bool; try done. eapply IH; [|exact H].
  unfold group_ok, hexval in *. repeat case_bool; simplify_eq; lia.
Qed.

Lemma group_bytes_ok g : group_ok g -> octets_ok [g / 256; g mod 256].
Proof.
  unfold group_ok, octets_ok, byte_ok. intros Hg.
  apply Forall_cons_2; [|apply Forall_singleton; apply Z.mod_pos_bound; lia].
  split; [apply Z.div_pos; lia | apply Z.div_lt_upper_bound; lia].
Qed.

Definition partial_ok (ip : list Z) (ell : option nat) : Prop :=
  octets_ok ip /\ (length ip <= 16)%nat /\ Nat.Even (length ip) /\
  match ell with Some e => (e <= length ip)%nat | None => True end.

Lemma partial_ok_group ip ell g :
  partial_ok ip ell -> (length ip < 16)%nat -> group_ok g ->
  partial_ok (ip ++ [g / 256; g mod 256]) ell.
Proof.
  intros (Hok & _ & [k Hk] & He) Hl Hg. unfold partial_ok. rewrite length_app. simpl.
  split; [by apply Forall_app_2, group_bytes_ok |].
  split; [lia |]. split; [exists (S k); lia |]. destruct ell; [lia | done].
Qed.

Lemma partial_ok_ellipsis ip : partial_ok ip None -> partial_ok ip (Some (length ip)).
Proof. intros (? & ? & ? & _). by split_and!. Qed.

Lemma parse6_loop_ok fuel ip ell s ip' ell' s' :
  partial_ok ip ell -> parse6_loop fuel ip ell s = Some (ip', ell', s') -> partial_ok ip' ell'.
Proof.
  revert ip ell s. induction fuel as [|fuel IH]; intros ip ell s Hok H.
  { cbn [parse6_loop] in H. destruct (16 <=? length ip)%nat; by simplify_eq. }
  cbn [parse6_loop] in H. destruct (Nat.leb_spec 16 (length ip)) as [|Hl]; [by simplify_eq |].
  destruct (scan_hex s 0 0) as [[[acc off] rest]|] eqn:Hs; [|done].
  apply scan_hex_ok in Hs; [|unfold group_ok; lia].
  destruct (off =? 0)%nat; [done |]. case_bool_decide as Hdot.
  - destruct (_ && _) eqn:Hg; [done |]. destruct (Nat.ltb_spec 16 (length ip + 4)); [done |].
    destruct (parseIPv4Fields s) as [f|] eqn:H4; [|done]. simplify_eq.
    apply parseIPv4Fields_ok in H4 as [Hf4 Hl4].
    destruct Hok as (Hok & _ & [k Hk] & He). unfold partial_ok. rewrite length_app, Hl4.
    split; [by apply Forall_app_2 |]. split; [lia |]. split; [exists (2 + k)%nat; lia |].
    destruct ell'; [lia | done].
  - pose proof (partial_ok_group _ _ _ Hok Hl Hs) as Hok'.
    destruct rest as [|c rest1]; [by simplify_eq |].
    destruct (c =? c_colon); [|done]. destruct rest1 as [|c2 rest2]; [done |].
    destruct (c2 =? c_colon); [|by eapply IH].
    destruct ell; [done |]. apply partial_ok_ellipsis in Hok'.
    destruct rest2; [by simplify_eq | by eapply IH].
Qed.

Lemma expand_ellipsis_ok ip ell s r :
  partial_ok ip ell -> expand_ellipsis (ip, ell, s) = Some r -> ip16_ok r.
Proof.
  intros (Hok & Hl & _ & He) H. unfold expand_ellipsis in H. destruct s; [|done].
  destruct (Nat.ltb_spec (length ip) 16); destruct ell as [e|]; simplify_eq.
  - split.
    + apply Forall_app_2; [by apply Forall_take |].
      apply Forall_app_2; [apply Forall_replicate; unfold byte_ok; lia | by apply Forall_drop].
    + rewrite !length_app, length_take, length_replicate, length_drop. lia.
  - split; [done | lia].
Qed.

Lemma ParseAddr_ok s a : ParseAddr s = Some a -> ip4_ok a \/ ip16_ok a.
Proof.
  unfold ParseAddr. destruct (first_special s) as [c|]; [|done].
  destruct (c =? c_dot).
  { intros H. left. by apply parseIPv4Fields_ok in H. }
  destruct (c =? c_colon); [|done]. case_bool_decide; [done |]. intros H'. right.
  assert (forall ell t, partial_ok [] ell -> parse6_from ell t = Some a -> ip16_ok a) as Hfrom.
  { intros ell t Hp Ht. unfold parse6_from in Ht.
    destruct (parse6_loop 8 [] ell t) as [[[ip e'] s']|] eqn:Hloop; [|done].
    eapply expand_ellipsis_ok; [|exact Ht]. by eapply parse6_loop_ok. }
  assert (partial_ok [] None /\ partial_ok [] (Some 0%nat)) as [HpN HpS].
  { split; (split; [apply Forall_nil_2 |]); simpl; (split; [lia |]);
      (split; [by exists 0%nat | lia || done]). }
  unfold parseIPv6 in H'. case_bool_decide; [|exact (Hfrom _ _ HpN H')].
  destruct (drop 2 s) eqn:Hd; [simplify_eq; split; [apply Forall_replicate; unfold byte_ok; lia | done] |].
  exact (Hfrom _ _ HpS H').
Qed.

Lemma As16_ok a : ip4_ok a \/ ip16_ok a -> ip16_ok (As16 a).
Proof.
  unfold As16. intros [[Hok Hl]|[Hok Hl]]; rewrite Hl; simpl; [|by split].
  split; [|by simpl; rewrite Hl].
  repeat (apply Forall_cons_2; [unfold byte_ok; lia |]). done.
Qed.

Lemma ParseIP_ok s ip : ParseIP s = Some ip -> ip16_ok ip.
Proof.
  unfold ParseIP. rewrite fmap_Some. intros (a & Ha & ->). by apply As16_ok, (ParseAddr_ok (codes s)).
Qed.

(** The canonical form is a fixed point: a table key is never rewritten. *)
Lemma canonicalIP_idemp s : canonicalIP (canonicalIP s) = canonicalIP s.
Proof.
  unfold canonicalIP. destruct (ParseIP s) as [ip|] eqn:E; [|by rewrite E].
  apply ParseIP_ok in E. by rewrite ParseIP_IPString.
Qed.

(** Two texts that parse have the same canonical form exactly when they denote
    the same address. *)
Lemma canonicalIP_eq s1 s2 ip1 ip2 :
  ParseIP s1 = Some ip1 -> ParseIP s2 = Some ip2 ->
  canonicalIP s1 = canonicalIP s2 <-> ip1 = ip2.
Proof.
  intros H1 H2. unfold canonicalIP. rewrite H1, H2. split; [|by intros ->].
  apply IPString_inj; by eapply ParseIP_ok.
Qed.
