(* ===== verification/Packet.v ===== *)
(** * Package [packet]: header parsing

    [ParsePacket] and its helpers, translated from
    src/internal/packet/parser.go.  The decoder of the [gopacket] library is a
    parameter ([NewPacket]); every byte read is bounds-checked and a read out of
    range is a [Panic], as it is in Go. *)
From S2P Require Import Prelude GoNet GoNetFacts.
From Stdlib Require Import ZArith Lia ZifyBool Strings.Byte.
From stdpp Require Import base list strings pretty.

Local Open Scope Z_scope.

(** ** Bytes *)
Definition b2z (b : byte) : Z := Z.of_N (Byte.to_N b).

Definition zlen (raw : list byte) : Z := Z.of_nat (length raw).

(** [raw[i]] *)
Definition idx (raw : list byte) (i : Z) : res Z :=
  if i <? 0 then Panic "index out of range"
  else match raw !! Z.to_nat i with
       | Some b => Ok (b2z b)
       | None => Panic "index out of range"
       end.

(** [binary.BigEndian.Uint16(raw[i : i+2])] *)
Definition u16be (raw : list byte) (i : Z) : res Z :=
  let* hi := idx raw i in
  let* lo := idx raw (i + 1) in
  Ok (hi * 256 + lo).

(** ** Data *)
Record TCPFlags : Type := mkTCPFlags { SYN : bool; ACK : bool; RST : bool; FIN : bool }.

Definition noFlags : TCPFlags := mkTCPFlags false false false false.

Record FragmentInfo : Type := mkFragmentInfo {
  IsFragment : bool;
  MoreFragments : bool;
  Offset : Z;
  L4Incomplete : bool;
}.

Definition noFragment : FragmentInfo := mkFragmentInfo false false 0 false.

Definition IPv6ExtHeaderType : Type := string.

Record PacketInfo : Type := mkPacketInfo {
  pi_SrcMAC : string;
  pi_DstMAC : string;
  pi_SrcIP : string;
  pi_DstIP : string;
  pi_Protocol : string;
  pi_SrcPort : Z;
  pi_DstPort : Z;
  pi_TCPFlags : TCPFlags;
  pi_ICMPType : option Z;
  pi_ICMPCode : option Z;
  pi_Fragment : FragmentInfo;
  pi_PacketSize : Z;
  pi_IPv6ExtHeaders : list IPv6ExtHeaderType;
}.

(** Field updates of a [*PacketInfo]. *)
Definition set_Protocol (p : string) (i : PacketInfo) : PacketInfo :=
  mkPacketInfo (pi_SrcMAC i) (pi_DstMAC i) (pi_SrcIP i) (pi_DstIP i) p
    (pi_SrcPort i) (pi_DstPort i) (pi_TCPFlags i) (pi_ICMPType i) (pi_ICMPCode i)
    (pi_Fragment i) (pi_PacketSize i) (pi_IPv6ExtHeaders i).

Definition set_L4Incomplete (i : PacketInfo) : PacketInfo :=
  let f := pi_Fragment i in
  mkPacketInfo (pi_SrcMAC i) (pi_DstMAC i) (pi_SrcIP i) (pi_DstIP i) (pi_Protocol i)
    (pi_SrcPort i) (pi_DstPort i) (pi_TCPFlags i) (pi_ICMPType i) (pi_ICMPCode i)
    (mkFragmentInfo (IsFragment f) (MoreFragments f) (Offset f) true)
    (pi_PacketSize i) (pi_IPv6ExtHeaders i).

Definition set_ports (sp dp : Z) (i : PacketInfo) : PacketInfo :=
  mkPacketInfo (pi_SrcMAC i) (pi_DstMAC i) (pi_SrcIP i) (pi_DstIP i) (pi_Protocol i)
    sp dp (pi_TCPFlags i) (pi_ICMPType i) (pi_ICMPCode i)
    (pi_Fragment i) (pi_PacketSize i) (pi_IPv6ExtHeaders i).

Definition set_TCPFlags (fl : TCPFlags) (i : PacketInfo) : PacketInfo :=
  mkPacketInfo (pi_SrcMAC i) (pi_DstMAC i) (pi_SrcIP i) (pi_DstIP i) (pi_Protocol i)
    (pi_SrcPort i) (pi_DstPort i) fl (pi_ICMPType i) (pi_ICMPCode i)
    (pi_Fragment i) (pi_PacketSize i) (pi_IPv6ExtHeaders i).

Definition set_ICMP (t c : Z) (i : PacketInfo) : PacketInfo :=
  mkPacketInfo (pi_SrcMAC i) (pi_DstMAC i) (pi_SrcIP i) (pi_DstIP i) (pi_Protocol i)
    (pi_SrcPort i) (pi_DstPort i) (pi_TCPFlags i) (Some t) (Some c)
    (pi_Fragment i) (pi_PacketSize i) (pi_IPv6ExtHeaders i).

(** ** Protocol numbers *)
Definition IPProtocolICMPv4 : Z := 1.
Definition IPProtocolTCP : Z := 6.
Definition IPProtocolUDP : Z := 17.
Definition IPProtocolICMPv6 : Z := 58.
Definition IPProtocolIPv6HopByHop : Z := 0.
Definition IPProtocolIPv6Routing : Z := 43.
Definition IPProtocolIPv6Fragment : Z := 44.
Definition IPProtocolIPv6Destination : Z := 60.

Definition extHeaderTypes (proto : Z) : option IPv6ExtHeaderType :=
  if proto =? IPProtocolIPv6HopByHop then Some "HopByHop"
  else if proto =? IPProtocolIPv6Routing then Some "Routing"
  else if proto =? IPProtocolIPv6Fragment then Some "Fragment"
  else if proto =? IPProtocolIPv6Destination then Some "Destination"
  else None.

Definition ipv4HeaderLen : Z := 20.
Definition ipv6HeaderLen : Z := 40.
Definition ipv6FragmentHeaderLen : Z := 8.
Definition tcpMinHeaderLen : Z := 20.
Definition udpHeaderLen : Z := 8.
Definition icmpMinHeaderLen : Z := 4.

Definition protocolName (proto : Z) : string :=
  if proto =? IPProtocolTCP then "TCP"
  else if proto =? IPProtocolUDP then "UDP"
  else if proto =? IPProtocolICMPv4 then "ICMP"
  else if proto =? IPProtocolICMPv6 then "ICMPv6"
  else "IP-" +:+ pretty proto.

(** ** The IPv6 header chain *)
Record ipv6HeaderChain : Type := mkChain {
  L4Proto : Z;
  L4Offset : Z;
  ExtHeaders : list IPv6ExtHeaderType;
  ch_Fragment : FragmentInfo;
}.

Definition set_L4Proto (p : Z) (c : ipv6HeaderChain) : ipv6HeaderChain :=
  mkChain p (L4Offset c) (ExtHeaders c) (ch_Fragment c).
Definition set_L4Offset (o : Z) (c : ipv6HeaderChain) : ipv6HeaderChain :=
  mkChain (L4Proto c) o (ExtHeaders c) (ch_Fragment c).
Definition add_ExtHeader (n : IPv6ExtHeaderType) (c : ipv6HeaderChain) : ipv6HeaderChain :=
  mkChain (L4Proto c) (L4Offset c) (ExtHeaders c ++ [n]) (ch_Fragment c).
Definition set_Fragment (f : FragmentInfo) (c : ipv6HeaderChain) : ipv6HeaderChain :=
  mkChain (L4Proto c) (L4Offset c) (ExtHeaders c) f.

(** The [for] loop of [walkIPv6HeaderChain]. *)
Fixpoint walk_loop (fuel : nat) (raw : list byte) (chain : ipv6HeaderChain) (proto off : Z)
  : res ipv6HeaderChain :=
  match fuel with
  | O => Panic "header chain walk out of fuel"
  | S fuel' =>
      match extHeaderTypes proto with
      | None =>
          let chain := set_L4Proto proto chain in
          Ok (if off <? zlen raw then set_L4Offset off chain else chain)
      | Some name =>
          if zlen raw <=? off then Ok (set_L4Proto proto chain)
          else
            let chain := add_ExtHeader name chain in
            let* next := idx raw off in
            if proto =? IPProtocolIPv6Fragment then
              if zlen raw <? off + ipv6FragmentHeaderLen then Ok (set_L4Proto proto chain)
              else
                let* flagsOffset := u16be raw (off + 2) in
                let frag := mkFragmentInfo true (Z.land flagsOffset 1 =? 1)
                              (Z.shiftr flagsOffset 3) false in
                let chain := set_Fragment frag chain in
                if 0 <? Offset frag then Ok (set_L4Proto next chain)
                else walk_loop fuel' raw chain next (off + ipv6FragmentHeaderLen)
            else if zlen raw <? off + 2 then Ok (set_L4Proto proto chain)
            else
              let* hel := idx raw (off + 1) in
              let hlen := (hel + 1) * 8 in
              walk_loop fuel' raw chain next (off + hlen)
      end
  end.

Definition walkIPv6HeaderChain (raw : list byte) (first : Z) : res ipv6HeaderChain :=
  walk_loop (S (length raw)) raw (mkChain first (-1) [] noFragment) first ipv6HeaderLen.

(** ** The L4 header *)
Definition populateL4FromBytes (info : PacketInfo) (raw : list byte) (off proto : Z)
  : res PacketInfo :=
  let info := set_Protocol (protocolName proto) info in
  if off <? 0 then Ok info
  else if proto =? IPProtocolTCP then
    if zlen raw <? off + tcpMinHeaderLen then Ok (set_L4Incomplete info)
    else
      let* sp := u16be raw off in
      let* dp := u16be raw (off + 2) in
      let* flags := idx raw (off + 13) in
      Ok (set_TCPFlags (mkTCPFlags (negb (Z.land flags 0x02 =? 0)) (negb (Z.land flags 0x10 =? 0))
                                   (negb (Z.land flags 0x04 =? 0)) (negb (Z.land flags 0x01 =? 0)))
            (set_ports sp dp info))
  else if proto =? IPProtocolUDP then
    if zlen raw <? off + udpHeaderLen then Ok (set_L4Incomplete info)
    else
      let* sp := u16be raw off in
      let* dp := u16be raw (off + 2) in
      Ok (set_ports sp dp info)
  else if (proto =? IPProtocolICMPv4) || (proto =? IPProtocolICMPv6) then
    if zlen raw <? off + icmpMinHeaderLen then Ok (set_L4Incomplete info)
    else
      let* t := idx raw off in
      let* c := idx raw (off + 1) in
      Ok (set_ICMP t c info)
  else Ok info.

(** ** The decoder library

    [gopacket.NewPacket] returns a packet object with typed layers. *)
Inductive LayerType : Type := LayerTypeIPv4 | LayerTypeIPv6 | LayerTypeEthernet.

Record IPv4 : Type := mkIPv4 {
  v4_SrcIP : list Z; v4_DstIP : list Z;
  v4_Protocol : Z; v4_Flags : Z; v4_FragOffset : Z; v4_IHL : Z;
}.
Record IPv6 : Type := mkIPv6 { v6_SrcIP : list Z; v6_DstIP : list Z; v6_NextHeader : Z }.
Record Ethernet : Type := mkEthernet { eth_SrcMAC : list Z; eth_DstMAC : list Z }.

Inductive layer : Type :=
| L_IPv4 (l : IPv4)
| L_IPv6 (l : IPv6)
| L_Ethernet (l : Ethernet)
| L_Other.

Record DecodedPacket : Type := mkDecoded {
  Layer : LayerType -> option layer;
  Data : list byte;
}.

Definition IPv4MoreFragments : Z := 1.

Definition extractMAC (packet : DecodedPacket) : string * string :=
  match Layer packet LayerTypeEthernet with
  | Some (L_Ethernet eth) => (MAC_String (eth_SrcMAC eth), MAC_String (eth_DstMAC eth))
  | _ => ("", "")
  end.

Section parse.
Context (NewPacket : list byte -> LayerType -> option DecodedPacket).

Definition parseIPv4Packet (raw : list byte) : res PacketInfo :=
  if zlen raw <? 20 then Err ("IPv4 packet too short: " +:+ pretty (zlen raw) +:+ " bytes")
  else match NewPacket raw LayerTypeIPv4 with
  | None => Err "failed to decode IPv4 packet"
  | Some packet =>
      match Layer packet LayerTypeIPv4 with
      | None => Err "no IPv4 layer found"
      | Some (L_IPv4 ipv4) =>
          let '(srcMAC, dstMAC) := extractMAC packet in
          let mf := negb (Z.land (v4_Flags ipv4) IPv4MoreFragments =? 0) in
          let info := mkPacketInfo srcMAC dstMAC
                        (IP_String (v4_SrcIP ipv4)) (IP_String (v4_DstIP ipv4)) ""
                        0 0 noFlags None None
                        (mkFragmentInfo ((0 <? v4_FragOffset ipv4) || mf) mf
                           (v4_FragOffset ipv4) false)
                        (zlen (Data packet)) [] in
          if 0 <? v4_FragOffset ipv4 then
            Ok (set_Protocol (protocolName (v4_Protocol ipv4)) info)
          else
            let l4Off := v4_IHL ipv4 * 4 in
            if l4Off <? ipv4HeaderLen then
              Ok (set_L4Incomplete (set_Protocol (protocolName (v4_Protocol ipv4)) info))
            else populateL4FromBytes info raw l4Off (v4_Protocol ipv4)
      | Some _ => Err "failed to cast IPv4 layer"
      end
  end.

Definition parseIPv6Packet (raw : list byte) : res PacketInfo :=
  if zlen raw <? 40 then Err ("IPv6 packet too short: " +:+ pretty (zlen raw) +:+ " bytes")
  else match NewPacket raw LayerTypeIPv6 with
  | None => Err "failed to decode IPv6 packet"
  | Some packet =>
      match Layer packet LayerTypeIPv6 with
      | None => Err "no IPv6 layer found"
      | Some (L_IPv6 ipv6) =>
          let* chain := walkIPv6HeaderChain raw (v6_NextHeader ipv6) in
          let '(srcMAC, dstMAC) := extractMAC packet in
          let info := mkPacketInfo srcMAC dstMAC
                        (IP_String (v6_SrcIP ipv6)) (IP_String (v6_DstIP ipv6)) ""
                        0 0 noFlags None None (ch_Fragment chain)
                        (zlen (Data packet)) (ExtHeaders chain) in
          populateL4FromBytes info raw (L4Offset chain) (L4Proto chain)
      | Some _ => Err "failed to cast IPv6 layer"
      end
  end.

Definition ParsePacket (raw : list byte) : res PacketInfo :=
  if zlen raw <? 1 then Err ("packet too short: " +:+ pretty (zlen raw) +:+ " bytes")
  else
    let* b0 := idx raw 0 in
    let version := Z.shiftr b0 4 in
    if version =? 4 then parseIPv4Packet raw
    else if version =? 6 then parseIPv6Packet raw
    else Err ("unsupported IP version: " +:+ pretty version).
End parse.
