(* ===== verification/PacketFacts.v ===== *)
(** * Theorems on package [packet]

    Byte reads stay in range, the extension-header walk recovers exactly what
    the headers encode, and the reported L4 fields are the bytes the
    destination acts on. *)
From S2P Require Import Prelude GoNet GoNetFacts Packet.
From Stdlib Require Import ZArith Lia ZifyBool Strings.Byte.
From stdpp Require Import base list strings pretty.

Local Open Scope Z_scope.

(** ** Reading bytes *)
Lemma b2z_range b : 0 <= b2z b < 256.
Proof. unfold b2z. pose proof (Byte.to_N_bounded b). lia. Qed.

Lemma zlen_app l1 l2 : zlen (l1 ++ l2) = zlen l1 + zlen l2.
Proof. unfold zlen. rewrite length_app. lia. Qed.

Lemma zlen_cons b l : zlen (b :: l) = 1 + zlen l.
Proof. unfold zlen. simpl. lia. Qed.

Lemma zlen_nonneg l : 0 <= zlen l.
Proof. unfold zlen. lia. Qed.

Lemma idx_ok raw i : 0 <= i < zlen raw -> exists v, idx raw i = Ok v /\ 0 <= v < 256.
Proof.
  unfold idx, zlen. intros Hi. destruct (Z.ltb_spec i 0); [lia |].
  destruct (lookup_lt_is_Some_2 raw (Z.to_nat i)) as [b ->]; [lia |].
  eexists. split; [done | apply b2z_range].
Qed.

Lemma u16be_ok raw i : 0 <= i -> i + 1 < zlen raw ->
  exists v, u16be raw i = Ok v /\ 0 <= v < 65536.
Proof.
  intros H1 H2. unfold u16be.
  destruct (idx_ok raw i) as (a & -> & Ha); [lia |].
  destruct (idx_ok raw (i + 1)) as (b & -> & Hb); [lia |]. simpl.
  eexists. split; [done | lia].
Qed.

Lemma idx_range raw i v : idx raw i = Ok v -> 0 <= v < 256.
Proof. unfold idx. intros H. repeat case_match; simplify_eq. apply b2z_range. Qed.

Lemma u16be_range raw i v : u16be raw i = Ok v -> 0 <= v < 65536.
Proof.
  unfold u16be. intros (a & Ha%idx_range & H)%res_bind_ok.
  apply res_bind_ok in H as (b & Hb%idx_range & [= <-]). lia.
Qed.

Lemma idx_app pre l k : 0 <= k -> idx (pre ++ l) (zlen pre + k) = idx l k.
Proof.
  intros Hk. unfold idx, zlen.
  destruct (Z.ltb_spec (Z.of_nat (length pre) + k) 0); [lia |].
  destruct (Z.ltb_spec k 0); [lia |].
  rewrite lookup_app_r by lia.
  by replace (Z.to_nat (Z.of_nat (length pre) + k) - length pre)%nat with (Z.to_nat k) by lia.
Qed.

Lemma idx_app_0 pre l : idx (pre ++ l) (zlen pre) = idx l 0.
Proof. rewrite <-(idx_app pre l 0) by lia. f_equal. lia. Qed.

Lemma u16be_app pre l k : 0 <= k -> u16be (pre ++ l) (zlen pre + k) = u16be l k.
Proof.
  intros Hk. unfold u16be.
  rewrite <-Z.add_assoc, !idx_app by lia. done.
Qed.

(** ** No read is out of range *)
Lemma walk_loop_ok fuel raw chain proto off :
  0 <= off -> 0 < Z.of_nat fuel -> zlen raw - off < Z.of_nat fuel ->
  exists c, walk_loop fuel raw chain proto off = Ok c /\
    (L4Offset c = L4Offset chain \/ 0 <= L4Offset c < zlen raw).
Proof.
  revert chain proto off. induction fuel as [|fuel IH]; intros chain proto off Ho Hf Hm; [lia |].
  cbn [walk_loop]. destruct (extHeaderTypes proto) as [name|].
  2:{ eexists. split; [done |]. destruct (Z.ltb_spec off (zlen raw)); simpl; [right; lia | by left]. }
  destruct (Z.leb_spec (zlen raw) off); [eexists; split; [done | by left] |].
  destruct (idx_ok raw off) as (next & -> & Hn); [lia |]. cbn [res_bind].
  destruct (proto =? IPProtocolIPv6Fragment).
  - unfold ipv6FragmentHeaderLen. destruct (Z.ltb_spec (zlen raw) (off + 8)).
    { eexists; split; [done | by left]. }
    destruct (u16be_ok raw (off + 2)) as (fo & -> & Hfo); [lia | lia |]. cbn [res_bind].
    destruct (0 <? _); [eexists; split; [done | by left] |].
    edestruct IH as (c & -> & Hc); [..|by exists c]; lia.
  - destruct (Z.ltb_spec (zlen raw) (off + 2)); [eexists; split; [done | by left] |].
    destruct (idx_ok raw (off + 1)) as (hel & -> & Hhel); [lia |]. cbn [res_bind].
    edestruct IH as (c & -> & Hc); [..|by exists c]; lia.
Qed.

Lemma walkIPv6HeaderChain_ok raw first :
  exists c, walkIPv6HeaderChain raw first = Ok c /\
    (L4Offset c = -1 \/ 0 <= L4Offset c < zlen raw).
Proof.
  unfold walkIPv6HeaderChain. apply walk_loop_ok; unfold ipv6HeaderLen, zlen; lia.
Qed.

Lemma populateL4_no_panic info raw off proto :
  no_panic (populateL4FromBytes info raw off proto).
Proof.
  unfold populateL4FromBytes, tcpMinHeaderLen, udpHeaderLen, icmpMinHeaderLen.
  destruct (Z.ltb_spec off 0); [done |].
  destruct (_ =? IPProtocolTCP).
  { destruct (Z.ltb_spec (zlen raw) (off + 20)); [done |].
    destruct (u16be_ok raw off) as (? & -> & _); [lia | lia |].
    destruct (u16be_ok raw (off + 2)) as (? & -> & _); [lia | lia |].
    by destruct (idx_ok raw (off + 13)) as (? & -> & _); [lia |]. }
  destruct (_ =? IPProtocolUDP).
  { destruct (Z.ltb_spec (zlen raw) (off + 8)); [done |].
    destruct (u16be_ok raw off) as (? & -> & _); [lia | lia |].
    by destruct (u16be_ok raw (off + 2)) as (? & -> & _); [lia | lia |]. }
  destruct (_ || _); [|done].
  destruct (Z.ltb_spec (zlen raw) (off + 4)); [done |].
  destruct (idx_ok raw off) as (? & -> & _); [lia |].
  by destruct (idx_ok raw (off + 1)) as (? & -> & _); [lia |].
Qed.

Lemma parseIPv4Packet_no_panic NewPacket raw : no_panic (parseIPv4Packet NewPacket raw).
Proof.
  unfold parseIPv4Packet. destruct (_ <? _); [done |].
  destruct (NewPacket _ _) as [p|]; [|done].
  destruct (Layer _ _) as [[ipv4| | |]|]; try done.
  destruct (extractMAC p). destruct (_ <? _); [done |]. destruct (_ <? _); [done |].
  apply populateL4_no_panic.
Qed.

Lemma parseIPv6Packet_no_panic NewPacket raw : no_panic (parseIPv6Packet NewPacket raw).
Proof.
  unfold parseIPv6Packet. destruct (_ <? _); [done |].
  destruct (NewPacket _ _) as [p|]; [|done].
  destruct (Layer _ _) as [[ |ipv6| |]|]; try done.
  destruct (walkIPv6HeaderChain_ok raw (v6_NextHeader ipv6)) as (c & -> & _). cbn [res_bind].
  destruct (extractMAC p). apply populateL4_no_panic.
Qed.

Lemma parse_no_panic NewPacket raw : no_panic (ParsePacket NewPacket raw).
Proof.
  unfold ParsePacket. destruct (Z.ltb_spec (zlen raw) 1); [done |].
  destruct (idx_ok raw 0) as (b0 & -> & _); [lia |]. cbn [res_bind].
  destruct (_ =? 4); [apply parseIPv4Packet_no_panic |].
  destruct (_ =? 6); [apply parseIPv6Packet_no_panic | done].
Qed.

(** ** Encoded header chains

    An abstract IPv6 header chain and its bytes on the wire (RFC 8200): option
    headers carry a length in 8-byte units after the first eight bytes, the
    Fragment header of a first fragment has offset zero. *)
Inductive OptKind : Type := KHopByHop | KRouting | KDestination.

Inductive ExtHdr : Type :=
| Opt (k : OptKind) (hel : byte) (body : list byte)
| Frag0 (reserved lo : byte) (ident : list byte).

Definition ext_valid (e : ExtHdr) : Prop :=
  match e with
  | Opt _ hel body => zlen body = 6 + 8 * b2z hel
  | Frag0 _ lo ident => b2z lo < 8 /\ zlen ident = 4
  end.

Definition ext_number (e : ExtHdr) : Z :=
  match e with
  | Opt KHopByHop _ _ => IPProtocolIPv6HopByHop
  | Opt KRouting _ _ => IPProtocolIPv6Routing
  | Opt KDestination _ _ => IPProtocolIPv6Destination
  | Frag0 _ _ _ => IPProtocolIPv6Fragment
  end.

Definition ext_name (e : ExtHdr) : IPv6ExtHeaderType :=
  match e with
  | Opt KHopByHop _ _ => "HopByHop"
  | Opt KRouting _ _ => "Routing"
  | Opt KDestination _ _ => "Destination"
  | Frag0 _ _ _ => "Fragment"
  end.

Definition z2b (z : Z) : byte := default x00 (Byte.of_N (Z.to_N z)).

Lemma b2z_z2b z : 0 <= z < 256 -> b2z (z2b z) = z.
Proof.
  intros Hz. unfold b2z, z2b. destruct (Byte.of_N (Z.to_N z)) as [b|] eqn:E; simpl.
  - apply Byte.to_of_N in E. lia.
  - apply Byte.of_N_None_iff in E. lia.
Qed.

(** The number that announces the rest of a chain. *)
Definition first_number (exts : list ExtHdr) (l4 : Z) : Z :=
  match exts with [] => l4 | e :: _ => ext_number e end.

Definition ext_bytes (e : ExtHdr) (next : Z) : list byte :=
  match e with
  | Opt _ hel body => z2b next :: hel :: body
  | Frag0 reserved lo ident => z2b next :: reserved :: x00 :: lo :: ident
  end.

Fixpoint encode_chain (exts : list ExtHdr) (l4 : Z) : list byte :=
  match exts with
  | [] => []
  | e :: exts' => ext_bytes e (first_number exts' l4) ++ encode_chain exts' l4
  end.

Definition ext_fragment (f : FragmentInfo) (e : ExtHdr) : FragmentInfo :=
  match e with
  | Opt _ _ _ => f
  | Frag0 _ lo _ => mkFragmentInfo true (Z.land (b2z lo) 1 =? 1) 0 false
  end.

Lemma first_number_range exts l4 : 0 <= l4 < 256 -> 0 <= first_number exts l4 < 256.
Proof. intros H. destruct exts as [|[[]|] ?]; cbn; first [exact H | done]. Qed.

Lemma extHeaderTypes_ext e : extHeaderTypes (ext_number e) = Some (ext_name e).
Proof. destruct e as [[]|]; done. Qed.

(** One round of the walk consumes one encoded header. *)
Lemma walk_loop_ext fuel pre e next rest chain :
  ext_valid e -> 0 <= next < 256 ->
  walk_loop (S fuel) (pre ++ ext_bytes e next ++ rest) chain (ext_number e) (zlen pre) =
  walk_loop fuel (pre ++ ext_bytes e next ++ rest)
    (mkChain (L4Proto chain) (L4Offset chain) (ExtHeaders chain ++ [ext_name e])
       (ext_fragment (ch_Fragment chain) e))
    next (zlen (pre ++ ext_bytes e next)).
Proof.
  intros Hv Hn. cbn [walk_loop]. rewrite extHeaderTypes_ext, !zlen_app.
  pose proof (zlen_nonneg pre). pose proof (zlen_nonneg rest).
  destruct e as [k hel body|reserved lo ident]; cbn [ext_bytes ext_valid] in *.
  - rewrite !zlen_cons. pose proof (b2z_range hel).
    destruct (Z.leb_spec (zlen pre + (1 + (1 + zlen body) + zlen rest)) (zlen pre)); [lia |].
    rewrite idx_app_0. cbn [app]. change (idx (z2b next :: _) 0) with (Ok (b2z (z2b next))).
    rewrite b2z_z2b by done. cbn [res_bind].
    replace (ext_number _ =? IPProtocolIPv6Fragment) with false by (by destruct k).
    destruct (Z.ltb_spec (zlen pre + (1 + (1 + zlen body) + zlen rest)) (zlen pre + 2)); [lia |].
    rewrite idx_app by lia. change (idx (_ :: hel :: _) 1) with (Ok (b2z hel)). cbn [res_bind].
    replace (zlen pre + (b2z hel + 1) * 8) with (zlen pre + (1 + (1 + zlen body))) by lia. done.
  - destruct Hv as [Hlo Hid]. rewrite !zlen_cons. pose proof (b2z_range lo).
    destruct (Z.leb_spec (zlen pre + (1 + (1 + (1 + (1 + zlen ident))) + zlen rest)) (zlen pre)); [lia |].
    rewrite idx_app_0. cbn [app]. change (idx (z2b next :: _) 0) with (Ok (b2z (z2b next))).
    rewrite b2z_z2b by done. cbn [res_bind]. cbn [ext_number].
    change (IPProtocolIPv6Fragment =? IPProtocolIPv6Fragment) with true. cbv iota.
    unfold ipv6FragmentHeaderLen.
    destruct (Z.ltb_spec (zlen pre + (1 + (1 + (1 + (1 + zlen ident))) + zlen rest)) (zlen pre + 8)); [lia |].
    rewrite u16be_app by lia. change (u16be (_ :: _ :: x00 :: lo :: _) 2) with (Ok (0 * 256 + b2z lo)).
    cbn [res_bind]. replace (0 * 256 + b2z lo) with (b2z lo) by lia.
    assert (Z.shiftr (b2z lo) 3 = 0) as Hs by (rewrite Z.shiftr_div_pow2 by lia; apply Z.div_small; lia).
    cbn [Offset]. rewrite Hs. cbn [Z.ltb Z.compare].
    replace (zlen pre + 8) with (zlen pre + (1 + (1 + (1 + (1 + zlen ident))))) by lia. done.
Qed.

Lemma walk_loop_chain exts pre l4 payload chain fuel :
  extHeaderTypes l4 = None -> 0 <= l4 < 256 -> Forall ext_valid exts -> payload <> [] ->
  (length exts < fuel)%nat ->
  walk_loop fuel (pre ++ encode_chain exts l4 ++ payload) chain (first_number exts l4) (zlen pre) =
  Ok (mkChain l4 (zlen (pre ++ encode_chain exts l4)) (ExtHeaders chain ++ (ext_name <$> exts))
        (foldl ext_fragment (ch_Fragment chain) exts)).
Proof.
  intros Hl4 Hr Hok Hp. revert pre chain fuel.
  induction Hok as [|e exts He Hok IH]; intros pre chain fuel Hf.
  - destruct fuel as [|fuel]; [simpl in *; lia |]. cbn [walk_loop encode_chain first_number app].
    rewrite Hl4, zlen_app. destruct payload as [|b payload]; [done |].
    rewrite zlen_cons. pose proof (zlen_nonneg payload).
    destruct (Z.ltb_spec (zlen pre) (zlen pre + (1 + zlen payload))); [|lia].
    by rewrite !app_nil_r.
  - destruct fuel as [|fuel]; [simpl in *; lia |].
    cbn [encode_chain]. change (first_number (e :: exts) l4) with (ext_number e).
    rewrite <-app_assoc, walk_loop_ext; [|done|by apply first_number_range].
    rewrite (app_assoc pre (ext_bytes _ _)).
    rewrite IH by (simpl in *; lia). cbn [ExtHeaders ch_Fragment].
    by rewrite <-!app_assoc.
Qed.

Lemma length_encode_chain exts l4 :
  Forall ext_valid exts -> (length exts <= length (encode_chain exts l4))%nat.
Proof.
  induction 1 as [|e exts He Hok IH]; [done |]. cbn [encode_chain]. rewrite length_app.
  destruct e; simpl; lia.
Qed.

(** The walk inverts the encoding of a header chain: it resolves the L4
    protocol, the offset of the L4 header and the names of the headers. *)
Lemma walk_inverts hdr exts l4 payload :
  zlen hdr = ipv6HeaderLen -> extHeaderTypes l4 = None -> 0 <= l4 < 256 ->
  Forall ext_valid exts -> payload <> [] ->
  walkIPv6HeaderChain (hdr ++ encode_chain exts l4 ++ payload) (first_number exts l4) =
  Ok (mkChain l4 (ipv6HeaderLen + zlen (encode_chain exts l4)) (ext_name <$> exts)
        (foldl ext_fragment noFragment exts)).
Proof.
  intros Hh Hl4 Hr Hok Hp. unfold walkIPv6HeaderChain. rewrite <-Hh.
  rewrite walk_loop_chain; [by rewrite zlen_app |done|done|done|done|].
  rewrite !length_app. pose proof (length_encode_chain exts l4 Hok). lia.
Qed.

(** ** The L4 header a destination reads *)

(** The fields the policy keys on. *)
Record L4View : Type := mkL4View {
  lv_Protocol : string;
  lv_SrcPort : Z;
  lv_DstPort : Z;
  lv_Flags : TCPFlags;
  lv_ICMPType : option Z;
  lv_ICMPCode : option Z;
  lv_Incomplete : bool;
}.

Definition l4_view (i : PacketInfo) : L4View :=
  mkL4View (pi_Protocol i) (pi_SrcPort i) (pi_DstPort i) (pi_TCPFlags i)
    (pi_ICMPType i) (pi_ICMPCode i) (L4Incomplete (pi_Fragment i)).

Definition blank_view (p : string) (incomplete : bool) : L4View :=
  mkL4View p 0 0 noFlags None None incomplete.

(** Byte [k] of a segment. *)
Definition rd (raw : list byte) (k : nat) : Z :=
  match raw !! k with Some b => b2z b | None => 0 end.

(** RFC 9293, 768, 792 and 4443: the header of a segment, read from its start. *)
Definition l4_decode (proto : Z) (seg : list byte) : L4View :=
  let name := protocolName proto in
  if proto =? 6 then
    if zlen seg <? 20 then blank_view name true
    else mkL4View name (rd seg 0 * 256 + rd seg 1) (rd seg 2 * 256 + rd seg 3)
           (mkTCPFlags (Z.testbit (rd seg 13) 1) (Z.testbit (rd seg 13) 4)
                       (Z.testbit (rd seg 13) 2) (Z.testbit (rd seg 13) 0))
           None None false
  else if proto =? 17 then
    if zlen seg <? 8 then blank_view name true
    else mkL4View name (rd seg 0 * 256 + rd seg 1) (rd seg 2 * 256 + rd seg 3)
           noFlags None None false
  else if (proto =? 1) || (proto =? 58) then
    if zlen seg <? 4 then blank_view name true
    else mkL4View name 0 0 noFlags (Some (rd seg 0)) (Some (rd seg 1)) false
  else blank_view name false.

Lemma idx_rd raw k : Z.of_nat k < zlen raw -> idx raw (Z.of_nat k) = Ok (rd raw k).
Proof.
  unfold idx, rd, zlen. intros Hk. destruct (Z.ltb_spec (Z.of_nat k) 0); [lia |].
  rewrite Nat2Z.id. destruct (lookup_lt_is_Some_2 raw k) as [b ->]; [lia | done].
Qed.

Lemma idx_drop raw off (k : nat) :
  0 <= off -> off + Z.of_nat k < zlen raw ->
  idx raw (off + Z.of_nat k) = Ok (rd (drop (Z.to_nat off) raw) k).
Proof.
  intros Ho Hk. replace (off + Z.of_nat k) with (Z.of_nat (Z.to_nat off + k)) in * by lia.
  rewrite idx_rd by lia. unfold rd. by rewrite lookup_drop.
Qed.

Lemma u16be_drop raw off (k : nat) :
  0 <= off -> off + Z.of_nat k + 1 < zlen raw ->
  u16be raw (off + Z.of_nat k) =
  Ok (rd (drop (Z.to_nat off) raw) k * 256 + rd (drop (Z.to_nat off) raw) (S k)).
Proof.
  intros Ho Hk. unfold u16be. rewrite idx_drop by lia. cbn [res_bind].
  replace (off + Z.of_nat k + 1) with (off + Z.of_nat (S k)) by lia.
  by rewrite idx_drop by lia.
Qed.

Lemma zlen_drop raw off : 0 <= off ->
  zlen (drop (Z.to_nat off) raw) = Z.max 0 (zlen raw - off).
Proof. intros. unfold zlen. rewrite length_drop. lia. Qed.

Lemma zlen_drop_ltb raw off n : 0 <= off -> 0 < n ->
  (zlen raw <? off + n) = (zlen (drop (Z.to_nat off) raw) <? n).
Proof. intros. rewrite zlen_drop by done. lia. Qed.

Lemma flag_testbit x n : 0 <= n -> negb (Z.land x (2 ^ n) =? 0) = Z.testbit x n.
Proof.
  intros Hn. rewrite <-Z.shiftl_1_l.
  destruct (Z.testbit x n) eqn:E.
  - apply negb_true_iff, Z.eqb_neq. intros H.
    assert (Z.testbit (Z.land x (Z.shiftl 1 n)) n = true) as Ht.
    { rewrite Z.land_spec, E, Z.shiftl_spec by done. by rewrite Z.sub_diag. }
    by rewrite H, Z.bits_0 in Ht.
  - apply negb_false_iff, Z.eqb_eq. apply Z.bits_inj'. intros m Hm.
    rewrite Z.land_spec, Z.shiftl_spec, Z.bits_0 by done.
    destruct (decide (m = n)) as [->|Hne]; [by rewrite E |].
    destruct (Z.ltb_spec m n); [by rewrite (Z.testbit_neg_r 1), andb_false_r by lia |].
    rewrite (Z.bits_above_log2 1 (m - n)) by (simpl; lia). apply andb_false_r.
Qed.

(** An info whose L4 fields nothing has filled yet. *)
Definition l4_blank (i : PacketInfo) : Prop :=
  l4_view i = blank_view (pi_Protocol i) false.

(** [populateL4FromBytes] reads exactly the header at its offset, and reports
    nothing else. *)
Lemma populateL4_spec info raw off proto :
  0 <= off -> l4_blank info ->
  exists i, populateL4FromBytes info raw off proto = Ok i /\
    l4_view i = l4_decode proto (drop (Z.to_nat off) raw) /\
    (IsFragment (pi_Fragment i), Offset (pi_Fragment i), pi_IPv6ExtHeaders i) =
    (IsFragment (pi_Fragment info), Offset (pi_Fragment info), pi_IPv6ExtHeaders info).
Proof.
  intros Ho Hb. destruct info as [? ? ? ? ? sp dp fl ty co [isf mf fo inc] ? ?].
  unfold l4_blank, l4_view, blank_view in Hb. simpl in Hb. injection Hb as -> -> -> -> -> ->.
  unfold populateL4FromBytes, l4_decode, tcpMinHeaderLen, udpHeaderLen, icmpMinHeaderLen.
  unfold IPProtocolTCP, IPProtocolUDP, IPProtocolICMPv4, IPProtocolICMPv6.
  destruct (Z.ltb_spec off 0); [lia |]. rewrite !zlen_drop_ltb by lia.
  set (seg := drop (Z.to_nat off) raw).
  assert (0 < zlen seg -> zlen seg = zlen raw - off) as Hlen.
  { subst seg. rewrite zlen_drop by done. lia. }
  pose proof (u16be_drop raw off 0 Ho) as Hsp. pose proof (u16be_drop raw off 2 Ho) as Hdp.
  pose proof (idx_drop raw off 13 Ho) as Hfl. pose proof (idx_drop raw off 0 Ho) as Hty.
  pose proof (idx_drop raw off 1 Ho) as Hco. fold seg in Hsp, Hdp, Hfl, Hty, Hco.
  change (Z.of_nat 0) with 0 in *. change (Z.of_nat 1) with 1 in *.
  change (Z.of_nat 2) with 2 in *. change (Z.of_nat 13) with 13 in *.
  rewrite Z.add_0_r in Hsp, Hty.
  destruct (proto =? 6).
  { destruct (Z.ltb_spec (zlen seg) 20); [eexists; split_and!; done |].
    rewrite Hsp, Hdp, Hfl by lia. cbn [res_bind]. eexists. split; [done |]. split; [|done].
    rewrite <-!flag_testbit by lia. done. }
  destruct (proto =? 17).
  { destruct (Z.ltb_spec (zlen seg) 8); [eexists; split_and!; done |].
    rewrite Hsp, Hdp by lia. cbn [res_bind]. eexists. split_and!; done. }
  destruct (_ || _); [|eexists; split_and!; done].
  destruct (Z.ltb_spec (zlen seg) 4); [eexists; split_and!; done |].
  rewrite Hty, Hco by lia. cbn [res_bind]. eexists. split_and!; done.
Qed.

(** Addresses and size are never touched by the L4 step. *)
Lemma populateL4_addresses info raw off proto i :
  populateL4FromBytes info raw off proto = Ok i ->
  (pi_SrcIP i, pi_DstIP i, pi_PacketSize i) = (pi_SrcIP info, pi_DstIP info, pi_PacketSize info).
Proof.
  unfold populateL4FromBytes. intros H.
  repeat match type of H with
  | (if ?b then _ else _) = _ => destruct b
  | res_bind _ _ = _ => apply res_bind_ok in H as (? & ? & H)
  end; by simplify_eq.
Qed.

(** ** Fragments *)
Definition chain_sound (c : ipv6HeaderChain) : Prop :=
  0 <= Offset (ch_Fragment c) /\ L4Incomplete (ch_Fragment c) = false /\
  (0 < Offset (ch_Fragment c) -> L4Offset c = -1) /\ -1 <= L4Offset c.

Lemma walk_loop_sound fuel raw chain proto off c :
  0 <= off -> L4Offset chain = -1 -> Offset (ch_Fragment chain) = 0 ->
  L4Incomplete (ch_Fragment chain) = false ->
  walk_loop fuel raw chain proto off = Ok c -> chain_sound c.
Proof.
  revert chain proto off. induction fuel as [|fuel IH]; intros chain proto off Ho Hl Hf Hi H; [done |].
  assert (forall p e, chain_sound (set_L4Proto p (add_ExtHeader e chain)) /\
                      chain_sound (set_L4Proto p chain)) as Hstop.
  { intros p e. unfold chain_sound. simpl. lia. }
  cbn [walk_loop] in H. destruct (extHeaderTypes proto) as [name|].
  2:{ injection H as <-. destruct (off <? zlen raw); [|by apply (Hstop _ EmptyString)].
      unfold chain_sound. simpl. lia. }
  destruct (zlen raw <=? off); [injection H as <-; by apply (Hstop _ EmptyString) |].
  apply res_bind_ok in H as (next & Hnext & H).
  destruct (proto =? IPProtocolIPv6Fragment).
  - destruct (zlen raw <? off + ipv6FragmentHeaderLen); [injection H as <-; apply Hstop |].
    apply res_bind_ok in H as (fo & Hfo & H).
    apply u16be_range in Hfo.
    assert (0 <= Z.shiftr fo 3) as Hsh by (apply Z.shiftr_nonneg; lia).
    cbn [Offset] in H. destruct (Z.ltb_spec 0 (Z.shiftr fo 3)).
    + injection H as <-. unfold chain_sound. simpl. lia.
    + eapply IH; [..|exact H]; simpl; unfold ipv6FragmentHeaderLen; try done; lia.
  - destruct (zlen raw <? off + 2); [injection H as <-; apply Hstop |].
    apply res_bind_ok in H as (hel & Hhel & H).
    apply idx_range in Hhel.
    eapply IH; [..|exact H]; simpl; try done; lia.
Qed.

Lemma l4_decode_incomplete proto seg :
  lv_Incomplete (l4_decode proto seg) = true ->
  l4_decode proto seg = blank_view (protocolName proto) true.
Proof. unfold l4_decode. repeat case_bool; done. Qed.

Lemma l4_view_Protocol i v : l4_view i = v -> pi_Protocol i = lv_Protocol v.
Proof. by intros <-. Qed.

(** What every parsed packet satisfies. *)
Definition honest (i : PacketInfo) : Prop :=
  (0 < Offset (pi_Fragment i) -> l4_view i = blank_view (pi_Protocol i) false) /\
  (L4Incomplete (pi_Fragment i) = true ->
   l4_view i = blank_view (pi_Protocol i) true /\ ~ 0 < Offset (pi_Fragment i)).

Lemma populateL4_honest info raw off proto i :
  l4_blank info -> ~ (0 <= off /\ 0 < Offset (pi_Fragment info)) ->
  populateL4FromBytes info raw off proto = Ok i -> honest i.
Proof.
  intros Hb Hno H. destruct (decide (0 <= off)) as [Ho|Ho].
  - destruct (populateL4_spec info raw off proto Ho Hb) as (i' & Hi' & Hv & Hf).
    rewrite Hi' in H. injection H as <-. injection Hf as _ Hoff _.
    split; rewrite Hoff; [lia |]. intros Hinc. split; [|lia].
    rewrite (l4_view_Protocol _ _ Hv), Hv.
    change (L4Incomplete (pi_Fragment i')) with (lv_Incomplete (l4_view i')) in Hinc.
    rewrite Hv in Hinc. by rewrite (l4_decode_incomplete _ _ Hinc).
  - unfold populateL4FromBytes in H. destruct (Z.ltb_spec off 0); [|lia]. injection H as <-.
    destruct info as [? ? ? ? ? sp dp fl ty co [isf mf fo inc] ? ?].
    unfold l4_blank, l4_view, blank_view in Hb. simpl in Hb. injection Hb as -> -> -> -> -> ->.
    split; simpl; done.
Qed.

Lemma parseIPv4Packet_honest NewPacket raw i : parseIPv4Packet NewPacket raw = Ok i -> honest i.
Proof.
  unfold parseIPv4Packet. intros H. destruct (zlen raw <? 20); [done |].
  destruct (NewPacket _ _) as [p|]; [|done].
  destruct (Layer _ _) as [[ipv4| | |]|]; try done.
  destruct (extractMAC p) as [sm dm].
  destruct (Z.ltb_spec 0 (v4_FragOffset ipv4)); [injection H as <-; split; simpl; [done | done] |].
  destruct (_ <? ipv4HeaderLen); [injection H as <-; split; simpl; [lia | split; [done | lia]] |].
  eapply populateL4_honest; [| |exact H]; [done | simpl; lia].
Qed.

Lemma parseIPv6Packet_honest NewPacket raw i : parseIPv6Packet NewPacket raw = Ok i -> honest i.
Proof.
  unfold parseIPv6Packet. intros H. destruct (zlen raw <? 40); [done |].
  destruct (NewPacket _ _) as [p|]; [|done].
  destruct (Layer _ _) as [[ |ipv6| |]|]; try done.
  apply res_bind_ok in H as (chain & Hc & H). destruct (extractMAC p) as [sm dm].
  apply walk_loop_sound in Hc as (_ & Hinc & Hoff & _); [|unfold ipv6HeaderLen; lia|done..].
  eapply populateL4_honest; [| |exact H]; simpl.
  - unfold l4_blank, l4_view. simpl. by rewrite Hinc.
  - intros [? ?]. rewrite Hoff in *; lia.
Qed.

Lemma parse_honest NewPacket raw i : ParsePacket NewPacket raw = Ok i -> honest i.
Proof.
  unfold ParsePacket. intros H. destruct (zlen raw <? 1); [done |].
  apply res_bind_ok in H as (b0 & _ & H).
  destruct (_ =? 4); [by eapply parseIPv4Packet_honest |].
  destruct (_ =? 6); [by eapply parseIPv6Packet_honest | done].
Qed.

(** ** The decoder's contract

    What the parser relies on: the fixed header fields of RFC 791 and RFC 8200
    are those of the bytes, and the packet object keeps its data. *)
Definition ipv4_fields (raw : list byte) : IPv4 :=
  mkIPv4 (b2z <$> take 4 (drop 12 raw)) (b2z <$> take 4 (drop 16 raw))
    (rd raw 9) (Z.shiftr (rd raw 6) 5) (Z.land (rd raw 6 * 256 + rd raw 7) 8191)
    (Z.land (rd raw 0) 15).

Definition ipv6_fields (raw : list byte) : IPv6 :=
  mkIPv6 (b2z <$> take 16 (drop 8 raw)) (b2z <$> take 16 (drop 24 raw)) (rd raw 6).

Definition ip_version (raw : list byte) : Z := Z.shiftr (rd raw 0) 4.

Class GopacketSpec (NewPacket : list byte -> LayerType -> option DecodedPacket) : Prop := {
  gp_ipv4 raw : 20 <= zlen raw -> ip_version raw = 4 ->
    exists p, NewPacket raw LayerTypeIPv4 = Some p /\
      Layer p LayerTypeIPv4 = Some (L_IPv4 (ipv4_fields raw)) /\
      Data p = raw;
  gp_ipv6 raw : 40 <= zlen raw -> ip_version raw = 6 ->
    exists p, NewPacket raw LayerTypeIPv6 = Some p /\
      Layer p LayerTypeIPv6 = Some (L_IPv6 (ipv6_fields raw)) /\
      Data p = raw;
}.

(** A decoder that meets the contract. *)
Definition reference_decoder (raw : list byte) (first : LayerType) : option DecodedPacket :=
  Some (mkDecoded
    (fun t => match first, t with
              | LayerTypeIPv4, LayerTypeIPv4 => Some (L_IPv4 (ipv4_fields raw))
              | LayerTypeIPv6, LayerTypeIPv6 => Some (L_IPv6 (ipv6_fields raw))
              | _, _ => None
              end) raw).

#[export] Instance reference_decoder_spec : GopacketSpec reference_decoder.
Proof. split; intros; eexists; split_and!; done. Qed.

Section decoder.
Context NewPacket `{!GopacketSpec NewPacket}.

Lemma ParsePacket_v4 raw : 1 <= zlen raw -> ip_version raw = 4 ->
  ParsePacket NewPacket raw = parseIPv4Packet NewPacket raw.
Proof.
  intros Hl Hv. unfold ParsePacket. destruct (Z.ltb_spec (zlen raw) 1); [lia |].
  change 0 with (Z.of_nat 0) at 1. rewrite idx_rd by lia. cbn [res_bind]. unfold ip_version in Hv. by rewrite Hv.
Qed.

Lemma ParsePacket_v6 raw : 1 <= zlen raw -> ip_version raw = 6 ->
  ParsePacket NewPacket raw = parseIPv6Packet NewPacket raw.
Proof.
  intros Hl Hv. unfold ParsePacket. destruct (Z.ltb_spec (zlen raw) 1); [lia |].
  change 0 with (Z.of_nat 0) at 1. rewrite idx_rd by lia. cbn [res_bind]. unfold ip_version in Hv. by rewrite Hv.
Qed.

(** The IPv4 fragment fields do not enter the L4 view of a packet whose
    offset is zero. *)
Lemma parse_ipv4_l4 raw :
  20 <= zlen raw -> ip_version raw = 4 -> 5 <= v4_IHL (ipv4_fields raw) ->
  v4_FragOffset (ipv4_fields raw) = 0 ->
  exists i, ParsePacket NewPacket raw = Ok i /\
    l4_view i = l4_decode (rd raw 9) (drop (Z.to_nat (4 * v4_IHL (ipv4_fields raw))) raw) /\
    pi_SrcIP i = IP_String (v4_SrcIP (ipv4_fields raw)) /\
    pi_DstIP i = IP_String (v4_DstIP (ipv4_fields raw)) /\
    pi_PacketSize i = zlen raw.
Proof.
  intros Hl Hv Hihl Hfo. rewrite ParsePacket_v4 by (done || lia). unfold parseIPv4Packet.
  destruct (Z.ltb_spec (zlen raw) 20); [lia |].
  destruct (gp_ipv4 raw Hl Hv) as (p & -> & -> & Hd).
  destruct (extractMAC p) as [sm dm]. rewrite Hd, Hfo. cbn [Z.ltb Z.compare].
  destruct (Z.ltb_spec (v4_IHL (ipv4_fields raw) * 4) ipv4HeaderLen);
    [unfold ipv4HeaderLen in *; lia |].
  match goal with |- context [populateL4FromBytes ?i _ ?o ?pr] =>
    destruct (populateL4_spec i raw o pr) as (i' & Hi & Hview & _); [lia | done |];
    pose proof (populateL4_addresses i raw o pr i' Hi) as Haddr end.
  exists i'. split; [exact Hi |]. rewrite Z.mul_comm. split; [exact Hview |].
  by injection Haddr as -> -> ->.
Qed.

Lemma rd_app_l l1 l2 k : (k < length l1)%nat -> rd (l1 ++ l2) k = rd l1 k.
Proof. intros. unfold rd. by rewrite lookup_app_l. Qed.

(** Parsing an encoded IPv6 packet reads the header behind the whole chain. *)
Lemma ParsePacket_ipv6_chain hdr exts l4 payload :
  zlen hdr = 40 -> ip_version hdr = 6 -> rd hdr 6 = first_number exts l4 ->
  extHeaderTypes l4 = None -> 0 <= l4 < 256 -> Forall ext_valid exts -> payload <> [] ->
  exists i, ParsePacket NewPacket (hdr ++ encode_chain exts l4 ++ payload) = Ok i /\
    l4_view i = l4_decode l4 payload /\ pi_IPv6ExtHeaders i = ext_name <$> exts.
Proof.
  intros Hh Hv H6 Hl4 Hr Hok Hp. set (raw := hdr ++ encode_chain exts l4 ++ payload).
  assert (length hdr = 40%nat) as Hlen by (unfold zlen in Hh; lia).
  assert (40 <= zlen raw) as Hl by (subst raw; rewrite zlen_app; pose proof (zlen_nonneg (encode_chain exts l4 ++ payload)); lia).
  assert (ip_version raw = 6) as Hver.
  { unfold ip_version in *. subst raw. by rewrite rd_app_l by lia. }
  rewrite ParsePacket_v6 by (done || lia). unfold parseIPv6Packet.
  destruct (Z.ltb_spec (zlen raw) 40); [lia |].
  destruct (gp_ipv6 raw Hl Hver) as (p & -> & -> & Hd).
  replace (v6_NextHeader (ipv6_fields raw)) with (first_number exts l4).
  2:{ simpl. subst raw. by rewrite rd_app_l by lia. }
  subst raw. rewrite walk_inverts by done. cbn [res_bind].
  destruct (extractMAC p) as [sm dm]. cbn [L4Offset L4Proto ch_Fragment ExtHeaders].
  match goal with |- context [populateL4FromBytes ?i ?raw ?o ?pr] =>
    destruct (populateL4_spec i raw o pr) as (i' & Hi & Hview & Hf) end.
  { unfold ipv6HeaderLen. pose proof (zlen_nonneg (encode_chain exts l4)). lia. }
  { unfold l4_blank, l4_view. simpl. f_equal. clear.
    assert (L4Incomplete noFragment = false) as H0 by done. revert H0.
    generalize noFragment. induction exts as [|e exts IH]; intros f Hf; [done |].
    simpl. apply IH. by destruct e. }
  exists i'. split; [exact Hi |]. injection Hf as _ _ ->. split; [|done]. rewrite Hview.
  rewrite app_assoc, drop_app_length'; [done |].
  rewrite length_app. unfold ipv6HeaderLen, zlen. lia.
Qed.

(** Extension headers are transparent: the L4 view of a packet is the one of
    the same segment sent without them. *)
Lemma ext_transparent hdr1 hdr2 exts l4 payload :
  zlen hdr1 = 40 -> zlen hdr2 = 40 -> ip_version hdr1 = 6 -> ip_version hdr2 = 6 ->
  rd hdr1 6 = first_number exts l4 -> rd hdr2 6 = l4 ->
  extHeaderTypes l4 = None -> 0 <= l4 < 256 -> Forall ext_valid exts -> payload <> [] ->
  exists i1 i2,
    ParsePacket NewPacket (hdr1 ++ encode_chain exts l4 ++ payload) = Ok i1 /\
    ParsePacket NewPacket (hdr2 ++ payload) = Ok i2 /\
    l4_view i1 = l4_view i2 /\ pi_IPv6ExtHeaders i1 = ext_name <$> exts.
Proof.
  intros. destruct (ParsePacket_ipv6_chain hdr1 exts l4 payload) as (i1 & Hp1 & Hv1 & He1); try done.
  destruct (ParsePacket_ipv6_chain hdr2 [] l4 payload) as (i2 & Hp2 & Hv2 & He2); try done.
  exists i1, i2. by rewrite Hv1, Hv2.
Qed.
End decoder.

(** ** A first fragment whose header chain is cut

    An IPv6 first fragment (offset 0) that ends inside its Destination Options
    header carries no L4 header, but is not reported as incomplete. *)
Definition cut_chain_packet : list byte :=
  [x60; x00; x00; x00; x00; x10; x2c; x40] ++ replicate 31 x00 ++ [x01] ++
  [x3c; x00; x00; x01; x00; x00; x00; x01] ++
  [x06; x01; x01; x0c; x00; x00; x00; x00].
