(* ===== verification/PacketSpec.v ===== *)
(** * What package [packet] promises

    The properties of the parser, with concrete packets. *)
From Stdlib Require Import ZArith Lia ZifyBool Strings.Byte.
From stdpp Require Import base list strings pretty.
From S2P Require Import Prelude GoNet GoNetFacts Packet PacketFacts.

Local Open Scope Z_scope.

(** C16: Parsing never panics: for every byte string and every decoder, all reads
    are within the packet and the walk over the IPv6 header chain ends; the result is packet
    information or an error. *)
Theorem ParsePacket_no_panic NewPacket raw : no_panic (ParsePacket NewPacket raw).
Proof. apply parse_no_panic. Qed.

(** C17: A fragment that is not the first one reports no ports, flags or ICMP fields
    and is never marked incomplete; a packet marked incomplete reports none either, so the
    policy never matches on bytes that are not an L4 header. *)
Theorem ParsePacket_honest NewPacket raw i : ParsePacket NewPacket raw = Ok i -> honest i.
Proof. apply parse_honest. Qed.

(** A fragment at offset 8 of an IPv4/TCP packet from 10.0.0.1. *)
Definition later_fragment : list byte :=
  [x45; x00; x00; x1c; x00; x00; x00; x01; x40; x06; x00; x00; x0a; x00; x00; x01;
   x0a; x00; x00; x02; x00; x35; x00; x35; x00; x08; x00; x00].

Lemma ParsePacket_honest_witness :
  exists i, ParsePacket reference_decoder later_fragment = Ok i /\ honest i /\
    Offset (pi_Fragment i) = 1 /\ pi_DstPort i = 0.
Proof.
  eexists. split; [vm_compute; reflexivity |].
  split; [apply (ParsePacket_honest reference_decoder later_fragment); vm_compute; reflexivity |].
  split; reflexivity.
Defined.

(** C18: The walk inverts the encoding of an IPv6 header chain: for any sequence of
    option headers of any length and Fragment headers of first fragments in front of an L4
    header, it resolves the L4 protocol, the offset of its header, the names of the
    extension headers and the fragment fields. *)
Theorem walk_encode_chain hdr exts l4 payload :
  zlen hdr = ipv6HeaderLen -> extHeaderTypes l4 = None -> 0 <= l4 < 256 ->
  Forall ext_valid exts -> payload <> [] ->
  walkIPv6HeaderChain (hdr ++ encode_chain exts l4 ++ payload) (first_number exts l4) =
  Ok (mkChain l4 (ipv6HeaderLen + zlen (encode_chain exts l4)) (ext_name <$> exts)
        (foldl ext_fragment noFragment exts)).
Proof. apply walk_inverts. Qed.

Definition sample_chain : list ExtHdr :=
  [Opt KHopByHop x00 [x01; x04; x00; x00; x00; x00]; Frag0 x00 x01 [x00; x00; x00; x09]].

Lemma sample_chain_valid : Forall ext_valid sample_chain.
Proof.
  repeat apply List.Forall_cons; try apply List.Forall_nil; [reflexivity | split; reflexivity].
Qed.

Lemma walk_encode_chain_witness :
  walkIPv6HeaderChain (replicate 40 x00 ++ encode_chain sample_chain 17 ++ [x00]) 0 =
  Ok (mkChain 17 56 ["HopByHop"; "Fragment"]%string (mkFragmentInfo true true 0 false)).
Proof.
  apply (walk_encode_chain (replicate 40 x00) sample_chain 17 [x00]);
    [reflexivity | reflexivity | lia | apply sample_chain_valid | discriminate].
Defined.

(** With a decoder that reads the fixed header fields, a parsed IPv4 packet at
    fragment offset zero has the L4 view the destination host has: the ports, flags and ICMP
    fields are those at the offset the header length gives, decoded as the RFCs lay them
    out, and the packet is marked incomplete exactly when that header is cut. *)
Theorem ParsePacket_ipv4_l4 NewPacket `{!GopacketSpec NewPacket} raw :
  20 <= zlen raw -> ip_version raw = 4 -> 5 <= v4_IHL (ipv4_fields raw) ->
  v4_FragOffset (ipv4_fields raw) = 0 ->
  exists i, ParsePacket NewPacket raw = Ok i /\
    l4_view i = l4_decode (rd raw 9) (drop (Z.to_nat (4 * v4_IHL (ipv4_fields raw))) raw) /\
    pi_SrcIP i = IP_String (v4_SrcIP (ipv4_fields raw)) /\
    pi_DstIP i = IP_String (v4_DstIP (ipv4_fields raw)) /\
    pi_PacketSize i = zlen raw.
Proof. by apply parse_ipv4_l4. Qed.

(** A UDP datagram behind an IPv4 header with one option word. *)
Definition option_packet : list byte :=
  [x46; x00; x00; x20; x00; x00; x00; x00; x40; x11; x00; x00; x0a; x00; x00; x01;
   x0a; x00; x00; x02; x01; x01; x01; x00; x00; x35; x14; xe9; x00; x08; x00; x00].

Lemma ParsePacket_ipv4_l4_witness :
  exists i, ParsePacket reference_decoder option_packet = Ok i /\ pi_DstPort i = 5353 /\
    pi_SrcIP i = "10.0.0.1"%string.
Proof.
  destruct (ParsePacket_ipv4_l4 reference_decoder option_packet) as (i & Hi & Hv & Hs & _).
  - vm_compute. discriminate.
  - reflexivity.
  - vm_compute. discriminate.
  - reflexivity.
  - exists i. split; [exact Hi |]. split.
    + change (pi_DstPort i) with (lv_DstPort (l4_view i)). rewrite Hv. vm_compute. reflexivity.
    + rewrite Hs. vm_compute. reflexivity.
Defined.

(** IPv6 extension headers do not hide the L4 header: the L4 view of a packet
    with any valid chain of extension headers is that of the same segment sent without them,
    so a rule on ports or flags cannot be evaded by inserting headers. *)
Theorem ext_headers_transparent NewPacket `{!GopacketSpec NewPacket} hdr1 hdr2 exts l4 payload :
  zlen hdr1 = 40 -> zlen hdr2 = 40 -> ip_version hdr1 = 6 -> ip_version hdr2 = 6 ->
  rd hdr1 6 = first_number exts l4 -> rd hdr2 6 = l4 ->
  extHeaderTypes l4 = None -> 0 <= l4 < 256 -> Forall ext_valid exts -> payload <> [] ->
  exists i1 i2,
    ParsePacket NewPacket (hdr1 ++ encode_chain exts l4 ++ payload) = Ok i1 /\
    ParsePacket NewPacket (hdr2 ++ payload) = Ok i2 /\
    l4_view i1 = l4_view i2 /\ pi_IPv6ExtHeaders i1 = ext_name <$> exts.
Proof. by apply ext_transparent. Qed.

Definition v6_header (next : byte) : list byte :=
  [x60; x00; x00; x00; x00; x10; next; x40] ++ replicate 32 x00.

Lemma ext_headers_transparent_witness :
  exists i1 i2,
    ParsePacket reference_decoder
      (v6_header x00 ++ encode_chain sample_chain 17 ++ [x00; x35; x14; xe9; x00; x08; x00; x00]) = Ok i1 /\
    ParsePacket reference_decoder (v6_header x11 ++ [x00; x35; x14; xe9; x00; x08; x00; x00]) = Ok i2 /\
    l4_view i1 = l4_view i2 /\ pi_IPv6ExtHeaders i1 = ext_name <$> sample_chain.
Proof.
  apply (ext_headers_transparent reference_decoder (v6_header x00) (v6_header x11) sample_chain 17);
    try reflexivity; [lia | apply sample_chain_valid | discriminate].
Defined.

(** An IPv6 first fragment that ends inside its Destination Options header
    carries no L4 header, but it is reported as an ordinary TCP fragment with ports 0, not as
    incomplete. *)
Theorem cut_chain_not_incomplete :
  exists i, ParsePacket reference_decoder cut_chain_packet = Ok i /\
    pi_Protocol i = "TCP"%string /\ IsFragment (pi_Fragment i) = true /\
    Offset (pi_Fragment i) = 0 /\ L4Incomplete (pi_Fragment i) = false /\
    pi_SrcPort i = 0 /\ pi_DstPort i = 0.
Proof. eexists. split; [vm_compute; reflexivity |]. done. Qed.
