(* ===== verification/Conntrack.v ===== *)
(** * Package [conntrack]: the flow table

    Translated from src/internal/conntrack/table.go.  Every method of [Table]
    runs under the table's mutex, so a method is one atomic state
    transformation.  [*Flow] values are returned by value: after a flow has been
    handed out only the receive loop writes to it.  Methods take the clock
    readings they make and, where they range over a map, the order of the
    iteration. *)
From S2P Require Import Prelude GoTime GoFloat GoNet.
From Stdlib Require Import ZArith Lia ZifyBool.
From stdpp Require Import base gmap sets list strings pretty.

Local Open Scope Z_scope.

(** ** TCP states *)
Inductive TCPState : Type :=
| TCPSynSent
| TCPSynReceived
| TCPEstablished
| TCPFinWait1
| TCPFinWait2
| TCPClosing
| TCPTimeWait
| TcpCloseWait
| TCPClosed.

#[export] Instance TCPState_eq_dec : EqDecision TCPState.
Proof. solve_decision. Defined.

Definition TCPState_String (s : TCPState) : string :=
  match s with
  | TCPSynSent => "SYN_SENT"
  | TCPSynReceived => "SYN_RECEIVED"
  | TCPEstablished => "ESTABLISHED"
  | TCPFinWait1 => "FIN_WAIT_1"
  | TCPFinWait2 => "FIN_WAIT_2"
  | TCPClosing => "CLOSING"
  | TCPTimeWait => "TIME_WAIT"
  | TcpCloseWait => "CLOSE_WAIT"
  | TCPClosed => "CLOSED"
  end.

(** ** Data *)
Record Config : Type := mkConfig {
  MaxEntries : Z;
  MaxFlowsPerSrcIP : Z;
  IdleTimeout : Z;
  UDPTimeout : Z;
  ICMPTimeout : Z;
  PortScanWindow : Z;
  PortScanMaxPorts : Z;
}.

Definition DefaultConfig : Config :=
  mkConfig 65536 0 (300 * Second) (30 * Second) (5 * Second) 10 100.

Record Stats : Type := mkStats {
  Hits : Z;
  Created : Z;
  Expired : Z;
  Evicted : Z;
  FlowLimitExceeded : Z;
}.

Record Flow : Type := mkFlow {
  fl_SrcIP : string;
  fl_DstIP : string;
  fl_Protocol : string;
  fl_SrcPort : Z;
  fl_DstPort : Z;
  Established : bool;
  fl_TCPState : TCPState;
  Packets : Z;
  created : Time;
  lastSeen : Time;
}.

Definition with_state (s : TCPState) (f : Flow) : Flow :=
  mkFlow (fl_SrcIP f) (fl_DstIP f) (fl_Protocol f) (fl_SrcPort f) (fl_DstPort f)
    (Established f) s (Packets f) (created f) (lastSeen f).
Definition with_established (b : bool) (f : Flow) : Flow :=
  mkFlow (fl_SrcIP f) (fl_DstIP f) (fl_Protocol f) (fl_SrcPort f) (fl_DstPort f)
    b (fl_TCPState f) (Packets f) (created f) (lastSeen f).

(** [Flow.AgeMs] and [Flow.LastSeenMs] at time [now] *)
Definition AgeMs (now : Time) (f : Flow) : Z := Z.quot (time_sub now (created f)) Millisecond.
Definition LastSeenMs (now : Time) (f : Flow) : Z := Z.quot (time_sub now (lastSeen f)) Millisecond.

Definition SetEstablished (now : Time) (f : Flow) : Flow :=
  mkFlow (fl_SrcIP f) (fl_DstIP f) (fl_Protocol f) (fl_SrcPort f) (fl_DstPort f)
    true (fl_TCPState f) (Packets f) (created f) now.

Definition touch (now : Time) (f : Flow) : Flow :=
  mkFlow (fl_SrcIP f) (fl_DstIP f) (fl_Protocol f) (fl_SrcPort f) (fl_DstPort f)
    (Established f) (fl_TCPState f) (wrap64 (Packets f + 1)) (created f) now.

Record flowKey : Type := mkKey {
  k_srcIP : string;
  k_dstIP : string;
  k_protocol : string;
  k_srcPort : Z;
  k_dstPort : Z;
}.

#[export] Instance flowKey_eq_dec : EqDecision flowKey.
Proof. solve_decision. Defined.

#[export] Instance flowKey_countable : Countable flowKey.
Proof.
  refine (inj_countable'
    (fun k => (k_srcIP k, k_dstIP k, k_protocol k, k_srcPort k, k_dstPort k))
    (fun '(a, b, c, d, e) => mkKey a b c d e) _).
  by intros [].
Defined.

Definition flowKey_String (k : flowKey) : string :=
  k_srcIP k +:+ ":" +:+ pretty (k_srcPort k) +:+ "-" +:+ k_dstIP k +:+ ":" +:+
  pretty (k_dstPort k) +:+ "/" +:+ k_protocol k.

Definition normalizeIP (ip : string) : string :=
  match ParseIP ip with
  | None => ip
  | Some parsed =>
      match To4 parsed with
      | Some v4 => IPString v4
      | None => IPString parsed
      end
  end.

(** ** New-connection rate *)
Definition connRateWindowSecs : Z := 10.

Record newConnRate : Type := mkRate { secs : list Z; counts : list Z }.

(** [&newConnRate{}] *)
Definition emptyRate : newConnRate := mkRate (replicate 10 0) (replicate 10 0).

Definition at_index (l : list Z) (i : nat) : Z := default 0 (l !! i).

Definition record (now : Time) (r : newConnRate) : newConnRate :=
  let sec := unix now in
  let i := Z.to_nat (Z.rem sec connRateWindowSecs) in
  let r := if at_index (secs r) i =? sec then r
           else mkRate (<[i := sec]> (secs r)) (<[i := 0]> (counts r)) in
  mkRate (secs r) (<[i := wrap64 (at_index (counts r) i + 1)]> (counts r)).

(** The summation loop of [rate]. *)
Fixpoint rate_sum (sec : Z) (ss cs : list Z) (sum : Z) : Z :=
  match ss, cs with
  | s :: ss', c :: cs' =>
      rate_sum sec ss' cs'
        (if negb (s =? 0) && (sec - connRateWindowSecs <? s) then wrap64 (sum + c) else sum)
  | _, _ => sum
  end.

Definition rate (now : Time) (r : newConnRate) : float64 :=
  fdiv (of_int (rate_sum (unix now) (secs r) (counts r) 0)) (of_int connRateWindowSecs).

(** ** The table *)
Record Table : Type := mkTable {
  flows : gmap flowKey Flow;
  cfg : Config;
  stats : Stats;
  srcPorts : gmap string (list Z);
  newConns : gmap string newConnRate;
  srcFlowCount : gmap string Z;
}.

Definition with_flows (m : gmap flowKey Flow) (t : Table) : Table :=
  mkTable m (cfg t) (stats t) (srcPorts t) (newConns t) (srcFlowCount t).
Definition with_stats (f : Stats -> Stats) (t : Table) : Table :=
  mkTable (flows t) (cfg t) (f (stats t)) (srcPorts t) (newConns t) (srcFlowCount t).

Definition incr_Hits (s : Stats) : Stats :=
  mkStats (wrap64 (Hits s + 1)) (Created s) (Expired s) (Evicted s) (FlowLimitExceeded s).
Definition incr_Created (s : Stats) : Stats :=
  mkStats (Hits s) (wrap64 (Created s + 1)) (Expired s) (Evicted s) (FlowLimitExceeded s).
Definition add_Expired (n : Z) (s : Stats) : Stats :=
  mkStats (Hits s) (Created s) (wrap64 (Expired s + n)) (Evicted s) (FlowLimitExceeded s).
Definition incr_Evicted (s : Stats) : Stats :=
  mkStats (Hits s) (Created s) (Expired s) (wrap64 (Evicted s + 1)) (FlowLimitExceeded s).
Definition incr_FlowLimitExceeded (s : Stats) : Stats :=
  mkStats (Hits s) (Created s) (Expired s) (Evicted s) (wrap64 (FlowLimitExceeded s + 1)).

Definition NewTable (c : Config) : Table :=
  let c := mkConfig
    (if MaxEntries c <=? 0 then 65536 else MaxEntries c)
    (MaxFlowsPerSrcIP c)
    (if IdleTimeout c <=? 0 then 300 * Second else IdleTimeout c)
    (if UDPTimeout c <=? 0 then 30 * Second else UDPTimeout c)
    (if ICMPTimeout c <=? 0 then 5 * Second else ICMPTimeout c)
    (PortScanWindow c)
    (if PortScanMaxPorts c <=? 0 then 100 else PortScanMaxPorts c) in
  mkTable ∅ c (mkStats 0 0 0 0 0) ∅ ∅ ∅.

(** [Stats] of the table. *)
Definition Table_Stats (t : Table) : Stats := stats t.

Definition Len (t : Table) : Z := Z.of_nat (size (flows t)).

Definition idleTimeoutFor (t : Table) (protocol : string) : Z :=
  if String.eqb protocol "UDP" then UDPTimeout (cfg t)
  else if String.eqb protocol "ICMP" then ICMPTimeout (cfg t)
  else IdleTimeout (cfg t).

(** ** Per-source counts *)
Definition reachedFlowLimitLocked (srcIP : string) (t : Table) : bool :=
  if MaxFlowsPerSrcIP (cfg t) <=? 0 then false
  else MaxFlowsPerSrcIP (cfg t) <=? default 0 (srcFlowCount t !! srcIP).

Definition incrFlowCountLocked (srcIP : string) (t : Table) : Table :=
  mkTable (flows t) (cfg t) (stats t) (srcPorts t) (newConns t)
    (<[srcIP := wrap64 (default 0 (srcFlowCount t !! srcIP) + 1)]> (srcFlowCount t)).

Definition decrFlowCountLocked (srcIP : string) (t : Table) : Table :=
  let n := wrap64 (default 0 (srcFlowCount t !! srcIP) - 1) in
  if n <=? 0 then
    mkTable (flows t) (cfg t) (stats t) (delete srcIP (srcPorts t))
      (delete srcIP (newConns t)) (delete srcIP (srcFlowCount t))
  else
    mkTable (flows t) (cfg t) (stats t) (srcPorts t) (newConns t)
      (<[srcIP := n]> (srcFlowCount t)).

Definition GetSrcFlowCount (srcIP : string) (t : Table) : Z :=
  default 0 (srcFlowCount t !! srcIP).

Definition recordNewConn (now : Time) (srcIP : string) (t : Table) : Table :=
  let r := default emptyRate (newConns t !! srcIP) in
  mkTable (flows t) (cfg t) (stats t) (srcPorts t)
    (<[srcIP := record now r]> (newConns t)) (srcFlowCount t).

Definition NewConnectionRate (now : Time) (srcIP : string) (t : Table) : float64 :=
  match newConns t !! normalizeIP srcIP with
  | None => f0
  | Some r => rate now r
  end.

(** ** Eviction and expiry *)
Definition evictionSampleSize : nat := 16.

Definition evictOneLocked (ro : range_order flowKey Flow) (t : Table) : Table :=
  match sample_oldest lastSeen evictionSampleSize (flows t) (range_keys ro (flows t)) None with
  | None => t
  | Some (oldestKey, _) =>
      decrFlowCountLocked (k_srcIP oldestKey) (with_flows (delete oldestKey (flows t)) t)
  end.

Definition Delete (srcIP dstIP protocol : string) (srcPort dstPort : Z) (t : Table) : Table :=
  let srcIP := normalizeIP srcIP in
  let dstIP := normalizeIP dstIP in
  let key := mkKey srcIP dstIP protocol srcPort dstPort in
  match flows t !! key with
  | Some _ => decrFlowCountLocked srcIP (with_flows (delete key (flows t)) t)
  | None => t
  end.

Definition idle_expired (now : Time) (t : Table) (f : Flow) : bool :=
  idleTimeoutFor t (fl_Protocol f) <? time_sub now (lastSeen f).

(** The keys the first loop of [Expire] collects. *)
Definition expired_keys (ro : range_order flowKey Flow) (now : Time) (t : Table) : list flowKey :=
  filter (fun k => (idle_expired now t <$> flows t !! k) = Some true)
    (range_keys ro (flows t)).

(** The second loop of [Expire]. *)
Fixpoint remove_expired (keys : list flowKey) (t : Table) : Table :=
  match keys with
  | [] => t
  | key :: keys' =>
      remove_expired keys'
        (decrFlowCountLocked (k_srcIP key) (with_flows (delete key (flows t)) t))
  end.

Definition Expire (ro : range_order flowKey Flow) (now : Time) (t : Table) : Z * Table :=
  let expired := expired_keys ro now t in
  let n := Z.of_nat (length expired) in
  (n, with_stats (add_Expired n) (remove_expired expired t)).

(** ** Lookup *)

(** The creation branch both lookup methods share: limit, eviction, insertion,
    accounting.  [f] is the flow inserted, [now] the reading of
    [recordNewConn]. *)
Definition createFlow (ro : range_order flowKey Flow) (now : Time) (key : flowKey) (f : Flow)
    (t : Table) : option Table :=
  if reachedFlowLimitLocked (k_srcIP key) t then None
  else
    let t := if MaxEntries (cfg t) <=? Len t
             then with_stats incr_Evicted (evictOneLocked ro t) else t in
    let t := with_stats incr_Created (with_flows (<[key := f]> (flows t)) t) in
    let t := incrFlowCountLocked (k_srcIP key) t in
    Some (recordNewConn now (k_srcIP key) t).

Definition LookupOrCreate (ro : range_order flowKey Flow) (clk : Clock)
    (srcIP dstIP protocol : string) (srcPort dstPort : Z) (t : Table) : option Flow * Table :=
  let srcIP := normalizeIP srcIP in
  let dstIP := normalizeIP dstIP in
  let key := mkKey srcIP dstIP protocol srcPort dstPort in
  match flows t !! key with
  | Some f =>
      let f := touch (reading clk 0) f in
      (Some f, with_stats incr_Hits (with_flows (<[key := f]> (flows t)) t))
  | None =>
      let f := mkFlow srcIP dstIP protocol srcPort dstPort false TCPSynSent 1
                 (reading clk 0) (reading clk 1) in
      match createFlow ro (reading clk 2) key f t with
      | None => (None, with_stats incr_FlowLimitExceeded t)
      | Some t' => (Some f, t')
      end
  end.

(** The [switch] of [UpdateTCPState]. *)
Definition tcp_transition (syn ack rst fin : bool) (f : Flow) : Flow :=
  if rst then with_established false (with_state TCPClosed f)
  else if syn && ack && negb fin then
    match fl_TCPState f with
    | TCPSynSent => with_established true (with_state TCPEstablished f)
    | _ => f
    end
  else if syn && negb ack && negb fin then
    match fl_TCPState f with
    | TCPSynSent => with_state TCPSynReceived f
    | _ => f
    end
  else if fin && ack then
    match fl_TCPState f with
    | TCPSynSent | TCPSynReceived => with_state TCPFinWait1 f
    | TCPEstablished => with_state TCPFinWait1 f
    | TCPFinWait1 => with_state TCPFinWait2 f
    | TCPFinWait2 => with_state TCPTimeWait f
    | TcpCloseWait => with_established false (with_state TCPClosed f)
    | _ => f
    end
  else if fin && negb ack then
    match fl_TCPState f with
    | TCPEstablished => with_state TCPFinWait1 f
    | TCPFinWait1 => with_state TCPClosing f
    | _ => f
    end
  else if ack && negb syn && negb fin && negb rst then
    match fl_TCPState f with
    | TCPSynSent => with_established true (with_state TCPEstablished f)
    | TCPFinWait1 => with_state TCPFinWait2 f
    | TCPClosing => with_state TCPTimeWait f
    | TCPTimeWait => with_established false (with_state TCPClosed f)
    | _ => f
    end
  else f.

(** The last [if] of [UpdateTCPState]. *)
Definition tcp_new_flow (isNew : bool) (protocol : string) (syn rst fin : bool) (f : Flow) : Flow :=
  if isNew && String.eqb protocol "TCP" && negb syn && negb rst && negb fin
  then with_state TCPSynReceived f else f.

Definition UpdateTCPState (ro : range_order flowKey Flow) (clk : Clock)
    (srcIP dstIP protocol : string) (srcPort dstPort : Z) (syn ack rst fin : bool) (t : Table)
  : option Flow * Table :=
  let srcIP := normalizeIP srcIP in
  let dstIP := normalizeIP dstIP in
  let key := mkKey srcIP dstIP protocol srcPort dstPort in
  match flows t !! key with
  | None =>
      let f := mkFlow srcIP dstIP protocol srcPort dstPort false TCPSynSent 1
                 (reading clk 0) (reading clk 1) in
      match createFlow ro (reading clk 2) key f t with
      | None => (None, with_stats incr_FlowLimitExceeded t)
      | Some t' =>
          let f := tcp_new_flow true protocol syn rst fin (tcp_transition syn ack rst fin f) in
          (Some f, with_flows (<[key := f]> (flows t')) t')
      end
  | Some f =>
      let f := tcp_new_flow false protocol syn rst fin
                 (tcp_transition syn ack rst fin (touch (reading clk 0) f)) in
      (Some f, with_stats incr_Hits (with_flows (<[key := f]> (flows t)) t))
  end.

(** ** Port-scan history *)
Definition RecordDestPort (srcIP : string) (dstPort : Z) (t : Table) : Table :=
  let srcIP := normalizeIP srcIP in
  let ports := default [] (srcPorts t !! srcIP) in
  if bool_decide (dstPort ∈ ports) then t
  else if PortScanMaxPorts (cfg t) <=? Z.of_nat (length ports) then t
  else mkTable (flows t) (cfg t) (stats t) (<[srcIP := ports ++ [dstPort]]> (srcPorts t))
         (newConns t) (srcFlowCount t).

Definition GetRecentDestPorts (srcIP : string) (t : Table) : list Z :=
  default [] (srcPorts t !! normalizeIP srcIP).
