(* ===== verification/ConntrackFacts.v ===== *)
(** * Theorems on package [conntrack]

    The well-formedness invariant of the flow table, its preservation by every
    method, and what the lookup methods return. *)
From Stdlib Require Import ZArith Lia ZifyBool.
From stdpp Require Import base gmap sets list strings pretty relations.
From S2P Require Import Prelude GoTime GoFloat GoNet GoNetFacts Conntrack.

Local Open Scope Z_scope.

Lemma normalizeIP_canonical ip : normalizeIP ip = canonicalIP ip.
Proof.
  unfold normalizeIP, canonicalIP. destruct (ParseIP ip) as [p|]; [|done].
  destruct (To4 p) as [v4|] eqn:E; [|done]. unfold IPString. rewrite E.
  assert (length v4 = 4%nat) as Hl.
  { unfold To4 in E. destruct (Nat.eqb_spec (length p) 4); [by simplify_eq |].
    destruct (Nat.eqb_spec (length p) 16) as [Hp|]; [|done]. simpl in E.
    case_bool_decide; simplify_eq. rewrite length_drop. lia. }
  unfold To4. by rewrite Hl.
Qed.

Lemma normalizeIP_idemp ip : normalizeIP (normalizeIP ip) = normalizeIP ip.
Proof. rewrite !normalizeIP_canonical. apply canonicalIP_idemp. Qed.

(** ** Counting the flows of a source *)
Definition count_src (s : string) (m : gmap flowKey Flow) : Z :=
  Z.of_nat (size (filter (fun kv => k_srcIP kv.1 = s) m)).

Section count.
Implicit Types (m : gmap flowKey Flow) (k : flowKey) (s : string).

Lemma count_src_nonneg s m : 0 <= count_src s m.
Proof. unfold count_src. lia. Qed.

Lemma count_src_empty s : count_src s ∅ = 0.
Proof. unfold count_src. rewrite map_filter_empty, map_size_empty. done. Qed.

Lemma count_src_insert s m k f :
  m !! k = None ->
  count_src s (<[k := f]> m) = count_src s m + (if decide (k_srcIP k = s) then 1 else 0).
Proof.
  intros Hk. unfold count_src. case_decide as Hs.
  - rewrite map_filter_insert_True by done. rewrite map_size_insert_None; [lia |].
    apply map_lookup_filter_None. by left.
  - rewrite map_filter_insert_False by done. rewrite delete_id by done. lia.
Qed.

Lemma count_src_delete s m k f :
  m !! k = Some f ->
  count_src s (delete k m) = count_src s m - (if decide (k_srcIP k = s) then 1 else 0).
Proof.
  intros Hk. rewrite <-(insert_delete_id m k f Hk) at 2.
  rewrite count_src_insert by apply lookup_delete_eq. lia.
Qed.

Lemma count_src_update s m k f f' :
  m !! k = Some f -> count_src s (<[k := f']> m) = count_src s m.
Proof.
  intros Hk. rewrite <-insert_delete_eq, count_src_insert by apply lookup_delete_eq.
  rewrite (count_src_delete s m k f Hk). lia.
Qed.

Lemma count_src_le s m : count_src s m <= Z.of_nat (size m).
Proof.
  unfold count_src. apply inj_le, map_subseteq_size, map_filter_subseteq.
Qed.

Lemma count_src_pos s m k f : m !! k = Some f -> k_srcIP k = s -> 0 < count_src s m.
Proof.
  intros Hk Hs. rewrite <-(insert_delete_id m k f Hk), count_src_insert by apply lookup_delete_eq.
  pose proof (count_src_nonneg s (delete k m)). case_decide; [lia | done].
Qed.
End count.

(** ** The invariant *)
Definition flow_key (f : Flow) : flowKey :=
  mkKey (fl_SrcIP f) (fl_DstIP f) (fl_Protocol f) (fl_SrcPort f) (fl_DstPort f).

Definition nonzero (n : Z) : option Z := if decide (n = 0) then None else Some n.

Record table_inv (t : Table) : Prop := {
  inv_capacity : Len t <= MaxEntries (cfg t);
  inv_config : 0 < MaxEntries (cfg t) < 2 ^ 63 /\ 0 < PortScanMaxPorts (cfg t);
  inv_count : forall s, srcFlowCount t !! s = nonzero (count_src s (flows t));
  inv_limit : 0 < MaxFlowsPerSrcIP (cfg t) ->
              forall s, count_src s (flows t) <= MaxFlowsPerSrcIP (cfg t);
  inv_rates : forall s, is_Some (newConns t !! s) <-> is_Some (srcFlowCount t !! s);
  inv_keys : forall k f, flows t !! k = Some f ->
             flow_key f = k /\ normalizeIP (k_srcIP k) = k_srcIP k /\
             normalizeIP (k_dstIP k) = k_dstIP k;
  inv_ports : forall s ps, srcPorts t !! s = Some ps ->
              NoDup ps /\ Z.of_nat (length ps) <= PortScanMaxPorts (cfg t);
}.

(** Sources with a port-scan history have a live flow.  Every method keeps this but
    [RecordDestPort], which has to be called while the flow is there; the engine calls it in
    a critical section of its own, so it does not hold of engines in general
    ([history_outlives_flow] of EngineInv.v). *)
Definition ports_live (t : Table) : Prop :=
  forall s, is_Some (srcPorts t !! s) -> is_Some (srcFlowCount t !! s).

Lemma nonzero_default n : default 0 (nonzero n) = n.
Proof. unfold nonzero. by case_decide. Qed.

Lemma nonzero_some n : is_Some (nonzero n) <-> n <> 0.
Proof.
  unfold nonzero. destruct (decide (n = 0)); split; try done.
Qed.

Lemma count_bound s t : table_inv t -> 0 <= count_src s (flows t) < 2 ^ 63.
Proof.
  intros Hi. pose proof (count_src_nonneg s (flows t)). pose proof (count_src_le s (flows t)).
  pose proof (inv_capacity t Hi). pose proof (inv_config t Hi). unfold Len in *. lia.
Qed.

Lemma inv_stats f t : table_inv t -> table_inv (with_stats f t).
Proof. intros []. by split. Qed.

(** Replacing a flow by one with the same key. *)
Lemma inv_update t k f f' :
  table_inv t -> flows t !! k = Some f -> flow_key f' = k ->
  table_inv (with_flows (<[k := f']> (flows t)) t).
Proof.
  intros Hi Hk Hf'. destruct Hi as [H1 H2 H3 H4 H5 H6 H7]. split; simpl; try done.
  - unfold Len in *. simpl. rewrite map_size_insert_Some by eauto. done.
  - intros s. by rewrite (count_src_update _ _ _ f).
  - intros Hm s. rewrite (count_src_update _ _ _ f) by done. by apply H4.
  - intros k' g. destruct (decide (k = k')) as [<-|Hne].
    + rewrite lookup_insert_eq. intros [= <-]. split; [done |]. by apply (H6 k f).
    + rewrite lookup_insert_ne by done. apply H6.
Qed.

(** Removing one flow with its accounting, the step [Delete], [Expire] and the
    eviction share. *)
Definition drop_flow (k : flowKey) (t : Table) : Table :=
  decrFlowCountLocked (k_srcIP k) (with_flows (delete k (flows t)) t).

Lemma drop_flow_flows k t : flows (drop_flow k t) = delete k (flows t).
Proof. unfold drop_flow, decrFlowCountLocked. by case_bool. Qed.

Lemma drop_flow_cfg k t : cfg (drop_flow k t) = cfg t.
Proof. unfold drop_flow, decrFlowCountLocked. by case_bool. Qed.

Lemma drop_flow_inv t k f :
  table_inv t -> flows t !! k = Some f -> table_inv (drop_flow k t).
Proof.
  intros Hi Hk. pose proof (count_bound (k_srcIP k) t Hi) as Hb.
  pose proof (count_src_pos _ _ _ _ Hk eq_refl) as Hpos.
  pose proof (fun s => count_src_delete s _ _ _ Hk) as Hdel.
  destruct Hi as [H1 H2 H3 H4 H5 H6 H7].
  assert (default 0 (srcFlowCount t !! k_srcIP k) = count_src (k_srcIP k) (flows t)) as Hc
    by (by rewrite H3, nonzero_default).
  split; rewrite ?drop_flow_cfg, ?drop_flow_flows; try done.
  - unfold Len in *. rewrite drop_flow_flows, map_size_delete_Some by eauto. lia.
  - intros s. unfold drop_flow, decrFlowCountLocked. cbn [srcFlowCount flows with_flows].
    rewrite Hc, wrap64_small by (unfold int64_range; lia). rewrite Hdel.
    destruct (decide (k_srcIP k = s)) as [<-|Hne]; destruct (Z.leb_spec (count_src (k_srcIP k) (flows t) - 1) 0);
      cbn [srcFlowCount].
    + rewrite lookup_delete_eq. unfold nonzero. rewrite decide_True by lia. done.
    + rewrite lookup_insert_eq. unfold nonzero. rewrite decide_False by lia. done.
    + rewrite lookup_delete_ne by done. rewrite H3. f_equal. lia.
    + rewrite lookup_insert_ne by done. rewrite H3. f_equal. lia.
  - intros Hm s. rewrite Hdel. specialize (H4 Hm s). case_decide; lia.
  - intros s. unfold drop_flow, decrFlowCountLocked. case_bool; cbn [newConns srcFlowCount].
    + destruct (decide (k_srcIP k = s)) as [<-|Hne]; [by rewrite !lookup_delete_eq |].
      by rewrite !lookup_delete_ne by done.
    + destruct (decide (k_srcIP k = s)) as [<-|Hne]; [|by rewrite lookup_insert_ne by done].
      rewrite lookup_insert_eq. rewrite H5, H3. split; [eauto |]. intros _.
      apply nonzero_some. lia.
  - intros k' g Hl. apply lookup_delete_Some in Hl as [_ Hl]. by apply H6.
  - intros s ps Hl. unfold drop_flow, decrFlowCountLocked in Hl.
    case_bool; cbn [srcPorts] in Hl; [|by apply (H7 s)].
    apply lookup_delete_Some in Hl as [_ Hl]. by apply (H7 s).
Qed.

Lemma drop_flow_ports_live t k f :
  table_inv t -> flows t !! k = Some f -> ports_live t -> ports_live (drop_flow k t).
Proof.
  intros Hi Hk Hp s. pose proof (inv_count _ (drop_flow_inv t k f Hi Hk) s) as Hc.
  unfold drop_flow, decrFlowCountLocked in *. case_bool; cbn [srcPorts srcFlowCount] in *.
  - intros [ps Hl]. apply lookup_delete_Some in Hl as [Hne Hl].
    rewrite lookup_delete_ne by done. apply Hp. eauto.
  - intros Hs. destruct (decide (k_srcIP k = s)) as [<-|Hne]; [rewrite lookup_insert_eq; eauto |].
    rewrite lookup_insert_ne by done. by apply Hp.
Qed.

(** ** Eviction *)
Lemma evictOneLocked_drops ro t :
  flows t <> ∅ ->
  exists k f, flows t !! k = Some f /\ evictOneLocked ro t = drop_flow k t.
Proof.
  intros Hne. unfold evictOneLocked.
  destruct (sample_oldest_live lastSeen ro evictionSampleSize (flows t)) as (k & f & -> & Hk);
    [unfold evictionSampleSize; lia | done |].
  by exists k, f.
Qed.

Lemma nonempty_of_Len t : 0 < Len t -> flows t <> ∅.
Proof. unfold Len. intros H Heq. rewrite Heq, map_size_empty in H. lia. Qed.

(** ** Creation *)
Definition insert_flow (now : Time) (key : flowKey) (f : Flow) (t : Table) : Table :=
  recordNewConn now (k_srcIP key)
    (incrFlowCountLocked (k_srcIP key)
       (with_stats incr_Created (with_flows (<[key := f]> (flows t)) t))).

Lemma insert_flow_inv now key f t :
  table_inv t -> flows t !! key = None -> Len t < MaxEntries (cfg t) ->
  (0 < MaxFlowsPerSrcIP (cfg t) ->
   count_src (k_srcIP key) (flows t) < MaxFlowsPerSrcIP (cfg t)) ->
  flow_key f = key -> normalizeIP (k_srcIP key) = k_srcIP key ->
  normalizeIP (k_dstIP key) = k_dstIP key ->
  table_inv (insert_flow now key f t).
Proof.
  intros Hi Hk Hlen Hlim Hf Hs Hd. pose proof (count_bound (k_srcIP key) t Hi) as Hb.
  pose proof (count_src_le (k_srcIP key) (flows t)) as Hle.
  pose proof (fun s => count_src_insert s _ _ f Hk) as Hins.
  destruct Hi as [H1 H2 H3 H4 H5 H6 H7]. unfold Len in *.
  split; cbn [insert_flow recordNewConn incrFlowCountLocked with_stats with_flows
              flows cfg stats srcPorts newConns srcFlowCount]; try done.
  - unfold Len. cbn [flows]. simpl. rewrite map_size_insert_None by done. lia.
  - intros s. rewrite Hins, H3, nonzero_default, wrap64_small by (unfold int64_range; lia).
    destruct (decide (k_srcIP key = s)) as [<-|Hne].
    + rewrite lookup_insert_eq. unfold nonzero. rewrite decide_False by lia. done.
    + rewrite lookup_insert_ne by done. rewrite H3. f_equal. lia.
  - intros Hm s. rewrite Hins. specialize (Hlim Hm). specialize (H4 Hm s). case_decide; subst; lia.
  - intros s. destruct (decide (k_srcIP key = s)) as [<-|Hne].
    + rewrite !lookup_insert_eq. by split; eauto.
    + by rewrite !lookup_insert_ne by done.
  - intros k' g. destruct (decide (key = k')) as [<-|Hne].
    + rewrite lookup_insert_eq. by intros [= <-].
    + rewrite lookup_insert_ne by done. apply H6.
Qed.

Lemma insert_flow_ports_live now key f t : ports_live t -> ports_live (insert_flow now key f t).
Proof.
  intros Hp s. cbn [insert_flow recordNewConn incrFlowCountLocked with_stats with_flows
                    srcPorts srcFlowCount]. intros Hs.
  destruct (decide (k_srcIP key = s)) as [<-|Hne]; [rewrite lookup_insert_eq; eauto |].
  rewrite lookup_insert_ne by done. by apply Hp.
Qed.

(** Room for a new flow: nothing changes while the table has space, and a full
    table loses one flow. *)
Definition made_room (t : Table) (m : gmap flowKey Flow) : Prop :=
  (Len t < MaxEntries (cfg t) /\ m = flows t) \/
  (MaxEntries (cfg t) <= Len t /\
   exists k g, flows t !! k = Some g /\ m = delete k (flows t)).

(** What a successful creation does: an eviction when the table is full, then
    the insertion. *)
Lemma createFlow_cases ro now key f t t' :
  table_inv t -> flows t !! key = None -> createFlow ro now key f t = Some t' ->
  exists t1, table_inv t1 /\ cfg t1 = cfg t /\ flows t1 !! key = None /\
    made_room t (flows t1) /\ Len t1 < MaxEntries (cfg t1) /\
    (0 < MaxFlowsPerSrcIP (cfg t) ->
     count_src (k_srcIP key) (flows t1) < MaxFlowsPerSrcIP (cfg t)) /\
    (ports_live t -> ports_live t1) /\ t' = insert_flow now key f t1.
Proof.
  intros Hi Hk H. unfold createFlow in H.
  destruct (reachedFlowLimitLocked (k_srcIP key) t) eqn:Hr; [done |].
  assert (0 < MaxFlowsPerSrcIP (cfg t) ->
          count_src (k_srcIP key) (flows t) < MaxFlowsPerSrcIP (cfg t)) as Hlim.
  { intros Hm. unfold reachedFlowLimitLocked in Hr.
    rewrite (inv_count t Hi), nonzero_default in Hr. destruct (Z.leb_spec (MaxFlowsPerSrcIP (cfg t)) 0); lia. }
  pose proof (inv_capacity t Hi) as Hcap. pose proof (inv_config t Hi) as Hcfg.
  destruct (Z.leb_spec (MaxEntries (cfg t)) (Len t)) as [Hfull|Hfree].
  - destruct (evictOneLocked_drops ro t) as (k & g & Hkg & Hev).
    { apply nonempty_of_Len. lia. }
    rewrite Hev in H. injection H as <-.
    exists (with_stats incr_Evicted (drop_flow k t)). unfold Len.
    cbn [with_stats cfg flows]. rewrite drop_flow_cfg, drop_flow_flows.
    split; [by eapply inv_stats, drop_flow_inv |]. split; [done |].
    split; [by apply lookup_delete_None; right |]. split; [right; eauto |].
    split. { unfold Len in *. rewrite map_size_delete_Some by eauto. lia. }
    split. { intros Hm. rewrite (count_src_delete _ _ _ _ Hkg). specialize (Hlim Hm). case_decide; lia. }
    split; [intros Hp; by eapply (drop_flow_ports_live t k g) |].
    unfold insert_flow. cbn [with_stats flows]. by rewrite drop_flow_flows.
  - injection H as <-. exists t. split_and!; try done. by left.
Qed.

Lemma createFlow_inv ro now key f t t' :
  table_inv t -> flows t !! key = None -> flow_key f = key ->
  normalizeIP (k_srcIP key) = k_srcIP key -> normalizeIP (k_dstIP key) = k_dstIP key ->
  createFlow ro now key f t = Some t' ->
  table_inv t' /\ flows t' !! key = Some f /\ cfg t' = cfg t /\ (ports_live t -> ports_live t').
Proof.
  intros Hi Hk Hf Hs Hd H.
  destruct (createFlow_cases _ _ _ _ _ _ Hi Hk H)
    as (t1 & Hi1 & Hcfg & Hk1 & _ & Hlen & Hlim & Hp & ->).
  split; [apply insert_flow_inv; try done; by rewrite Hcfg |].
  split; [by simpl; rewrite lookup_insert_eq |]. split; [done |].
  intros Hpl. by apply insert_flow_ports_live, Hp.
Qed.

(** ** Methods *)
Lemma flow_key_touch now f : flow_key (touch now f) = flow_key f.
Proof. done. Qed.

Lemma flow_key_transition syn ack rst fin f :
  flow_key (tcp_transition syn ack rst fin f) = flow_key f.
Proof. unfold tcp_transition. repeat case_bool; destruct (fl_TCPState f); done. Qed.

Lemma flow_key_new b p syn rst fin f : flow_key (tcp_new_flow b p syn rst fin f) = flow_key f.
Proof. unfold tcp_new_flow. by case_bool. Qed.

Lemma LookupOrCreate_inv ro clk s d p sp dp t :
  table_inv t ->
  table_inv (LookupOrCreate ro clk s d p sp dp t).2 /\
  (ports_live t -> ports_live (LookupOrCreate ro clk s d p sp dp t).2).
Proof.
  intros Hi. unfold LookupOrCreate. set (key := mkKey _ _ _ _ _).
  destruct (flows t !! key) as [f|] eqn:Hk.
  - split; [|done]. apply inv_stats. eapply inv_update; [done | done |].
    by apply (inv_keys t Hi key f).
  - destruct (createFlow _ _ _ _ _) as [t'|] eqn:Hc; [|by split; [apply inv_stats |]].
    eapply createFlow_inv in Hc as (? & _ & _ & ?); try done; apply normalizeIP_idemp.
Qed.

Lemma UpdateTCPState_inv ro clk s d p sp dp syn ack rst fin t :
  table_inv t ->
  table_inv (UpdateTCPState ro clk s d p sp dp syn ack rst fin t).2 /\
  (ports_live t -> ports_live (UpdateTCPState ro clk s d p sp dp syn ack rst fin t).2).
Proof.
  intros Hi. unfold UpdateTCPState. set (key := mkKey _ _ _ _ _).
  destruct (flows t !! key) as [f|] eqn:Hk.
  - split; [|done]. apply inv_stats. eapply inv_update; [done | done |].
    rewrite flow_key_new, flow_key_transition, flow_key_touch. by apply (inv_keys t Hi key f).
  - destruct (createFlow _ _ _ _ _) as [t'|] eqn:Hc; [|by split; [apply inv_stats |]].
    eapply createFlow_inv in Hc as (Hi' & Hk' & _ & Hp); try done; try apply normalizeIP_idemp.
    split; [|done]. eapply inv_update; [done | done |].
    by rewrite flow_key_new, flow_key_transition.
Qed.

Lemma Delete_inv s d p sp dp t :
  table_inv t -> table_inv (Delete s d p sp dp t) /\
  (ports_live t -> ports_live (Delete s d p sp dp t)).
Proof.
  intros Hi. unfold Delete. set (key := mkKey _ _ _ _ _).
  destruct (flows t !! key) as [f|] eqn:Hk; [|done].
  change (decrFlowCountLocked _ _) with (drop_flow key t).
  split; [by eapply drop_flow_inv | intros; by eapply drop_flow_ports_live].
Qed.

Lemma RecordDestPort_inv s p t : table_inv t -> table_inv (RecordDestPort s p t).
Proof.
  intros Hi. unfold RecordDestPort. set (ps := default [] _).
  case_bool; [done |]. case_bool; [done |]. bool_hyps.
  assert (NoDup ps) as Hnd.
  { unfold ps. destruct (srcPorts t !! normalizeIP s) as [l|] eqn:Hl; [|by apply NoDup_nil].
    by apply (inv_ports t Hi _ _ Hl). }
  destruct Hi as [H1 H2 H3 H4 H5 H6 H7]. split; simpl; try done.
  intros s' l. destruct (decide (normalizeIP s = s')) as [<-|Hne].
  - rewrite lookup_insert_eq. intros [= <-]. split; [by apply NoDup_snoc |].
    rewrite length_app. simpl. lia.
  - rewrite lookup_insert_ne by done. apply H7.
Qed.

Lemma RecordDestPort_ports_live s p t :
  is_Some (srcFlowCount t !! normalizeIP s) -> ports_live t -> ports_live (RecordDestPort s p t).
Proof.
  intros Hs Hp. unfold RecordDestPort. do 2 (case_bool; [done |]).
  intros s'. simpl. destruct (decide (normalizeIP s = s')) as [<-|Hne]; [done |].
  rewrite lookup_insert_ne by done. apply Hp.
Qed.

(** ** Expiry *)
Lemma remove_expired_spec keys t :
  table_inv t -> NoDup keys -> (forall k, k ∈ keys -> is_Some (flows t !! k)) ->
  table_inv (remove_expired keys t) /\ cfg (remove_expired keys t) = cfg t /\
  (ports_live t -> ports_live (remove_expired keys t)) /\
  (forall k, flows (remove_expired keys t) !! k = if decide (k ∈ keys) then None else flows t !! k) /\
  Len (remove_expired keys t) = Len t - Z.of_nat (length keys).
Proof.
  revert t. induction keys as [|k keys IH]; intros t Hi Hnd Hin; simpl.
  { split_and!; try done. unfold Len. lia. }
  apply NoDup_cons in Hnd as [Hk Hnd]. destruct (Hin k) as [f Hf]; [by left |].
  change (decrFlowCountLocked _ _) with (drop_flow k t).
  destruct (IH (drop_flow k t)) as (Hi' & Hc & Hp & Hl & Hn);
    [by eapply drop_flow_inv | done | |].
  { intros k' Hk'. rewrite drop_flow_flows, lookup_delete_ne by (by intros ->).
    apply Hin. by right. }
  split; [done |]. split; [by rewrite Hc, drop_flow_cfg |].
  split; [intros; by eapply Hp, drop_flow_ports_live |].
  split; [|unfold Len in *; rewrite Hn, drop_flow_flows, map_size_delete_Some by eauto;
           assert (size (flows t) <> 0%nat) by (rewrite map_size_ne_0_lookup; eauto); lia].
  intros k'. rewrite Hl, drop_flow_flows.
  destruct (decide (k' = k)) as [->|Hne].
  - rewrite (decide_False (P := k ∈ keys)) by done. rewrite decide_True by (by left).
    apply lookup_delete_eq.
  - rewrite lookup_delete_ne by done. destruct (decide (k' ∈ keys)) as [Hin'|Hin'].
    + by rewrite decide_True by (by right).
    + rewrite decide_False; [done |]. rewrite elem_of_cons. by intros [?|?].
Qed.

Lemma elem_of_expired_keys ro now t k :
  k ∈ expired_keys ro now t <-> exists f, flows t !! k = Some f /\ idle_expired now t f = true.
Proof.
  unfold expired_keys. rewrite list_elem_of_filter, elem_of_range_keys. split.
  - intros [He [f Hf]]. rewrite Hf in He. simpl in He. simplify_eq. eauto.
  - intros (f & Hf & He). rewrite Hf. simpl. rewrite He. eauto.
Qed.

Lemma NoDup_expired_keys ro now t : NoDup (expired_keys ro now t).
Proof. apply NoDup_filter, NoDup_range_keys. Qed.

Lemma Expire_inv ro now t :
  table_inv t ->
  table_inv (Expire ro now t).2 /\ (ports_live t -> ports_live (Expire ro now t).2).
Proof.
  intros Hi. destruct (remove_expired_spec (expired_keys ro now t) t) as (H1 & _ & H3 & _ & _); try done.
  - apply NoDup_expired_keys.
  - intros k (f & Hf & _)%elem_of_expired_keys. eauto.
  - split; [by apply inv_stats | done].
Qed.

(** ** The table an operation can see *)
Inductive ct_step (t : Table) : Table -> Prop :=
| step_LookupOrCreate ro clk s d p sp dp :
    ct_step t (LookupOrCreate ro clk s d p sp dp t).2
| step_UpdateTCPState ro clk s d p sp dp syn ack rst fin :
    ct_step t (UpdateTCPState ro clk s d p sp dp syn ack rst fin t).2
| step_Delete s d p sp dp : ct_step t (Delete s d p sp dp t)
| step_Expire ro now : ct_step t (Expire ro now t).2
| step_RecordDestPort s p : ct_step t (RecordDestPort s p t).

Definition ct_reachable (c : Config) (t : Table) : Prop := rtc ct_step (NewTable c) t.

Lemma NewTable_inv c :
  MaxEntries c < 2 ^ 63 -> table_inv (NewTable c).
Proof.
  intros Hc. split; unfold Len; simpl.
  - rewrite map_size_empty. case_bool; lia.
  - repeat case_bool; lia.
  - intros s. by rewrite count_src_empty, lookup_empty.
  - intros Hm s. rewrite count_src_empty. lia.
  - intros s. by rewrite !lookup_empty.
  - intros k f. by rewrite lookup_empty.
  - intros s ps. by rewrite lookup_empty.
Qed.

Lemma ct_step_inv t t' : ct_step t t' -> table_inv t -> table_inv t'.
Proof.
  intros [] Hi; [by apply LookupOrCreate_inv | by apply UpdateTCPState_inv | by apply Delete_inv
                | by apply Expire_inv | by apply RecordDestPort_inv].
Qed.

Lemma ct_reachable_inv c t : MaxEntries c < 2 ^ 63 -> ct_reachable c t -> table_inv t.
Proof.
  intros Hc Hr. unfold ct_reachable in Hr. pose proof (NewTable_inv c Hc) as Hi.
  induction Hr as [|t1 t2 t3 Hs _ IH]; [done |]. eauto using ct_step_inv.
Qed.
