(* ===== verification/ConntrackSpec.v ===== *)
(** * What package [conntrack] promises

    The lookup, expiry and port-history contracts of the flow table, the TCP
    state machine, and the refinement of the new-connection ring by the log of
    its events. *)
From Stdlib Require Import ZArith Lia ZifyBool.
From stdpp Require Import base gmap sets list strings pretty relations.
From S2P Require Import Prelude GoTime GoFloat GoNet GoNetFacts Conntrack ConntrackFacts.

Local Open Scope Z_scope.

(** ** The table *)

(** C21: Every table reachable from [NewTable] by any interleaving of the table's
    methods is well formed: it holds at most [MaxEntries] flows, the per-source
    counters equal the number of live flows of the source (and sources without
    flows have no counter and no rate record), no source is over its limit, every
    flow sits under its own normalized 5-tuple, and port histories are
    duplicate free and bounded. *)
Theorem ct_reachable_wf c t :
  MaxEntries c < 2 ^ 63 -> ct_reachable c t -> table_inv t.
Proof. apply ct_reachable_inv. Qed.

Lemma ct_reachable_wf_witness :
  table_inv (LookupOrCreate (map_order _ _) (frozenClock 7) "10.0.0.1" "10.0.0.2" "UDP" 53 53
               (NewTable DefaultConfig)).2.
Proof.
  apply (ct_reachable_wf DefaultConfig); [reflexivity |].
  apply rtc_once, step_LookupOrCreate.
Defined.

(** How long a flow of a protocol may be idle. *)
Definition idle_limit (c : Config) (protocol : string) : Z :=
  match bool_decide (protocol = "UDP"%string), bool_decide (protocol = "ICMP"%string) with
  | true, _ => UDPTimeout c
  | _, true => ICMPTimeout c
  | _, _ => IdleTimeout c
  end.

Lemma idle_expired_spec now t f :
  idle_expired now t f = true <-> idle_limit (cfg t) (fl_Protocol f) < time_sub now (lastSeen f).
Proof.
  unfold idle_expired, idleTimeoutFor, idle_limit.
  destruct (String.eqb_spec (fl_Protocol f) "UDP"), (String.eqb_spec (fl_Protocol f) "ICMP");
    repeat case_bool_decide; try congruence; lia.
Qed.

(** C24: [Expire] removes exactly the flows that have been idle for longer than the
    timeout of their protocol, returns how many it removed, and leaves every other
    flow as it was. *)
Theorem Expire_exact ro now t :
  table_inv t ->
  flows (Expire ro now t).2 =
    filter (fun kf => time_sub now (lastSeen kf.2) <= idle_limit (cfg t) (fl_Protocol kf.2)) (flows t) /\
  (Expire ro now t).1 = Len t - Len (Expire ro now t).2.
Proof.
  intros Hi.
  destruct (remove_expired_spec (expired_keys ro now t) t) as (_ & _ & _ & Hl & Hn); try done.
  { apply NoDup_expired_keys. }
  { intros k (f & Hf & _)%elem_of_expired_keys. eauto. }
  split; [|cbn [Expire fst snd]; unfold Len in *; cbn [with_stats flows]; lia].
  apply map_eq. intros k. cbn [Expire snd with_stats flows]. rewrite Hl.
  destruct (decide (k ∈ expired_keys ro now t)) as [(f & Hf & He%idle_expired_spec)%elem_of_expired_keys | Hne];
    symmetry.
  - apply map_lookup_filter_None. right. intros g ?. simplify_eq. simpl. lia.
  - destruct (flows t !! k) as [f|] eqn:Hk; [|apply map_lookup_filter_None; by left].
    apply map_lookup_filter_Some. split; [done |]. simpl. apply Z.nlt_ge. intros Hlt%idle_expired_spec.
    apply Hne, elem_of_expired_keys. eauto.
Qed.

(** A table with two flows, one of each protocol, made at time 7. *)
Definition two_flows : Table :=
  (LookupOrCreate (map_order _ _) (frozenClock 7) "10.0.0.1" "10.0.0.2" "UDP" 53 53
    (LookupOrCreate (map_order _ _) (frozenClock 7) "10.0.0.1" "10.0.0.2" "TCP" 80 80
      (NewTable DefaultConfig)).2).2.

Lemma Expire_exact_witness :
  (Expire (map_order _ _) (mkTime (7 + 31 * Second) (Some (7 + 31 * Second))) two_flows).1 =
    Len two_flows - Len (Expire (map_order _ _) (mkTime (7 + 31 * Second) (Some (7 + 31 * Second))) two_flows).2 /\
  (Expire (map_order _ _) (mkTime (7 + 31 * Second) (Some (7 + 31 * Second))) two_flows).1 = 1.
Proof.
  split; [|vm_compute; reflexivity].
  apply Expire_exact, LookupOrCreate_inv, LookupOrCreate_inv, NewTable_inv. reflexivity.
Defined.

(** The per-source limit is configured and reached. *)
Definition at_limit (s : string) (t : Table) : Prop :=
  0 < MaxFlowsPerSrcIP (cfg t) <= count_src s (flows t).

Lemma reachedFlowLimitLocked_spec s t :
  table_inv t -> reachedFlowLimitLocked s t = true <-> at_limit s t.
Proof.
  intros Hi. unfold reachedFlowLimitLocked, at_limit. rewrite (inv_count t Hi), nonzero_default.
  case_bool; lia.
Qed.

Lemma createFlow_none ro now key f t :
  table_inv t -> createFlow ro now key f t = None <-> at_limit (k_srcIP key) t.
Proof.
  intros Hi. rewrite <-reachedFlowLimitLocked_spec by done. unfold createFlow. by case_bool.
Qed.

(** The contract both lookup methods share.  [upd] is what the method does to a
    flow it finds, [fresh] the flow it stores for an unknown 5-tuple. *)
Definition lookup_contract (key : flowKey) (now : Time) (upd : Flow -> Flow) (fresh : Flow)
    (t : Table) (r : option Flow * Table) : Prop :=
  match flows t !! key with
  | Some f => r.1 = Some (upd (touch now f)) /\
              flows r.2 = <[key := upd (touch now f)]> (flows t)
  | None =>
      (at_limit (k_srcIP key) t /\ r.1 = None /\ flows r.2 = flows t) \/
      (~ at_limit (k_srcIP key) t /\ r.1 = Some fresh /\
       exists m, made_room t m /\ flows r.2 = <[key := fresh]> m)
  end.

Definition fresh_flow (clk : Clock) (key : flowKey) : Flow :=
  mkFlow (k_srcIP key) (k_dstIP key) (k_protocol key) (k_srcPort key) (k_dstPort key)
    false TCPSynSent 1 (reading clk 0) (reading clk 1).

(** A lookup that returns a flow leaves it in the table. *)
Lemma lookup_contract_present key now upd fresh t f t' :
  lookup_contract key now upd fresh t (Some f, t') ->
  exists k g, flows t' !! k = Some g /\ k_srcIP k = k_srcIP key.
Proof.
  unfold lookup_contract. cbn [fst snd]. intros Hc. exists key.
  destruct (flows t !! key) as [g|].
  - destruct Hc as [_ ->]. eexists. by rewrite lookup_insert_eq.
  - destruct Hc as [(_ & ? & _)|(_ & _ & m & _ & ->)]; [done |]. eexists. by rewrite lookup_insert_eq.
Qed.

Lemma lookup_refines ro clk s d p sp dp t :
  table_inv t ->
  let key := mkKey (normalizeIP s) (normalizeIP d) p sp dp in
  lookup_contract key (reading clk 0) id (fresh_flow clk key) t
    (LookupOrCreate ro clk s d p sp dp t).
Proof.
  intros Hi key. unfold lookup_contract, LookupOrCreate. fold key.
  destruct (flows t !! key) as [f|] eqn:Hk; [done |].
  destruct (createFlow _ _ _ _ _) as [t'|] eqn:Hc.
  - right. split; [intros Hlim; eapply createFlow_none in Hlim; [by rewrite Hlim in Hc | done] |].
    split; [done |].
    eapply createFlow_cases in Hc as (t1 & _ & _ & _ & Hroom & _ & _ & _ & ->); [|done|done].
    by exists (flows t1).
  - left. split; [by apply createFlow_none in Hc |]. done.
Qed.

(** C22: [LookupOrCreate] refreshes the flow of the normalized 5-tuple when there
    is one; otherwise it refuses exactly when the source is at its limit, leaving the
    flows alone, and else stores a fresh flow, removing one other flow only when the
    table is full. *)
Theorem LookupOrCreate_spec ro clk s d p sp dp t :
  table_inv t ->
  let key := mkKey (normalizeIP s) (normalizeIP d) p sp dp in
  lookup_contract key (reading clk 0) id (fresh_flow clk key) t
    (LookupOrCreate ro clk s d p sp dp t).
Proof. apply lookup_refines. Qed.

Lemma LookupOrCreate_spec_witness :
  lookup_contract (mkKey "10.0.0.1" "10.0.0.2" "UDP" 53 53) (reading (frozenClock 1) 0) id
    (fresh_flow (frozenClock 1) (mkKey "10.0.0.1" "10.0.0.2" "UDP" 53 53))
    (NewTable DefaultConfig)
    (LookupOrCreate (map_order _ _) (frozenClock 1) "10.0.0.1" "::ffff:10.0.0.2" "UDP" 53 53
       (NewTable DefaultConfig)).
Proof.
  apply (LookupOrCreate_spec (map_order _ _) (frozenClock 1) "10.0.0.1" "::ffff:10.0.0.2" "UDP" 53 53).
  apply NewTable_inv. reflexivity.
Defined.

Lemma update_refines ro clk s d p sp dp syn ack rst fin t :
  table_inv t ->
  let key := mkKey (normalizeIP s) (normalizeIP d) p sp dp in
  lookup_contract key (reading clk 0) (tcp_transition syn ack rst fin)
    (tcp_new_flow true p syn rst fin (tcp_transition syn ack rst fin (fresh_flow clk key))) t
    (UpdateTCPState ro clk s d p sp dp syn ack rst fin t).
Proof.
  intros Hi key. unfold lookup_contract, UpdateTCPState. fold key.
  destruct (flows t !! key) as [f|] eqn:Hk; [done |].
  destruct (createFlow _ _ _ _ _) as [t'|] eqn:Hc.
  - right. split; [intros Hlim; eapply createFlow_none in Hlim; [by rewrite Hlim in Hc | done] |].
    split; [done |].
    eapply createFlow_cases in Hc as (t1 & _ & _ & _ & Hroom & _ & _ & _ & ->); [|done|done].
    exists (flows t1). split; [done |]. cbn [snd with_flows flows].
    change (flows (insert_flow _ _ _ _)) with
      (<[key := fresh_flow clk key]> (flows t1)).
    by rewrite insert_insert_eq.
  - left. split; [by apply createFlow_none in Hc |]. done.
Qed.

(** C23: [UpdateTCPState] has the same lookup contract, with the flow found or
    created moved by the TCP state machine. *)
Theorem UpdateTCPState_spec ro clk s d p sp dp syn ack rst fin t :
  table_inv t ->
  let key := mkKey (normalizeIP s) (normalizeIP d) p sp dp in
  lookup_contract key (reading clk 0) (tcp_transition syn ack rst fin)
    (tcp_new_flow true p syn rst fin (tcp_transition syn ack rst fin (fresh_flow clk key))) t
    (UpdateTCPState ro clk s d p sp dp syn ack rst fin t).
Proof. apply update_refines. Qed.

Lemma UpdateTCPState_spec_witness :
  lookup_contract (mkKey "10.0.0.1" "10.0.0.2" "TCP" 1000 80) (reading (frozenClock 1) 0)
    (tcp_transition true false false false)
    (tcp_new_flow true "TCP" true false false
       (tcp_transition true false false false
          (fresh_flow (frozenClock 1) (mkKey "10.0.0.1" "10.0.0.2" "TCP" 1000 80))))
    (NewTable DefaultConfig)
    (UpdateTCPState (map_order _ _) (frozenClock 1) "10.0.0.1" "10.0.0.2" "TCP" 1000 80
       true false false false (NewTable DefaultConfig)).
Proof.
  apply (UpdateTCPState_spec (map_order _ _) (frozenClock 1) "10.0.0.1" "10.0.0.2" "TCP").
  apply NewTable_inv. reflexivity.
Defined.

(** C26: Two spellings of the same source and destination address (an IPv4
    address and its IPv4-mapped form, different zero compression or letter case) reach
    the same flow, with the same result. *)
Theorem spellings_share_flow ro clk s s' d d' p sp dp syn ack rst fin t :
  is_Some (ParseIP s) -> ParseIP s = ParseIP s' ->
  is_Some (ParseIP d) -> ParseIP d = ParseIP d' ->
  LookupOrCreate ro clk s d p sp dp t = LookupOrCreate ro clk s' d' p sp dp t /\
  UpdateTCPState ro clk s d p sp dp syn ack rst fin t =
  UpdateTCPState ro clk s' d' p sp dp syn ack rst fin t.
Proof.
  intros [x Hs] Hss [y Hd] Hdd.
  assert (normalizeIP s = normalizeIP s') as Es by (unfold normalizeIP; by rewrite <-Hss, Hs).
  assert (normalizeIP d = normalizeIP d') as Ed by (unfold normalizeIP; by rewrite <-Hdd, Hd).
  unfold LookupOrCreate, UpdateTCPState. by rewrite Es, Ed.
Qed.

Lemma spellings_share_flow_witness :
  LookupOrCreate (map_order _ _) (frozenClock 1) "10.0.0.1" "FE80:0::1" "UDP" 1 2
    (NewTable DefaultConfig) =
  LookupOrCreate (map_order _ _) (frozenClock 1) "::ffff:10.0.0.1" "fe80::1" "UDP" 1 2
    (NewTable DefaultConfig).
Proof.
  apply (spellings_share_flow (map_order _ _) (frozenClock 1) "10.0.0.1" "::ffff:10.0.0.1"
           "FE80:0::1" "fe80::1" "UDP" 1 2 false false false false (NewTable DefaultConfig)).
  - vm_compute. eauto.
  - vm_compute. reflexivity.
  - vm_compute. eauto.
  - vm_compute. reflexivity.
Defined.

(** ** The TCP state machine *)

(** The pairs of a TCP state and an [Established] flag that a flow can have. *)
Definition tcp_pair (st : TCPState) (est : bool) : bool :=
  match st with
  | TCPSynSent | TCPClosed => negb est
  | TCPEstablished => est
  | TCPSynReceived | TCPFinWait1 | TCPFinWait2 | TCPClosing | TCPTimeWait => true
  | TcpCloseWait => false
  end.

Definition tcp_ok (f : Flow) : Prop := tcp_pair (fl_TCPState f) (Established f) = true.

Ltac tcp_cases f :=
  let st := fresh "st" in
  destruct f as [? ? ? ? ? ? st ? ? ?]; destruct st; simpl in *.

Lemma tcp_transition_ok syn ack rst fin f : tcp_ok f -> tcp_ok (tcp_transition syn ack rst fin f).
Proof.
  intros Hf. destruct syn, ack, rst, fin; tcp_cases f; unfold tcp_ok in *; simpl in *; by auto.
Qed.

Lemma tcp_new_flow_ok b p syn rst fin f : tcp_ok f -> tcp_ok (tcp_new_flow b p syn rst fin f).
Proof. intros Hf. unfold tcp_new_flow. case_bool; [|done]. by unfold tcp_ok. Qed.

Definition flows_ok (t : Table) : Prop := map_Forall (fun _ f => tcp_ok f) (flows t).

Lemma lookup_contract_ok key now upd fresh t r :
  (forall f, tcp_ok f -> tcp_ok (upd f)) -> tcp_ok fresh ->
  lookup_contract key now upd fresh t r -> flows_ok t -> flows_ok r.2.
Proof.
  intros Hupd Hfr Hc Ht. unfold lookup_contract in Hc. unfold flows_ok in *.
  destruct (flows t !! key) as [f|] eqn:Hk.
  - destruct Hc as [_ ->]. apply map_Forall_insert_2; [|done]. apply Hupd. by apply (Ht key f).
  - destruct Hc as [(_ & _ & ->)|(_ & _ & m & Hroom & ->)]; [done |].
    apply map_Forall_insert_2; [done |].
    destruct Hroom as [[_ ->]|(_ & k & g & _ & ->)]; [done | by apply map_Forall_delete].
Qed.

Lemma fresh_flow_ok clk key : tcp_ok (fresh_flow clk key).
Proof. by unfold tcp_ok. Qed.

Lemma ct_step_flows_ok t t' : ct_step t t' -> table_inv t -> flows_ok t -> flows_ok t'.
Proof.
  intros [] Hi Ht.
  - eapply lookup_contract_ok; [| |by apply lookup_refines | done]; [done | apply fresh_flow_ok].
  - eapply lookup_contract_ok; [| |by apply update_refines | done];
      [apply tcp_transition_ok | apply tcp_new_flow_ok, tcp_transition_ok, fresh_flow_ok].
  - unfold Delete. destruct (flows t !! _); [|done]. unfold flows_ok.
    change (decrFlowCountLocked _ _) with (drop_flow (mkKey (normalizeIP s) (normalizeIP d) p sp dp) t).
    rewrite drop_flow_flows. by apply map_Forall_delete.
  - destruct (remove_expired_spec (expired_keys ro now t) t) as (_ & _ & _ & Hl & _); [done | | |].
    + apply NoDup_expired_keys.
    + intros k (f & Hf & _)%elem_of_expired_keys. eauto.
    + intros k f Hf. cbn [Expire snd with_stats flows] in Hf. rewrite Hl in Hf.
      case_decide; [done |]. by apply (Ht k f).
  - unfold RecordDestPort. by repeat case_bool.
Qed.

(** The flags of one packet. *)
Record flags : Type := mkFlags { f_syn : bool; f_ack : bool; f_rst : bool; f_fin : bool }.

(** The packets of one 5-tuple, in order: the flows [UpdateTCPState] returns. *)
Fixpoint packets_of (ro : range_order flowKey Flow) (clk : Clock) (s d p : string) (sp dp : Z)
    (fs : list flags) (t : Table) : list (option Flow) * Table :=
  match fs with
  | [] => ([], t)
  | fl :: fs' =>
      let (r, t) := UpdateTCPState ro clk s d p sp dp (f_syn fl) (f_ack fl) (f_rst fl) (f_fin fl) t in
      let (rs, t) := packets_of ro clk s d p sp dp fs' t in
      (r :: rs, t)
  end.

Lemma packets_of_steps ro clk s d p sp dp fs t : rtc ct_step t (packets_of ro clk s d p sp dp fs t).2.
Proof.
  revert t. induction fs as [|fl fs IH]; intros t; [apply rtc_refl |]. simpl.
  eapply rtc_l; [apply (step_UpdateTCPState t ro clk s d p sp dp (f_syn fl) (f_ack fl) (f_rst fl) (f_fin fl)) |].
  destruct (UpdateTCPState _ _ _ _ _ _ _ _ _ _ _ _) as [r t']. specialize (IH t').
  by destruct (packets_of ro clk s d p sp dp fs t') as [rs t''].
Qed.

Definition f_SYN : flags := mkFlags true false false false.
Definition f_SYNACK : flags := mkFlags true true false false.
Definition f_ACK : flags := mkFlags false true false false.
Definition f_FIN : flags := mkFlags false false false true.
Definition f_FINACK : flags := mkFlags false true false true.
Definition f_RST : flags := mkFlags false false true false.

(** Packets that bring a new flow to a state, with and without the flag. *)
Definition path_to (st : TCPState) (est : bool) : list flags :=
  let opening := if est then [f_SYNACK; f_FINACK] else [f_FINACK] in
  match st with
  | TCPSynSent => [f_FIN]
  | TCPSynReceived => if est then [f_ACK] else [f_SYN]
  | TCPEstablished => [f_SYNACK]
  | TCPFinWait1 => opening
  | TCPFinWait2 => opening ++ [f_ACK]
  | TCPClosing => opening ++ [f_FIN]
  | TCPTimeWait => opening ++ [f_FIN; f_ACK]
  | TCPClosed | TcpCloseWait => [f_RST]
  end.

Definition sample_key : flowKey := mkKey "10.0.0.1" "10.0.0.2" "TCP" 80 1000.

Definition table_after (fs : list flags) : Table :=
  (packets_of (map_order _ _) (frozenClock 1) "10.0.0.1" "10.0.0.2" "TCP" 80 1000 fs (NewTable DefaultConfig)).2.

Lemma table_after_reachable fs : ct_reachable DefaultConfig (table_after fs).
Proof. apply packets_of_steps. Qed.

Lemma path_reaches st est :
  tcp_pair st est = true ->
  (fun f => (fl_TCPState f, Established f)) <$> (flows (table_after (path_to st est)) !! sample_key) = Some (st, est).
Proof. destruct st, est; intros Hp; first [discriminate Hp | vm_compute; reflexivity]. Qed.

(** C25: Exactly these pairs of a TCP state and an [Established] flag occur in reachable tables:
    [SYN_SENT] and [CLOSED] never with the flag, [ESTABLISHED] always with it, [SYN_RECEIVED] and the
    four closing states with and without it (a new flow whose first packet is a pure ACK is in
    [SYN_RECEIVED] with the flag), and [CLOSE_WAIT] never at all. *)
Theorem tcp_states_consistent c :
  MaxEntries c < 2 ^ 63 ->
  (forall t k f, ct_reachable c t -> flows t !! k = Some f -> tcp_pair (fl_TCPState f) (Established f) = true) /\
  (forall st est, tcp_pair st est = true ->
     exists t k f, ct_reachable DefaultConfig t /\ flows t !! k = Some f /\ fl_TCPState f = st /\ Established f = est).
Proof.
  intros Hc. split.
  - intros t k f Hr. revert k f. change (flows_ok t). pose proof (NewTable_inv c Hc) as Hi.
    unfold ct_reachable in Hr.
    assert (flows_ok (NewTable c)) as H0 by apply map_Forall_empty.
    induction Hr as [|t1 t2 t3 Hs _ IH]; [done |].
    apply IH; [by eapply ct_step_inv | by eapply ct_step_flows_ok].
  - intros st est Hp. pose proof (path_reaches st est Hp) as Hf.
    apply fmap_Some in Hf as (f & Hf & [= -> ->]).
    exists (table_after (path_to (fl_TCPState f) (Established f))), sample_key, f.
    split; [apply table_after_reachable | done].
Qed.

Lemma tcp_states_consistent_witness :
  exists t k f, ct_reachable DefaultConfig t /\ flows t !! k = Some f /\
    fl_TCPState f = TCPSynReceived /\ Established f = true.
Proof. exact (proj2 (tcp_states_consistent DefaultConfig eq_refl) TCPSynReceived true eq_refl). Defined.

(** A packet with RST leaves its flow closed and not established whatever the
    state of the flow was, and a closed flow stays closed under every later packet. *)
Theorem rst_closes syn ack fin syn' ack' rst' fin' f :
  let f' := tcp_transition syn ack true fin f in
  fl_TCPState f' = TCPClosed /\ Established f' = false /\
  fl_TCPState (tcp_transition syn' ack' rst' fin' f') = TCPClosed /\
  Established (tcp_transition syn' ack' rst' fin' f') = false.
Proof. destruct syn', ack', rst', fin'; done. Qed.

Definition half_open (f : Flow) : Prop := Established f = false /\ fl_TCPState f <> TCPSynSent.

Lemma tcp_transition_half_open syn ack rst fin f :
  half_open f -> half_open (tcp_transition syn ack rst fin f).
Proof.
  unfold half_open. intros [H1 H2].
  destruct syn, ack, rst, fin; tcp_cases f; done.
Qed.

Lemma packets_half_open ro clk s d p sp dp fs t f :
  flows t !! mkKey (normalizeIP s) (normalizeIP d) p sp dp = Some f -> half_open f ->
  Forall (fun r => exists f, r = Some f /\ Established f = false)
    (packets_of ro clk s d p sp dp fs t).1.
Proof.
  revert t f. induction fs as [|fl fs IH]; intros t f Hk Hf; [by constructor |]. simpl.
  unfold UpdateTCPState. set (key := mkKey _ _ _ _ _) in *. rewrite Hk.
  cbn [tcp_new_flow andb].
  set (f' := tcp_transition _ _ _ _ _).
  assert (half_open f') as Hf' by (by apply tcp_transition_half_open).
  specialize (IH (with_stats incr_Hits (with_flows (<[key := f']> (flows t)) t)) f').
  destruct (packets_of _ _ _ _ _ _ _ fs _) as [rs t'].
  constructor; [exists f'; split; [done | by destruct Hf'] |].
  apply IH; [apply lookup_insert_eq | done].
Qed.

(** A flow whose first packet is a bare SYN, the client side of every
    TCP connection, is never marked established by any sequence of later packets of that
    direction: SYN moves it to [SYN_RECEIVED], from which no packet sets the flag. *)
Theorem syn_first_never_established ro clk s d sp dp fs t :
  table_inv t -> flows t !! mkKey (normalizeIP s) (normalizeIP d) "TCP" sp dp = None ->
  ~ at_limit (normalizeIP s) t ->
  Forall (fun r => exists f, r = Some f /\ Established f = false)
    (packets_of ro clk s d "TCP" sp dp (mkFlags true false false false :: fs) t).1.
Proof.
  intros Hi Hk Hlim. simpl. unfold UpdateTCPState. set (key := mkKey _ _ _ _ _) in *. rewrite Hk.
  destruct (createFlow _ _ _ _ _) as [t'|] eqn:Hc; [|by apply createFlow_none in Hc].
  set (f' := tcp_new_flow _ _ _ _ _ _).
  pose proof (packets_half_open ro clk s d "TCP" sp dp fs
                (with_flows (<[key := f']> (flows t')) t') f') as Hp.
  destruct (packets_of _ _ _ _ _ _ _ fs _) as [rs t''].
  constructor; [by exists f' |]. apply Hp; [apply lookup_insert_eq | done].
Qed.

Lemma syn_first_never_established_witness :
  Forall (fun r => exists f, r = Some f /\ Established f = false)
    (packets_of (map_order _ _) (frozenClock 1) "10.0.0.1" "10.0.0.2" "TCP" 1000 80
       [mkFlags true false false false; mkFlags false true false false]
       (NewTable DefaultConfig)).1.
Proof.
  apply (syn_first_never_established (map_order _ _) (frozenClock 1) "10.0.0.1" "10.0.0.2" 1000 80
           [mkFlags false true false false] (NewTable DefaultConfig)).
  - apply NewTable_inv. reflexivity.
  - vm_compute. reflexivity.
  - unfold at_limit. simpl. lia.
Defined.

(** ** The port history *)

(** [RecordDestPort] keeps the distinct ports of a source in the order of
    their first use, under the normalized address: a known port or a full history leaves
    it unchanged, a new port is appended, and no other source is affected. *)
Theorem RecordDestPort_history s s' p t :
  let before := GetRecentDestPorts s t in
  let after := GetRecentDestPorts s (RecordDestPort s p t) in
  (p ∈ before -> after = before) /\
  (PortScanMaxPorts (cfg t) <= Z.of_nat (length before) -> after = before) /\
  (p ∉ before -> Z.of_nat (length before) < PortScanMaxPorts (cfg t) -> after = before ++ [p]) /\
  (normalizeIP s' <> normalizeIP s ->
   GetRecentDestPorts s' (RecordDestPort s p t) = GetRecentDestPorts s' t).
Proof.
  unfold GetRecentDestPorts, RecordDestPort. set (ps := default [] (srcPorts t !! normalizeIP s)).
  destruct (bool_decide_reflect (p ∈ ps)); [done |].
  destruct (Z.leb_spec (PortScanMaxPorts (cfg t)) (Z.of_nat (length ps)));
    cbn [srcPorts]; split_and!; try done; try lia.
  - by rewrite lookup_insert_eq.
  - intros Hne. by rewrite lookup_insert_ne.
Qed.

(** ** The new-connection ring *)

(** The abstract ring: the seconds at which connections were recorded. *)
Definition ring_of (evs : list Time) : newConnRate := foldl (fun r now => record now r) emptyRate evs.

(** The number of events of the last [connRateWindowSecs] seconds. *)
Definition recent (now : Time) (evs : list Time) : Z :=
  Z.of_nat (length (filter (fun e => unix now - connRateWindowSecs < unix e) evs)).

(** One slot of the ring holds the latest second of its residue class, with the
    number of events of that second. *)
Definition events_at (s : Z) (evs : list Time) : Z :=
  Z.of_nat (length (filter (fun e => unix e = s) evs)).

Definition slot_ok (evs : list Time) (i : nat) (s c : Z) : Prop :=
  (s = 0 /\ c = 0 /\ Forall (fun e => unix e mod 10 <> Z.of_nat i) evs) \/
  (0 < s /\ s mod 10 = Z.of_nat i /\ c = events_at s evs /\
   Exists (fun e => unix e = s) evs /\
   Forall (fun e => unix e mod 10 = Z.of_nat i -> unix e <= s) evs).

Definition ring_ok (evs : list Time) (r : newConnRate) : Prop :=
  length (secs r) = 10%nat /\ length (counts r) = 10%nat /\
  forall i, (i < 10)%nat -> slot_ok evs i (at_index (secs r) i) (at_index (counts r) i).

Lemma events_at_snoc s evs e :
  events_at s (evs ++ [e]) = events_at s evs + (if decide (unix e = s) then 1 else 0).
Proof.
  unfold events_at. rewrite filter_app, length_app. cbn [filter list_filter].
  case_decide; simpl; lia.
Qed.

Lemma events_at_none s evs : Forall (fun e => unix e <> s) evs -> events_at s evs = 0.
Proof.
  unfold events_at. induction 1 as [|e evs Hne _ IH]; [done |].
  rewrite filter_cons_False by done. done.
Qed.

Lemma slot_ok_other evs i s c e :
  slot_ok evs i s c -> unix e mod 10 <> Z.of_nat i -> slot_ok (evs ++ [e]) i s c.
Proof.
  intros [(-> & -> & H)|(H1 & H2 & -> & Hx & H)] He; [left | right].
  - split_and!; try done. apply Forall_app. split; [done | by constructor].
  - split_and!; try done.
    + rewrite events_at_snoc, decide_False; [lia |]. intros <-. done.
    + apply Exists_app. by left.
    + apply Forall_app. split; [done |]. by constructor.
Qed.

(** The slot of a recorded second. *)
Lemma slot_ok_same evs i s c e :
  slot_ok evs i s c -> unix e mod 10 = Z.of_nat i -> 0 < unix e ->
  Forall (fun e' => unix e' <= unix e) evs -> Z.of_nat (length evs) < 2 ^ 62 ->
  slot_ok (evs ++ [e]) i (unix e) (wrap64 ((if s =? unix e then c else 0) + 1)).
Proof.
  intros Hs Hi Hpos Hle Hlen. right. split_and!; try done.
  - assert ((if s =? unix e then c else 0) = events_at (unix e) evs) as ->.
    { destruct (Z.eqb_spec s (unix e)) as [->|Hne].
      - destruct Hs as [(? & _)|(_ & _ & -> & _)]; [lia | done].
      - symmetry. apply events_at_none. apply Forall_forall. intros e' He' Heq.
        destruct Hs as [(_ & _ & H)|(_ & _ & _ & Hx & H)]; rewrite Forall_forall in H, Hle.
        + apply (H e' He'). by rewrite Heq.
        + apply Exists_exists in Hx as (e'' & Hin & Hs). pose proof (H e' He'). pose proof (Hle e'' Hin).
          rewrite Heq in *. lia. }
    rewrite events_at_snoc, decide_True by done. apply wrap64_small.
    unfold events_at, int64_range. pose proof (length_filter (fun e' => unix e' = unix e) evs). lia.
  - apply Exists_app. right. by constructor.
  - apply Forall_app. split; [|by repeat constructor].
    eapply Forall_impl; [done |]. simpl. auto.
Qed.

Lemma at_index_insert_eq l i x : (i < length l)%nat -> at_index (<[i := x]> l) i = x.
Proof. intros Hi. unfold at_index. by rewrite list_lookup_insert_eq by done. Qed.

Lemma at_index_insert_ne l i j x : i <> j -> at_index (<[i := x]> l) j = at_index l j.
Proof. intros Hi. unfold at_index. by rewrite list_lookup_insert_ne by done. Qed.

Lemma ring_ok_record evs r e :
  ring_ok evs r -> 0 < unix e -> Forall (fun e' => unix e' <= unix e) evs ->
  Z.of_nat (length evs) < 2 ^ 62 -> ring_ok (evs ++ [e]) (record e r).
Proof.
  intros (Hs & Hc & Hr) Hpos Hle Hlen. unfold record, connRateWindowSecs.
  rewrite Z.rem_mod_nonneg by lia. pose proof (Z.mod_pos_bound (unix e) 10).
  set (i := Z.to_nat (unix e mod 10)).
  assert (unix e mod 10 = Z.of_nat i) as Hi by (unfold i; lia).
  assert (i < 10)%nat as Hlt by (unfold i; lia).
  set (r' := if _ =? _ then r else _).
  assert (length (secs r') = 10%nat /\ length (counts r') = 10%nat) as [Hs' Hc'].
  { unfold r'. case_bool; simpl; rewrite ?length_insert; done. }
  split; [done |]. split; [simpl; by rewrite length_insert |].
  intros j Hj. cbn [secs counts]. destruct (decide (i = j)) as [<-|Hne].
  - rewrite at_index_insert_eq by lia.
    pose proof (slot_ok_same evs i _ _ e (Hr i Hlt) Hi Hpos Hle Hlen) as Hok.
    unfold r'. destruct (Z.eqb_spec (at_index (secs r) i) (unix e)) as [Heq|].
    + by rewrite Heq.
    + cbn [secs counts]. by rewrite !at_index_insert_eq by lia.
  - rewrite at_index_insert_ne by done.
    assert (at_index (secs r') j = at_index (secs r) j /\
            at_index (counts r') j = at_index (counts r) j) as [-> ->].
    { unfold r'. case_bool; simpl; by rewrite ?at_index_insert_ne by done. }
    apply slot_ok_other; [by apply Hr | rewrite Hi; lia].
Qed.

(** Events in order, each in a positive second. *)
Inductive in_order : list Time -> Prop :=
| in_order_nil : in_order []
| in_order_snoc evs e :
    in_order evs -> 0 < unix e -> Forall (fun e' => unix e' <= unix e) evs ->
    in_order (evs ++ [e]).

Lemma ring_ok_of evs :
  in_order evs -> Z.of_nat (length evs) < 2 ^ 62 -> ring_ok evs (ring_of evs).
Proof.
  induction 1 as [|evs e _ IH Hpos Hle].
  - intros _. split; [done |]. split; [done |]. intros i Hi. left.
    do 10 (destruct i as [|i]; [split_and!; done |]). lia.
  - intros Hlen. rewrite length_app in Hlen. unfold ring_of. rewrite foldl_app.
    apply ring_ok_record; [apply IH| done | done |]; lia.
Qed.

(** The events of the window whose residue lies in [[j, j + n)]. *)
Definition recent_cls (sec : Z) (evs : list Time) (j n : nat) : Z :=
  Z.of_nat (length (filter (fun e => sec - 10 < unix e /\
                                     Z.of_nat j <= unix e mod 10 < Z.of_nat (j + n)) evs)).

Lemma recent_cls_S sec evs j n :
  recent_cls sec evs j (S n) = recent_cls sec evs j 1 + recent_cls sec evs (S j) n.
Proof.
  unfold recent_cls. induction evs as [|e evs IH]; [done |].
  rewrite !filter_cons. repeat case_decide; cbn [length]; lia.
Qed.

Lemma recent_cls_slot sec evs j s c :
  slot_ok evs j s c -> Forall (fun e => 0 < unix e <= sec) evs ->
  recent_cls sec evs j 1 = if negb (s =? 0) && (sec - connRateWindowSecs <? s) then c else 0.
Proof.
  intros Hs Hall. unfold connRateWindowSecs, recent_cls.
  destruct Hs as [(-> & -> & H)|(H1 & H2 & -> & Hx & H)]; cbn [Z.eqb negb andb].
  - rewrite length_filter_none; [done |]. eapply Forall_impl; [exact H |]. simpl. lia.
  - unfold events_at.
    replace (negb (s =? 0) && (sec - 10 <? s)) with (sec - 10 <? s) by lia.
    pose proof (conj H Hall) as Hboth. rewrite <-Forall_and in Hboth.
    assert (s <= sec) as Hsec.
    { apply Exists_exists in Hx as (e & Hin & <-). rewrite Forall_forall in Hall. by apply Hall. }
    destruct (Z.ltb_spec (sec - 10) s).
    + f_equal. apply length_filter_ext. eapply Forall_impl; [exact Hboth |].
      intros e [He1 He2]. cbv beta in *. split; [|intros ->; lia].
      intros [Hw Hj]. assert (unix e mod 10 = Z.of_nat j) as He by lia. specialize (He1 He).
      clear Hj Hboth H Hall Hx. rewrite <-He in H2. Z.div_mod_to_equations. lia.
    + rewrite length_filter_none; [done |]. eapply Forall_impl; [exact Hboth |]. simpl. lia.
Qed.

Lemma rate_sum_recent sec evs ss cs j sum :
  length cs = length ss -> Forall (fun e => 0 < unix e <= sec) evs ->
  (forall i, (i < length ss)%nat -> slot_ok evs (j + i) (at_index ss i) (at_index cs i)) ->
  0 <= sum -> sum + recent_cls sec evs j (length ss) < 2 ^ 63 ->
  rate_sum sec ss cs sum = sum + recent_cls sec evs j (length ss).
Proof.
  intros Hl Hall. revert cs j sum Hl. induction ss as [|s ss IH]; intros cs j sum Hl Hok H0 Hlt.
  { destruct cs; [|done]. unfold recent_cls. simpl.
    rewrite length_filter_none; [lia |]. apply Forall_forall. lia. }
  destruct cs as [|c cs]; [done |]. cbn [rate_sum length] in *.
  pose proof (Hok 0%nat ltac:(lia)) as Hslot. rewrite Nat.add_0_r in Hslot.
  change (at_index (s :: ss) 0) with s in Hslot. change (at_index (c :: cs) 0) with c in Hslot.
  rewrite recent_cls_S in *.
  pose proof (recent_cls_slot sec evs j s c Hslot Hall) as Hc.
  assert (0 <= recent_cls sec evs j 1 /\ 0 <= recent_cls sec evs (S j) (length ss)) as [Hn1 Hn2]
    by (unfold recent_cls; lia).
  assert ((if negb (s =? 0) && (sec - connRateWindowSecs <? s) then wrap64 (sum + c) else sum) =
          sum + recent_cls sec evs j 1) as ->.
  { rewrite Hc. case_bool; [|lia]. apply wrap64_small. unfold int64_range. lia. }
  rewrite (IH cs (S j)); [lia | lia | | lia | lia].
  intros i Hi. specialize (Hok (S i) ltac:(lia)). by rewrite Nat.add_succ_r in Hok.
Qed.

(** C27: The ring refines the log of its events: after connections recorded in
    time order, [rate] is the number of those of the last ten seconds divided by ten.
    The ring keeps ten counters however many events it is given. *)
Theorem rate_counts_recent evs now :
  in_order evs -> Forall (fun e => unix e <= unix now) evs -> Z.of_nat (length evs) < 2 ^ 62 ->
  rate now (ring_of evs) = fdiv (of_int (recent now evs)) (of_int 10) /\
  length (counts (ring_of evs)) = 10%nat.
Proof.
  intros Ho Hle Hlen. destruct (ring_ok_of evs Ho Hlen) as (Hs & Hc & Hr).
  split; [|done]. unfold rate. do 2 f_equal.
  assert (Forall (fun e => 0 < unix e <= unix now) evs) as Hall.
  { apply Forall_and; split; [|done]. clear -Ho. induction Ho; [done |].
    apply Forall_app. split; [done | by constructor]. }
  assert (recent_cls (unix now) evs 0 10 = recent now evs) as Hrec.
  { unfold recent_cls, recent. f_equal. apply length_filter_ext, Forall_forall. intros e _.
    pose proof (Z.mod_pos_bound (unix e) 10). unfold connRateWindowSecs. lia. }
  rewrite (rate_sum_recent (unix now) evs _ _ 0 0); rewrite ?Hs; try done; try lia.
  rewrite Hrec. unfold recent. pose proof (length_filter (fun e => unix now - connRateWindowSecs < unix e) evs).
  lia.
Qed.

Lemma rate_counts_recent_witness :
  let at_s n := mkTime (n * Second) None in
  rate (at_s 25) (ring_of ([] ++ [at_s 12] ++ [at_s 22])) = fdiv (of_int 1) (of_int 10).
Proof.
  intros at_s.
  assert (in_order (([] ++ [at_s 12]) ++ [at_s 22])) as Ho.
  { apply in_order_snoc; [apply in_order_snoc; [apply in_order_nil | reflexivity | apply List.Forall_nil]
                         | reflexivity |].
    apply List.Forall_cons; [vm_compute; discriminate | apply List.Forall_nil]. }
  refine (proj1 (rate_counts_recent (([] ++ [at_s 12]) ++ [at_s 22]) (at_s 25) Ho _ _)).
  - apply List.Forall_cons; [vm_compute; discriminate |].
    apply List.Forall_cons; [vm_compute; discriminate | apply List.Forall_nil].
  - reflexivity.
Defined.
