(* ===== verification/RateLimit.v ===== *)
(** * Package [ratelimit]: per-source and per-port rates

    Translated from src/internal/ratelimit/ratelimit.go.  A bucket is updated in
    place through the pointer the map holds, so an update is an insertion under
    the key the bucket was found at. *)
From Stdlib Require Import ZArith Lia ZifyBool SpecFloat.
From stdpp Require Import base gmap sets list strings pretty.
From S2P Require Import Prelude GoTime GoFloat GoNet GoNetFacts Conntrack ConntrackFacts.

Local Open Scope Z_scope.

Record rateBucket : Type := mkBucket {
  pps : float64;
  bps : float64;
  lastTime : Time;
}.

Record Limiter : Type := mkLimiter {
  buckets : gmap string rateBucket;
  ppsLimit : float64;
  bpsLimit : float64;
  alpha : float64;
  l_MaxEntries : Z;
}.

Definition with_buckets (m : gmap string rateBucket) (l : Limiter) : Limiter :=
  mkLimiter m (ppsLimit l) (bpsLimit l) (alpha l) (l_MaxEntries l).

Definition NewLimiter (ppsLimit bpsLimit : float64) : Limiter :=
  mkLimiter ∅ ppsLimit bpsLimit f0_3 100000.

(** [normalizeIP] of this package is the function of package [conntrack]. *)
Definition rl_normalizeIP (ip : string) : string :=
  match ParseIP ip with
  | None => ip
  | Some parsed =>
      match To4 parsed with
      | Some v4 => IPString v4
      | None => IPString parsed
      end
  end.

Definition ipKey (ip : string) : string := "ip:" +:+ rl_normalizeIP ip.

Definition portKey (ip : string) (dstPort : Z) : string :=
  "port:" +:+ rl_normalizeIP ip +:+ ":" +:+ pretty dstPort.

Definition updateBucket (l : Limiter) (b : rateBucket) (packetSize : Z) (now : Time) : rateBucket :=
  let dt := seconds (time_sub now (lastTime b)) in
  let dt := if fle dt f0 then f0_001 else dt in
  let instPPS := fdiv f1 dt in
  let instBPS := fdiv (of_int packetSize) dt in
  let '(p, q) :=
    if feq (pps b) f0 then (f1, of_int packetSize)
    else (fadd (fmul (alpha l) instPPS) (fmul (fsub f1 (alpha l)) (pps b)),
          fadd (fmul (alpha l) instBPS) (fmul (fsub f1 (alpha l)) (bps b))) in
  let p := if isInf p || flt f1e12 p then f1e12 else p in
  let q := if isInf q || flt f1e15 q then f1e15 else q in
  mkBucket p q now.

Definition rl_evictionSampleSize : nat := 16.

Definition evictOneSampledLocked (ro : range_order string rateBucket) (l : Limiter) : Limiter :=
  match sample_oldest lastTime rl_evictionSampleSize (buckets l) (range_keys ro (buckets l)) None with
  | None => l
  | Some (oldestKey, _) => with_buckets (delete oldestKey (buckets l)) l
  end.

Definition getOrCreateBucket (ro : range_order string rateBucket) (key : string) (now : Time)
    (l : Limiter) : rateBucket * Limiter :=
  match buckets l !! key with
  | Some b => (b, l)
  | None =>
      let l := if (0 <? l_MaxEntries l) && (l_MaxEntries l <=? Z.of_nat (size (buckets l)))
               then evictOneSampledLocked ro l else l in
      let b := mkBucket f0 f0 now in
      (b, with_buckets (<[key := b]> (buckets l)) l)
  end.

(** The body [Allow] and [AllowPort] share. *)
Definition allowKey (ro : range_order string rateBucket) (now : Time) (key : string)
    (packetSize : Z) (l : Limiter) : (float64 * float64) * Limiter :=
  let '(b, l) := getOrCreateBucket ro key now l in
  let b := updateBucket l b packetSize now in
  ((pps b, bps b), with_buckets (<[key := b]> (buckets l)) l).

Definition Allow (ro : range_order string rateBucket) (now : Time) (ip : string)
    (packetSize : Z) (l : Limiter) : (float64 * float64) * Limiter :=
  allowKey ro now (ipKey ip) packetSize l.

Definition AllowPort (ro : range_order string rateBucket) (now : Time) (ip : string)
    (dstPort packetSize : Z) (l : Limiter) : (float64 * float64) * Limiter :=
  allowKey ro now (portKey ip dstPort) packetSize l.

Definition getBucketPPS (key : string) (l : Limiter) : float64 :=
  match buckets l !! key with Some b => pps b | None => f0 end.
Definition getBucketBPS (key : string) (l : Limiter) : float64 :=
  match buckets l !! key with Some b => bps b | None => f0 end.

Definition ExceedsLimit (l : Limiter) (p q : float64) : bool :=
  (flt f0 (ppsLimit l) && flt (ppsLimit l) p) || (flt f0 (bpsLimit l) && flt (bpsLimit l) q).

Definition GetPPS (ip : string) (l : Limiter) : float64 := getBucketPPS (ipKey ip) l.
Definition GetBPS (ip : string) (l : Limiter) : float64 := getBucketBPS (ipKey ip) l.
Definition GetPortPPS (ip : string) (p : Z) (l : Limiter) : float64 := getBucketPPS (portKey ip p) l.
Definition GetPortBPS (ip : string) (p : Z) (l : Limiter) : float64 := getBucketBPS (portKey ip p) l.

(** The loop of [Cleanup] over the remaining keys of the iteration. *)
Fixpoint cleanup_loop (now : Time) (idleThreshold : Z) (keys : list string)
    (m : gmap string rateBucket) (removed : Z) {struct keys} : Z * gmap string rateBucket :=
  match keys with
  | [] => (removed, m)
  | key :: keys' =>
      match m !! key with
      | Some b =>
          if idleThreshold <? time_sub now (lastTime b)
          then cleanup_loop now idleThreshold keys' (delete key m) (removed + 1)
          else cleanup_loop now idleThreshold keys' m removed
      | None => cleanup_loop now idleThreshold keys' m removed
      end
  end.

Definition Cleanup (ro : range_order string rateBucket) (now : Time) (idleThreshold : Z)
    (l : Limiter) : Z * Limiter :=
  let '(removed, m) :=
    cleanup_loop now idleThreshold (range_keys ro (buckets l)) (buckets l) 0 in
  (removed, with_buckets m l).

Definition l_Len (l : Limiter) : Z := Z.of_nat (size (buckets l)).
