(* ===== verification/RateLimitFacts.v ===== *)
(** * Theorems on package [ratelimit]

    The numeric range of every rate the limiter reports, the separation of its
    keys, its size bound, and the exactness of the cleanup. *)
From Stdlib Require Import ZArith Lia ZifyBool SpecFloat.
From stdpp Require Import base gmap sets list strings pretty relations.
From S2P Require Import Prelude GoTime GoFloat GoNet GoNetFacts Conntrack ConntrackFacts RateLimit.

Local Open Scope Z_scope.

(** ** Numbers in a range *)

(** A finite number between zero and [hi]. *)
Definition in_range (hi f : float64) : Prop :=
  has_sign false f /\ finite64 f /\ fle f hi = true.

Lemma fle_of_not_flt hi f : has_sign false f -> ~ isNaN hi -> flt hi f = false -> fle f hi = true.
Proof.
  unfold flt, fle, SFltb, SFleb.
  destruct f as [s|s| |s m e], hi as [s'|s'| |s' m' e']; simpl; try done; intros Hs Hn; subst;
    try (destruct s'; done); try (by destruct s).
  destruct s'; [done |].
  rewrite (Z.compare_antisym e' e). destruct (e' ?= e); simpl; try done.
  fold (Pos.compare m' m). fold (Pos.compare m m'). rewrite (Pos.compare_antisym m' m).
  by destruct (m' ?= m)%positive.
Qed.

Lemma clamp_in_range hi f :
  in_range hi hi -> has_sign false f ->
  in_range hi (if isInf f || flt hi f then hi else f).
Proof.
  intros Hhi Hf. destruct (isInf f) eqn:Hinf; [done |]. simpl.
  destruct (flt hi f) eqn:Hlt; [done |]. split; [done |].
  split; [by destruct f; simpl in * |]. apply fle_of_not_flt; [done | | done].
  destruct Hhi as (_ & Hfin & _). destruct hi; simpl in *; tauto.
Qed.

Lemma f1e12_range : in_range f1e12 f1e12.
Proof. done. Qed.
Lemma f1e15_range : in_range f1e15 f1e15.
Proof. done. Qed.

Lemma has_sign_0 s f : has_sign s f -> fle f f0 = false -> positive64 f.
Proof. destruct f as [[]|[]| |[] ? ?]; done. Qed.

Lemma seconds_sign d : has_sign (d <? 0) (seconds d).
Proof.
  unfold seconds. apply fadd_sign.
  - pose proof (of_int_sign (Z.quot d 1000000000)) as H.
    destruct (Z.eq_dec (Z.quot d 1000000000) 0) as [->|Hne]; [done |].
    assert ((Z.quot d 1000000000 <? 0) = (d <? 0)) as <-; [|done].
    destruct (Z.ltb_spec d 0), (Z.ltb_spec (Z.quot d 1000000000) 0); try done.
    + pose proof (Z.quot_opp_l d 1000000000). pose proof (Z.quot_pos (- d) 1000000000). lia.
    + pose proof (Z.quot_pos d 1000000000). lia.
  - apply fdiv_sign; [|done | by right].
    pose proof (of_int_sign (Z.rem d 1000000000)) as H.
    destruct (Z.eq_dec (Z.rem d 1000000000) 0) as [->|Hne]; [done |].
    assert ((Z.rem d 1000000000 <? 0) = (d <? 0)) as <-; [|done].
    pose proof (Z.rem_sign_nz d 1000000000 ltac:(lia) Hne). lia.
Qed.

(** The elapsed time the update divides by is positive. *)
Lemma dt_positive d :
  positive64 (if fle (seconds d) f0 then f0_001 else seconds d).
Proof. case_bool; [done |]. eapply has_sign_0; [apply seconds_sign | done]. Qed.

Lemma ewma_sign x y :
  has_sign false x -> has_sign false y ->
  has_sign false (fadd (fmul f0_3 x) (fmul (fsub f1 f0_3) y)).
Proof. intros Hx Hy. apply fadd_sign; by apply fmul_sign. Qed.

Definition bucket_ok (b : rateBucket) : Prop := in_range f1e12 (pps b) /\ in_range f1e15 (bps b).

Lemma updateBucket_ok l b size now :
  alpha l = f0_3 -> 0 <= size < 2 ^ 63 -> bucket_ok b -> bucket_ok (updateBucket l b size now).
Proof.
  intros Ha Hsize [(Hp & _) (Hq & _)]. unfold updateBucket. rewrite Ha.
  pose proof (dt_positive (time_sub now (lastTime b))) as Hdt. set (dt := if fle _ _ then _ else _) in *.
  pose proof (of_int_sign size) as Hs. replace (size <? 0) with false in Hs by lia.
  assert (finite64 (of_int size) \/ finite64 dt) as Hfin.
  { left. apply of_int_finite. unfold int64_range. lia. }
  case_bool; split; apply clamp_in_range; try done; apply ewma_sign; try done;
    apply fdiv_sign; try done; by left.
Qed.

(** ** Keys *)
Lemma rl_normalizeIP_eq ip : rl_normalizeIP ip = normalizeIP ip.
Proof. done. Qed.

Lemma ipKey_inj ip ip' : ipKey ip = ipKey ip' -> normalizeIP ip = normalizeIP ip'.
Proof. unfold ipKey. rewrite !rl_normalizeIP_eq. simpl. intros H. by simplify_eq. Qed.

Lemma portKey_inj ip ip' p p' :
  portKey ip p = portKey ip' p' -> normalizeIP ip = normalizeIP ip' /\ p = p'.
Proof.
  unfold portKey. rewrite !rl_normalizeIP_eq. intros H. simpl in H.
  assert (normalizeIP ip +:+ ":" +:+ pretty p = normalizeIP ip' +:+ ":" +:+ pretty p') as H'
    by (by simplify_eq).
  apply last_sep_inj in H' as [H1 H2]; [|apply pretty_Z_sep, not_numeric_colon..].
  split; [done | by apply (inj pretty) in H2].
Qed.

Lemma ipKey_portKey ip ip' p : ipKey ip <> portKey ip' p.
Proof. unfold ipKey, portKey. simpl. done. Qed.

(** ** The limiter *)
Record limiter_inv (l : Limiter) : Prop := {
  linv_alpha : alpha l = f0_3;
  linv_size : 0 < l_MaxEntries l -> l_Len l <= l_MaxEntries l;
  linv_buckets : map_Forall (fun _ => bucket_ok) (buckets l);
}.

Lemma new_bucket_ok now : bucket_ok (mkBucket f0 f0 now).
Proof. done. Qed.

Lemma evictOneSampledLocked_drops ro l :
  buckets l <> ∅ ->
  exists k b, buckets l !! k = Some b /\
    evictOneSampledLocked ro l = with_buckets (delete k (buckets l)) l.
Proof.
  intros Hne. unfold evictOneSampledLocked.
  destruct (sample_oldest_live lastTime ro rl_evictionSampleSize (buckets l)) as (k & b & -> & Hk);
    [unfold rl_evictionSampleSize; lia | done |].
  by exists k, b.
Qed.

Lemma getOrCreateBucket_inv ro key now l :
  limiter_inv l ->
  let r := getOrCreateBucket ro key now l in
  limiter_inv r.2 /\ bucket_ok r.1 /\ buckets r.2 !! key = Some r.1.
Proof.
  intros Hi. unfold getOrCreateBucket. destruct (buckets l !! key) as [b|] eqn:Hk.
  { split_and!; try done. by apply (linv_buckets l Hi key b). }
  assert (exists l', limiter_inv l' /\ buckets l' !! key = None /\
    (0 < l_MaxEntries l' -> l_Len l' < l_MaxEntries l') /\
    (if (0 <? l_MaxEntries l) && (l_MaxEntries l <=? Z.of_nat (size (buckets l)))
     then evictOneSampledLocked ro l else l) = l') as (l' & Hi' & Hk' & Hlen & ->).
  { destruct Hi as [H1 H2 H3]. unfold l_Len in *. case_bool; bool_hyps.
    - destruct (evictOneSampledLocked_drops ro l) as (k & b & Hb & ->).
      { intros Heq. rewrite Heq, map_size_empty in *. simpl in *. lia. }
      eexists. split; [|split; [|split; [|done]]].
      + split; try done; cbn [with_buckets buckets l_MaxEntries]; unfold l_Len; simpl.
        * rewrite map_size_delete_Some by eauto. lia.
        * by apply map_Forall_delete.
      + simpl. apply lookup_delete_None. by right.
      + unfold l_Len. simpl. rewrite map_size_delete_Some by eauto.
        assert (size (buckets l) <> 0%nat) by (rewrite map_size_ne_0_lookup; eauto). lia.
    - exists l. split_and!; try done. unfold l_Len. lia. }
  destruct Hi' as [H1 H2 H3]. split; [split | split]; cbn [fst snd with_buckets buckets].
  - done.
  - unfold l_Len in *. simpl. intros Hm. rewrite map_size_insert_None by done. specialize (Hlen Hm). lia.
  - by apply map_Forall_insert_2.
  - apply new_bucket_ok.
  - apply lookup_insert_eq.
Qed.

Lemma allowKey_inv ro now key size l :
  limiter_inv l -> 0 <= size < 2 ^ 63 ->
  let r := allowKey ro now key size l in
  limiter_inv r.2 /\ in_range f1e12 r.1.1 /\ in_range f1e15 r.1.2.
Proof.
  intros Hi Hs. unfold allowKey.
  pose proof (getOrCreateBucket_inv ro key now l Hi) as (Hi' & Hb & Hk).
  destruct (getOrCreateBucket ro key now l) as [b l']. simpl in *.
  pose proof (updateBucket_ok l' b size now (linv_alpha _ Hi') Hs Hb) as Hb'.
  destruct Hi' as [H1 H2 H3]. split; [|by destruct Hb'].
  split; [done | | by apply map_Forall_insert_2].
  unfold l_Len in *. simpl. by rewrite map_size_insert_Some by eauto.
Qed.

Lemma evictOneSampledLocked_cap ro l : l_MaxEntries (evictOneSampledLocked ro l) = l_MaxEntries l.
Proof. unfold evictOneSampledLocked. by repeat case_match. Qed.

Lemma allowKey_cap ro now key size l : l_MaxEntries (allowKey ro now key size l).2 = l_MaxEntries l.
Proof.
  unfold allowKey, getOrCreateBucket. destruct (buckets l !! key); [done |].
  simpl. case_bool; [apply evictOneSampledLocked_cap | done].
Qed.

(** With room in the table a packet touches one bucket. *)
Lemma allowKey_other ro now key size l key' :
  l_Len l < l_MaxEntries l -> key' <> key ->
  buckets (allowKey ro now key size l).2 !! key' = buckets l !! key'.
Proof.
  unfold l_Len, allowKey, getOrCreateBucket. intros Hlen Hne.
  destruct (buckets l !! key); simpl; [by rewrite lookup_insert_ne |].
  replace (_ && _) with false by lia. by rewrite !lookup_insert_ne.
Qed.

(** ** Cleanup *)
Lemma cleanup_loop_spec now thr keys m removed :
  NoDup keys -> (forall k, k ∈ keys -> is_Some (m !! k)) ->
  let r := cleanup_loop now thr keys m removed in
  (forall k, r.2 !! k = match m !! k with
                        | Some b => if decide (k ∈ keys /\ thr < time_sub now (lastTime b))
                                    then None else Some b
                        | None => None
                        end) /\
  r.1 + Z.of_nat (size r.2) = removed + Z.of_nat (size m).
Proof.
  revert m removed. induction keys as [|k keys IH]; intros m removed Hnd Hin; cbn [cleanup_loop fst snd].
  { split; [|done]. intros k. destruct (m !! k); [|done]. case_decide as Hd; [|done].
    destruct Hd as [Hd _]. by apply not_elem_of_nil in Hd. }
  apply NoDup_cons in Hnd as [Hk Hnd]. destruct (Hin k ltac:(by left)) as [b Hb]. rewrite Hb.
  assert (size m <> 0%nat) as Hsz by (rewrite map_size_ne_0_lookup; eauto).
  destruct (Z.ltb_spec thr (time_sub now (lastTime b))) as [Hlt|Hge].
  - destruct (IH (delete k m) (removed + 1) Hnd) as [H1 H2].
    { intros k' Hk'. rewrite lookup_delete_ne by (by intros ->). apply Hin. by right. }
    rewrite map_size_delete_Some in H2 by eauto. split; [|lia].
    intros k'. rewrite H1. destruct (decide (k' = k)) as [->|Hne].
    + rewrite lookup_delete_eq, Hb, decide_True; [done |]. split; [by left | done].
    + rewrite lookup_delete_ne by done. destruct (m !! k') as [b'|]; [|done].
      do 2 case_decide; try done; exfalso; set_solver.
  - destruct (IH m removed Hnd) as [H1 H2]; [intros; apply Hin; by right |].
    split; [|done]. intros k'. rewrite H1. destruct (decide (k' = k)) as [->|Hne].
    + rewrite Hb. rewrite !decide_False; [done | lia | lia].
    + destruct (m !! k') as [b'|]; [|done]. do 2 case_decide; try done; exfalso; set_solver.
Qed.

Lemma cleanup_filter ro now thr l :
  buckets (Cleanup ro now thr l).2 =
    filter (fun kb => time_sub now (lastTime kb.2) <= thr) (buckets l) /\
  (Cleanup ro now thr l).1 = l_Len l - l_Len (Cleanup ro now thr l).2.
Proof.
  unfold Cleanup, l_Len.
  destruct (cleanup_loop_spec now thr (range_keys ro (buckets l)) (buckets l) 0) as [H1 H2].
  { apply NoDup_range_keys. }
  { intros k. apply elem_of_range_keys. }
  destruct (cleanup_loop _ _ _ _ _) as [removed m]. simpl in *. split; [|lia].
  apply map_eq. intros k. rewrite H1. destruct (buckets l !! k) as [b|] eqn:Hb.
  - destruct (Z.le_gt_cases (time_sub now (lastTime b)) thr).
    + rewrite decide_False by lia. symmetry. by apply map_lookup_filter_Some.
    + rewrite decide_True by (split; [apply elem_of_range_keys; eauto | lia]).
      symmetry. apply map_lookup_filter_None. right. intros b' Hb'. simplify_eq. simpl. lia.
  - symmetry. apply map_lookup_filter_None. by left.
Qed.

(** [Cleanup] removes exactly the buckets idle for longer than the threshold,
    whatever order the map is iterated in, and returns their number. *)
Theorem Cleanup_exact ro now thr l :
  buckets (Cleanup ro now thr l).2 =
    filter (fun kb => time_sub now (lastTime kb.2) <= thr) (buckets l) /\
  (Cleanup ro now thr l).1 = l_Len l - l_Len (Cleanup ro now thr l).2.
Proof. apply cleanup_filter. Qed.

Lemma Cleanup_inv ro now thr l : limiter_inv l -> limiter_inv (Cleanup ro now thr l).2.
Proof.
  intros [H1 H2 H3]. destruct (cleanup_filter ro now thr l) as [Hf _]. unfold Cleanup in *.
  destruct (cleanup_loop _ _ _ _ _) as [removed m]. simpl in *. subst m.
  split; simpl; [done | |].
  - intros Hm. specialize (H2 Hm). unfold l_Len in *. simpl.
    pose proof (map_subseteq_size _ _ (map_filter_subseteq (fun kb => time_sub now (lastTime kb.2) <= thr) (buckets l))).
    lia.
  - intros k b Hb. apply map_lookup_filter_Some in Hb as [Hb _]. by apply (H3 k b).
Qed.

(** ** Reachable limiters *)
Inductive rl_step (l : Limiter) : Limiter -> Prop :=
| step_Allow ro now ip size :
    0 <= size < 2 ^ 63 -> rl_step l (Allow ro now ip size l).2
| step_AllowPort ro now ip port size :
    0 <= size < 2 ^ 63 -> rl_step l (AllowPort ro now ip port size l).2
| step_Cleanup ro now thr : rl_step l (Cleanup ro now thr l).2.

Definition rl_reachable (l : Limiter) : Prop := exists p q, rtc rl_step (NewLimiter p q) l.

Lemma rl_reachable_inv l : rl_reachable l -> limiter_inv l.
Proof.
  intros (p & q & Hr).
  assert (limiter_inv (NewLimiter p q)) as Hi by (split; done).
  induction Hr as [|l1 l2 l3 Hs _ IH]; [done |]. apply IH.
  destruct Hs; [by apply allowKey_inv | by apply allowKey_inv | by apply Cleanup_inv].
Qed.

Lemma rl_reachable_cap l : rl_reachable l -> l_MaxEntries l = 100000.
Proof.
  intros (p & q & Hr). assert (l_MaxEntries (NewLimiter p q) = 100000) as Hi by done.
  induction Hr as [|l1 l2 l3 Hs _ IH]; [done |]. apply IH.
  destruct Hs; [unfold Allow | unfold AllowPort | unfold Cleanup]; rewrite ?allowKey_cap; [done.. |].
  by destruct (cleanup_loop _ _ _ _ _).
Qed.

(** C28: Whatever packets arrive at whatever times (also at equal times, or after the
    clock stood still for years), every rate the limiter reports is a finite number that
    is not negative and not NaN, at most 1e12 packets and 1e15 bytes per second, and a limiter
    made by [NewLimiter] never holds more than 100000 buckets, before and after a packet. *)
Theorem rates_in_range l ro now ip port size :
  rl_reachable l -> 0 <= size < 2 ^ 63 ->
  let r1 := Allow ro now ip size l in
  let r2 := AllowPort ro now ip port size l in
  (in_range f1e12 r1.1.1 /\ in_range f1e15 r1.1.2) /\
  (in_range f1e12 r2.1.1 /\ in_range f1e15 r2.1.2) /\
  l_Len l <= 100000 /\ l_Len r1.2 <= 100000 /\ l_Len r2.2 <= 100000.
Proof.
  intros Hr Hs. pose proof (rl_reachable_inv l Hr) as Hi. pose proof (rl_reachable_cap l Hr) as Hc.
  destruct (allowKey_inv ro now (ipKey ip) size l Hi Hs) as (H1 & H2 & H3).
  destruct (allowKey_inv ro now (portKey ip port) size l Hi Hs) as (H4 & H5 & H6).
  split; [done |]. split; [done |]. unfold Allow, AllowPort.
  pose proof (allowKey_cap ro now (ipKey ip) size l) as C1. pose proof (allowKey_cap ro now (portKey ip port) size l) as C2.
  pose proof (linv_size _ Hi) as L0. pose proof (linv_size _ H1) as L1. pose proof (linv_size _ H4) as L2.
  rewrite C1 in L1. rewrite C2 in L2. rewrite Hc in *. split_and!; [apply L0 | apply L1 | apply L2]; lia.
Qed.

Lemma rates_in_range_witness :
  let l := (Allow (map_order _ _) (reading (frozenClock 5) 0) "10.0.0.1" 60 (NewLimiter f0 f0)).2 in
  in_range f1e12 (Allow (map_order _ _) (reading (frozenClock 5) 0) "10.0.0.1" 1500 l).1.1 /\ l_Len l <= 100000.
Proof.
  cbv zeta. destruct (rates_in_range (Allow (map_order _ _) (reading (frozenClock 5) 0) "10.0.0.1" 60
           (NewLimiter f0 f0)).2 (map_order _ _) (reading (frozenClock 5) 0) "10.0.0.1" 80 1500) as ((H1 & _) & _ & H2 & _).
  - exists f0, f0. apply rtc_once, step_Allow. lia.
  - lia.
  - exact (conj H1 H2).
Defined.

(** While the limiter has room, a packet changes the rates of its own source only,
    and a packet counted for a port changes the rates of that source and port only: two
    different addresses, two ports, or an address and a port never share a bucket. *)
Theorem rates_isolated l ro now ip ip' port port' size :
  l_Len l < l_MaxEntries l -> normalizeIP ip' <> normalizeIP ip ->
  let l1 := (Allow ro now ip size l).2 in
  let l2 := (AllowPort ro now ip port size l).2 in
  (GetPPS ip' l1 = GetPPS ip' l /\ GetBPS ip' l1 = GetBPS ip' l) /\
  GetPortPPS ip port l1 = GetPortPPS ip port l /\
  (GetPPS ip l2 = GetPPS ip l /\ GetBPS ip l2 = GetBPS ip l) /\
  GetPortPPS ip' port' l2 = GetPortPPS ip' port' l /\
  (port' <> port -> GetPortPPS ip port' l2 = GetPortPPS ip port' l).
Proof.
  intros Hlen Hne. unfold GetPPS, GetBPS, GetPortPPS, getBucketPPS, getBucketBPS, Allow, AllowPort.
  cbv zeta.
  assert (ipKey ip' <> ipKey ip) as H1 by (by intros ?%ipKey_inj).
  assert (portKey ip port <> ipKey ip) as H2 by (intros H; symmetry in H; by apply ipKey_portKey in H).
  pose proof (ipKey_portKey ip ip port) as H3.
  assert (portKey ip' port' <> portKey ip port) as H4 by (by intros [? _]%portKey_inj).
  split_and!; try (by rewrite allowKey_other).
  intros Hp. rewrite allowKey_other; [done | done |]. by intros [_ ?]%portKey_inj.
Qed.

Lemma rates_isolated_witness :
  GetPPS "10.0.0.2" (Allow (map_order _ _) (reading (frozenClock 5) 0) "10.0.0.1" 60
                       (NewLimiter f0 f0)).2 = f0.
Proof.
  refine (proj1 (proj1 (rates_isolated (NewLimiter f0 f0) (map_order _ _) (reading (frozenClock 5) 0)
           "10.0.0.1" "10.0.0.2" 80 81 60 _ _))).
  - vm_compute. reflexivity.
  - vm_compute. discriminate.
Defined.
