(* ===== verification/L2Filter.v ===== *)
(** * Package [l2filter]: MAC lists and IP-to-MAC bindings

    Translated from src/internal/l2filter/l2filter.go.  A nil [*Filter] is
    [None]. *)
From Stdlib Require Import ZArith Lia ZifyBool.
From stdpp Require Import base gmap sets list strings pretty.
From S2P Require Import Prelude GoTime GoFloat GoNet GoNetFacts Conntrack ConntrackFacts.

Local Open Scope Z_scope.

Record L2Config : Type := mkL2Config {
  AllowedMACs : list string;
  BlockedMACs : list string;
  EnableARPCheck : bool;
  EnableDHCPCheck : bool;
  MaxARPEntries : Z;
}.

Definition defaultMaxARPEntries : Z := 65536.

Record Filter : Type := mkFilter {
  f_cfg : L2Config;
  allowedMACs : gset string;
  blockedMACs : gset string;
  arpTable : gmap string string;
  maxARP : Z;
}.

Definition with_arp (m : gmap string string) (f : Filter) : Filter :=
  mkFilter (f_cfg f) (allowedMACs f) (blockedMACs f) m (maxARP f).

(** ** MAC addresses *)
Definition in_chars (lo hi c : Z) : bool := (lo <=? c) && (c <=? hi).

Definition is_hex (c : Z) : bool :=
  in_chars 48 57 c || in_chars 97 102 c || in_chars 65 70 c.

(** The separators [:], [-], [.] and space. *)
Definition is_mac_sep (c : Z) : bool :=
  (c =? 58) || (c =? 45) || (c =? 46) || (c =? 32).

Definition to_lower (c : Z) : Z := if in_chars 65 90 c then c + 32 else c.

(** ASCII white space: tab, newline, vertical tab, form feed, return, space. *)
Definition is_space (c : Z) : bool := in_chars 9 13 c || (c =? 32).

(** The mapping function sees runes; it keeps ASCII characters only, and the
    bytes of any other rune (or of an invalid encoding) are all above 127, so
    keeping runes and keeping bytes is the same.  [strings.Fields] followed by
    [strings.Join] with the empty string removes the white space. *)
Definition normalizeMAC (mac : string) : string :=
  let mac := List.filter (fun r => is_hex r || is_mac_sep r) (codes mac) in
  let result := List.filter (fun c => negb (is_mac_sep c)) (List.map to_lower mac) in
  let cleaned := List.filter (fun c => negb (is_space c)) result in
  text cleaned.

Definition normalizeIPKey (ip : string) : string :=
  match ParseIP ip with
  | None => ip
  | Some parsed =>
      match To4 parsed with
      | Some ip4 => IPString ip4
      | None => IPString parsed
      end
  end.

Definition NewFilter (c : L2Config) : Filter :=
  mkFilter c
    (foldl (fun s m => {[ normalizeMAC m ]} ∪ s) ∅ (AllowedMACs c))
    (foldl (fun s m => {[ normalizeMAC m ]} ∪ s) ∅ (BlockedMACs c))
    ∅
    (if MaxARPEntries c <=? 0 then defaultMaxARPEntries else MaxARPEntries c).

Definition MACAllowed (f : option Filter) (srcMAC : string) : bool * string :=
  match f with
  | None => (true, ""%string)
  | Some f =>
      let norm := normalizeMAC srcMAC in
      if bool_decide (norm ∈ blockedMACs f) then (false, "blocked MAC: " +:+ srcMAC)
      else if bool_decide (size (allowedMACs f) = 0%nat) then (true, ""%string)
      else if String.eqb norm "" then (false, "empty MAC not in allowlist"%string)
      else if negb (bool_decide (norm ∈ allowedMACs f))
      then (false, "MAC not in allowlist: " +:+ srcMAC)
      else (true, ""%string)
  end.

(** ** The binding table *)

(** The eviction loop: delete the first key of the iteration. *)
Definition evict_first (ro : range_order string string) (m : gmap string string)
  : gmap string string :=
  match range_keys ro m with
  | [] => m
  | k :: _ => delete k m
  end.

(** Insertion of a new key in a bounded table. *)
Definition learn (ro : range_order string string) (key norm : string) (f : Filter) : Filter :=
  let m := if maxARP f <=? Z.of_nat (size (arpTable f))
           then evict_first ro (arpTable f) else arpTable f in
  with_arp (<[key := norm]> m) f.

Definition RecordDHCP (ro : range_order string string) (ip mac : string) (f : option Filter)
  : bool * option Filter :=
  match f with
  | None => (false, None)
  | Some f =>
      let norm := normalizeMAC mac in
      let key := normalizeIPKey ip in
      if String.eqb norm "" || String.eqb key "" then (false, Some f)
      else
        match arpTable f !! key with
        | Some _ => (true, Some (with_arp (<[key := norm]> (arpTable f)) f))
        | None => (true, Some (learn ro key norm f))
        end
  end.

Definition CheckARP (ro : range_order string string) (ip mac : string) (f : option Filter)
  : (bool * string) * option Filter :=
  match f with
  | None => ((true, ""%string), None)
  | Some f =>
      let norm := normalizeMAC mac in
      if String.eqb norm "" || String.eqb ip "" then ((true, ""%string), Some f)
      else
        let key := normalizeIPKey ip in
        match arpTable f !! key with
        | None => ((true, ""%string), Some (learn ro key norm f))
        | Some knownMAC =>
            if negb (String.eqb knownMAC norm)
            then ((false, "ARP spoofing detected: IP " +:+ ip +:+ " changed from " +:+ knownMAC
                            +:+ " to " +:+ mac), Some f)
            else ((true, ""%string), Some f)
        end
  end.
