(* ===== verification/L2FilterFacts.v ===== *)
(** * Theorems on package [l2filter] *)
From Stdlib Require Import ZArith Lia ZifyBool.
From stdpp Require Import base gmap sets list strings pretty relations.
From S2P Require Import Prelude GoTime GoFloat GoNet GoNetFacts Conntrack ConntrackFacts L2Filter.

Local Open Scope Z_scope.

(** ** MAC normalization *)

(** The characters of a normalized address. *)
Definition lower_hex (c : Z) : Prop := 48 <= c <= 57 \/ 97 <= c <= 102.

(** What normalization does to one character. *)
Definition mac_char (c : Z) : list Z := if is_hex c then [to_lower c] else [].

Lemma normalizeMAC_chars s : normalizeMAC s = text (concat (mac_char <$> codes s)).
Proof.
  unfold normalizeMAC. f_equal. induction (codes s) as [|c l IH]; [done |].
  rewrite fmap_cons. cbn [concat]. rewrite <-IH. clear IH. unfold mac_char.
  assert (is_hex c = true -> is_mac_sep (to_lower c) = false /\ is_space (to_lower c) = false) as H1.
  { unfold is_hex, to_lower, is_mac_sep, is_space, in_chars. case_bool; lia. }
  assert (is_mac_sep c = true -> is_mac_sep (to_lower c) = true) as H2.
  { unfold is_mac_sep, to_lower, in_chars. case_bool; lia. }
  cbn [List.filter]. destruct (is_hex c) eqn:Hh; cbn [orb].
  - destruct (H1 eq_refl) as [Hs Hw]. cbn [List.map List.filter]. rewrite Hs. cbn [negb List.filter].
    by rewrite Hw.
  - destruct (is_mac_sep c) eqn:Hs; [|done]. cbn [List.map List.filter]. by rewrite (H2 eq_refl).
Qed.

Lemma mac_char_lower c : Forall lower_hex (mac_char c).
Proof.
  unfold mac_char. destruct (is_hex c) eqn:H; [|constructor]. constructor; [|constructor].
  unfold lower_hex, is_hex, to_lower, in_chars in *. case_bool; lia.
Qed.

Lemma mac_chars_lower l : Forall lower_hex (concat (mac_char <$> l)).
Proof.
  induction l as [|c l IH]; [constructor |]. rewrite fmap_cons. cbn [concat].
  apply Forall_app. split; [apply mac_char_lower | done].
Qed.

Lemma mac_char_id c : lower_hex c -> mac_char c = [c].
Proof.
  unfold lower_hex, mac_char, is_hex, to_lower, in_chars. intros H.
  replace (_ || _) with true by lia. f_equal. case_bool; lia.
Qed.

Lemma mac_chars_id l : Forall lower_hex l -> concat (mac_char <$> l) = l.
Proof.
  induction 1 as [|c l Hc _ IH]; [done |]. rewrite fmap_cons. cbn [concat].
  by rewrite IH, mac_char_id.
Qed.

Lemma lower_hex_byte l : Forall lower_hex l -> Forall byte_ok l.
Proof. intros H. eapply Forall_impl; [exact H |]. unfold lower_hex, byte_ok. lia. Qed.

Lemma normalizeMAC_idemp s : normalizeMAC (normalizeMAC s) = normalizeMAC s.
Proof.
  rewrite !normalizeMAC_chars. pose proof (mac_chars_lower (codes s)) as H.
  rewrite codes_text by (by apply lower_hex_byte). by rewrite mac_chars_id.
Qed.

Lemma hexdigit_lower d : 0 <= d < 16 -> lower_hex (hexdigit d).
Proof. unfold hexdigit, lower_hex. case_bool; lia. Qed.

Lemma hex_pair_lower b : byte_ok b -> Forall lower_hex [hexdigit (b / 16); hexdigit (b mod 16)].
Proof.
  unfold byte_ok. intros Hb. pose proof (Z.mod_pos_bound b 16).
  assert (0 <= b / 16 < 16) by (split; [apply Z.div_pos; lia | apply Z.div_lt_upper_bound; lia]).
  constructor; [by apply hexdigit_lower |]. constructor; [apply hexdigit_lower; lia | constructor].
Qed.

Lemma normalize_sep_join l :
  Forall (Forall lower_hex) l -> concat (mac_char <$> sep_join [c_colon] l) = concat l.
Proof.
  induction 1 as [|x l Hx Hl IH]; [done |]. destruct l as [|y l].
  { simpl. rewrite app_nil_r. by apply mac_chars_id. }
  rewrite sep_join_cons2, !fmap_app, !concat_app, mac_chars_id by done. cbn [concat]. by rewrite IH.
Qed.

Lemma normalizeMAC_MAC_String a :
  octets_ok a -> normalizeMAC (MAC_String a) = text (hexString a).
Proof.
  intros Ha. rewrite normalizeMAC_chars. f_equal. unfold MAC_String, hexString.
  set (ps := (fun b : Z => [hexdigit (b / 16); hexdigit (b mod 16)]) <$> a).
  assert (Forall (Forall lower_hex) ps) as Hps.
  { unfold ps. apply Forall_fmap. eapply Forall_impl; [exact Ha |]. apply hex_pair_lower. }
  assert (Forall byte_ok (sep_join [c_colon] ps)) as Hb.
  { clear Ha. induction Hps as [|x l Hx Hl IH]; [constructor |]. destruct l as [|y l].
    - by apply lower_hex_byte.
    - rewrite sep_join_cons2. apply Forall_app. split; [by apply lower_hex_byte |].
      apply Forall_app. split; [|done]. constructor; [unfold byte_ok, c_colon; lia | constructor]. }
  rewrite codes_text by done. by apply normalize_sep_join.
Qed.

Lemma hexdigit_inj d e : 0 <= d < 16 -> 0 <= e < 16 -> hexdigit d = hexdigit e -> d = e.
Proof. unfold hexdigit. intros ? ?. repeat case_bool; lia. Qed.

Lemma hexString_inj a b : octets_ok a -> octets_ok b -> hexString a = hexString b -> a = b.
Proof.
  intros Ha. revert b. induction Ha as [|x a Hx Ha IH]; intros b Hb; destruct Hb as [|y b Hy Hb]; try done.
  unfold hexString. rewrite !fmap_cons. cbn [concat app]. intros H. injection H as H1 H2 H3.
  unfold byte_ok in *. pose proof (Z.mod_pos_bound x 16). pose proof (Z.mod_pos_bound y 16).
  apply hexdigit_inj in H1; [|split; [apply Z.div_pos; lia | apply Z.div_lt_upper_bound; lia]..].
  apply hexdigit_inj in H2; [|lia..].
  f_equal; [|by apply IH]. rewrite (Z.div_mod x 16), (Z.div_mod y 16) by lia. lia.
Qed.

Lemma hexString_bytes a : octets_ok a -> Forall byte_ok (hexString a).
Proof.
  intros Ha. apply lower_hex_byte. unfold hexString. apply Forall_concat, Forall_fmap.
  eapply Forall_impl; [exact Ha |]. apply hex_pair_lower.
Qed.

(** Normalization is idempotent, yields lower-case hex digits only, and does
    not confuse addresses: the printed forms of two hardware addresses have the same
    normal form only when the addresses are equal. *)
Theorem normalizeMAC_faithful s a b :
  octets_ok a -> octets_ok b ->
  normalizeMAC (normalizeMAC s) = normalizeMAC s /\
  Forall lower_hex (codes (normalizeMAC s)) /\
  (normalizeMAC (MAC_String a) = normalizeMAC (MAC_String b) -> a = b).
Proof.
  intros Ha Hb. split; [apply normalizeMAC_idemp |]. split.
  { rewrite normalizeMAC_chars. pose proof (mac_chars_lower (codes s)) as H.
    by rewrite codes_text by (by apply lower_hex_byte). }
  rewrite !normalizeMAC_MAC_String by done. intros H. apply (f_equal codes) in H.
  rewrite !codes_text in H by (by apply hexString_bytes). by apply hexString_inj.
Qed.

Lemma normalizeMAC_faithful_witness :
  normalizeMAC (normalizeMAC "00-1A.2b 3C:4d:5E") = normalizeMAC "00-1A.2b 3C:4d:5E" /\
  normalizeMAC "00-1A.2b 3C:4d:5E" = "001a2b3c4d5e"%string.
Proof.
  split; [|vm_compute; reflexivity].
  refine (proj1 (normalizeMAC_faithful "00-1A.2b 3C:4d:5E" [0] [1] _ _));
    apply List.Forall_cons; try apply List.Forall_nil; unfold byte_ok; lia.
Defined.

(** ** MAC lists *)
Lemma elem_of_mac_set l s x :
  x ∈ foldl (fun (s : gset string) m => {[ normalizeMAC m ]} ∪ s) s l <->
  x ∈ s \/ exists m, m ∈ l /\ normalizeMAC m = x.
Proof.
  revert s. induction l as [|m l IH]; intros s; simpl; [set_solver |].
  rewrite IH. set_solver.
Qed.

(** A configured list names an address, up to spelling. *)
Definition lists (l : list string) (mac : string) : Prop :=
  exists m, m ∈ l /\ normalizeMAC m = normalizeMAC mac.

(** A source address passes the filter exactly when the block list does not name
    it and the allow list is empty or names it, comparing addresses up to spelling; an
    address without hex digits never passes a non-empty allow list. *)
Theorem MACAllowed_spec c mac :
  (MACAllowed (Some (NewFilter c)) mac).1 = true <->
  ~ lists (BlockedMACs c) mac /\
  (AllowedMACs c = [] \/ normalizeMAC mac <> ""%string /\ lists (AllowedMACs c) mac).
Proof.
  unfold MACAllowed, lists. cbn [NewFilter blockedMACs allowedMACs].
  assert (forall l, normalizeMAC mac ∈ foldl (fun (s : gset string) m => {[ normalizeMAC m ]} ∪ s) ∅ l
            <-> exists m, m ∈ l /\ normalizeMAC m = normalizeMAC mac) as Hin.
  { intros l. rewrite elem_of_mac_set. set_solver. }
  assert (forall l, size (foldl (fun (s : gset string) m => {[ normalizeMAC m ]} ∪ s) ∅ l) = 0%nat
            <-> l = []) as Hsz.
  { intros l. rewrite size_empty_iff. split; [|by intros ->]. destruct l as [|m l]; [done |].
    intros He. exfalso. assert (normalizeMAC m ∈ (∅ : gset string)); [|set_solver].
    rewrite <-He. apply elem_of_mac_set. right. exists m. split; [by left | done]. }
  case_bool; bool_hyps; [rewrite Hin in *; naive_solver |].
  case_bool; bool_hyps; [rewrite Hin, Hsz in *; naive_solver |].
  case_bool; bool_hyps; [rewrite Hsz in *; naive_solver |].
  case_bool; bool_hyps; rewrite Hin, ?Hsz in *; naive_solver.
Qed.

(** ** The binding table *)
Record filter_inv (f : Filter) : Prop := {
  finv_max : 0 < maxARP f;
  finv_size : Z.of_nat (size (arpTable f)) <= maxARP f;
  finv_bindings : map_Forall (fun k m => normalizeIPKey k = k /\ m <> ""%string /\ normalizeMAC m = m)
                    (arpTable f);
}.

Lemma normalizeIPKey_eq ip : normalizeIPKey ip = normalizeIP ip.
Proof. done. Qed.

Lemma normalizeIPKey_idemp ip : normalizeIPKey (normalizeIPKey ip) = normalizeIPKey ip.
Proof. rewrite !normalizeIPKey_eq. apply normalizeIP_idemp. Qed.

(** The table [learn] inserts into. *)
Definition room (f : Filter) (m : gmap string string) : Prop :=
  (Z.of_nat (size (arpTable f)) < maxARP f /\ m = arpTable f) \/
  (maxARP f <= Z.of_nat (size (arpTable f)) /\
   exists k, is_Some (arpTable f !! k) /\ m = delete k (arpTable f)).

Lemma learn_room ro key norm f :
  filter_inv f -> exists m, room f m /\ learn ro key norm f = with_arp (<[key := norm]> m) f.
Proof.
  intros [H1 H2 H3]. unfold learn. eexists. split; [|done]. unfold room.
  destruct (Z.leb_spec (maxARP f) (Z.of_nat (size (arpTable f)))); [right | by left].
  split; [done |]. unfold evict_first. destruct (range_keys ro (arpTable f)) as [|k ks] eqn:Hks.
  { apply range_keys_nil in Hks. rewrite Hks, map_size_empty in *. simpl in *. lia. }
  exists k. split; [|done]. apply (elem_of_range_keys ro). rewrite Hks. by left.
Qed.

Lemma learn_inv ro ip mac f :
  filter_inv f -> normalizeMAC mac <> ""%string -> arpTable f !! normalizeIPKey ip = None ->
  filter_inv (learn ro (normalizeIPKey ip) (normalizeMAC mac) f).
Proof.
  intros Hi Hm Hk. destruct (learn_room ro (normalizeIPKey ip) (normalizeMAC mac) f Hi) as (m & Hr & ->).
  destruct Hi as [H1 H2 H3].
  assert (m !! normalizeIPKey ip = None /\ Z.of_nat (size m) < maxARP f /\ m ⊆ arpTable f) as (Hn & Hs & Hsub).
  { destruct Hr as [[Hlt ->]|(Hge & k & [v Hv] & ->)]; [done |]. split_and!.
    - apply lookup_delete_None. by right.
    - rewrite map_size_delete_Some by eauto.
      assert (size (arpTable f) <> 0%nat) by (rewrite map_size_ne_0_lookup; eauto). lia.
    - apply delete_subseteq. }
  split; simpl; [done | rewrite map_size_insert_None by done; lia |].
  apply map_Forall_insert_2.
  - split_and!; [apply normalizeIPKey_idemp | done | apply normalizeMAC_idemp].
  - intros k v Hkv. apply (H3 k v). by eapply lookup_weaken.
Qed.

Lemma rebind_inv ip mac f :
  filter_inv f -> normalizeMAC mac <> ""%string -> is_Some (arpTable f !! normalizeIPKey ip) ->
  filter_inv (with_arp (<[normalizeIPKey ip := normalizeMAC mac]> (arpTable f)) f).
Proof.
  intros [H1 H2 H3] Hm Hk. split; simpl; [done | by rewrite map_size_insert_Some |].
  apply map_Forall_insert_2; [|done].
  split_and!; [apply normalizeIPKey_idemp | done | apply normalizeMAC_idemp].
Qed.

Definition filter_ok (f : option Filter) : Prop := from_option filter_inv True f.

Lemma RecordDHCP_inv ro ip mac f : filter_ok f -> filter_ok (RecordDHCP ro ip mac f).2.
Proof.
  destruct f as [f|]; [|done]. simpl. intros Hi. case_bool; [done |]. bool_hyps.
  destruct (arpTable f !! normalizeIPKey ip) eqn:Hk; simpl; [apply rebind_inv | apply learn_inv]; eauto.
Qed.

Lemma CheckARP_inv ro ip mac f : filter_ok f -> filter_ok (CheckARP ro ip mac f).2.
Proof.
  destruct f as [f|]; [|done]. simpl. intros Hi. case_bool; [done |]. bool_hyps.
  destruct (arpTable f !! normalizeIPKey ip) eqn:Hk; simpl; [by case_bool | by apply learn_inv].
Qed.

Inductive arp_step (f : option Filter) : option Filter -> Prop :=
| step_RecordDHCP ro ip mac : arp_step f (RecordDHCP ro ip mac f).2
| step_CheckARP ro ip mac : arp_step f (CheckARP ro ip mac f).2.

Lemma NewFilter_inv c : filter_inv (NewFilter c).
Proof.
  split; simpl; [unfold defaultMaxARPEntries; case_bool; lia | | apply map_Forall_empty].
  rewrite map_size_empty. unfold defaultMaxARPEntries. case_bool; lia.
Qed.

Lemma arp_reachable_inv c f : rtc arp_step (Some (NewFilter c)) f -> filter_ok f.
Proof.
  assert (filter_ok (Some (NewFilter c))) as Hi by apply NewFilter_inv.
  induction 1 as [|f1 f2 f3 Hs _ IH]; [done |]. apply IH.
  destruct Hs; [by apply RecordDHCP_inv | by apply CheckARP_inv].
Qed.

(** The cap does not change. *)
Lemma arp_cap c f : rtc arp_step (Some (NewFilter c)) (Some f) -> maxARP f = maxARP (NewFilter c).
Proof.
  assert (forall g h, arp_step g h -> maxARP <$> h = maxARP <$> g) as Hstep.
  { intros g h [ro ip mac|ro ip mac]; destruct g as [g|]; try done; simpl; case_bool; try done;
      destruct (arpTable g !! normalizeIPKey ip); simpl; try done; by case_bool. }
  intros Hr. remember (Some (NewFilter c)) as g eqn:Hg. remember (Some f) as h eqn:Hh.
  assert (maxARP <$> h = maxARP <$> g) as Heq.
  { clear Hg Hh. induction Hr as [|g1 g2 g3 Hs _ IH]; [done |]. by rewrite IH, (Hstep _ _ Hs). }
  subst. by injection Heq.
Qed.

(** C31: In every filter that DHCP and ARP observations lead to, the binding table holds at most the
    configured number of entries (65536 when none is configured) and binds normalized addresses to
    normalized, non-empty MAC addresses: no sequence of observations can plant an empty binding. *)
Theorem arp_table_wf c f :
  rtc arp_step (Some (NewFilter c)) (Some f) ->
  Z.of_nat (size (arpTable f)) <= (if MaxARPEntries c <=? 0 then 65536 else MaxARPEntries c) /\
  forall ip mac, arpTable f !! ip = Some mac ->
    normalizeIPKey ip = ip /\ mac <> ""%string /\ normalizeMAC mac = mac.
Proof.
  intros Hr. destruct (arp_reachable_inv c (Some f) Hr) as [_ H2 H3]. rewrite (arp_cap c f Hr) in H2. by split.
Qed.

(** A DHCP lease, an ARP reply of another host in a full table, and a spoofed one. *)
Definition observed_filter : option Filter :=
  let f := (RecordDHCP (map_order _ _) "10.0.0.1" "AA-BB-CC-DD-EE-FF" (Some (NewFilter (mkL2Config [] [] true true 2)))).2 in
  let f := (CheckARP (map_order _ _) "::ffff:10.0.0.2" "00:1A:2B:3C:4D:5E" f).2 in
  let f := (CheckARP (map_order _ _) "10.0.0.3" "0.1 2" f).2 in
  (CheckARP (map_order _ _) "10.0.0.3" "66:66:66:66:66:66" f).2.

Lemma arp_table_wf_witness :
  exists f, observed_filter = Some f /\ Z.of_nat (size (arpTable f)) <= 2 /\
    arpTable f !! "10.0.0.3"%string = Some "012"%string /\ normalizeMAC "012" = "012"%string.
Proof.
  destruct observed_filter as [f|] eqn:Hf; [|vm_compute in Hf; discriminate].
  assert (rtc arp_step (Some (NewFilter (mkL2Config [] [] true true 2))) (Some f)) as Hr.
  { rewrite <-Hf. eapply rtc_l; [apply step_RecordDHCP |]. do 2 (eapply rtc_l; [apply step_CheckARP |]).
    apply rtc_once, step_CheckARP. }
  exists f. split; [reflexivity |].
  destruct (arp_table_wf _ f Hr) as [H1 H2]. split; [exact H1 |].
  assert (arpTable f !! "10.0.0.3"%string = Some "012"%string) as Hb.
  { vm_compute in Hf. injection Hf as <-. vm_compute. reflexivity. }
  split; [exact Hb |]. apply (H2 _ _ Hb).
Defined.

(** What one ARP observation can do to the binding of any address. *)
Lemma CheckARP_bindings ro ip mac f f' k :
  filter_inv f -> (CheckARP ro ip mac (Some f)).2 = Some f' ->
  arpTable f' !! k = arpTable f !! k \/
  (arpTable f !! k = None /\ k = normalizeIPKey ip /\ arpTable f' !! k = Some (normalizeMAC mac)) \/
  (maxARP f <= Z.of_nat (size (arpTable f)) /\ arpTable f' !! k = None).
Proof.
  intros Hi. unfold CheckARP. case_bool; [intros [= <-]; by left |].
  destruct (arpTable f !! normalizeIPKey ip) as [m|] eqn:Hk.
  { case_bool; intros [= <-]; by left. }
  destruct (learn_room ro (normalizeIPKey ip) (normalizeMAC mac) f Hi) as (m & Hr & ->).
  cbn [snd]. intros [= <-]. cbn [with_arp arpTable].
  destruct (decide (normalizeIPKey ip = k)) as [<-|Hne].
  { right. left. by rewrite lookup_insert_eq. }
  rewrite lookup_insert_ne by done. destruct Hr as [[_ ->]|(Hfull & k' & _ & ->)]; [by left |].
  destruct (decide (k' = k)) as [<-|Hne']; [right; right; by rewrite lookup_delete_eq |].
  left. by rewrite lookup_delete_ne.
Qed.

(** Once an address is bound, an ARP observation never rebinds it: the binding
    stays as it is (or is evicted from a full table), observations with the bound MAC in any
    spelling are accepted and observations with another MAC are reported as spoofing, also
    when the address is written in another form. *)
Theorem arp_binding_enforced ro f ip ip' mac mac' known :
  filter_inv f -> ip <> ""%string -> normalizeMAC mac <> ""%string ->
  arpTable f !! normalizeIPKey ip = Some known ->
  ((CheckARP ro ip mac (Some f)).1.1 = true <-> normalizeMAC mac = known) /\
  (CheckARP ro ip mac (Some f)).2 = Some f /\
  (forall f', (CheckARP ro ip' mac' (Some f)).2 = Some f' ->
     arpTable f' !! normalizeIPKey ip = Some known \/
     (maxARP f <= Z.of_nat (size (arpTable f)) /\ arpTable f' !! normalizeIPKey ip = None)).
Proof.
  intros Hi Hip Hmac Hk. split_and!.
  - unfold CheckARP. apply String.eqb_neq in Hip, Hmac. rewrite Hmac, Hip. cbn [orb]. rewrite Hk.
    destruct (String.eqb_spec known (normalizeMAC mac)) as [->|Hne]; simpl; [done |].
    split; [done | intros ?; congruence].
  - unfold CheckARP. apply String.eqb_neq in Hip, Hmac. rewrite Hmac, Hip. cbn [orb]. rewrite Hk.
    by case_bool.
  - intros f' Hf'. destruct (CheckARP_bindings ro ip' mac' f f' (normalizeIPKey ip) Hi Hf')
      as [Heq|[(Hn & _)|[Hfull Hn]]]; [left; by rewrite Heq | congruence | by right].
Qed.

Lemma arp_binding_enforced_witness :
  let f := with_arp {[ "10.0.0.1"%string := "001a2b3c4d5e"%string ]} (NewFilter (mkL2Config [] [] true false 4)) in
  (CheckARP (map_order _ _) "::ffff:10.0.0.1" "00:00:00:00:00:01" (Some f)).2 = Some f.
Proof.
  intros f.
  refine (proj1 (proj2 (arp_binding_enforced (map_order _ _) f "::ffff:10.0.0.1" "10.0.0.2"
            "00:00:00:00:00:01" "aa" "001a2b3c4d5e" _ _ _ _))).
  - split; [vm_compute; reflexivity | vm_compute; discriminate |].
    intros k v Hkv. unfold f in Hkv. cbn [with_arp arpTable] in Hkv.
    apply lookup_singleton_Some in Hkv as [<- <-].
    split; [vm_compute; reflexivity | split; [discriminate | vm_compute; reflexivity]].
  - discriminate.
  - vm_compute. discriminate.
  - vm_compute. reflexivity.
Defined.
