(* ===== verification/Cidr.v ===== *)
(** * Networks as address prefixes

    A network that [net.ParseCIDR] returns contains an address exactly when the
    leading bits agree, and its text determines the addresses it contains. *)
From Stdlib Require Import ZArith Lia ZifyBool.
From stdpp Require Import base gmap sets list strings pretty.
From S2P Require Import Prelude GoNet GoNetFacts.

Local Open Scope Z_scope.

(** The number a byte string spells, most significant byte first. *)
Fixpoint be (l : list Z) : Z :=
  match l with
  | [] => 0
  | x :: l' => x * 256 ^ Z.of_nat (length l') + be l'
  end.

Lemma be_bound l : octets_ok l -> 0 <= be l < 256 ^ Z.of_nat (length l).
Proof.
  induction 1 as [|x l Hx _ IH]; [simpl; lia |]. cbn [be length]. unfold byte_ok in Hx.
  rewrite Nat2Z.inj_succ, Z.pow_succ_r by lia. nia.
Qed.

(** The first [n] bits of two byte strings of equal length agree. *)
Definition same_prefix (n : Z) (a b : list Z) : Prop :=
  length a = length b /\
  be a / 2 ^ (8 * Z.of_nat (length a) - n) = be b / 2 ^ (8 * Z.of_nat (length b) - n).

(** ** Masks *)
Definition bytes : list Z := Z.of_nat <$> seq 0 256.

Lemma elem_of_bytes x : byte_ok x -> x ∈ bytes.
Proof.
  unfold byte_ok, bytes. intros Hx. apply list_elem_of_fmap. exists (Z.to_nat x).
  split; [lia |]. apply elem_of_seq. lia.
Qed.

Lemma byte_mask_table :
  forallb (fun n => forallb (fun x =>
    Z.land x (255 - Z.shiftr 255 n) =? x / 2 ^ (8 - n) * 2 ^ (8 - n)) bytes) [0; 1; 2; 3; 4; 5; 6; 7] = true.
Proof. vm_compute. reflexivity. Qed.

(** A partial mask byte clears the low bits. *)
Lemma byte_mask x n :
  byte_ok x -> 0 <= n < 8 -> Z.land x (255 - Z.shiftr 255 n) = x / 2 ^ (8 - n) * 2 ^ (8 - n).
Proof.
  intros Hx Hn. pose proof byte_mask_table as H. rewrite forallb_forall in H.
  assert (In n [0; 1; 2; 3; 4; 5; 6; 7]) as Hin by (simpl; lia).
  specialize (H n Hin). rewrite forallb_forall in H.
  specialize (H x). rewrite Z.eqb_eq in H. apply H.
  apply list_elem_of_In, elem_of_bytes, Hx.
Qed.

Lemma byte_mask_eq x y n :
  byte_ok x -> byte_ok y -> 0 <= n < 8 ->
  Z.land x (255 - Z.shiftr 255 n) = Z.land y (255 - Z.shiftr 255 n) <->
  x / 2 ^ (8 - n) = y / 2 ^ (8 - n).
Proof.
  intros Hx Hy Hn. rewrite !byte_mask by done.
  assert (0 < 2 ^ (8 - n)) by (apply Z.pow_pos_nonneg; lia). nia.
Qed.

Lemma land_255 x : byte_ok x -> Z.land x 255 = x.
Proof.
  unfold byte_ok. intros Hx. change 255 with (Z.ones 8). rewrite Z.land_ones by lia.
  apply Z.mod_small. lia.
Qed.

Lemma length_cidr_mask k n : length (cidr_mask k n) = k.
Proof. revert n. induction k; intros n; simpl; [done |]. case_bool; simpl; by rewrite IHk. Qed.

Lemma cidr_mask_bytes k n : 0 <= n -> octets_ok (cidr_mask k n).
Proof.
  revert n. induction k; intros n Hn; simpl; [constructor |].
  case_bool; constructor; unfold byte_ok in *; try lia; try (apply IHk; lia).
  assert (In n [0; 1; 2; 3; 4; 5; 6; 7]) as Hin by (simpl; lia).
  simpl in Hin. repeat destruct Hin as [<-|Hin]; simpl; try lia; done.
Qed.

Lemma masked_eq_0 nn ip k : masked_eq nn (cidr_mask k 0) ip = true.
Proof.
  revert nn ip. induction k as [|k IH]; intros nn ip; [by destruct nn |].
  destruct nn as [|x nn]; [done |]. destruct ip as [|y ip]; [done |]. cbn [cidr_mask masked_eq].
  change (8 <=? 0) with false. cbv iota. cbn [masked_eq].
  change (255 - Z.shiftr 255 0) with 0. rewrite !Z.land_0_r, IH. done.
Qed.

(** Comparing the masked bytes compares the leading bits. *)
Lemma masked_eq_prefix k n a ip :
  octets_ok a -> octets_ok ip -> length a = k -> length ip = k -> 0 <= n <= 8 * Z.of_nat k ->
  masked_eq (mask_bytes a (cidr_mask k n)) (cidr_mask k n) ip = true <-> same_prefix n a ip.
Proof.
  intros Ha Hip. revert n a ip Ha Hip.
  induction k as [|k IH]; intros n a ip Ha Hip Hla Hlip Hn.
  { destruct a, ip; try done. }
  destruct Ha as [|x a Hx Ha]; [done |]. destruct Hip as [|y ip Hy Hip]; [done |].
  cbn [length] in Hla, Hlip. injection Hla as Hla. injection Hlip as Hlip.
  pose proof (be_bound a Ha) as Hba. pose proof (be_bound ip Hip) as Hbi.
  unfold same_prefix. cbn [length be]. rewrite Hla, Hlip in *.
  set (B := 256 ^ Z.of_nat k) in *. assert (B = 2 ^ (8 * Z.of_nat k)) as HB.
  { unfold B. change 256 with (2 ^ 8). by rewrite <-Z.pow_mul_r by lia. }
  cbn [cidr_mask]. destruct (Z.leb_spec 8 n) as [H8|H8]; unfold mask_bytes; cbn [zip_with masked_eq].
  - rewrite <-Z.land_assoc, Z.land_diag, !land_255 by done. fold (mask_bytes a (cidr_mask k (n - 8))).
    rewrite andb_true_iff, Z.eqb_eq, IH by (done || lia). unfold same_prefix. rewrite Hla, Hlip.
    replace (8 * Z.of_nat (S k) - n) with (8 * Z.of_nat k - (n - 8)) by lia.
    set (D := 2 ^ (8 * Z.of_nat k - (n - 8))). set (Q := 2 ^ (n - 8)).
    assert (B = Q * D) as HQD. { unfold Q, D. rewrite HB, <-Z.pow_add_r by lia. f_equal. lia. }
    assert (0 < D) by (apply Z.pow_pos_nonneg; lia). assert (0 < Q) by (apply Z.pow_pos_nonneg; lia).
    rewrite HQD, !Z.mul_assoc, !Z.div_add_l by lia.
    assert (0 <= be a / D < Q) by (split; [apply Z.div_pos | apply Z.div_lt_upper_bound]; lia).
    assert (0 <= be ip / D < Q) by (split; [apply Z.div_pos | apply Z.div_lt_upper_bound]; lia).
    generalize dependent (be a / D). generalize dependent (be ip / D). intros v Hv u Hu.
    split; [intros (-> & _ & ->); done |]. intros [_ He].
    assert (x = y) as -> by nia. split; [done |]. split; [done | lia].
  - rewrite <-Z.land_assoc, Z.land_diag. rewrite masked_eq_0, andb_true_r, Z.eqb_eq, byte_mask_eq by (done || lia).
    replace (8 * Z.of_nat (S k) - n) with (8 * Z.of_nat k + (8 - n)) by lia.
    rewrite Z.pow_add_r, <-HB by lia.
    assert (0 < 2 ^ (8 - n)) by (apply Z.pow_pos_nonneg; lia).
    rewrite <-!Z.div_div by lia. rewrite !Z.div_add_l, (Z.div_small (be a)), (Z.div_small (be ip)), !Z.add_0_r by lia.
    tauto.
Qed.

(** ** Networks *)

(** The network [ParseCIDR] builds for the address [a] and prefix length [n]. *)
Definition cidr_net (a : list Z) (n : Z) : IPNet :=
  mkIPNet (IPMask (As16 a) (cidr_mask (length a) n)) (cidr_mask (length a) n).

Definition addr_ok (a : list Z) : Prop := ip4_ok a \/ ip16_ok a.

Definition from_cidr (net : IPNet) : Prop :=
  exists a n, addr_ok a /\ 0 <= n <= 8 * Z.of_nat (length a) /\ net = cidr_net a n.

Lemma ParseCIDR_from s net : ParseCIDR s = Some net -> from_cidr net.
Proof.
  unfold ParseCIDR. destruct (cut_slash (codes s)) as [[addr mask]|]; [|done].
  destruct (ParseAddr addr) as [a|] eqn:Ha; [|done].
  destruct (dtoi_go mask 0 0) as [[n i] ok]. destruct (negb ok || _ || _ || _) eqn:Hc; [done |].
  intros [= <-]. bool_hyps. exists a, n. split; [by apply (ParseAddr_ok addr) |]. split; [lia | done].
Qed.

(** The normal form of an address: four bytes when it is an IPv4 address. *)
Definition short_form (ip : list Z) : list Z := match To4 ip with Some v4 => v4 | None => ip end.

Definition short_ok (a : list Z) : Prop := ip4_ok a \/ (ip16_ok a /\ To4 a = None).

Lemma To4_4 a : length a = 4%nat -> To4 a = Some a.
Proof. intros Hl. unfold To4. by rewrite Hl. Qed.

Lemma short_form_ok ip : ip16_ok ip -> short_ok (short_form ip).
Proof.
  intros [Hok Hl]. unfold short_form. destruct (To4 ip) as [v4|] eqn:E; [left | by right].
  destruct (To4_16 _ _ Hl E) as [-> H4]. apply Forall_app in Hok as [_ Hok]. done.
Qed.

Lemma short_form_id a : short_ok a -> short_form a = a.
Proof. unfold short_form. intros [[_ Hl]|[_ ->]]; [by rewrite To4_4 | done]. Qed.

Lemma IPMask_4 a n : ip4_ok a -> IPMask (As16 a) (cidr_mask 4 n) = mask_bytes a (cidr_mask 4 n).
Proof.
  intros [_ Hl]. unfold IPMask, As16. rewrite Hl, length_cidr_mask. cbn [Nat.eqb].
  rewrite length_app, Hl. cbn [Nat.eqb length Nat.add v4InV6Prefix andb].
  rewrite bool_decide_eq_true_2 by (by rewrite take_app_length'). by rewrite drop_app_length'.
Qed.

Lemma IPMask_16 a n : ip16_ok a -> IPMask (As16 a) (cidr_mask 16 n) = mask_bytes a (cidr_mask 16 n).
Proof. intros [_ Hl]. unfold IPMask, As16. by rewrite Hl, length_cidr_mask. Qed.

Lemma mask_bytes_ok a k n : octets_ok a -> 0 <= n -> length a = k ->
  octets_ok (mask_bytes a (cidr_mask k n)) /\ length (mask_bytes a (cidr_mask k n)) = k.
Proof.
  intros Ha Hn Hl. split.
  - pose proof (cidr_mask_bytes k n Hn) as Hm. unfold mask_bytes. clear Hl. revert Hm.
    generalize (cidr_mask k n). induction Ha as [|x a Hx Ha IH]; intros m Hm; [constructor |].
    destruct Hm as [|y m Hy Hm]; [constructor |]. constructor; [|by apply IH].
    unfold byte_ok in *. split; [apply Z.land_nonneg; lia |].
    apply Z.log2_lt_cancel. cbn. destruct (Z.eq_dec (Z.land x y) 0) as [->|]; [simpl; lia |].
    eapply Z.le_lt_trans; [apply Z.log2_land; lia |].
    assert (Z.log2 x <= 7) by (apply (Z.log2_le_mono x 255); lia).
    change (Z.log2 256) with 8. lia.
  - unfold mask_bytes. rewrite length_zip_with, length_cidr_mask. lia.
Qed.

Lemma cidr_mask_app j k n :
  8 * Z.of_nat j <= n -> cidr_mask (j + k) n = replicate j 255 ++ cidr_mask k (n - 8 * Z.of_nat j).
Proof.
  revert n. induction j as [|j IH]; intros n Hn; [simpl; f_equal; lia |].
  cbn [Nat.add cidr_mask replicate app]. replace (8 <=? n) with true by lia.
  f_equal. rewrite IH by lia. do 2 f_equal. lia.
Qed.

(** A masked address is IPv4-mapped only when the mask covers the prefix. *)
Lemma mapped_prefix_long a n :
  ip16_ok a -> 0 <= n -> take 12 (mask_bytes a (cidr_mask 16 n)) = v4InV6Prefix -> 96 <= n.
Proof.
  intros [Ha Hl] Hn Ht. destruct (Z.lt_ge_cases n 96) as [Hlt|]; [exfalso | lia].
  assert (mask_bytes a (cidr_mask 16 n) !! 11%nat = Some 255) as H11.
  { rewrite <-(lookup_take_lt _ 12 11) by lia. rewrite Ht. done. }
  assert (exists m, cidr_mask 16 n !! 11%nat = Some m /\ 0 <= m < 255) as (m & Hm & Hm').
  { assert (forallb (fun n => match cidr_mask 16 (Z.of_nat n) !! 11%nat with
                              | Some m => (0 <=? m) && (m <? 255) | None => false end) (seq 0 96) = true)
      as Hall by (vm_compute; reflexivity).
    rewrite forallb_forall in Hall. specialize (Hall (Z.to_nat n)).
    rewrite Z2Nat.id in Hall by lia. destruct (cidr_mask 16 n !! 11%nat) as [m|]; [|discriminate Hall].
    - exists m. split; [done |]. assert ((0 <=? m) && (m <? 255) = true); [|lia].
      apply Hall, in_seq. lia.
    - apply in_seq. lia. }
  unfold mask_bytes in H11. apply lookup_zip_with_Some in H11 as (x & y & Hxy & Hx & Hy).
  rewrite Hm in Hy. injection Hy as <-.
  assert (Z.land m (Z.land x m) = Z.land x m) as Hmm.
  { by rewrite Z.land_assoc, (Z.land_comm m x), <-Z.land_assoc, Z.land_diag. }
  rewrite <-Hxy, land_255 in Hmm by (unfold byte_ok; lia). lia.
Qed.

(** What [networkNumberAndMask] returns for such a network: the short form of
    the masked address, with a prefix mask of its length. *)
Lemma cidr_net_number a n :
  addr_ok a -> 0 <= n <= 8 * Z.of_nat (length a) ->
  exists nn k, networkNumberAndMask (cidr_net a n) = Some (nn, cidr_mask (length nn) k) /\
    short_ok nn /\ 0 <= k <= 8 * Z.of_nat (length nn).
Proof.
  intros Ha Hn. unfold networkNumberAndMask, cidr_net. cbn [net_IP net_Mask].
  destruct Ha as [Ha|Ha]; pose proof Ha as [Hok Hl]; rewrite Hl in *.
  - rewrite IPMask_4 by done. destruct (mask_bytes_ok a 4 n) as [Hmo Hml]; [done | lia | done |].
    rewrite To4_4, length_cidr_mask by done. cbn [Nat.eqb].
    exists (mask_bytes a (cidr_mask 4 n)), n. rewrite Hml. split; [done |]. split; [by left | lia].
  - rewrite IPMask_16 by done. destruct (mask_bytes_ok a 16 n) as [Hmo Hml]; [done | lia | done |].
    rewrite length_cidr_mask, Hml. cbn [Nat.eqb andb].
    destruct (To4 (mask_bytes a (cidr_mask 16 n))) as [v4|] eqn:E.
    + destruct (To4_16 _ _ Hml E) as [Heq H4].
      assert (96 <= n) as Hn96.
      { apply (mapped_prefix_long a); [done | lia |]. rewrite Heq. by rewrite take_app_length'. }
      exists v4, (n - 96). rewrite H4. split.
      { do 2 f_equal. change 16%nat with (12 + 4)%nat. rewrite cidr_mask_app by lia.
        by rewrite drop_app_length' by (by rewrite length_replicate). }
      split; [left | lia]. split; [|done]. rewrite Heq in Hmo. by apply Forall_app in Hmo as [_ ?].
    + exists (mask_bytes a (cidr_mask 16 n)), n. rewrite Hml. split; [done |]. split; [by right | lia].
Qed.

Lemma mask_length_table :
  forallb (fun k => simpleMaskLength (cidr_mask 4 (Z.of_nat k)) =? Z.of_nat k) (seq 0 33) &&
  forallb (fun k => simpleMaskLength (cidr_mask 16 (Z.of_nat k)) =? Z.of_nat k) (seq 0 129) = true.
Proof. vm_compute. reflexivity. Qed.

Lemma simpleMaskLength_cidr nn k :
  short_ok nn -> 0 <= k <= 8 * Z.of_nat (length nn) ->
  simpleMaskLength (cidr_mask (length nn) k) = k.
Proof.
  intros Hs Hk. pose proof mask_length_table as H. apply andb_true_iff in H as [H4 H16].
  rewrite forallb_forall in H4, H16. rewrite <-(Z2Nat.id k) by lia. apply Z.eqb_eq.
  destruct Hs as [[_ Hl]|[[_ Hl] _]]; rewrite Hl in *; [apply H4 | apply H16]; apply in_seq; lia.
Qed.

Lemma decimal8_table :
  forallb (fun x => (forallb (fun c => negb (c =? 47)) (decimal8 x)) &&
    match dtoi_go (decimal8 x) 0 0 with (n, i, ok) => (n =? x) && ok && (i =? length (decimal8 x))%nat end)
    bytes = true.
Proof. vm_compute. reflexivity. Qed.

Lemma decimal8_dtoi x :
  byte_ok x -> dtoi_go (decimal8 x) 0 0 = (x, length (decimal8 x), true) /\
               Forall (fun c => c <> 47) (decimal8 x).
Proof.
  intros Hx. pose proof decimal8_table as H. rewrite forallb_forall in H.
  specialize (H x (proj1 (list_elem_of_In _ _) (elem_of_bytes x Hx))).
  apply andb_true_iff in H as [H1 H2]. destruct (dtoi_go (decimal8 x) 0 0) as [[n i] ok].
  apply andb_true_iff in H2 as [H2 H3]. apply andb_true_iff in H2 as [H2 H4].
  split. { rewrite Z.eqb_eq in H2. rewrite Nat.eqb_eq in H3. by subst. }
  apply Forall_forall. intros c Hc. rewrite forallb_forall in H1.
  specialize (H1 c (proj1 (list_elem_of_In _ _) Hc)). lia.
Qed.

Lemma text_inj l l' : Forall byte_ok l -> Forall byte_ok l' -> text l = text l' -> l = l'.
Proof. intros H H' E. apply (f_equal codes) in E. by rewrite !codes_text in E. Qed.

(** Text before the last slash is determined. *)
Lemma slash_split s s' x x' :
  Forall (fun c => c <> 47) x -> Forall (fun c => c <> 47) x' ->
  s ++ 47 :: x = s' ++ 47 :: x' -> s = s' /\ x = x'.
Proof.
  intros Hx Hx'. revert s'. induction s as [|a s IH]; intros [|b s'] E; simpl in E.
  - by injection E.
  - injection E as _ ->. apply Forall_app in Hx as [_ Hx]. apply Forall_cons in Hx as [Hx _]. done.
  - injection E as _ <-. apply Forall_app in Hx' as [_ Hx']. apply Forall_cons in Hx' as [Hx' _]. done.
  - injection E as -> E. by destruct (IH s' E) as [-> ->].
Qed.

Lemma IPString_short_inj a b : short_ok a -> short_ok b -> IPString a = IPString b -> a = b.
Proof.
  assert (forall a, short_ok a -> IPString a = IPString (As16 a) /\ ip16_ok (As16 a) /\
                                 short_form (As16 a) = a) as H.
  { intros c [Hc|[Hc H4]].
    - pose proof (As16_ok c (or_introl Hc)) as H16. destruct Hc as [Hok Hl].
      assert (To4 (As16 c) = Some c) as Ht.
      { unfold As16, To4. rewrite Hl. cbn [Nat.eqb]. rewrite length_app, Hl.
        cbn [Nat.eqb length Nat.add v4InV6Prefix]. rewrite bool_decide_eq_true_2 by (by rewrite take_app_length').
        simpl. done. }
      split; [|split; [done |]].
      + unfold IPString. by rewrite Ht, To4_4.
      + unfold short_form. by rewrite Ht.
    - assert (As16 c = c) as -> by (unfold As16; destruct Hc as [_ ->]; done).
      split; [done |]. split; [done |]. unfold short_form. by rewrite H4. }
  intros Ha Hb E. destruct (H a Ha) as (Ea & Ha16 & <-). destruct (H b Hb) as (Eb & Hb16 & <-).
  f_equal. apply IPString_inj; [done | done |]. congruence.
Qed.

Lemma byte_ok_prefix nn k : short_ok nn -> 0 <= k <= 8 * Z.of_nat (length nn) -> byte_ok k.
Proof. intros [[_ Hl]|[[_ Hl] _]]; rewrite Hl; unfold byte_ok; lia. Qed.

Lemma decimal8_bytes x : byte_ok x -> Forall byte_ok (decimal8 x).
Proof.
  intros Hx. eapply Forall_impl; [by apply decimal8_chars |]. intros c Hc. apply Hc.
Qed.

(** Two networks that print alike contain the same addresses, so refusing
    a network whose text is already present loses nothing. *)
Lemma same_text n1 n2 :
  from_cidr n1 -> from_cidr n2 -> IPNetString n1 = IPNetString n2 ->
  forall ip, IPNet_Contains n1 ip = IPNet_Contains n2 ip.
Proof.
  intros (a1 & k1 & Ha1 & Hk1 & ->) (a2 & k2 & Ha2 & Hk2 & ->).
  destruct (cidr_net_number a1 k1 Ha1 Hk1) as (nn1 & j1 & E1 & Hs1 & Hj1).
  destruct (cidr_net_number a2 k2 Ha2 Hk2) as (nn2 & j2 & E2 & Hs2 & Hj2).
  unfold IPNetString, IPNet_Contains. rewrite E1, E2, !simpleMaskLength_cidr by done.
  replace (j1 =? -1) with false by lia. replace (j2 =? -1) with false by lia.
  pose proof (byte_ok_prefix _ _ Hs1 Hj1) as B1. pose proof (byte_ok_prefix _ _ Hs2 Hj2) as B2.
  intros E. apply (f_equal codes) in E. rewrite !codes_app in E.
  rewrite !codes_text in E by (by apply decimal8_bytes). cbn [codes app] in E.
  change (Z.of_N (Ascii.N_of_ascii _)) with 47 in E.
  destruct (decimal8_dtoi j1 B1) as [D1 N1]. destruct (decimal8_dtoi j2 B2) as [D2 N2].
  apply slash_split in E as [Eip Ej]; [|done|done].
  apply codes_inj, IPString_short_inj in Eip as ->; [|done|done].
  assert (j1 = j2) as -> by (rewrite Ej in D1; congruence). done.
Qed.

(** ** Membership *)
Lemma cidr4_contains a n ip :
  ip4_ok a -> 0 <= n <= 32 -> ip16_ok ip ->
  IPNet_Contains (cidr_net a n) (short_form ip) = true <-> same_prefix n a (short_form ip).
Proof.
  intros Ha Hn Hip. pose proof Ha as [Hok Hl]. unfold IPNet_Contains, networkNumberAndMask, cidr_net.
  cbn [net_IP net_Mask]. rewrite Hl, IPMask_4 by done.
  destruct (mask_bytes_ok a 4 n) as [Hmo Hml]; [done | lia | done |].
  rewrite To4_4, length_cidr_mask by done. cbn [Nat.eqb]. fold (short_form (short_form ip)).
  pose proof (short_form_ok ip Hip) as Hs. rewrite short_form_id, Hml by done.
  destruct Hs as [[Hso Hsl]|[[Hso Hsl] _]]; rewrite Hsl; cbn [Nat.eqb andb].
  - by apply masked_eq_prefix.
  - split; [done |]. intros [Hlen _]. lia.
Qed.

Lemma cut_slash_app s x : Forall (fun c => c <> 47) s -> cut_slash (s ++ 47 :: x) = Some (s, x).
Proof.
  induction 1 as [|c s Hc _ IH]; [done |]. simpl. rewrite (proj2 (Z.eqb_neq c 47)) by done. by rewrite IH.
Qed.

(** The text of an IPv4 network. *)
Definition cidr4_text (a : list Z) (n : Z) : string := text (ipv4_text a ++ 47 :: decimal8 n).

Lemma ipv4_text_no_slash a : octets_ok a -> Forall (fun c => c <> 47) (ipv4_text a).
Proof.
  unfold ipv4_text. induction 1 as [|x a Hx Ha IH]; [constructor |]. rewrite fmap_cons.
  destruct (decimal8_dtoi x Hx) as [_ Hd]. destruct (decimal8 <$> a) as [|y l]; [done |].
  rewrite sep_join_cons2. apply Forall_app. split; [done |]. constructor; [|done].
  unfold c_dot. lia.
Qed.

Lemma cidr4_text_codes a n :
  octets_ok a -> byte_ok n -> codes (cidr4_text a n) = ipv4_text a ++ 47 :: decimal8 n.
Proof.
  intros Ha Hn. apply codes_text. apply Forall_app. split.
  - eapply Forall_impl; [by apply ipv4_text_chars |]. by intros c [? _].
  - constructor; [unfold byte_ok; lia | by apply decimal8_bytes].
Qed.

Lemma ParseCIDR_cidr4 a n :
  ip4_ok a -> 0 <= n <= 32 -> ParseCIDR (cidr4_text a n) = Some (cidr_net a n).
Proof.
  intros Ha Hn. pose proof Ha as [Hok Hl]. assert (byte_ok n) as Hb by (unfold byte_ok; lia).
  unfold ParseCIDR. rewrite cidr4_text_codes, cut_slash_app by (done || by apply ipv4_text_no_slash).
  rewrite ParseAddr_ipv4_text by done. destruct (decimal8_dtoi n Hb) as [-> _].
  rewrite Nat.eqb_refl, Hl. replace (n <? 0) with false by lia.
  replace (8 * Z.of_nat 4 <? n) with false by lia. cbn [negb orb]. unfold cidr_net. by rewrite Hl.
Qed.
