(* ===== verification/ThreatIntel.v ===== *)
(** * Package [threatintel]: the blocklist and its feeds

    Translated from src/internal/threatintel/threatintel.go.  A nil
    [*Blocklist] is [None].  The HTTP client is a parameter: [get url] is the
    outcome of the request, with the status, the bytes of the body and the error
    the body ends with, if it does not end with [io.EOF]. *)
From Stdlib Require Import ZArith Lia ZifyBool.
From stdpp Require Import base gmap sets list strings pretty.
From S2P Require Import Prelude GoTime GoNet.

Local Open Scope Z_scope.

Definition maxBlocklistEntries : Z := 500000.
Definition maxCIDRNetworks : Z := 65536.
Definition maxFeedResponseSize : Z := 50 * 1024 * 1024.
Definition maxFeedLineSize : Z := 1024 * 1024.

Record Blocklist : Type := mkBlocklist {
  ips : gset string;
  nets : list IPNet;
  netKeys : gset string;
}.

Definition NewBlocklist : Blocklist := mkBlocklist ∅ [] ∅.

Definition bl_Len (bl : option Blocklist) : Z :=
  match bl with
  | None => 0
  | Some bl => Z.of_nat (size (ips bl)) + Z.of_nat (length (nets bl))
  end.

(** [strings.Contains(entry, "/")] *)
Definition has_slash (entry : string) : bool := existsb (Z.eqb 47) (codes entry).

(** The key of an exact entry. *)
Definition ip_key (ip : list Z) : string :=
  match To4 ip with
  | Some ip4 => IPString ip4
  | None => IPString ip
  end.

Definition Add (entry : string) (bl : option Blocklist) : option Blocklist :=
  match bl with
  | None => None
  | Some bl =>
      if maxBlocklistEntries <=? Z.of_nat (size (ips bl)) + Z.of_nat (length (nets bl)) then Some bl
      else if has_slash entry then
        match ParseCIDR entry with
        | None => Some bl
        | Some ipnet =>
            let key := IPNetString ipnet in
            if bool_decide (key ∈ netKeys bl) then Some bl
            else if maxCIDRNetworks <=? Z.of_nat (length (nets bl)) then Some bl
            else Some (mkBlocklist (ips bl) (nets bl ++ [ipnet]) ({[ key ]} ∪ netKeys bl))
        end
      else
        match ParseIP entry with
        | None => Some bl
        | Some ip => Some (mkBlocklist ({[ ip_key ip ]} ∪ ips bl) (nets bl) (netKeys bl))
        end
  end.

Definition Contains (ipStr : string) (bl : option Blocklist) : bool :=
  match bl with
  | None => false
  | Some bl =>
      match ParseIP ipStr with
      | None => false
      | Some ip =>
          let ip := match To4 ip with Some ip4 => ip4 | None => ip end in
          if bool_decide (IPString ip ∈ ips bl) then true
          else existsb (fun n => IPNet_Contains n ip) (nets bl)
      end
  end.

(** The loop of [Remove]: the first network with the key is cut out. *)
Fixpoint remove_net (key : string) (ns : list IPNet) : option (list IPNet) :=
  match ns with
  | [] => None
  | n :: ns' =>
      if String.eqb (IPNetString n) key then Some ns'
      else match remove_net key ns' with Some r => Some (n :: r) | None => None end
  end.

Definition Remove (entry : string) (bl : option Blocklist) : option Blocklist :=
  match bl with
  | None => None
  | Some bl =>
      if has_slash entry then
        match ParseCIDR entry with
        | None => Some bl
        | Some ipnet =>
            let key := IPNetString ipnet in
            match remove_net key (nets bl) with
            | None => Some bl
            | Some ns => Some (mkBlocklist (ips bl) ns (netKeys bl ∖ {[ key ]}))
            end
        end
      else
        match ParseIP entry with
        | None => Some bl
        | Some ip => Some (mkBlocklist (ips bl ∖ {[ ip_key ip ]}) (nets bl) (netKeys bl))
        end
  end.

(** The keys of the map [DataForOPA] returns; every value is [true]. *)
Definition DataForOPA (bl : option Blocklist) : option (gset string) :=
  match bl with
  | None => None
  | Some bl => Some (foldl (fun s n => {[ IPNetString n ]} ∪ s) (ips bl) (nets bl))
  end.

(** ** Feeds *)

(** The UTF-8 encodings of the white-space runes [unicode.IsSpace] accepts. *)
Definition space_runes : list (list Z) :=
  [[9]; [10]; [11]; [12]; [13]; [32];
   [194; 133]; [194; 160]; [225; 154; 128];
   [226; 128; 128]; [226; 128; 129]; [226; 128; 130]; [226; 128; 131]; [226; 128; 132];
   [226; 128; 133]; [226; 128; 134]; [226; 128; 135]; [226; 128; 136]; [226; 128; 137];
   [226; 128; 138]; [226; 128; 168]; [226; 128; 169]; [226; 128; 175];
   [226; 129; 159]; [227; 128; 128]].

Fixpoint strip_prefix (p s : list Z) : option (list Z) :=
  match p, s with
  | [], _ => Some s
  | a :: p', b :: s' => if a =? b then strip_prefix p' s' else None
  | _ :: _, [] => None
  end.

(** The rest after the first of [runes] that starts [s]. *)
Fixpoint strip_any (runes : list (list Z)) (s : list Z) : option (list Z) :=
  match runes with
  | [] => None
  | r :: runes' => match strip_prefix r s with Some s' => Some s' | None => strip_any runes' s end
  end.

Fixpoint strip_all (fuel : nat) (runes : list (list Z)) (s : list Z) : list Z :=
  match fuel with
  | O => s
  | S fuel' => match strip_any runes s with Some s' => strip_all fuel' runes s' | None => s end
  end.

(** [strings.TrimSpace]: runes are removed from the front, then, reading the
    text and the encodings backwards, from the end. *)
Definition TrimSpace (s : list Z) : list Z :=
  let s := strip_all (length s) space_runes s in
  rev (strip_all (length s) (map (@rev Z) space_runes) (rev s)).

(** How a [ReadSlice] ends. *)
Inductive slice_end : Type := SliceLine | SliceFull | SliceEOF | SliceErr (e : string).

(** [ReadSlice('\n')] on a reader whose unread bytes are [bs] and which then
    ends with [io.EOF] or the error [fin].  [room] is the free space of the buffer, [acc] what it
    holds, reversed. *)
Fixpoint read_slice (fin : option string) (bs : list Z) (room : Z) (acc : list Z)
  : list Z * slice_end * list Z :=
  if room <=? 0 then (rev acc, SliceFull, bs)
  else
    match bs with
    | [] => (rev acc, match fin with None => SliceEOF | Some e => SliceErr e end, [])
    | c :: bs' =>
        if c =? 10 then (rev (c :: acc), SliceLine, bs')
        else read_slice fin bs' (room - 1) (c :: acc)
    end.

Definition ReadSlice (size : Z) (fin : option string) (bs : list Z) : list Z * slice_end * list Z :=
  read_slice fin bs size [].

(** The inner loop that drains an overlong line. *)
Fixpoint drain (fuel : nat) (size : Z) (fin : option string) (bs : list Z) : option (slice_end * list Z) :=
  match fuel with
  | O => None
  | S fuel' =>
      let '(_, e, bs') := ReadSlice size fin bs in
      match e with
      | SliceFull => drain fuel' size fin bs'
      | _ => Some (e, bs')
      end
  end.

(** A blank line or a comment. *)
Definition skip_line (l : list Z) : bool :=
  match l with
  | [] => true
  | c :: _ => c =? 35
  end.

(** The loop of [parseReader].  The result is the count, the error returned and
    the blocklist; [None] when the fuel runs out. *)
Fixpoint parse_loop (fuel : nat) (size : Z) (fin : option string) (bs : list Z) (count : Z)
    (bl : option Blocklist) : option (Z * option string * option Blocklist) :=
  match fuel with
  | O => None
  | S fuel' =>
      let '(line, err, bs') := ReadSlice size fin bs in
      match err with
      | SliceFull =>
          match drain fuel' size fin bs' with
          | None => None
          | Some (SliceEOF, _) => Some (count, None, bl)
          | Some (SliceErr e, _) => Some (count, Some e, bl)
          | Some (_, bs'') => parse_loop fuel' size fin bs'' count bl
          end
      | SliceErr e => Some (count, Some e, bl)
      | SliceLine | SliceEOF =>
          let lineStr := TrimSpace line in
          let at_eof := match err with SliceEOF => true | _ => false end in
          if skip_line lineStr then
            if at_eof then Some (count, None, bl)
            else parse_loop fuel' size fin bs' count bl
          else
            let bl := Add (text lineStr) bl in
            let count := count + 1 in
            if at_eof then Some (count, None, bl)
            else parse_loop fuel' size fin bs' count bl
      end
  end.

Definition parseReader (fin : option string) (bs : list Z) (bl : option Blocklist)
  : option (Z * option string * option Blocklist) :=
  parse_loop (S (length bs)) maxFeedLineSize fin bs 0 bl.

(** An HTTP response: status, body, and how the body ends. *)
Record response : Type := mkResponse { StatusCode : Z; Body : list Z; body_end : option string }.

(** [io.LimitReader] *)
Definition limit_reader (n : Z) (r : response) : option string * list Z :=
  if Z.of_nat (length (Body r)) <? n then (body_end r, Body r)
  else (None, take (Z.to_nat n) (Body r)).

Definition FetchFromURL (get : string -> response + string) (url : string) (bl : option Blocklist)
  : option (Z * option string * option Blocklist) :=
  match get url with
  | inr e => Some (0, Some ("fetching blocklist " +:+ url +:+ ": " +:+ e), bl)
  | inl resp =>
      if (StatusCode resp <? 200) || (300 <=? StatusCode resp)
      then Some (0, Some ("blocklist " +:+ url +:+ " returned status " +:+ pretty (StatusCode resp)), bl)
      else let '(fin, bs) := limit_reader maxFeedResponseSize resp in parseReader fin bs bl
  end.

Definition minInterval : Z := 100 * Millisecond.

(** The interval [StartRefresher] gives its ticker; [None] when it starts no
    goroutine. *)
Definition refresh_interval (bl : option Blocklist) (urls : list string) (interval : Z) : option Z :=
  match bl, urls with
  | None, _ | _, [] => None
  | _, _ => Some (if interval <? minInterval then minInterval else interval)
  end.

(** One tick of the refresher. *)
Fixpoint refresh_tick (get : string -> response + string) (urls : list string) (bl : option Blocklist)
  : option Blocklist :=
  match urls with
  | [] => bl
  | url :: urls' =>
      match FetchFromURL get url bl with
      | Some (_, _, bl') => refresh_tick get urls' bl'
      | None => bl
      end
  end.
