(* ===== verification/ThreatIntelFacts.v ===== *)
(** * Theorems on package [threatintel]

    The size and duplication invariant of the blocklist, the meaning of its
    lookups in terms of addresses and prefixes, and the line discipline of the
    feed parser. *)
From Stdlib Require Import ZArith Lia ZifyBool.
From stdpp Require Import base gmap sets list strings pretty relations.
From S2P Require Import Prelude GoTime GoNet GoNetFacts Cidr ThreatIntel.

Local Open Scope Z_scope.

(** ** The invariant *)
Record blocklist_inv (bl : Blocklist) : Prop := {
  binv_nets : Z.of_nat (length (nets bl)) <= maxCIDRNetworks;
  binv_total : Z.of_nat (size (ips bl)) + Z.of_nat (length (nets bl)) <= maxBlocklistEntries;
  binv_nodup : NoDup (IPNetString <$> nets bl);
  binv_keys : netKeys bl = list_to_set (IPNetString <$> nets bl);
  binv_cidr : Forall from_cidr (nets bl);
}.

Definition blocklist_ok (bl : option Blocklist) : Prop := from_option blocklist_inv True bl.

Lemma Add_inv entry bl : blocklist_ok bl -> blocklist_ok (Add entry bl).
Proof.
  destruct bl as [bl|]; [|done]. simpl. intros Hi.
  destruct (Z.leb_spec maxBlocklistEntries (Z.of_nat (size (ips bl)) + Z.of_nat (length (nets bl))));
    [done |].
  destruct Hi as [H1 H2 H3 H4 H5]. destruct (has_slash entry).
  - destruct (ParseCIDR entry) as [n|] eqn:Hn; [|done]. apply ParseCIDR_from in Hn.
    case_bool; [done |]. case_bool; [done |]. bool_hyps. split; simpl.
    + rewrite length_app. simpl. lia.
    + rewrite length_app. simpl. lia.
    + rewrite fmap_app. apply NoDup_snoc; [|done].
      rewrite H4 in *. set_solver.
    + rewrite H4, fmap_app, list_to_set_app_L. simpl. set_solver.
    + apply Forall_app. by split; [|constructor].
  - destruct (ParseIP entry) as [ip|]; [|done]. split; simpl; try done.
    pose proof (size_union_alt {[ip_key ip]} (ips bl)) as Hs. rewrite Hs, size_singleton.
    pose proof (subseteq_size (ips bl ∖ {[ip_key ip]}) (ips bl)). set_solver by lia.
Qed.

Lemma remove_net_spec key ns r :
  remove_net key ns = Some r ->
  exists l1 n l2, ns = l1 ++ n :: l2 /\ r = l1 ++ l2 /\ IPNetString n = key.
Proof.
  revert r. induction ns as [|n ns IH]; intros r; simpl; [done |].
  destruct (String.eqb_spec (IPNetString n) key) as [Hk|Hk].
  - intros [= <-]. by exists [], n, ns.
  - destruct (remove_net key ns) as [r'|]; [|done]. intros [= <-].
    destruct (IH r' eq_refl) as (l1 & n' & l2 & -> & -> & Hn'). by exists (n :: l1), n', l2.
Qed.

Lemma Remove_inv entry bl : blocklist_ok bl -> blocklist_ok (Remove entry bl).
Proof.
  destruct bl as [bl|]; [|done]. simpl. intros [H1 H2 H3 H4 H5]. destruct (has_slash entry).
  - destruct (ParseCIDR entry) as [n|]; [|done].
    destruct (remove_net _ _) as [r|] eqn:Hr; [|done].
    apply remove_net_spec in Hr as (l1 & n' & l2 & Heq & -> & Hn').
    rewrite Heq in *. rewrite fmap_app, fmap_cons in *. rewrite length_app in *. cbn [length] in *.
    apply NoDup_app in H3 as (Hd1 & Hd & Hd2). apply NoDup_cons in Hd2 as [Hn Hd2].
    split; simpl; rewrite ?length_app, ?fmap_app; try lia.
    + apply NoDup_app. split; [done |]. split; [|done]. set_solver.
    + rewrite H4, Hn' in *. rewrite !list_to_set_app_L. simpl. set_solver.
    + apply Forall_app in H5 as [H5 H6]. apply Forall_cons in H6 as [_ H6]. by apply Forall_app.
  - destruct (ParseIP entry) as [ip|]; [|done]. split; simpl; try done.
    pose proof (subseteq_size (ips bl ∖ {[ip_key ip]}) (ips bl) ltac:(set_solver)). lia.
Qed.

(** ** Feeds *)
Lemma read_slice_progress fin bs room acc line e bs' :
  0 < room -> read_slice fin bs room acc = (line, e, bs') ->
  (length bs' <= length bs)%nat /\
  match e with
  | SliceLine | SliceFull => (length bs' < length bs)%nat
  | _ => True
  end.
Proof.
  revert room acc. induction bs as [|c bs IH]; intros room acc Hr; simpl.
  - destruct (Z.leb_spec room 0); [lia |]. destruct fin; intros [= _ <- <-]; done.
  - destruct (Z.leb_spec room 0); [lia |].
    destruct (c =? 10); [intros [= _ <- <-]; simpl; lia |].
    destruct (Z.le_gt_cases (room - 1) 0) as [H0|H0].
    + intros H'. destruct bs as [|c' bs]; simpl in H';
        (destruct (Z.leb_spec (room - 1) 0); [|lia]); injection H' as _ <- <-; simpl; lia.
    + intros H'. apply IH in H'; [|lia]. destruct e; lia.
Qed.

Lemma drain_total fuel size fin bs :
  0 < size -> (length bs < fuel)%nat ->
  exists e bs', drain fuel size fin bs = Some (e, bs') /\ (length bs' <= length bs)%nat.
Proof.
  intros Hs. revert bs. induction fuel as [|fuel IH]; intros bs Hf; [lia |]. simpl. unfold ReadSlice.
  destruct (read_slice fin bs size []) as [[line e] bs'] eqn:Hr.
  apply read_slice_progress in Hr as [H1 H2]; [|done]. destruct e; try by eauto.
  destruct (IH bs') as (e' & bs'' & -> & Hl); [lia |]. exists e', bs''. split; [done | lia].
Qed.

Lemma parse_loop_total fuel size fin bs count bl :
  0 < size -> (length bs < fuel)%nat ->
  exists r, parse_loop fuel size fin bs count bl = Some r.
Proof.
  intros Hs. revert bs count bl. induction fuel as [|fuel IH]; intros bs count bl Hf; [lia |].
  simpl. unfold ReadSlice. destruct (read_slice fin bs size []) as [[line e] bs'] eqn:Hr.
  apply read_slice_progress in Hr as [H1 H2]; [|done]. destruct e.
  - case_bool; apply IH; lia.
  - destruct (drain_total fuel size fin bs' Hs) as (e' & bs'' & -> & Hl); [lia |].
    destruct e'; eauto; apply IH; lia.
  - case_bool; eauto.
  - eauto.
Qed.

(** One line of a feed, with its newline: an overlong line, a blank line or a
    comment is skipped, any other line is added. *)
Definition feed_line (size : Z) (acc : Z * option Blocklist) (raw : list Z) : Z * option Blocklist :=
  if size <? Z.of_nat (length raw) then acc
  else
    let t := TrimSpace raw in
    if skip_line t then acc else (acc.1 + 1, Add (text t) acc.2).

Definition no_newline (l : list Z) : Prop := Forall (fun c => c <> 10) l.

Definition terminated (l : list Z) : list Z := l ++ [10].

Lemma read_slice_line fin l rest room acc :
  no_newline l -> Z.of_nat (length l) < room ->
  read_slice fin (l ++ 10 :: rest) room acc = (rev acc ++ terminated l, SliceLine, rest).
Proof.
  intros Hl. revert room acc. induction Hl as [|c l Hc _ IH]; intros room acc Hr; cbn [length] in Hr.
  - simpl. destruct (Z.leb_spec room 0); [lia |]. done.
  - simpl. destruct (Z.leb_spec room 0); [lia |]. rewrite (proj2 (Z.eqb_neq c 10)) by done.
    rewrite IH by lia. simpl. by rewrite <-app_assoc.
Qed.

Lemma read_slice_full fin l rest room acc :
  no_newline l -> 0 <= room <= Z.of_nat (length l) ->
  exists line, read_slice fin (l ++ rest) room acc = (line, SliceFull, drop (Z.to_nat room) l ++ rest).
Proof.
  intros Hl. revert room acc. induction Hl as [|c l Hc _ IH]; intros room acc Hr; cbn [length] in Hr.
  - assert (room = 0) as -> by lia. destruct rest; simpl; eauto.
  - simpl. destruct (Z.leb_spec room 0) as [H0|H0].
    { assert (room = 0) as -> by lia. simpl. eauto. }
    rewrite (proj2 (Z.eqb_neq c 10)) by done.
    destruct (IH (room - 1) (c :: acc)) as [line ->]; [lia |]. exists line.
    by replace (Z.to_nat room) with (S (Z.to_nat (room - 1))) by lia.
Qed.

Lemma no_newline_drop n l : no_newline l -> no_newline (drop n l).
Proof. apply Forall_drop. Qed.

Lemma drain_line fuel size fin l rest :
  0 < size -> no_newline l -> (length l < fuel)%nat ->
  drain fuel size fin (l ++ 10 :: rest) = Some (SliceLine, rest).
Proof.
  intros Hs. revert l. induction fuel as [|fuel IH]; intros l Hl Hf; [lia |]. simpl. unfold ReadSlice.
  destruct (Z.lt_ge_cases (Z.of_nat (length l)) size) as [Hlt|Hge].
  - by rewrite read_slice_line.
  - destruct (read_slice_full fin l (10 :: rest) size []) as [line ->]; [done | lia |].
    apply IH; [by apply no_newline_drop |]. rewrite length_drop. lia.
Qed.

Lemma parse_loop_line fuel size fin l rest count bl :
  0 < size -> no_newline l -> (length l < fuel)%nat ->
  parse_loop (S fuel) size fin (l ++ 10 :: rest) count bl =
  let '(count, bl) := feed_line size (count, bl) (terminated l) in
  parse_loop fuel size fin rest count bl.
Proof.
  intros Hs Hl Hf. cbn [parse_loop]. unfold ReadSlice, feed_line, terminated. rewrite length_app.
  cbn [length fst snd].
  destruct (Z.lt_ge_cases (Z.of_nat (length l)) size) as [Hlt|Hge].
  - rewrite read_slice_line by done. cbn [rev app]. unfold terminated.
    replace (size <? _) with false by lia. by case_bool.
  - destruct (read_slice_full fin l (10 :: rest) size []) as [line ->]; [done | lia |].
    rewrite drain_line; [|done | by apply no_newline_drop | rewrite length_drop; lia].
    by replace (size <? _) with true by lia.
Qed.

Lemma read_slice_last fin l room acc :
  no_newline l -> Z.of_nat (length l) < room ->
  read_slice fin l room acc =
  (rev acc ++ l, match fin with None => SliceEOF | Some e => SliceErr e end, []).
Proof.
  intros Hl. revert room acc. induction Hl as [|c l Hc _ IH]; intros room acc Hr; cbn [length] in Hr; simpl;
    (destruct (Z.leb_spec room 0); [lia |]).
  - by rewrite app_nil_r.
  - rewrite (proj2 (Z.eqb_neq c 10)) by done. rewrite IH by lia. simpl. by rewrite <-app_assoc.
Qed.

Lemma parse_loop_feed fuel size lines last count bl :
  0 < size -> Forall no_newline lines -> no_newline last -> Z.of_nat (length last) < size ->
  (length (concat (terminated <$> lines) ++ last) < fuel)%nat ->
  parse_loop fuel size None (concat (terminated <$> lines) ++ last) count bl =
  let '(n, bl') := foldl (feed_line size) (count, bl) ((terminated <$> lines) ++ [last]) in
  Some (n, None, bl').
Proof.
  intros Hs Hl Hlast Hlt. revert fuel count bl.
  induction Hl as [|l lines Hl _ IH]; intros fuel count bl Hf; destruct fuel as [|fuel]; try lia.
  - cbn [fmap list_fmap concat app foldl parse_loop]. unfold ReadSlice.
    rewrite read_slice_last by done. cbn [rev app]. unfold feed_line.
    replace (size <? _) with false by lia. by case_bool.
  - rewrite fmap_cons in *. cbn [concat app foldl] in *.
    change (terminated l ++ ?x) with ((l ++ [10]) ++ x) in *.
    rewrite <-!app_assoc in *. cbn [app] in *. rewrite length_app in Hf. cbn [length] in Hf.
    rewrite parse_loop_line by (done || lia).
    destruct (feed_line size (count, bl) (terminated l)) as [count' bl'].
    apply IH. lia.
Qed.

Lemma parse_loop_inv fuel size fin bs count bl n e bl' :
  blocklist_ok bl -> parse_loop fuel size fin bs count bl = Some (n, e, bl') -> blocklist_ok bl'.
Proof.
  revert bs count bl. induction fuel as [|fuel IH]; intros bs count bl Hi; [done |]. simpl.
  destruct (ReadSlice size fin bs) as [[line err] bs']. pose proof (Add_inv (text (TrimSpace line)) bl Hi) as Ha.
  destruct err; [| |case_bool; congruence | congruence].
  - case_bool; eauto.
  - destruct (drain fuel size fin bs') as [[[] bs'']|]; [eauto | eauto | congruence | congruence | done].
Qed.

Lemma FetchFromURL_inv get url bl n e bl' :
  blocklist_ok bl -> FetchFromURL get url bl = Some (n, e, bl') -> blocklist_ok bl'.
Proof.
  intros Hi. unfold FetchFromURL. destruct (get url) as [r|]; [|congruence].
  case_bool; [congruence |]. destruct (limit_reader _ _) as [fin bs].
  unfold parseReader. by apply parse_loop_inv.
Qed.

Lemma refresh_tick_inv get urls bl : blocklist_ok bl -> blocklist_ok (refresh_tick get urls bl).
Proof.
  revert bl. induction urls as [|url urls IH]; intros bl Hi; [done |]. simpl.
  destruct (FetchFromURL get url bl) as [[[n e] bl']|] eqn:Hf; [|done].
  apply IH. by eapply FetchFromURL_inv.
Qed.

Inductive bl_step (bl : option Blocklist) : option Blocklist -> Prop :=
| step_Add entry : bl_step bl (Add entry bl)
| step_Remove entry : bl_step bl (Remove entry bl)
| step_refresh get urls : bl_step bl (refresh_tick get urls bl).

Definition bl_reachable (bl : option Blocklist) : Prop := rtc bl_step (Some NewBlocklist) bl.

Lemma NewBlocklist_inv : blocklist_inv NewBlocklist.
Proof. split; [vm_compute; discriminate | vm_compute; discriminate | constructor | done | constructor]. Qed.

Lemma bl_reachable_inv bl : bl_reachable bl -> blocklist_ok bl.
Proof.
  unfold bl_reachable. assert (blocklist_ok (Some NewBlocklist)) as Hi by apply NewBlocklist_inv.
  induction 1 as [|b1 b2 b3 Hs _ IH]; [done |]. apply IH.
  destruct Hs; [by apply Add_inv | by apply Remove_inv | by apply refresh_tick_inv].
Qed.

(** C29: Whatever feeds are fetched (also hostile ones) and whatever entries are added
    and removed, the blocklist holds at most 500000 entries and 65536 networks, no network
    twice, and the set of network keys is the set of the texts of the networks. *)
Theorem blocklist_wf bl :
  bl_reachable (Some bl) ->
  bl_Len (Some bl) <= maxBlocklistEntries /\ Z.of_nat (length (nets bl)) <= maxCIDRNetworks /\
  NoDup (IPNetString <$> nets bl) /\ netKeys bl = list_to_set (IPNetString <$> nets bl).
Proof. intros Hr. apply bl_reachable_inv in Hr as []. done. Qed.

Lemma blocklist_wf_witness :
  Z.of_nat (length (nets (default NewBlocklist (Add "10.0.0.0/8" (Some NewBlocklist))))) <= maxCIDRNetworks.
Proof.
  refine (proj1 (proj2 (blocklist_wf (default NewBlocklist (Add "10.0.0.0/8" (Some NewBlocklist))) _))).
  replace (Some (default NewBlocklist (Add "10.0.0.0/8" (Some NewBlocklist))))
    with (Add "10.0.0.0/8" (Some NewBlocklist)) by (vm_compute; reflexivity).
  apply rtc_once, step_Add.
Defined.

(** A feed is read line by line: for a body of newline-terminated lines (and a
    last line without newline), [parseReader] returns, without error, the result of adding in
    order every line that is not blank, not a comment and not longer than 1 MB, and the number
    of these lines.  In particular an overlong line anywhere does not affect the others. *)
Theorem parseReader_lines lines last bl :
  Forall no_newline lines -> no_newline last -> Z.of_nat (length last) < maxFeedLineSize ->
  parseReader None (concat (terminated <$> lines) ++ last) bl =
  let '(n, bl') := foldl (feed_line maxFeedLineSize) (0, bl) ((terminated <$> lines) ++ [last]) in
  Some (n, None, bl').
Proof.
  intros Hl Hlast Hlt. unfold parseReader. apply parse_loop_feed; try done. lia.
Qed.

Lemma parseReader_lines_witness :
  parseReader None (codes "# feed" ++ [10] ++ codes " 10.0.0.1 " ++ [10; 10] ++ codes "10.1.0.0/16") (Some NewBlocklist) =
  Some (2, None, Add "10.1.0.0/16" (Add "10.0.0.1" (Some NewBlocklist))).
Proof.
  assert (Forall no_newline [codes "# feed"; codes " 10.0.0.1 "; []] /\ no_newline (codes "10.1.0.0/16")) as [H1 H2].
  { split; repeat (apply List.Forall_cons || apply List.Forall_nil); vm_compute; discriminate. }
  transitivity (let '(n, bl') := foldl (feed_line maxFeedLineSize) (0, Some NewBlocklist)
      ((terminated <$> [codes "# feed"; codes " 10.0.0.1 "; []]) ++ [codes "10.1.0.0/16"]) in Some (n, @None string, bl')).
  - refine (parseReader_lines _ _ (Some NewBlocklist) H1 H2 _). vm_compute. reflexivity.
  - vm_compute. reflexivity.
Defined.

(** The feed parser terminates on every stream of bytes and every way the stream
    can end, within one iteration per byte. *)
Theorem parseReader_total fin bs bl : exists r, parseReader fin bs bl = Some r.
Proof. unfold parseReader. apply parse_loop_total; [unfold maxFeedLineSize; lia | lia]. Qed.

(** ** Membership *)
Lemma Contains_iff s bl :
  Contains s (Some bl) = true <->
  exists ip, ParseIP s = Some ip /\
    (IPString (short_form ip) ∈ ips bl \/
     Exists (fun n => IPNet_Contains n (short_form ip) = true) (nets bl)).
Proof.
  unfold Contains. destruct (ParseIP s) as [ip|]; [|split; [done | by intros (? & ? & _)]].
  fold (short_form ip). assert (existsb (fun n => IPNet_Contains n (short_form ip)) (nets bl) = true <->
    Exists (fun n => IPNet_Contains n (short_form ip) = true) (nets bl)) as Hex.
  { rewrite existsb_exists, Exists_exists. by setoid_rewrite <-list_elem_of_In. }
  case_bool_decide; [split; [|done]; intros _; eauto |].
  rewrite Hex. split; [eauto |]. intros (ip' & [= <-] & [?|?]); done.
Qed.

Lemma ip_key_short ip : ip_key ip = IPString (short_form ip).
Proof. unfold ip_key, short_form. by destruct (To4 ip). Qed.

Lemma short_form_inj ip ip' :
  ip16_ok ip -> ip16_ok ip' -> short_form ip = short_form ip' -> ip = ip'.
Proof.
  assert (forall ip, ip16_ok ip -> As16 (short_form ip) = ip) as H.
  { intros x [Hok Hl]. unfold short_form. destruct (To4 x) as [v4|] eqn:E; [|unfold As16; by rewrite Hl].
    destruct (To4_16 _ _ Hl E) as [-> H4]. unfold As16. by rewrite H4. }
  intros H1 H2 E. rewrite <-(H ip H1), <-(H ip' H2). by f_equal.
Qed.

Lemma ip_key_inj ip ip' : ip16_ok ip -> ip16_ok ip' -> ip_key ip = ip_key ip' <-> ip = ip'.
Proof.
  intros H1 H2. split; [|by intros ->]. rewrite !ip_key_short. intros E.
  apply short_form_inj; [done | done |]. apply IPString_short_inj; [by apply short_form_ok.. | done].
Qed.

Definition has_room (bl : Blocklist) : Prop :=
  bl_Len (Some bl) < maxBlocklistEntries /\ Z.of_nat (length (nets bl)) < maxCIDRNetworks.

Lemma Add_ip entry ip bl :
  has_room bl -> has_slash entry = false -> ParseIP entry = Some ip ->
  Add entry (Some bl) = Some (mkBlocklist ({[ ip_key ip ]} ∪ ips bl) (nets bl) (netKeys bl)).
Proof.
  unfold has_room, bl_Len, Add. intros [Hr _] -> ->.
  destruct (Z.leb_spec maxBlocklistEntries (Z.of_nat (size (ips bl)) + Z.of_nat (length (nets bl)))); [lia | done].
Qed.

(** While there is room, adding an address blocks exactly that address, in every
    spelling of it, besides what was blocked before. *)
Theorem Add_address entry ip bl s :
  has_room bl -> has_slash entry = false -> ParseIP entry = Some ip ->
  Contains s (Add entry (Some bl)) = true <->
  Contains s (Some bl) = true \/ ParseIP s = Some ip.
Proof.
  intros Hr Hs Hp. rewrite (Add_ip _ _ _ Hr Hs Hp), !Contains_iff. simpl. split.
  - intros (ip' & Hp' & [Hin|Hin]); [|left; eauto].
    apply elem_of_union in Hin as [Heq|Hin]; [|left; eauto]. right.
    apply elem_of_singleton in Heq. rewrite <-ip_key_short in Heq.
    apply ip_key_inj in Heq as ->; [done | by eapply ParseIP_ok..].
  - intros [(ip' & Hp' & [Hin|Hin])|Hp'].
    + exists ip'. split; [done |]. left. set_solver.
    + exists ip'. split; [done |]. by right.
    + exists ip. split; [done |]. left. rewrite ip_key_short. set_solver.
Qed.

Lemma Add_address_witness :
  Contains "::ffff:10.0.0.1" (Add "10.0.0.1" (Some NewBlocklist)) = true /\
  (Contains "10.0.0.1" (Add "10.0.0.1" (Some NewBlocklist)) = true <->
   Contains "10.0.0.1" (Some NewBlocklist) = true \/
   ParseIP "10.0.0.1" = Some [0; 0; 0; 0; 0; 0; 0; 0; 0; 0; 255; 255; 10; 0; 0; 1]).
Proof.
  split; [vm_compute; reflexivity |].
  apply (Add_address "10.0.0.1" [0; 0; 0; 0; 0; 0; 0; 0; 0; 0; 255; 255; 10; 0; 0; 1] NewBlocklist);
    [split; vm_compute; reflexivity | vm_compute; reflexivity..].
Defined.

Lemma cidr4_has_slash a n : octets_ok a -> byte_ok n -> has_slash (cidr4_text a n) = true.
Proof.
  intros Ha Hn. unfold has_slash. rewrite cidr4_text_codes by done.
  apply existsb_exists. exists 47. split; [|done]. apply in_or_app. right. by left.
Qed.

(** While there is room, adding the text of an IPv4 network blocks exactly the
    addresses whose leading bits are those of the network, IPv4 and IPv4-mapped alike, besides
    what was blocked before, also when the network was already listed in another spelling. *)
Theorem Add_network a n bl s :
  blocklist_inv bl -> has_room bl -> ip4_ok a -> 0 <= n <= 32 ->
  Contains s (Add (cidr4_text a n) (Some bl)) = true <->
  Contains s (Some bl) = true \/
  exists ip, ParseIP s = Some ip /\ same_prefix n a (short_form ip).
Proof.
  intros Hi [Hr1 Hr2] Ha Hn. assert (byte_ok n) as Hb by (unfold byte_ok; lia).
  assert (forall ip, ParseIP s = Some ip ->
    IPNet_Contains (cidr_net a n) (short_form ip) = true <-> same_prefix n a (short_form ip)) as Hm.
  { intros ip Hip. apply cidr4_contains; [done | done | by eapply ParseIP_ok]. }
  unfold Add. rewrite cidr4_has_slash, ParseCIDR_cidr4 by (done || apply Ha).
  unfold bl_Len in Hr1.
  destruct (Z.leb_spec maxBlocklistEntries (Z.of_nat (size (ips bl)) + Z.of_nat (length (nets bl)))); [lia |].
  case_bool_decide as Hk.
  - split; [by left |]. intros [Hc|(ip & Hip & Hs)]; [done |]. apply Contains_iff.
    exists ip. split; [done |]. right. destruct Hi as [_ _ _ H4 H5]. rewrite H4 in Hk.
    apply elem_of_list_to_set, list_elem_of_fmap in Hk as (net & Hnet & Hin).
    apply Exists_exists. exists net. split; [done |]. rewrite Forall_forall in H5.
    rewrite (same_text net (cidr_net a n)); [by apply Hm | by apply H5 | | done].
    exists a, n. split; [by left |]. destruct Ha as [_ ->]. split; [simpl; lia | done].
  - destruct (Z.leb_spec maxCIDRNetworks (Z.of_nat (length (nets bl)))); [lia |].
    rewrite !Contains_iff. cbn [ips nets]. split.
    + intros (ip & Hip & [Hin|Hin]); [left; eauto |].
      apply Exists_app in Hin as [Hin|Hin]; [left; eauto |]. right. exists ip. split; [done |].
      apply Hm; [done |]. by apply Exists_cons in Hin as [?|Hin]; [|apply Exists_nil in Hin].
    + intros [(ip & Hip & [Hin|Hin])|(ip & Hip & Hs)]; exists ip; (split; [done |]); [by left | right..].
      * apply Exists_app. by left.
      * apply Exists_app. right. apply Exists_cons. left. by apply Hm.
Qed.

Lemma Add_network_witness :
  Contains "10.0.0.130" (Add (cidr4_text [10; 0; 0; 128] 25) (Some NewBlocklist)) = true <->
  Contains "10.0.0.130" (Some NewBlocklist) = true \/
  exists ip, ParseIP "10.0.0.130" = Some ip /\ same_prefix 25 [10; 0; 0; 128] (short_form ip).
Proof.
  apply Add_network; [apply NewBlocklist_inv | split; vm_compute; reflexivity | | lia].
  split; [|reflexivity]. repeat apply List.Forall_cons; try apply List.Forall_nil; unfold byte_ok; lia.
Defined.

Lemma remove_net_last key ns n :
  key ∉ (IPNetString <$> ns) -> IPNetString n = key -> remove_net key (ns ++ [n]) = Some ns.
Proof.
  intros Hk Hn. induction ns as [|x ns IH]; simpl.
  - by rewrite Hn, String.eqb_refl.
  - rewrite fmap_cons in Hk. rewrite (proj2 (String.eqb_neq (IPNetString x) key)) by set_solver.
    rewrite IH; [done | set_solver].
Qed.

(** Removing an entry just added restores the blocklist, for addresses and for
    networks, when the entry was not listed before. *)
Theorem Remove_undoes_Add entry bl :
  blocklist_inv bl -> has_room bl ->
  (forall ip, has_slash entry = false -> ParseIP entry = Some ip -> ip_key ip ∉ ips bl) ->
  (forall net, has_slash entry = true -> ParseCIDR entry = Some net -> IPNetString net ∉ netKeys bl) ->
  Remove entry (Add entry (Some bl)) = Some bl.
Proof.
  intros Hi Hr Hip Hnet. destruct (has_slash entry) eqn:Hs.
  - unfold Add. rewrite Hs. destruct Hr as [Hr1 Hr2]. unfold bl_Len in Hr1.
    destruct (Z.leb_spec maxBlocklistEntries (Z.of_nat (size (ips bl)) + Z.of_nat (length (nets bl)))); [lia |].
    destruct (ParseCIDR entry) as [net|] eqn:Hp; [|unfold Remove; by rewrite Hs, Hp].
    specialize (Hnet net eq_refl eq_refl). rewrite bool_decide_eq_false_2 by done.
    destruct (Z.leb_spec maxCIDRNetworks (Z.of_nat (length (nets bl)))); [lia |].
    unfold Remove. rewrite Hs, Hp. cbn [nets]. rewrite remove_net_last; [| |done].
    + cbn [ips netKeys]. destruct bl as [i ns ks]. simpl in *. do 2 f_equal. set_solver.
    + rewrite (binv_keys bl Hi) in Hnet. set_solver.
  - destruct (ParseIP entry) as [ip|] eqn:Hp.
    + rewrite (Add_ip _ _ _ Hr Hs Hp). unfold Remove. rewrite Hs, Hp. cbn [ips nets netKeys].
      specialize (Hip ip eq_refl eq_refl). destruct bl as [i ns ks]. simpl in *. do 2 f_equal. set_solver.
    + unfold Add. rewrite Hs, Hp. case_bool; unfold Remove; by rewrite Hs, Hp.
Qed.

Lemma Remove_undoes_Add_witness :
  Remove "10.0.0.0/8" (Add "10.0.0.0/8" (Some NewBlocklist)) = Some NewBlocklist.
Proof.
  apply Remove_undoes_Add; [apply NewBlocklist_inv | split; vm_compute; reflexivity | |].
  - intros ip _ _ Hin. simpl in Hin. by apply not_elem_of_empty in Hin.
  - intros ip _ _ Hin. simpl in Hin. by apply not_elem_of_empty in Hin.
Defined.
