(* ===== verification/Alert.v ===== *)
(** * Package [alert]: webhook alerts with a per-type cooldown

    Translated from src/internal/alert/alert.go.  [Send] hands an event to the
    goroutine of [fire]; the model returns the events handed over.  The HTTP
    request that [fire] makes is not modelled. *)
From Stdlib Require Import ZArith Lia ZifyBool.
From stdpp Require Import base gmap sets list strings.
From S2P Require Import Prelude GoTime.

Local Open Scope Z_scope.

Inductive AlertType : Type :=
| AlertBlockRate
| AlertPortScan
| AlertConnLimit
| AlertOPAError
| AlertRateLimit.

#[export] Instance AlertType_eq_dec : EqDecision AlertType.
Proof. solve_decision. Defined.

Definition AlertType_code (a : AlertType) : nat :=
  match a with
  | AlertBlockRate => 0 | AlertPortScan => 1 | AlertConnLimit => 2
  | AlertOPAError => 3 | AlertRateLimit => 4
  end.

Definition AlertType_decode (n : nat) : option AlertType :=
  match n with
  | 0%nat => Some AlertBlockRate | 1%nat => Some AlertPortScan | 2%nat => Some AlertConnLimit
  | 3%nat => Some AlertOPAError | 4%nat => Some AlertRateLimit | _ => None
  end.

#[export] Instance AlertType_countable : Countable AlertType.
Proof. refine (inj_countable AlertType_code AlertType_decode _). by intros []. Defined.

Definition AlertType_String (a : AlertType) : string :=
  match a with
  | AlertBlockRate => "block_rate"
  | AlertPortScan => "port_scan"
  | AlertConnLimit => "connection_limit"
  | AlertOPAError => "opa_error"
  | AlertRateLimit => "rate_limit"
  end.

Record AlertEvent : Type := mkAlertEvent {
  al_Type : AlertType;
  al_Message : string;
  al_Source : string;
  al_Timestamp : Time;
}.

Record AlertConfig : Type := mkAlertConfig { WebhookURL : string; Cooldown : Z }.

Record Router : Type := mkRouter { r_cfg : AlertConfig; lastSent : gmap AlertType Time }.

Definition NewRouter (c : AlertConfig) : Router :=
  mkRouter (mkAlertConfig (WebhookURL c) (if Cooldown c <=? 0 then 30 * Second else Cooldown c)) ∅.

(** [Send] at time [now]: the event handed to [fire], if any. *)
Definition Send (now : Time) (e : AlertEvent) (r : option Router) : option AlertEvent * option Router :=
  match r with
  | None => (None, None)
  | Some r =>
      if String.eqb (WebhookURL (r_cfg r)) "" then (None, Some r)
      else
        let cooling :=
          match lastSent r !! al_Type e with
          | Some last => time_sub now last <? Cooldown (r_cfg r)
          | None => false
          end in
        if cooling then (None, Some r)
        else (Some e, Some (mkRouter (r_cfg r) (<[al_Type e := now]> (lastSent r))))
  end.

(** ** A run of the router *)

(** The alerts fired by a sequence of [Send]s, with the times they were fired. *)
Fixpoint send_all (evs : list (Time * AlertEvent)) (r : Router) : list (Time * AlertEvent) * Router :=
  match evs with
  | [] => ([], r)
  | (now, e) :: evs' =>
      match Send now e (Some r) with
      | (fired, Some r') =>
          let '(out, r'') := send_all evs' r' in
          (match fired with Some e' => (now, e') :: out | None => out end, r'')
      | (_, None) => ([], r)
      end
  end.

(** Every alert is fired at least [cd] after the previous one of its type, which
    for the first one is the time [last] remembers. *)
Fixpoint spaced (cd : Z) (last : gmap AlertType Time) (out : list (Time * AlertEvent)) : Prop :=
  match out with
  | [] => True
  | (now, e) :: out' =>
      (forall prev, last !! al_Type e = Some prev -> cd <= time_sub now prev) /\
      spaced cd (<[al_Type e := now]> last) out'
  end.

Lemma Send_cases now e r :
  (Send now e (Some r) = (None, Some r)) \/
  (Send now e (Some r) = (Some e, Some (mkRouter (r_cfg r) (<[al_Type e := now]> (lastSent r)))) /\
   forall prev, lastSent r !! al_Type e = Some prev -> Cooldown (r_cfg r) <= time_sub now prev).
Proof.
  unfold Send. case_bool; [by left |].
  destruct (lastSent r !! al_Type e) as [last|]; [|right; split; [done | by intros]].
  destruct (Z.ltb_spec (time_sub now last) (Cooldown (r_cfg r))); [by left |].
  right. split; [done |]. by intros prev [= <-].
Qed.

(** Whatever alerts are raised, two alerts of one type are never sent within the
    cooldown of each other, and alerts of one type never hold back alerts of another: the
    first alert of a type is always sent when a webhook is configured. *)
Theorem alerts_spaced evs r :
  spaced (Cooldown (r_cfg r)) (lastSent r) (send_all evs r).1 /\
  (forall now e, WebhookURL (r_cfg r) <> ""%string -> lastSent r !! al_Type e = None ->
     (Send now e (Some r)).1 = Some e).
Proof.
  split.
  - revert r. induction evs as [|[now e] evs IH]; intros r; [done |]. cbn [send_all].
    destruct (Send_cases now e r) as [->|[-> Hsp]].
    + specialize (IH r). by destruct (send_all evs r).
    + specialize (IH (mkRouter (r_cfg r) (<[al_Type e := now]> (lastSent r)))).
      destruct (send_all evs _) as [out r'']. by split.
  - intros now e Hurl Hnone. unfold Send. apply String.eqb_neq in Hurl. by rewrite Hurl, Hnone.
Qed.
