(* ===== verification/Opa.v ===== *)
(** * Package [opa]: the policy input and the embedded evaluator

    Translated from src/internal/opa/{input,result,evaluator,embed}.go.  The Rego
    compiler and interpreter are a library outside this repository; they are the
    parameter [Rego].  The interface [opa.Evaluator] is the class [Evaluator]. *)
From Stdlib Require Import ZArith Lia ZifyBool.
From stdpp Require Import base gmap sets list strings pretty relations.
From S2P Require Import Prelude GoTime GoFloat Packet.

Local Open Scope Z_scope.

(** ** The input document *)
Record oPacketInfo : Type := mkOPacket {
  o_SrcIP : string;
  o_DstIP : string;
  o_Protocol : string;
  o_SrcPort : Z;
  o_DstPort : Z;
  o_TCPFlags : TCPFlags;
  o_ICMPType : option Z;
  o_ICMPCode : option Z;
  o_Fragment : FragmentInfo;
  o_PacketSize : Z;
}.

Record ConnectionInfo : Type := mkConnectionInfo {
  c_Established : bool;
  c_TCPState : string;
  c_PacketsInFlow : Z;
  c_AgeMs : Z;
  c_RecentPorts : list Z;
}.

Record RateInfo : Type := mkRateInfo {
  SrcIPpps : float64;
  SrcIPbps : float64;
  SrcPortPPS : float64;
  SrcPortBPS : float64;
  NewConnsPerSec : float64;
}.

Record TimeInfo : Type := mkTimeInfo { UtcHour : Z; UtcDay : Z }.

Record GeoInfo : Type := mkGeoInfo { SrcCountry : string; DstCountry : string }.

Record Input : Type := mkInput {
  i_Packet : oPacketInfo;
  i_Connection : ConnectionInfo;
  i_Rate : RateInfo;
  i_Time : TimeInfo;
  i_Geo : GeoInfo;
}.

(** [Time.UTC().Hour()] and [Time.UTC().Weekday()]; January 1, 1970 was a
    Thursday. *)
Definition utc_hour (t : Time) : Z := (unix t / 3600) mod 24.
Definition utc_weekday (t : Time) : Z := (unix t / 86400 + 4) mod 7.

Definition BuildInput (now : Time) (pi : PacketInfo) (pps bps : float64) (established : bool)
    (tcpState : string) (portPPS portBPS newConnRate : float64) (recentPorts : list Z) : Input :=
  mkInput
    (mkOPacket (pi_SrcIP pi) (pi_DstIP pi) (pi_Protocol pi) (pi_SrcPort pi) (pi_DstPort pi)
       (pi_TCPFlags pi) (pi_ICMPType pi) (pi_ICMPCode pi) (pi_Fragment pi) (pi_PacketSize pi))
    (mkConnectionInfo established tcpState 1 0
       (if (0 <? length recentPorts)%nat then recentPorts else []))
    (mkRateInfo pps bps portPPS portBPS newConnRate)
    (mkTimeInfo (utc_hour now) (utc_weekday now))
    (mkGeoInfo "" "").

Definition set_Geo (g : GeoInfo) (i : Input) : Input :=
  mkInput (i_Packet i) (i_Connection i) (i_Rate i) (i_Time i) g.

(** ** Results *)
Record Result : Type := mkResult { Allowed : bool; Reason : string }.

(** What a call of [Evaluate] can do: return a result, return a nil result, return
    an error, or panic. *)
Inductive outcome : Type :=
| OResult (r : Result)
| ONil
| OError (e : string)
| OPanic (m : string).

(** The interface [Evaluator]. *)
Class Evaluator (E : Type) : Type := Evaluate : E -> Input -> outcome.

(** ** The Rego library *)

(** A value of the decision document.  A [json.Number] is represented by what its
    method [Float64] returns. *)
Inductive value : Type :=
| VBool (b : bool)
| VString (s : string)
| VNumber (n : option float64)
| VNull
| VOther.

(** The value of an expression: an object, or something else. *)
Definition exprValue : Type := option (gmap string value).

(** One result of an evaluation: the values of its expressions. *)
Definition ResultSet : Type := list (list exprValue).

Record Rego : Type := mkRego {
  compiler : Type;
  prepared : Type;
  CompileModules : string -> compiler + string;
  Modules : compiler -> list (option string);
  PrepareForEval : string -> compiler -> prepared + string;
  Eval : prepared -> Z -> Input -> ResultSet + string;
}.

Definition decisionQuery : string := "data.l3_firewall".

Section embedded.
Context (R : Rego).

(** [declaredPackages] *)
Fixpoint declared_loop (mods : list (option string)) (seen : gset string) : list string :=
  match mods with
  | [] => []
  | None :: mods' => declared_loop mods' seen
  | Some p :: mods' =>
      if bool_decide (p ∈ seen) then declared_loop mods' seen
      else p :: declared_loop mods' ({[ p ]} ∪ seen)
  end.

Definition declaredPackages (c : compiler R) : list string := declared_loop (Modules R c) ∅.

(** The list as the verb [%s] prints it. *)
Fixpoint spaced_names (l : list string) : string :=
  match l with
  | [] => ""
  | [p] => p
  | p :: l' => p +:+ " " +:+ spaced_names l'
  end.

Definition quoted (s : string) : string :=
  let q := String (Ascii.ascii_of_nat 34) "" in q +:+ s +:+ q.

Definition declares_decision (m : option string) : bool :=
  match m with Some p => String.eqb p decisionQuery | None => false end.

(** [verifyPolicyPackage]: [Modules] are the package paths, with [None] for a
    module without a package. *)
Definition verifyPolicyPackage (c : compiler R) : option string :=
  if existsb declares_decision (Modules R c) then None
  else Some ("policy must declare package at " +:+ decisionQuery +:+
             ": compiled modules declare [" +:+ spaced_names (declaredPackages c) +:+
             "] (a policy in any other package can never produce a decision for the " +:+
             quoted decisionQuery +:+ " query and would silently allow every packet)").

Record EmbeddedEvaluator : Type := mkEmbedded {
  e_prepared : option (prepared R);
  e_compiler : compiler R;
  e_evalTimeout : Z;
  e_policy : string;
  e_reload : bool;
}.

(** [rebuild] *)
Definition rebuild (e : EmbeddedEvaluator) : option string * EmbeddedEvaluator :=
  match PrepareForEval R decisionQuery (e_compiler e) with
  | inr err => (Some ("preparing rego query: " +:+ err), e)
  | inl p => (None, mkEmbedded (Some p) (e_compiler e) (e_evalTimeout e) (e_policy e) (e_reload e))
  end.

Definition NewEmbedded (policy : string) (timeout : Z) : EmbeddedEvaluator + string :=
  if String.eqb policy "" then inr "Rego policy is required"
  else
    match CompileModules R policy with
    | inr err => inr ("compiling Rego: " +:+ err)
    | inl c =>
        match verifyPolicyPackage c with
        | Some err => inr err
        | None =>
            match rebuild (mkEmbedded None c timeout policy false) with
            | (Some err, _) => inr err
            | (None, e) => inl e
            end
        end
    end.

(** The first critical section of [Load]: check the policy and swap the
    compiler. *)
Definition load_swap (policy : string) (e : EmbeddedEvaluator) : option string * EmbeddedEvaluator :=
  if String.eqb policy "" then (Some "policy source is empty", e)
  else
    match CompileModules R policy with
    | inr err => (Some ("compiling Rego: " +:+ err), e)
    | inl c =>
        match verifyPolicyPackage c with
        | Some err => (Some err, e)
        | None => (None, mkEmbedded (e_prepared e) c (e_evalTimeout e) policy (e_reload e))
        end
    end.

(** The rest of [Load]: rebuild the prepared query and signal the reload. *)
Definition load_rebuild (e : EmbeddedEvaluator) : option string * EmbeddedEvaluator :=
  match rebuild e with
  | (Some err, e') => (Some err, e')
  | (None, e') =>
      (None, mkEmbedded (e_prepared e') (e_compiler e') (e_evalTimeout e') (e_policy e') true)
  end.

Definition Load (policy : string) (e : EmbeddedEvaluator) : option string * EmbeddedEvaluator :=
  match load_swap policy e with
  | (Some err, e') => (Some err, e')
  | (None, e') => load_rebuild e'
  end.

(** ** Evaluation *)
Definition apply_allow (v : value) (r : Result) : Result :=
  match v with
  | VBool a => mkResult a (Reason r)
  | VString a => mkResult (String.eqb a "true" || String.eqb a "1") (Reason r)
  | VNumber (Some n) => mkResult (negb (feq n f0)) (Reason r)
  | VNumber None => r
  | VNull => mkResult false (Reason r)
  | VOther => r
  end.

Definition apply_reason (v : value) (r : Result) : Result :=
  match v with
  | VString s => mkResult (Allowed r) s
  | _ => r
  end.

(** The body of the loop over the expressions. *)
Definition apply_expr (r : Result) (x : exprValue) : Result :=
  match x with
  | None => r
  | Some val =>
      let r := match val !! "allow"%string with Some a => apply_allow a r | None => r end in
      match val !! "reason"%string with Some s => apply_reason s r | None => r end
  end.

Definition extract (results : ResultSet) : Result :=
  if (length results =? 0)%nat then mkResult true ""
  else foldl (fun r exprs => foldl apply_expr r exprs) (mkResult true "") results.

Definition Evaluate_embedded (e : EmbeddedEvaluator) (input : Input) : outcome :=
  let timeout := if e_evalTimeout e <=? 0 then 500 * Millisecond else e_evalTimeout e in
  match e_prepared e with
  | None => OError "evaluator not initialized"
  | Some p =>
      match Eval R p timeout input with
      | inr err => OError ("OPA eval: " +:+ err)
      | inl results => OResult (extract results)
      end
  end.

#[export] Instance EmbeddedEvaluator_Evaluator : Evaluator EmbeddedEvaluator := Evaluate_embedded.
End embedded.
