(* ===== verification/OpaFacts.v ===== *)
(** * Theorems on package [opa]: which policy governs, and what a decision is *)
From Stdlib Require Import ZArith Lia ZifyBool.
From stdpp Require Import base gmap sets list strings pretty relations.
From S2P Require Import Prelude GoTime GoFloat Packet Opa.

Local Open Scope Z_scope.

Section loading.
Context (R : Rego).
Notation evaluator := (EmbeddedEvaluator R).

(** [policy] compiles, declares the decision package, and prepares to [p]. *)
Definition valid_policy (policy : string) (p : prepared R) : Prop :=
  exists c, CompileModules R policy = inl c /\ Some decisionQuery ∈ Modules R c /\
            PrepareForEval R decisionQuery c = inl p.

Lemma verifyPolicyPackage_spec c :
  verifyPolicyPackage R c = None <-> Some decisionQuery ∈ Modules R c.
Proof.
  unfold verifyPolicyPackage.
  destruct (existsb declares_decision (Modules R c)) eqn:E.
  - split; [intros _ | done]. apply existsb_exists in E as (m & Hm & Hd).
    apply list_elem_of_In in Hm. destruct m as [q|]; [|done]. apply String.eqb_eq in Hd. by subst.
  - split; [done |]. intros Hin. exfalso.
    assert (existsb declares_decision (Modules R c) = true); [|congruence].
    apply existsb_exists. exists (Some decisionQuery). split; [by apply list_elem_of_In |].
    apply String.eqb_refl.
Qed.

(** The evaluator while it is shared: [Load] holds the load mutex for its whole
    duration but gives up the field mutex between its two sections, so packets
    are evaluated in between. *)
Inductive load_step : option string * evaluator -> option string * evaluator -> Prop :=
| load_begin policy e e' :
    load_swap R policy e = (None, e') -> load_step (None, e) (Some policy, e')
| load_reject policy e err e' :
    load_swap R policy e = (Some err, e') -> load_step (None, e) (None, e')
| load_end policy e :
    load_step (Some policy, e) (None, (load_rebuild R e).2)
| load_evaluate phase e (input : Input) :
    load_step (phase, e) (phase, e).

Definition governs_valid (e : evaluator) : Prop :=
  exists policy p, e_prepared R e = Some p /\ valid_policy policy p.

Definition load_inv (s : option string * evaluator) : Prop :=
  governs_valid s.2 /\
  (forall policy, s.1 = Some policy ->
     CompileModules R policy = inl (e_compiler R s.2) /\
     Some decisionQuery ∈ Modules R (e_compiler R s.2)).

Lemma load_swap_spec policy e :
  match load_swap R policy e with
  | (Some _, e') => e' = e
  | (None, e') => exists c, CompileModules R policy = inl c /\ Some decisionQuery ∈ Modules R c /\
      e' = mkEmbedded R (e_prepared R e) c (e_evalTimeout R e) policy (e_reload R e)
  end.
Proof.
  unfold load_swap. case_bool; [done |]. destruct (CompileModules R policy) as [c|]; [|done].
  destruct (verifyPolicyPackage R c) eqn:Hv; [done |]. apply verifyPolicyPackage_spec in Hv. eauto.
Qed.

Lemma load_step_inv s s' : load_step s s' -> load_inv s -> load_inv s'.
Proof.
  destruct 1 as [policy e e' Hl|policy e err e' Hl|policy e|]; intros [Hg Hp]; simpl in *.
  - pose proof (load_swap_spec policy e) as Hs. rewrite Hl in Hs. destruct Hs as (c & Hc & Hm & ->).
    split; [exact Hg |]. by intros p' [= <-].
  - pose proof (load_swap_spec policy e) as Hs. rewrite Hl in Hs. subst. by split.
  - destruct (Hp policy eq_refl) as [Hc Hm]. split; [|done]. unfold load_rebuild, rebuild. simpl.
    destruct (PrepareForEval R decisionQuery (e_compiler R e)) as [p|] eqn:He; simpl; [|exact Hg].
    exists policy, p. split; [done |]. by exists (e_compiler R e).
  - by split.
Qed.

Lemma NewEmbedded_inv policy timeout e : NewEmbedded R policy timeout = inl e -> load_inv (None, e).
Proof.
  unfold NewEmbedded. case_bool; [done |]. destruct (CompileModules R policy) as [c|] eqn:Hc; [|done].
  destruct (verifyPolicyPackage R c) eqn:Hv; [done |]. apply verifyPolicyPackage_spec in Hv.
  unfold rebuild. simpl. destruct (PrepareForEval R decisionQuery c) as [p|] eqn:He; [|done].
  intros [= <-]. split; [|done]. exists policy, p. split; [done |]. by exists c.
Qed.

(** From the moment the evaluator exists, whatever policies are loaded
    (also broken ones) and however packets are evaluated in between, the prepared query is
    that of a policy that compiles and declares the decision package. *)
Theorem valid_policy_governs policy timeout e0 phase e :
  NewEmbedded R policy timeout = inl e0 -> rtc load_step (None, e0) (phase, e) -> governs_valid e.
Proof.
  intros Hn Hr. apply NewEmbedded_inv in Hn. change e with ((phase, e).2).
  revert Hn. generalize (None (A := string), e0) (phase, e) Hr. clear.
  induction 1 as [|s1 s2 s3 Hs _ IH]; intros Hi; [apply Hi |]. eauto using load_step_inv.
Qed.

(** A whole [Load], and any number of them. *)
Lemma Load_inv policy e : load_inv (None, e) -> load_inv (None, (Load R policy e).2).
Proof.
  intros He. unfold Load. destruct (load_swap R policy e) as [[err|] e'] eqn:Hl.
  - eapply load_step_inv; [by eapply load_reject | done].
  - destruct (load_rebuild R e') as [r e''] eqn:Hb. change e'' with (r, e'').2. rewrite <-Hb.
    eapply load_step_inv; [apply (load_end policy) |]. eapply load_step_inv; [by apply load_begin | done].
Qed.

Lemma Loads_inv policies e :
  load_inv (None, e) -> load_inv (None, foldl (fun e policy => (Load R policy e).2) e policies).
Proof. revert e. induction policies as [|p policies IH]; [done |]. intros e He. apply IH, Load_inv, He. Qed.

(** A [Load] that returns no error puts the policy it was given in force; one that
    fails because the policy is empty, does not compile or declares another package leaves
    the evaluator as it was; and one that fails later keeps the policy that governed. *)
Theorem Load_governs policy e :
  match Load R policy e with
  | (None, e') => e_policy R e' = policy /\ e_reload R e' = true /\
                  exists p, e_prepared R e' = Some p /\ valid_policy policy p
  | (Some _, e') => e_prepared R e' = e_prepared R e /\
                    ((load_swap R policy e).1 <> None -> e' = e)
  end.
Proof.
  unfold Load. pose proof (load_swap_spec policy e) as Hs.
  destruct (load_swap R policy e) as [[err|] e'] eqn:Hl; [by subst |].
  destruct Hs as (c & Hc & Hm & ->). unfold load_rebuild, rebuild. simpl.
  destruct (PrepareForEval R decisionQuery c) as [p|] eqn:He; simpl; [|by split].
  split; [done |]. split; [done |]. exists p. split; [done |]. by exists c.
Qed.
End loading.

(** A library with two policies, for the witnesses: one in the decision package
    that denies, and one elsewhere. *)
Definition sample_rego : Rego :=
  mkRego string string
    (fun src => if String.eqb src "deny" || String.eqb src "other" then inl src else inr "parse error")
    (fun c => [if String.eqb c "deny" then Some decisionQuery else Some "data.other"])
    (fun _ c => inl c)
    (fun _ _ _ => inl [[Some {[ "allow"%string := VBool false ]}]]).

Lemma valid_policy_governs_witness :
  governs_valid sample_rego
    (mkEmbedded sample_rego (Some "deny"%string) ("deny"%string) 0 "deny" false).
Proof.
  apply (valid_policy_governs sample_rego "deny" 0
           (mkEmbedded sample_rego (Some "deny"%string) ("deny"%string) 0 "deny" false) None).
  - vm_compute. reflexivity.
  - apply rtc_once. eapply (load_reject sample_rego "other"). vm_compute. reflexivity.
Defined.

(** A decision document that has no member [allow], or one whose value is
    an array or an object, is read as a permission: the package check does not require the
    policy to define the rule. *)
Theorem missing_allow_allows (docs : list (gmap string value)) :
  Forall (fun d => d !! "allow"%string = None \/ d !! "allow"%string = Some VOther) docs ->
  Allowed (extract [Some <$> docs]) = true.
Proof.
  unfold extract. cbn [length Nat.eqb foldl].
  assert (forall r, Allowed r = true ->
    Forall (fun d => d !! "allow"%string = None \/ d !! "allow"%string = Some VOther) docs ->
    Allowed (foldl apply_expr r (Some <$> docs)) = true) as Hgen; [|by apply Hgen].
  induction docs as [|d docs IH]; intros r Hr Hd; [done |]. inversion_clear Hd as [|? ? Hx Hd'].
  rewrite fmap_cons. cbn [foldl]. apply IH; [|done]. unfold apply_expr.
  assert (Allowed (match d !! "allow"%string with Some a => apply_allow a r | None => r end) = true) as H1
    by (by destruct Hx as [->| ->]).
  revert H1. generalize (match d !! "allow"%string with Some a => apply_allow a r | None => r end).
  intros r' H1. destruct (d !! "reason"%string) as [[]|]; done.
Qed.

Lemma missing_allow_allows_witness :
  Allowed (extract [[Some {[ "deny"%string := VBool true ]}]]) = true.
Proof.
  apply (missing_allow_allows [{[ "deny"%string := VBool true ]}]).
  apply List.Forall_cons; [left; vm_compute; reflexivity | apply List.Forall_nil].
Defined.

(** A document whose [allow] is a boolean decides exactly so, with its
    [reason] when that is a string. *)
Theorem decision_extracted (d : gmap string value) b :
  d !! "allow"%string = Some (VBool b) ->
  extract [[Some d]] = mkResult b (match d !! "reason"%string with Some (VString s) => s | _ => "" end).
Proof.
  intros Hb. unfold extract. cbn [length Nat.eqb foldl apply_expr]. rewrite Hb.
  destruct (d !! "reason"%string) as [[]|]; done.
Qed.

Lemma decision_extracted_witness :
  extract [[Some (<[ "reason"%string := VString "scan" ]> {[ "allow"%string := VBool false ]})]] =
  mkResult false "scan".
Proof.
  etransitivity.
  - apply (decision_extracted (<[ "reason"%string := VString "scan" ]> {[ "allow"%string := VBool false ]}) false).
    vm_compute. reflexivity.
  - vm_compute. reflexivity.
Defined.
