(* ===== verification/ShippedPolicy.v ===== *)
(** * The shipped policy

    The rules of src/opa-policies/l3.rego.  A rule body of Rego is a conjunction; a
    reference to a member the input does not have, or a call of a built-in function that
    fails, makes the body undefined, and an undefined body does not hold.  The rules are
    functions of the constants at the top of the file ([PolicyConfig]), which the operator
    edits; [shipped] has the values in the repository.  The built-in functions of the
    interpreter are a class. *)
From Stdlib Require Import ZArith Lia ZifyBool.
From stdpp Require Import base gmap sets list strings pretty sorting.
From S2P Require Import Prelude GoTime GoFloat GoNet Packet ThreatIntel Opa.

Local Open Scope Z_scope.

(** ** Built-in functions

    [net.cidr_contains] on a network and an address, [to_number] on a text that is an
    integer, [split] and the text [sprintf] makes of a number that is not an integer. *)
Class Builtins : Type := {
  cidr_contains : string -> string -> bool;
  to_number : string -> option Z;
  split_dash : string -> list string;
  show_number : float64 -> string;
  cidr_contains_spec cidr ip net a :
    ParseCIDR cidr = Some net -> ParseIP ip = Some a -> cidr_contains cidr ip = IPNet_Contains net a;
}.

(** ** Configuration *)

(** An element of a set of ports: a number, or a text such as "8000-9000". *)
Inductive port_entry : Type := PNumber (n : Z) | PText (s : string).

Record TimeRule : Type := mkTimeRule {
  tr_ports : list port_entry;
  tr_days : list Z;
  tr_start_hour : Z;
  tr_end_hour : Z;
  tr_effect : string;
}.

Record PolicyConfig : Type := mkPolicyConfig {
  allowed_subnets : list string;
  blocked_ports : list port_entry;
  blocked_protocols : list string;
  blocked_icmp_types : list Z;
  blocked_icmp_codes : list Z;
  syn_rate_per_second : Z;
  icmp_rate_per_second : Z;
  max_packets_per_second : Z;
  max_port_pps : Z;
  max_new_connections_per_second : Z;
  enable_ip_spoofing : bool;
  enable_port_scan : bool;
  enable_syn_flood : bool;
  enable_stateful : bool;
  enable_fragment : bool;
  enable_ingress_egress : bool;
  port_scan_threshold : Z;
  blocked_src_countries : list string;
  allowed_src_countries : list string;
  allowed_dst_countries : list string;
  time_based_rules : list TimeRule;
}.

Definition shipped : PolicyConfig :=
  mkPolicyConfig ["0.0.0.0/0"; "::/0"]%string
    [PNumber 22; PNumber 23; PNumber 3389; PNumber 5900; PNumber 5901] [] [8] []
    100 10 10000 500 1000 true true true true false true 20 ["KP"%string] [] [] [].

Definition has_dash (s : string) : bool := existsb (Z.eqb 45) (codes s).

Section policy.
Context `{Builtins} (c : PolicyConfig).
Implicit Types (i : Input).

(** ** Helpers *)
Definition ip_in_subnets (ip : string) (subnets : list string) : bool :=
  existsb (fun cidr => has_slash cidr && cidr_contains cidr ip) subnets || existsb (String.eqb ip) subnets.

(** A number is not a string: [contains] fails on it. *)
Definition in_range_entry (port : Z) (r : port_entry) : bool :=
  match r with
  | PNumber _ => false
  | PText s =>
      has_dash s &&
      match split_dash s with
      | lo :: hi :: _ =>
          match to_number lo, to_number hi with
          | Some lower, Some upper => (lower <=? port) && (port <=? upper)
          | _, _ => false
          end
      | _ => false
      end
  end.

Definition is_number (port : Z) (r : port_entry) : bool :=
  match r with PNumber n => n =? port | PText _ => false end.

Definition port_in_ranges (port : Z) (ranges : list port_entry) : bool :=
  existsb (in_range_entry port) ranges || existsb (is_number port) ranges.

(** [input.rate.x > n] *)
Definition above (x : float64) (n : Z) : bool := flt (of_int n) x.

Definition is_proto (p : string) i : bool := String.eqb (o_Protocol (i_Packet i)) p.
Definition flags i : TCPFlags := o_TCPFlags (i_Packet i).

(** Membership of a number that may be null. *)
Definition holds_code (l : list Z) (x : option Z) : bool :=
  match x with Some n => existsb (Z.eqb n) l | None => false end.

(** A country is left out of the document when it is empty. *)
Definition country (s : string) : option string := if String.eqb s "" then None else Some s.

Definition invalid_tcp_flags (f : TCPFlags) : bool := (SYN f && RST f) || (FIN f && RST f) || (SYN f && FIN f).

(** ** The rules *)
Definition deny_ip_spoofing i : bool :=
  enable_ip_spoofing c && negb (ip_in_subnets (o_SrcIP (i_Packet i)) (allowed_subnets c)).

(** The ports are null when there are none, and [count] fails on null. *)
Definition deny_port_scan i : bool :=
  enable_port_scan c && (c_PacketsInFlow (i_Connection i) =? 1) && SYN (flags i) && negb (ACK (flags i)) &&
  match c_RecentPorts (i_Connection i) with
  | [] => false
  | l => port_scan_threshold c <=? Z.of_nat (length l)
  end.

Definition deny_syn_flood i : bool :=
  enable_syn_flood c && is_proto "TCP" i && SYN (flags i) && negb (ACK (flags i)) &&
  above (SrcIPpps (i_Rate i)) (syn_rate_per_second c).

Definition deny_protocol_anomaly i : bool := is_proto "TCP" i && invalid_tcp_flags (flags i).

Definition deny_ingress_egress i : bool :=
  enable_ingress_egress c && negb (ip_in_subnets (o_DstIP (i_Packet i)) (allowed_subnets c)).

Definition deny_blocked_port i : bool :=
  (is_proto "TCP" i || is_proto "UDP" i) && port_in_ranges (o_DstPort (i_Packet i)) (blocked_ports c).

Definition deny_icmp i : bool :=
  is_proto "ICMP" i && (holds_code (blocked_icmp_types c) (o_ICMPType (i_Packet i)) ||
                        holds_code (blocked_icmp_codes c) (o_ICMPCode (i_Packet i))).

Definition deny_icmp_flood i : bool :=
  is_proto "ICMP" i && above (SrcIPpps (i_Rate i)) (icmp_rate_per_second c).

Definition deny_state_violation i : bool :=
  enable_stateful c && is_proto "TCP" i && RST (flags i) && negb (c_Established (i_Connection i)).

Definition deny_blocked_protocol i : bool := existsb (String.eqb (o_Protocol (i_Packet i))) (blocked_protocols c).

Definition deny_traffic_rate i : bool := above (SrcIPpps (i_Rate i)) (max_packets_per_second c).

Definition deny_fragment_attack i : bool :=
  enable_fragment c && IsFragment (o_Fragment (i_Packet i)) && (0 <? Offset (o_Fragment (i_Packet i))).

Definition deny_incomplete_fragment i : bool := L4Incomplete (o_Fragment (i_Packet i)).

Definition deny_source_port i : bool :=
  (is_proto "TCP" i || is_proto "UDP" i) && port_in_ranges (o_SrcPort (i_Packet i)) (blocked_ports c).

Definition deny_new_conn_rate i : bool := above (NewConnsPerSec (i_Rate i)) (max_new_connections_per_second c).

Definition deny_port_rate i : bool := above (SrcPortPPS (i_Rate i)) (max_port_pps c).

Definition deny_geoip_blocked_src i : bool :=
  match country (SrcCountry (i_Geo i)) with
  | Some s => existsb (String.eqb s) (blocked_src_countries c)
  | None => false
  end.

(** A list of allowed countries that is not empty and does not have the country. *)
Definition not_allowed (allowed : list string) (x : option string) : bool :=
  match x with
  | Some s => (0 <? length allowed)%nat && negb (existsb (String.eqb s) allowed)
  | None => false
  end.

Definition deny_geoip_src_not_allowed i : bool := not_allowed (allowed_src_countries c) (country (SrcCountry (i_Geo i))).
Definition deny_geoip_dst_not_allowed i : bool := not_allowed (allowed_dst_countries c) (country (DstCountry (i_Geo i))).

Definition time_based_matches i (r : TimeRule) : bool :=
  (length (tr_days r) =? 0)%nat || existsb (Z.eqb (UtcDay (i_Time i))) (tr_days r).

Definition time_based_in_window i (r : TimeRule) : bool :=
  (tr_start_hour r <=? UtcHour (i_Time i)) && (UtcHour (i_Time i) <? tr_end_hour r).

Definition time_denied i (r : TimeRule) : bool :=
  String.eqb (tr_effect r) "deny" && port_in_ranges (o_DstPort (i_Packet i)) (tr_ports r) &&
  time_based_matches i r && time_based_in_window i r.

Definition time_outside i (r : TimeRule) : bool :=
  String.eqb (tr_effect r) "allow" && port_in_ranges (o_DstPort (i_Packet i)) (tr_ports r) &&
  time_based_matches i r && negb (time_based_in_window i r).

Definition deny_time_based i : bool := existsb (time_denied i) (time_based_rules c).
Definition deny_time_based_outside_window i : bool := existsb (time_outside i) (time_based_rules c).

(** ** Reasons *)

(** The verb [%v] of an ICMP field, which may be null. *)
Definition show_code (x : option Z) : string := match x with Some n => pretty n | None => "null" end.

(** Each rule with the texts it adds to [deny_reasons]; rules 6 and 12 name the
    protocol. *)
Definition rules i : list (bool * list string) :=
  let p := i_Packet i in
  [ (deny_ip_spoofing i, ["IP spoofing detected"%string]);
    (deny_port_scan i, ["port scan detected"%string]);
    (deny_syn_flood i, ["SYN flood detected"%string]);
    (deny_protocol_anomaly i, ["protocol anomaly detected"%string]);
    (deny_ingress_egress i, ["ingress/egress filtering blocked"%string]);
    (deny_blocked_port i, ["blocked port " +:+ pretty (o_DstPort p) +:+ " (" +:+ o_Protocol p +:+ ")"]);
    (deny_icmp i, ["blocked ICMP type=" +:+ show_code (o_ICMPType p) +:+ " code=" +:+ show_code (o_ICMPCode p)]);
    (deny_icmp_flood i, ["ICMP flood detected"%string]);
    (deny_state_violation i, ["connection state violation: RST to non-existent flow"%string]);
    (deny_blocked_protocol i, ["blocked protocol " +:+ o_Protocol p]);
    (deny_traffic_rate i, ["rate limit exceeded: " +:+ show_number (SrcIPpps (i_Rate i)) +:+ " pps"]);
    (deny_fragment_attack i, ["fragment attack: offset=" +:+ pretty (Offset (o_Fragment p))]);
    (deny_incomplete_fragment i, ["uninspectable fragment: incomplete L4 header (RFC 1858 tiny fragment)"%string]);
    (deny_source_port i, ["blocked source port " +:+ pretty (o_SrcPort p) +:+ " (TCP)";
                          "blocked source port " +:+ pretty (o_SrcPort p) +:+ " (UDP)"]);
    (deny_new_conn_rate i, ["new connection rate exceeded: " +:+ show_number (NewConnsPerSec (i_Rate i)) +:+ "/sec"]);
    (deny_port_rate i, ["per-port rate limit: " +:+ show_number (SrcPortPPS (i_Rate i)) +:+ " pps to port " +:+
                        pretty (o_DstPort p)]);
    (deny_geoip_blocked_src i, ["blocked source country: " +:+ SrcCountry (i_Geo i)]);
    (deny_geoip_src_not_allowed i, ["source country " +:+ SrcCountry (i_Geo i) +:+ " not in allowed list"]);
    (deny_geoip_dst_not_allowed i, ["destination country " +:+ DstCountry (i_Geo i) +:+ " not in allowed list"]);
    (deny_time_based i,
     (fun r => "time-based block: port=" +:+ pretty (o_DstPort p) +:+ " during restricted hours (UTC " +:+
        pretty (tr_start_hour r) +:+ ":00-" +:+ pretty (tr_end_hour r) +:+ ":00)")
     <$> List.filter (time_denied i) (time_based_rules c));
    (deny_time_based_outside_window i,
     (fun r => "time-based block outside window: port=" +:+ pretty (o_DstPort p) +:+ " (only allowed UTC " +:+
        pretty (tr_start_hour r) +:+ ":00-" +:+ pretty (tr_end_hour r) +:+ ":00)")
     <$> List.filter (time_outside i) (time_based_rules c)) ].

(** [allow] is true unless a rule makes it false. *)
Definition allow i : bool := negb (existsb fst (rules i)).

(** The set [deny_reasons], as a list. *)
Definition deny_reasons i : list string := concat (snd <$> List.filter fst (rules i)).

(** [sort(deny_reasons)[0]] *)
Definition deny_reason i : option string := head (merge_sort String.le (deny_reasons i)).

(** The members [allow] and [reason] of the decision document. *)
Definition document i : gmap string value :=
  <["allow"%string := VBool (allow i)]>
    (match deny_reason i with
     | Some r => if String.eqb r "" then ∅ else {[ "reason"%string := VString r ]}
     | None => ∅
     end).
End policy.

(** ** Running the policy *)

(** The numbers of the input can be written as JSON. *)
Definition encodable (i : Input) : Prop :=
  finite64 (SrcIPpps (i_Rate i)) /\ finite64 (SrcIPbps (i_Rate i)) /\ finite64 (SrcPortPPS (i_Rate i)) /\
  finite64 (SrcPortBPS (i_Rate i)) /\ finite64 (NewConnsPerSec (i_Rate i)).

(** What the interpreter does with a query it prepared from the policy with the constants
    [c]: within the timeout, it evaluates an input it can encode to the decision document. *)
Definition runs_policy `{Builtins} (R : Rego) (c : PolicyConfig) (p : prepared R) : Prop :=
  forall timeout i, encodable i -> Eval R p timeout i = inl [[Some (document c i)]].
