(* ===== verification/ShippedPolicyFacts.v ===== *)
(** * What the shipped policy decides

    Theorems on the decision document: it always has a reason for a denial, and the
    constants of the repository let every well-formed address through. *)
From Stdlib Require Import ZArith Lia ZifyBool.
From stdpp Require Import base gmap sets list strings pretty sorting.
From S2P Require Import Prelude GoTime GoFloat GoNet GoNetFacts Cidr Packet ThreatIntel Opa ShippedPolicy.

Local Open Scope Z_scope.

(** ** Built-in functions that meet the documentation *)
Definition sample_to_number (s : string) : option Z :=
  match dtoi_go (codes s) 0 0 with (n, k, true) => if (k =? String.length s)%nat then Some n else None | _ => None end.

#[refine] Definition sample_builtins : Builtins := {|
  cidr_contains cidr ip :=
    match ParseCIDR cidr, ParseIP ip with Some net, Some a => IPNet_Contains net a | _, _ => false end;
  to_number := sample_to_number;
  split_dash s := [s];
  show_number := fmt_f0;
|}.
Proof. intros cidr ip net a Hc Hi. by rewrite Hc, Hi. Defined.

Section policy.
Context `{Builtins}.
Implicit Types (c : PolicyConfig) (i : Input).

(** ** The decision *)

(** A list of rules with their texts. *)
Lemma no_rule_holds (l : list (bool * list string)) :
  negb (existsb fst l) = true <-> Forall (fun r => r.1 = false) l.
Proof.
  rewrite negb_true_iff. induction l as [|[b ts] l IH]; simpl; [done |].
  rewrite orb_false_iff, Forall_cons. simpl. by rewrite IH.
Qed.

Definition with_texts (r : bool * list string) : Prop :=
  (r.1 = true -> r.2 <> []) /\ Forall (fun t => t <> ""%string) r.2.

Lemma texts_of_rules (l : list (bool * list string)) :
  Forall with_texts l ->
  (negb (existsb fst l) = true <-> concat (snd <$> List.filter fst l) = []) /\
  forall r, r ∈ concat (snd <$> List.filter fst l) -> r <> ""%string.
Proof.
  induction 1 as [|[b ts] l [Hb Hts] _ [IH1 IH2]]; simpl; [split; [done | by intros r ?%elem_of_nil] |].
  destruct b; simpl; [|by split]. split.
  - split; [done |]. intros Hn. apply app_eq_nil in Hn as [Hn _]. by apply Hb in Hn.
  - intros r [Hr|Hr]%elem_of_app; [|by apply IH2]. simpl in Hts. rewrite Forall_forall in Hts. by apply Hts.
Qed.

Lemma existsb_filter {A} (f : A -> bool) l : existsb f l = true -> List.filter f l <> [].
Proof. induction l as [|x l IH]; simpl; [done |]. destruct (f x); simpl; [done | exact IH]. Qed.

(** Every rule of the policy has a text when it holds, and none of them is empty. *)
Lemma rules_have_texts c i : Forall with_texts (rules c i).
Proof.
  unfold rules. repeat apply Forall_cons_2; try apply Forall_nil_2; unfold with_texts; simpl;
    try (split; [done | by repeat constructor]).
  all: split; [intros Hr%existsb_filter Hn; by apply fmap_nil_inv in Hn |].
  all: apply Forall_fmap, Forall_true; by intros r.
Qed.

Lemma allow_true c i : allow c i = true <-> Forall (fun r => r.1 = false) (rules c i).
Proof. apply no_rule_holds. Qed.

Lemma allow_reasons c i : allow c i = true <-> deny_reasons c i = [].
Proof. exact (proj1 (texts_of_rules _ (rules_have_texts c i))). Qed.

Lemma deny_reasons_text c i r : r ∈ deny_reasons c i -> r <> ""%string.
Proof. exact (proj2 (texts_of_rules _ (rules_have_texts c i)) r). Qed.

(** The head of a sorted list is the least element. *)
Lemma head_sorted_least (l : list string) r :
  head (merge_sort String.le l) = Some r -> r ∈ l /\ forall r', r' ∈ l -> String.le r r'.
Proof.
  intros Hh. pose proof (Sorted_merge_sort String.le l) as Hs.
  pose proof (merge_sort_Permutation String.le l) as Hp.
  destruct (merge_sort String.le l) as [|x m]; [done |]. injection Hh as ->. split.
  - rewrite <-Hp. by left.
  - intros r'. rewrite <-Hp. intros [->|Hr]%elem_of_cons; [done |].
    apply Sorted_StronglySorted in Hs; [|apply _]. inversion_clear Hs as [|?? _ Hall].
    rewrite Forall_forall in Hall. by apply Hall.
Qed.

(** The cases of a decision. *)
Lemma denial_spec c i :
  match deny_reason c i with
  | None => allow c i = true /\ deny_reasons c i = []
  | Some r => allow c i = false /\ r <> ""%string /\ r ∈ deny_reasons c i /\
              forall r', r' ∈ deny_reasons c i -> String.le r r'
  end.
Proof.
  pose proof (allow_reasons c i) as Ha. pose proof (deny_reasons_text c i) as Ht. unfold deny_reason.
  revert Ha Ht. generalize (deny_reasons c i) (allow c i). clear c i. intros l b Ha Ht.
  destruct (head (merge_sort String.le l)) as [r|] eqn:Hr.
  - destruct (head_sorted_least _ _ Hr) as [Hin Hleast]. split_and!; [|by apply Ht | done..].
    destruct b; [|done]. rewrite (proj1 Ha eq_refl) in Hin. by apply elem_of_nil in Hin.
  - pose proof (merge_sort_Permutation String.le l) as Hp.
    destruct (merge_sort String.le l); [|done]. apply Permutation_nil in Hp. by split; [apply Ha |].
Qed.

(** The policy denies a packet exactly when one of its rules matches, and then its reason is
    the least of the texts of the rules that match and is not empty; when none matches it
    has no reason.  In particular no number of matching rules makes the decision fail. *)
Theorem denial_has_reason c i :
  match deny_reason c i with
  | None => allow c i = true /\ deny_reasons c i = []
  | Some r => allow c i = false /\ r <> ""%string /\ r ∈ deny_reasons c i /\
              forall r', r' ∈ deny_reasons c i -> String.le r r'
  end.
Proof. apply denial_spec. Qed.

(** ** Addresses *)

(** The networks "0.0.0.0/0" and "::/0". *)
Lemma any4_contains a : length (short_form a) = 4%nat -> IPNet_Contains (mkIPNet [0; 0; 0; 0] [0; 0; 0; 0]) a = true.
Proof.
  intros Hl. unfold IPNet_Contains, short_form in *. simpl. rewrite Hl. simpl.
  exact (masked_eq_0 [0; 0; 0; 0] _ 4).
Qed.

Lemma any6_contains a :
  length (short_form a) = 16%nat -> IPNet_Contains (mkIPNet (replicate 16 0) (replicate 16 0)) a = true.
Proof.
  intros Hl. unfold IPNet_Contains, short_form in *. simpl. rewrite Hl. simpl.
  exact (masked_eq_0 (replicate 16 0) _ 16).
Qed.

(** Every address, of either family, is in one of the allowed subnets. *)
Lemma shipped_subnets_all ip a : ParseIP ip = Some a -> ip_in_subnets ip (allowed_subnets shipped) = true.
Proof.
  intros Hp. unfold ip_in_subnets, shipped. cbn [allowed_subnets existsb].
  assert (ParseCIDR "0.0.0.0/0" = Some (mkIPNet [0; 0; 0; 0] [0; 0; 0; 0])) as H4 by (vm_compute; reflexivity).
  assert (ParseCIDR "::/0" = Some (mkIPNet (replicate 16 0) (replicate 16 0))) as H6 by (vm_compute; reflexivity).
  rewrite (cidr_contains_spec _ _ _ _ H4 Hp), (cidr_contains_spec _ _ _ _ H6 Hp).
  change (has_slash "0.0.0.0/0") with true. change (has_slash "::/0") with true. cbn [andb].
  destruct (short_form_ok a (ParseIP_ok _ _ Hp)) as [[_ Hl]|[[_ Hl] _]].
  - by rewrite any4_contains.
  - by rewrite any6_contains, orb_true_r.
Qed.

Lemma shipped_no_spoofing i a b :
  ParseIP (o_SrcIP (i_Packet i)) = Some a -> ParseIP (o_DstIP (i_Packet i)) = Some b ->
  deny_ip_spoofing shipped i = false /\ deny_ingress_egress shipped i = false.
Proof.
  intros Ha Hb. unfold deny_ip_spoofing, deny_ingress_egress.
  by rewrite (shipped_subnets_all _ _ Ha), (shipped_subnets_all _ _ Hb), !andb_false_r.
Qed.

(** ** Evaluation *)

(** The evaluator around a query that runs the policy returns its decision. *)
Lemma Evaluate_policy (R : Rego) c ev p i :
  e_prepared R ev = Some p -> runs_policy R c p -> encodable i ->
  Evaluate_embedded R ev i = OResult (mkResult (allow c i) (default ""%string (deny_reason c i))).
Proof.
  intros Hp Hr He. unfold Evaluate_embedded. rewrite Hp, (Hr _ i He). f_equal.
  unfold extract. cbn [length Nat.eqb foldl apply_expr]. unfold document.
  pose proof (denial_spec c i) as Hd. revert Hd. generalize (allow c i). intros b Hd.
  destruct (deny_reason c i) as [r|].
  - destruct (String.eqb_spec r "") as [->|_]; [by destruct Hd as (_ & ? & _) |].
    rewrite lookup_insert_eq. cbn [apply_allow]. rewrite lookup_insert_ne, lookup_singleton_eq by done. done.
  - rewrite lookup_insert_eq. cbn [apply_allow]. rewrite lookup_insert_ne, lookup_empty by done. done.
Qed.
End policy.
