(* ===== verification/Engine.v ===== *)
(** * Package [engine]: the packet pipeline

    Translated from src/internal/engine/{engine,failmode}.go, with
    [LookupCountry] of src/internal/geoip/geoip.go.

    A method of [Engine] is a function from the engine to the engine and an
    outcome; a panic keeps the effects made before it, and [recover] resumes from
    that state.  The receive loop runs one packet at a time; PacketSteps.v has the critical
    sections between which other goroutines run.  What a packet's
    handling reads from outside (clocks, random bytes, iteration orders) is an
    [Env]; the evaluator, the capture writer and the GeoIP database are
    parameters of the engine.  Log output is not modelled. *)
From Stdlib Require Import ZArith Lia ZifyBool Strings.Byte.
From stdpp Require Import base gmap sets list strings pretty.
From S2P Require Import Prelude GoTime GoFloat GoNet Packet Conntrack RateLimit L2Filter ThreatIntel Alert Opa.

Local Open Scope Z_scope.

(** ** Fail modes *)
Inductive FailMode : Type := FailOpen | FailClosed | FailLog.

Definition FailMode_String (m : FailMode) : string :=
  match m with FailOpen => "open" | FailClosed => "closed" | FailLog => "log" end.

Definition ParseFailMode (s : string) : FailMode :=
  if String.eqb s "open" then FailOpen
  else if String.eqb s "closed" then FailClosed
  else if String.eqb s "log" then FailLog
  else FailClosed.

(** ** GeoIP *)

(** A database: what [Lookup] and [Decode] give for an address, [Ok None] when it
    is not found. *)
Definition geoDB : Type := list Z -> res (option string).

(** [strings.ToUpper] on the ASCII letters of a country code. *)
Definition to_upper (s : string) : string :=
  text (List.map (fun c => if in_chars 97 122 c then c - 32 else c) (codes s)).

(** [LookupCountry]; [Unmap] turns an IPv4-mapped address into its IPv4 form. *)
Definition LookupCountry (db : geoDB) (ipStr : string) : res string :=
  match ParseIP ipStr with
  | None => Ok ""%string
  | Some ip =>
      match db (match To4 ip with Some v4 => v4 | None => ip end) with
      | Ok (Some code) => Ok (to_upper code)
      | Ok None | Err _ => Ok ""%string
      | Panic m => Panic m
      end
  end.

(** ** State *)
Definition maxRecentBlocks : Z := 100.
Definition maxBlockStatsReasons : Z := 256.
Definition maxReasonLength : nat := 1024.

Record BlockLogEntry : Type := mkBlockLogEntry {
  b_Timestamp : Time;
  b_SrcIP : string;
  b_DstIP : string;
  b_Protocol : string;
  b_SrcPort : Z;
  b_DstPort : Z;
  b_Reason : string;
  b_PacketSize : Z;
  b_TraceID : string;
}.

Record AuditEvent : Type := mkAuditEvent {
  a_Timestamp : Time;
  a_Type : string;
  a_TraceID : string;
  a_SrcIP : string;
  a_DstIP : string;
  a_Protocol : string;
  a_SrcPort : Z;
  a_DstPort : Z;
  a_PacketSize : Z;
  a_Reason : string;
}.

Section engine.
Context {E : Type} `{Evaluator E}.

(** [auditLog] lists the events handed to the audit logger and [alertsFired] the
    alerts handed to the webhook; [None] is a nil logger.  The evaluator, the
    capture writer and the database are fixed for the life of an engine. *)
Record Engine : Type := mkEngine {
  eval : option E;
  conntrack : Table;
  ratelimit : Limiter;
  auditOnly : bool;
  failClosed : bool;
  auditLog : option (list AuditEvent);
  alertRouter : option Router;
  alertsFired : list AlertEvent;
  geoipReader : option geoDB;
  threatIntel : option Blocklist;
  pcapWriter : option (list byte -> res unit);
  l2Filter : option Filter;
  packetsProcessed : Z;
  packetsAllowed : Z;
  packetsBlocked : Z;
  blockStats : gmap string Z;
  recentBlocks : list BlockLogEntry;
}.

(** [New] *)
Definition New (ev : option E) (ct : Table) (rl : Limiter) (failClosed auditOnly : bool)
    (al : bool) (ar : option Router) (gr : option geoDB) (ti : option Blocklist)
    (pw : option (list byte -> res unit)) (l2 : option Filter) : Engine :=
  mkEngine ev ct rl auditOnly failClosed (if al then Some [] else None) ar [] gr ti pw l2
    0 0 0 ∅ [].

Definition set_tracking (ct : Table) (rl : Limiter) (e : Engine) : Engine :=
  mkEngine (eval e) ct rl (auditOnly e) (failClosed e) (auditLog e) (alertRouter e)
    (alertsFired e) (geoipReader e) (threatIntel e) (pcapWriter e) (l2Filter e)
    (packetsProcessed e) (packetsAllowed e) (packetsBlocked e) (blockStats e) (recentBlocks e).

(** [Add(dp)], [Add(da)] and [Add(db)] on the three counters. *)
Definition count (dp da db : Z) (e : Engine) : Engine :=
  mkEngine (eval e) (conntrack e) (ratelimit e) (auditOnly e) (failClosed e) (auditLog e)
    (alertRouter e) (alertsFired e) (geoipReader e) (threatIntel e) (pcapWriter e) (l2Filter e)
    (wrap64 (packetsProcessed e + dp)) (wrap64 (packetsAllowed e + da))
    (wrap64 (packetsBlocked e + db)) (blockStats e) (recentBlocks e).

Definition set_blocks (stats : gmap string Z) (recent : list BlockLogEntry) (e : Engine) : Engine :=
  mkEngine (eval e) (conntrack e) (ratelimit e) (auditOnly e) (failClosed e) (auditLog e)
    (alertRouter e) (alertsFired e) (geoipReader e) (threatIntel e) (pcapWriter e) (l2Filter e)
    (packetsProcessed e) (packetsAllowed e) (packetsBlocked e) stats recent.

Definition set_reports (al : option (list AuditEvent)) (ar : option Router) (fired : list AlertEvent)
    (e : Engine) : Engine :=
  mkEngine (eval e) (conntrack e) (ratelimit e) (auditOnly e) (failClosed e) al ar fired
    (geoipReader e) (threatIntel e) (pcapWriter e) (l2Filter e)
    (packetsProcessed e) (packetsAllowed e) (packetsBlocked e) (blockStats e) (recentBlocks e).

(** What one packet reads from outside the engine. *)
Record Env : Type := mkEnv {
  env_clock : Clock;
  env_flow_order : range_order flowKey Flow;
  env_bucket_order : range_order string rateBucket;
  env_port_order : range_order string rateBucket;
  env_rand : list Z + string;
}.

(** The readings of [time.Now] of one evaluation, in program order: three in the
    flow lookup, then one per call. *)
Definition now_rate (v : Env) : Time := reading (env_clock v) 3.
Definition now_port (v : Env) : Time := reading (env_clock v) 4.
Definition now_conns (v : Env) : Time := reading (env_clock v) 5.
Definition now_input (v : Env) : Time := reading (env_clock v) 6.
Definition now_block (v : Env) : Time := reading (env_clock v) 7.
Definition now_audit (v : Env) : Time := reading (env_clock v) 8.
Definition now_alert (v : Env) : Time := reading (env_clock v) 9.
Definition now_send (v : Env) : Time := reading (env_clock v) 10.

(** ** Effects with panics *)
Definition M (A : Type) : Type := Engine -> Engine * (A + string).

Definition ret {A} (a : A) : M A := fun e => (e, inl a).
Definition panic {A} (m : string) : M A := fun e => (e, inr m).
Definition modify (f : Engine -> Engine) : M unit := fun e => (f e, inl tt).
Definition get : M Engine := fun e => (e, inl e).
Definition bind {A B} (m : M A) (k : A -> M B) : M B := fun e =>
  match m e with
  | (e', inl a) => k a e'
  | (e', inr msg) => (e', inr msg)
  end.
Definition lift {A} (r : res A) : M A :=
  match r with
  | Ok a => ret a
  | Err m | Panic m => panic m
  end.

(** [defer func() { if rec := recover(); rec != nil { h } }()] *)
Definition recovering {A} (m : M A) (h : string -> M A) : M A := fun e =>
  match m e with
  | (e', inr msg) => h msg e'
  | r => r
  end.

Notation "'let!' x ':=' m 'in' k" := (bind m (fun x => k))
  (at level 10, x pattern, m at level 100, k at level 200).
Notation "m ';;' k" := (bind m (fun _ => k)) (at level 100, right associativity).

(** ** Reporting *)

(** [reason[:maxReasonLength]] when the reason is longer. *)
Definition truncate (reason : string) : string :=
  if (maxReasonLength <? String.length reason)%nat then String.substring 0 maxReasonLength reason else reason.

Definition recordBlock (v : Env) (pi : PacketInfo) (reason traceID : string) : M unit :=
  modify (fun e =>
    let reason := truncate reason in
    let entry := mkBlockLogEntry (now_block v) (pi_SrcIP pi) (pi_DstIP pi) (pi_Protocol pi)
                   (pi_SrcPort pi) (pi_DstPort pi) reason (pi_PacketSize pi) traceID in
    let recent := if maxRecentBlocks <=? Z.of_nat (length (recentBlocks e))
                  then drop 1 (recentBlocks e) else recentBlocks e in
    let stats := if Z.of_nat (size (blockStats e)) <? maxBlockStatsReasons
                 then <[reason := wrap64 (default 0 (blockStats e !! reason) + 1)]> (blockStats e)
                 else blockStats e in
    set_blocks stats (recent ++ [entry]) e).

Definition logAudit (v : Env) (eventType traceID : string) (pi : PacketInfo) (reason : string) : M unit :=
  modify (fun e =>
    match auditLog e with
    | None => e
    | Some l =>
        let ev := mkAuditEvent (now_audit v) eventType traceID (pi_SrcIP pi) (pi_DstIP pi)
                    (pi_Protocol pi) (pi_SrcPort pi) (pi_DstPort pi) (pi_PacketSize pi) reason in
        set_reports (Some (l ++ [ev])) (alertRouter e) (alertsFired e) e
    end).

Definition fireAlert (v : Env) (ty : AlertType) (message : string) : M unit :=
  modify (fun e =>
    match alertRouter e with
    | None => e
    | Some r =>
        let '(fired, r') := Send (now_send v) (mkAlertEvent ty message "engine" (now_alert v)) (Some r) in
        set_reports (auditLog e) r'
          (match fired with Some a => alertsFired e ++ [a] | None => alertsFired e end) e
    end).

(** [newTraceID] *)
Definition newTraceID (v : Env) : M string :=
  match env_rand v with
  | inl b => ret (text (hexString b))
  | inr err => panic ("crypto/rand: " +:+ err)
  end.

(** ** The pipeline *)

(** The lines every hard block shares: count, record, audit. *)
Definition blockPacket (v : Env) (pi : PacketInfo) (tid reason : string) : M unit :=
  modify (count 0 0 1) ;;
  recordBlock v pi reason tid ;;
  logAudit v "packet_block" tid pi reason.

(** The connection-tracking step. *)
Definition flowOf (v : Env) (pi : PacketInfo) (ct : Table) : option Flow * Table :=
  if String.eqb (pi_Protocol pi) "TCP"
  then UpdateTCPState (env_flow_order v) (env_clock v) (pi_SrcIP pi) (pi_DstIP pi) (pi_Protocol pi)
         (pi_SrcPort pi) (pi_DstPort pi) (SYN (pi_TCPFlags pi)) (ACK (pi_TCPFlags pi))
         (RST (pi_TCPFlags pi)) (FIN (pi_TCPFlags pi)) ct
  else LookupOrCreate (env_flow_order v) (env_clock v) (pi_SrcIP pi) (pi_DstIP pi) (pi_Protocol pi)
         (pi_SrcPort pi) (pi_DstPort pi) ct.

Definition trackFlow (v : Env) (pi : PacketInfo) : M (option Flow) := fun e =>
  let '(flow, ct) := flowOf v pi (conntrack e) in
  (set_tracking ct (ratelimit e) e, inl flow).

(** The destination port is tracked for scan detection. *)
Definition trackPort (pi : PacketInfo) (ct : Table) : Table :=
  if String.eqb (pi_Protocol pi) "TCP" || String.eqb (pi_Protocol pi) "UDP"
  then RecordDestPort (pi_SrcIP pi) (pi_DstPort pi) ct else ct.

(** The rate-tracking step: the per-source and the per-port rates. *)
Definition ratesOf (v : Env) (pi : PacketInfo) (packetSize : Z) (l : Limiter)
  : ((float64 * float64) * (float64 * float64)) * Limiter :=
  let '(r1, l1) := Allow (env_bucket_order v) (now_rate v) (pi_SrcIP pi) packetSize l in
  let '(r2, l2) := AllowPort (env_port_order v) (now_port v) (pi_SrcIP pi) (pi_DstPort pi) packetSize l1 in
  ((r1, r2), l2).

Definition trackRates (v : Env) (pi : PacketInfo) (packetSize : Z)
  : M ((float64 * float64) * (float64 * float64)) := fun e =>
  let '(rates, l) := ratesOf v pi packetSize (ratelimit e) in
  (set_tracking (conntrack e) l e, inl rates).

(** The policy input, from the flow, the rates and the table after tracking. *)
Definition policyInput (v : Env) (pi : PacketInfo) (flow : Flow)
    (rates : (float64 * float64) * (float64 * float64)) (ct : Table) : Input :=
  let '((pps, bps), (portPPS, portBPS)) := rates in
  let newConnRate := NewConnectionRate (now_conns v) (pi_SrcIP pi) ct in
  let recentPorts := GetRecentDestPorts (pi_SrcIP pi) ct in
  let tcpState := if String.eqb (pi_Protocol pi) "TCP"
                  then TCPState_String (fl_TCPState flow) else ""%string in
  BuildInput (now_input v) pi pps bps (Established flow) tcpState
    portPPS portBPS newConnRate recentPorts.

(** The GeoIP step. *)
Definition geoInput (db : option geoDB) (pi : PacketInfo) (input : Input) : res Input :=
  match db with
  | None => Ok input
  | Some db =>
      let* src := LookupCountry db (pi_SrcIP pi) in
      let* dst := LookupCountry db (pi_DstIP pi) in
      Ok (set_Geo (mkGeoInfo src dst) input)
  end.

(** The evaluation of the policy and what follows it. *)
Definition decide_policy (v : Env) (pi : PacketInfo) (tid : string) (input : Input) : M Result :=
  let! e := get in
  match eval e with
  | None =>
      if failClosed e then
        let reason := "evaluator unavailable — blocked for safety"%string in
        blockPacket v pi tid reason ;;
        ret (mkResult false reason)
      else
        modify (count 0 1 0) ;;
        logAudit v "packet_allow" tid pi "" ;;
        ret (mkResult true "")
  | Some ev =>
      match Evaluate ev input with
      | OPanic m => panic m
      | OError err =>
          let reason := "OPA error: " +:+ err +:+ " — blocked for safety" in
          blockPacket v pi tid reason ;;
          fireAlert v AlertOPAError reason ;;
          ret (mkResult false reason)
      | ONil => panic "runtime error: invalid memory address or nil pointer dereference"
      | OResult result =>
          if negb (Allowed result) && auditOnly e then
            modify (count 0 1 0) ;;
            logAudit v "audit_block" tid pi (Reason result) ;;
            ret (mkResult true "")
          else if Allowed result then
            modify (count 0 1 0) ;;
            logAudit v "packet_allow" tid pi "" ;;
            ret result
          else
            let result := mkResult (Allowed result) (truncate (Reason result)) in
            blockPacket v pi tid (Reason result) ;;
            ret result
      end
  end.

Definition rate_reason (pps bps : float64) : string :=
  "per-IP rate limit exceeded: " +:+ fmt_f0 pps +:+ " pps / " +:+ fmt_f0 bps +:+ " bps".

(** The body of [evaluatePacket] after the deferred recovery. *)
Definition evaluate_body (v : Env) (pi : PacketInfo) (packetSize : Z) : M Result :=
  modify (count 1 0 0) ;;
  let! tid := newTraceID v in
  let! flow := trackFlow v pi in
  match flow with
  | None =>
      let reason := "connection limit exceeded for source IP"%string in
      blockPacket v pi tid reason ;;
      fireAlert v AlertConnLimit (reason +:+ " src=" +:+ pi_SrcIP pi) ;;
      ret (mkResult false reason)
  | Some flow =>
      modify (fun e => set_tracking (trackPort pi (conntrack e)) (ratelimit e) e) ;;
      let! e := get in
      let '(macOk, macReason) := MACAllowed (l2Filter e) (pi_SrcMAC pi) in
      if negb macOk then
        blockPacket v pi tid macReason ;;
        ret (mkResult false macReason)
      else
        let! rates := trackRates v pi packetSize in
        let! e := get in
        let '(pps, bps) := rates.1 in
        if ExceedsLimit (ratelimit e) pps bps then
          let reason := rate_reason pps bps in
          blockPacket v pi tid reason ;;
          ret (mkResult false reason)
        else
          let input := policyInput v pi flow rates (conntrack e) in
          if Contains (pi_SrcIP pi) (threatIntel e) then
            let reason := "source IP in threat intelligence blocklist"%string in
            blockPacket v pi tid reason ;;
            ret (mkResult false reason)
          else
            let! input := lift (geoInput (geoipReader e) pi input) in
            decide_policy v pi tid input
  end.

Definition evaluatePacket (v : Env) (pi : PacketInfo) (packetSize : Z) : M Result :=
  recovering (evaluate_body v pi packetSize)
    (fun rec => modify (count 1 0 1) ;; ret (mkResult false ("internal error: " +:+ rec))).

(** ** The queue callback *)

(** The attributes of a queued packet the engine reads; nil pointers are [None]. *)
Record Attribute : Type := mkAttribute { PacketID : option Z; Payload : option (list byte) }.

Section callback.
Context (NewPacket : list byte -> LayerType -> option DecodedPacket).

Definition handler_body (v : Env) (attr : Attribute) : M Z :=
  match Payload attr with
  | None => modify (count 1 0 1) ;; ret 1
  | Some raw =>
      match ParsePacket NewPacket raw with
      | Panic m => panic m
      | Err _ => modify (count 1 0 1) ;; ret 1
      | Ok pi =>
          let! result := evaluatePacket v pi (zlen raw) in
          if Allowed result then ret 0
          else
            let! e := get in
            match pcapWriter e with
            | None => ret 1
            | Some write =>
                match write raw with
                | Panic m => panic m
                | _ => ret 1
                end
            end
      end
  end.

Definition packetHandler (v : Env) (attr : Attribute) : M Z :=
  recovering (handler_body v attr) (fun _ => modify (count 1 1 0) ;; ret 1).

Inductive verdict : Type := NfDrop | NfAccept.

(** [handleQueuePacket]: the verdicts sent to the kernel and the value returned
    to the receive loop.  [send] is [SetVerdict]. *)
Definition handleQueuePacket (v : Env) (send : Z -> verdict -> option string) (attr : Attribute)
    (e : Engine) : Engine * list (Z * verdict) * (Z + string) :=
  match PacketID attr with
  | None => (e, [], inl 1)
  | Some id =>
      match packetHandler v attr e with
      | (e', inr m) => (e', [], inr m)
      | (e', inl decision) =>
          let verd := if decision =? 0 then NfAccept else NfDrop in
          (e', [(id, verd)], inl (match send id verd with Some _ => 1 | None => 0 end))
      end
  end.
End callback.

(** ** Persistence *)

(** The map [saveState] hands to [persist.SaveState]. *)
Definition saved_stats (e : Engine) : gmap string Z := blockStats e.

(** The loop of [restoreState] over the loaded map, in iteration order. *)
Fixpoint restore_loop (loaded : gmap string Z) (keys : list string) (stats : gmap string Z)
    {struct keys} : gmap string Z :=
  match keys with
  | [] => stats
  | k :: keys' =>
      match loaded !! k with
      | Some n =>
          restore_loop loaded keys'
            (if Z.of_nat (size stats) <? maxBlockStatsReasons then <[k := n]> stats else stats)
      | None => restore_loop loaded keys' stats
      end
  end.

(** [restoreState], given what [persist.LoadState] returned: an error, a nil
    state, or the saved map. *)
Definition restoreState (ro : range_order string Z) (statePath : string)
    (loaded : option (gmap string Z) + string) (e : Engine) : Engine :=
  if String.eqb statePath "" then e
  else
    match loaded with
    | inr _ | inl None => e
    | inl (Some m) =>
        if (size m =? 0)%nat then e
        else set_blocks (restore_loop m (range_keys ro m) (blockStats e)) (recentBlocks e) e
    end.

(** ** Reading the engine *)
Record EngineStats : Type := mkEngineStats { PacketsProcessed : Z; PacketsAllowed : Z; PacketsBlocked : Z }.

(** [Stats] loads three counters, one after the other. *)
Definition engine_Stats (e : Engine) : EngineStats :=
  mkEngineStats (packetsProcessed e) (packetsAllowed e) (packetsBlocked e).

Definition ConntrackStats (e : Engine) : Conntrack.Stats := Table_Stats (conntrack e).

(** The loop of [BlockStats] over the map, in iteration order. *)
Fixpoint copy_stats (m : gmap string Z) (keys : list string) (result : gmap string Z) {struct keys} : gmap string Z :=
  match keys with
  | [] => result
  | k :: keys' => copy_stats m keys' (match m !! k with Some v => <[k := v]> result | None => result end)
  end.

Definition BlockStats (ro : range_order string Z) (e : Engine) : gmap string Z :=
  copy_stats (blockStats e) (range_keys ro (blockStats e)) ∅.

(** [RecentBlocks]: nil and an empty slice are both the empty list. *)
Definition RecentBlocks (e : Engine) : list BlockLogEntry :=
  if (length (recentBlocks e) =? 0)%nat then [] else recentBlocks e.
End engine.
Arguments Engine E : clear implicits.
Arguments M E : clear implicits.
