(* ===== verification/PacketSteps.v ===== *)
(** * The critical sections of a packet

    The receive loop handles one packet at a time, but beside it the maintenance goroutine
    of [Run] (src/internal/engine/engine.go) expires flows and cleans rate buckets, and
    every component has a lock of its own.  [evaluatePacket] is therefore not atomic: it is
    a sequence of critical sections, and other goroutines run between them.

    An [action] is one critical section (or one atomic counter, or one read of a field
    that never changes); a [task] is the rest of a callback as a tree of actions, with what
    follows depending on what each returns.  [callback_task] is the callback of the queue
    written so; run without interruption it is [handleQueuePacket] of Engine.v, the
    function the theorems on single packets are about.  [engine_step] interleaves the
    actions of the packet in progress with those of maintenance. *)
From Stdlib Require Import ZArith Lia ZifyBool Strings.Byte.
From stdpp Require Import base gmap sets list strings pretty relations.
From S2P Require Import Prelude GoTime GoFloat GoNet Packet Conntrack RateLimit L2Filter ThreatIntel Alert Opa Engine.

Local Open Scope Z_scope.

(** ** Actions *)
Inductive action : Type -> Type :=
| AAdd (dp da db : Z) : action unit
| ALookup (v : Env) (pi : PacketInfo) : action (option Flow)
| ARecordPort (pi : PacketInfo) : action unit
| AMac (pi : PacketInfo) : action (bool * string)
| AAllow (v : Env) (pi : PacketInfo) (size : Z) : action (float64 * float64)
| AAllowPort (v : Env) (pi : PacketInfo) (size : Z) : action (float64 * float64)
| AExceeds (p q : float64) : action bool
| ANewConnRate (v : Env) (pi : PacketInfo) : action float64
| ARecentPorts (pi : PacketInfo) : action (list Z)
| AContains (pi : PacketInfo) : action bool
| AGeo : action (option geoDB)
| AEvaluate (input : Input) : action (option outcome)
| AModes : action (bool * bool)
| ARecordBlock (v : Env) (pi : PacketInfo) (reason tid : string) : action unit
| ALogAudit (v : Env) (ty tid : string) (pi : PacketInfo) (reason : string) : action unit
| AFireAlert (v : Env) (ty : AlertType) (msg : string) : action unit
| ACapture (raw : list byte) : action (option (res unit)).

Inductive task (A : Type) : Type :=
| Done (a : A)
| Panicked (m : string)
| Act {X : Type} (c : action X) (k : X -> task A).
Arguments Done {A} a.
Arguments Panicked {A} m.
Arguments Act {A X} c k.

Fixpoint tbind {A B} (t : task A) (k : A -> task B) {struct t} : task B :=
  match t with
  | Done a => k a
  | Panicked m => Panicked m
  | Act c h => Act c (fun x => tbind (h x) k)
  end.

(** The deferred recovery. *)
Fixpoint trecover {A} (t : task A) (h : string -> task A) {struct t} : task A :=
  match t with
  | Done a => Done a
  | Panicked m => h m
  | Act c k => Act c (fun x => trecover (k x) h)
  end.

Declare Scope task_scope.
Delimit Scope task_scope with task.
Notation "x '<~' c '>>' k" := (Act c (fun x => k))
  (at level 100, c at next level, k at level 200, right associativity) : task_scope.
Notation "c '>>' k" := (Act c (fun _ => k)) (at level 100, right associativity) : task_scope.
Local Open Scope task_scope.

(** ** The callback as a task *)

(** What every hard block does: count, record, audit. *)
Definition block_task {A} (v : Env) (pi : PacketInfo) (tid reason : string) (k : task A) : task A :=
  AAdd 0 0 1 >> ARecordBlock v pi reason tid >> ALogAudit v "packet_block" tid pi reason >> k.

Definition decide_task (v : Env) (pi : PacketInfo) (tid : string) (input : Input) : task Result :=
  answer <~ AEvaluate input >>
  modes <~ AModes >>
  match answer with
  | None =>
      if modes.1 then
        let reason := "evaluator unavailable — blocked for safety"%string in
        block_task v pi tid reason (Done (mkResult false reason))
      else AAdd 0 1 0 >> ALogAudit v "packet_allow" tid pi "" >> Done (mkResult true "")
  | Some (OPanic m) => Panicked m
  | Some (OError err) =>
      let reason := "OPA error: " +:+ err +:+ " — blocked for safety" in
      block_task v pi tid reason (AFireAlert v AlertOPAError reason >> Done (mkResult false reason))
  | Some ONil => Panicked "runtime error: invalid memory address or nil pointer dereference"
  | Some (OResult result) =>
      if negb (Allowed result) && modes.2 then
        AAdd 0 1 0 >> ALogAudit v "audit_block" tid pi (Reason result) >> Done (mkResult true "")
      else if Allowed result then
        AAdd 0 1 0 >> ALogAudit v "packet_allow" tid pi "" >> Done result
      else
        let result := mkResult (Allowed result) (truncate (Reason result)) in
        block_task v pi tid (Reason result) (Done result)
  end.

(** [evaluatePacket] from the rate tracking on. *)
Definition rates_task (v : Env) (pi : PacketInfo) (size : Z) (tid : string) (flow : Flow) : task Result :=
  r <~ AAllow v pi size >>
  pr <~ AAllowPort v pi size >>
  over <~ AExceeds r.1 r.2 >>
  if over : bool then
    let reason := rate_reason r.1 r.2 in
    block_task v pi tid reason (Done (mkResult false reason))
  else
    newConnRate <~ ANewConnRate v pi >>
    recentPorts <~ ARecentPorts pi >>
    let tcpState := if String.eqb (pi_Protocol pi) "TCP"
                    then TCPState_String (fl_TCPState flow) else ""%string in
    let input := BuildInput (now_input v) pi r.1 r.2 (Established flow) tcpState pr.1 pr.2 newConnRate recentPorts in
    listed <~ AContains pi >>
    if listed : bool then
      let reason := "source IP in threat intelligence blocklist"%string in
      block_task v pi tid reason (Done (mkResult false reason))
    else
      db <~ AGeo >>
      match geoInput db pi input with
      | Ok input => decide_task v pi tid input
      | Err m | Panic m => Panicked m
      end.

Definition evaluate_task (v : Env) (pi : PacketInfo) (size : Z) : task Result :=
  AAdd 1 0 0 >>
  match env_rand v with
  | inr err => Panicked ("crypto/rand: " +:+ err)
  | inl b =>
      let tid := text (hexString b) in
      flow <~ ALookup v pi >>
      match flow with
      | None =>
          let reason := "connection limit exceeded for source IP"%string in
          block_task v pi tid reason
            (AFireAlert v AlertConnLimit (reason +:+ " src=" +:+ pi_SrcIP pi) >> Done (mkResult false reason))
      | Some flow =>
          ARecordPort pi >>
          mac <~ AMac pi >>
          if negb mac.1 then block_task v pi tid mac.2 (Done (mkResult false mac.2))
          else rates_task v pi size tid flow
      end
  end.

Definition evaluatePacket_task (v : Env) (pi : PacketInfo) (size : Z) : task Result :=
  trecover (evaluate_task v pi size)
    (fun rec => AAdd 1 0 0 >> AAdd 0 0 1 >> Done (mkResult false ("internal error: " +:+ rec))).

Section callback.
Context (NewPacket : list byte -> LayerType -> option DecodedPacket).

Definition handler_task (v : Env) (attr : Attribute) : task Z :=
  match Payload attr with
  | None => AAdd 1 0 0 >> AAdd 0 0 1 >> Done 1
  | Some raw =>
      match ParsePacket NewPacket raw with
      | Panic m => Panicked m
      | Err _ => AAdd 1 0 0 >> AAdd 0 0 1 >> Done 1
      | Ok pi =>
          tbind (evaluatePacket_task v pi (zlen raw)) (fun result =>
            if Allowed result then Done 0
            else
              written <~ ACapture raw >>
              match written with
              | Some (Panic m) => Panicked m
              | _ => Done 1
              end)
      end
  end.

Definition packet_task (v : Env) (attr : Attribute) : task Z :=
  trecover (handler_task v attr) (fun _ => AAdd 1 0 0 >> AAdd 0 1 0 >> Done 1).

(** [handleQueuePacket]: the verdicts sent and the value returned to the receive loop. *)
Definition callback_task (v : Env) (send : Z -> verdict -> option string) (attr : Attribute)
  : task (list (Z * verdict) * Z) :=
  match PacketID attr with
  | None => Done ([], 1)
  | Some id =>
      tbind (packet_task v attr) (fun decision =>
        let verd := if decision =? 0 then NfAccept else NfDrop in
        Done ([(id, verd)], match send id verd with Some _ => 1 | None => 0 end))
  end.
End callback.

(** ** Executing actions *)
Section exec.
Context {E : Type} `{Evaluator E}.

(** The effect of an action on the engine, and what it returns. *)
Definition exec {X} (c : action X) (e : Engine E) : Engine E * X :=
  match c with
  | AAdd dp da db => (count dp da db e, tt)
  | ALookup v pi => let '(flow, ct) := flowOf v pi (conntrack e) in (set_tracking ct (ratelimit e) e, flow)
  | ARecordPort pi => (set_tracking (trackPort pi (conntrack e)) (ratelimit e) e, tt)
  | AMac pi => (e, MACAllowed (l2Filter e) (pi_SrcMAC pi))
  | AAllow v pi size =>
      let '(r, l) := Allow (env_bucket_order v) (now_rate v) (pi_SrcIP pi) size (ratelimit e) in
      (set_tracking (conntrack e) l e, r)
  | AAllowPort v pi size =>
      let '(r, l) := AllowPort (env_port_order v) (now_port v) (pi_SrcIP pi) (pi_DstPort pi) size (ratelimit e) in
      (set_tracking (conntrack e) l e, r)
  | AExceeds p q => (e, ExceedsLimit (ratelimit e) p q)
  | ANewConnRate v pi => (e, NewConnectionRate (now_conns v) (pi_SrcIP pi) (conntrack e))
  | ARecentPorts pi => (e, GetRecentDestPorts (pi_SrcIP pi) (conntrack e))
  | AContains pi => (e, Contains (pi_SrcIP pi) (threatIntel e))
  | AGeo => (e, geoipReader e)
  | AEvaluate input => (e, match eval e with None => None | Some ev => Some (Evaluate ev input) end)
  | AModes => (e, (failClosed e, auditOnly e))
  | ARecordBlock v pi reason tid => ((recordBlock v pi reason tid e).1, tt)
  | ALogAudit v ty tid pi reason => ((logAudit v ty tid pi reason e).1, tt)
  | AFireAlert v ty msg => ((fireAlert v ty msg e).1, tt)
  | ACapture raw => (e, match pcapWriter e with None => None | Some write => Some (write raw) end)
  end.

(** A task run to its end without interruption. *)
Fixpoint run {A} (t : task A) (e : Engine E) {struct t} : Engine E * (A + string) :=
  match t with
  | Done a => (e, inl a)
  | Panicked m => (e, inr m)
  | Act c k => let '(e', x) := exec c e in run (k x) e'
  end.

(** ** The engine among its goroutines *)

(** The engine and the callback in progress, if any. *)
Record Machine : Type := mkMachine { m_engine : Engine E; m_task : option (task (list (Z * verdict) * Z)) }.

Definition idle (e : Engine E) : Machine := mkMachine e None.

(** The two halves of a tick of maintenance. *)
Definition expire_engine (fo : range_order flowKey Flow) (now : Time) (e : Engine E) : Engine E :=
  set_tracking (Expire fo now (conntrack e)).2 (ratelimit e) e.

Definition cleanup_engine (bo : range_order string rateBucket) (now : Time) (e : Engine E) : Engine E :=
  set_tracking (conntrack e) (Cleanup bo now (5 * Minute) (ratelimit e)).2 e.

(** What other goroutines do to the engine: the two halves of maintenance, and the restore. *)
Inductive other_step (e : Engine E) : Engine E -> Prop :=
| other_expire fo now : other_step e (expire_engine fo now e)
| other_cleanup bo now : other_step e (cleanup_engine bo now e)
| other_restore ro path loaded : other_step e (restoreState ro path loaded e).

Inductive engine_step (NewPacket : list byte -> LayerType -> option DecodedPacket) : Machine -> Machine -> Prop :=
| step_packet e v send attr :
    (forall raw, Payload attr = Some raw -> zlen raw < 2 ^ 63) ->
    engine_step NewPacket (mkMachine e None) (mkMachine e (Some (callback_task NewPacket v send attr)))
| step_action e X (c : action X) k :
    engine_step NewPacket (mkMachine e (Some (Act c k))) (mkMachine (exec c e).1 (Some (k (exec c e).2)))
| step_return e r : engine_step NewPacket (mkMachine e (Some (Done r))) (mkMachine e None)
| step_other e e' t : other_step e e' -> engine_step NewPacket (mkMachine e t) (mkMachine e' t).
End exec.
Arguments Machine E : clear implicits.

(** ** Uninterrupted, a task is the function *)
Section run.
Context {E : Type} `{Evaluator E}.
Implicit Types (e : Engine E).

Lemma run_tbind {A B} (t : task A) (k : A -> task B) e : run (tbind t k) e = bind (run t) (fun a => run (k a)) e.
Proof.
  unfold bind. revert e. induction t as [a|m|X c h IH]; intros e; [done.. |]. simpl.
  destruct (exec c e) as [e' x]. apply IH.
Qed.

Lemma run_trecover {A} (t : task A) h e : run (trecover t h) e = recovering (run t) (fun m => run (h m)) e.
Proof.
  unfold recovering. revert e. induction t as [a|m|X c k IH]; intros e; [done.. |]. simpl.
  destruct (exec c e) as [e' x]. apply IH.
Qed.

Lemma wrap64_add a b c : wrap64 (wrap64 (a + b) + c) = wrap64 (a + (b + c)).
Proof. apply wrap64_cong. rewrite <-Zplus_mod_idemp_l, wrap64_mod, Zplus_mod_idemp_l. f_equal. lia. Qed.

Lemma count_count a b c a' b' c' e : count a' b' c' (count a b c e) = count (a + a') (b + b') (c + c') e.
Proof. unfold count. cbn. by rewrite !wrap64_add. Qed.

Lemma run_decide v pi tid input e : run (decide_task v pi tid input) e = decide_policy v pi tid input e.
Proof.
  unfold decide_task, decide_policy. cbn [run exec]. unfold bind at 1, get. cbv beta iota.
  destruct (eval e) as [ev|]; [destruct (Evaluate ev input) as [[[] r]| | |]|]; [| |done..| |].
  - done.
  - cbn [Allowed negb andb snd fst]. by destruct (auditOnly e).
  - done.
  - cbn [fst]. by destruct (failClosed e).
Qed.

Lemma run_rates v pi size tid flow e :
  run (rates_task v pi size tid flow) e =
  bind (trackRates v pi size) (fun rates => bind get (fun e =>
    let '(pps, bps) := rates.1 in
    if ExceedsLimit (ratelimit e) pps bps then
      let reason := rate_reason pps bps in
      bind (blockPacket v pi tid reason) (fun _ => ret (mkResult false reason))
    else
      let input := policyInput v pi flow rates (conntrack e) in
      if Contains (pi_SrcIP pi) (threatIntel e) then
        let reason := "source IP in threat intelligence blocklist"%string in
        bind (blockPacket v pi tid reason) (fun _ => ret (mkResult false reason))
      else bind (lift (geoInput (geoipReader e) pi input)) (decide_policy v pi tid))) e.
Proof.
  unfold rates_task, trackRates, ratesOf. cbn [run exec]. unfold bind at 1, get.
  destruct (Allow _ _ _ _ _) as [[p q] l1]. cbn [run exec set_tracking ratelimit].
  destruct (AllowPort _ _ _ _ _ _) as [[p' q'] l2]. unfold bind at 1. cbn [run exec fst snd set_tracking ratelimit].
  destruct (ExceedsLimit _ _ _); [done |]. cbn [run exec]. destruct (Contains _ _); [done |]. cbn [run exec].
  unfold bind, policyInput. cbn [set_tracking conntrack].
  destruct (geoInput _ _ _) as [i|m|m]; [|done..]. apply run_decide.
Qed.

Lemma run_evaluate v pi size e : run (evaluate_task v pi size) e = evaluate_body v pi size e.
Proof.
  unfold evaluate_task, evaluate_body, newTraceID. cbn [run exec]. unfold bind at 1, modify at 1. cbv beta iota.
  destruct (env_rand v) as [b|err]; [|done]. unfold bind at 1, ret at 1. cbv beta iota. cbn [run exec].
  unfold bind at 1, trackFlow. destruct (flowOf v pi _) as [[flow|] ct]; [|done]. cbn [run exec].
  unfold bind at 1, modify at 1. cbv beta iota. unfold bind at 1, get at 1. cbv beta iota.
  destruct (MACAllowed _ _) as [[] why]; cbn [fst snd negb]; [|done]. apply run_rates.
Qed.

Lemma recovering_ext {A} (m m' : M E A) h h' :
  (forall e, m e = m' e) -> (forall s e, h s e = h' s e) -> forall e, recovering m h e = recovering m' h' e.
Proof. intros Hm Hh e. unfold recovering. rewrite Hm. by destruct (m' e) as [e' []]. Qed.

Lemma run_evaluatePacket v pi size e : run (evaluatePacket_task v pi size) e = evaluatePacket v pi size e.
Proof.
  unfold evaluatePacket_task, evaluatePacket. rewrite run_trecover. apply recovering_ext; [apply run_evaluate |].
  intros s e'. cbn [run exec]. by rewrite count_count.
Qed.

Lemma run_packet NewPacket v attr e : run (packet_task NewPacket v attr) e = packetHandler NewPacket v attr e.
Proof.
  unfold packet_task, packetHandler. rewrite run_trecover. apply recovering_ext.
  - clear e. intros e. unfold handler_task, handler_body. destruct (Payload attr) as [raw|];
      [|cbn [run exec]; by rewrite count_count].
    destruct (ParsePacket NewPacket raw); [|cbn [run exec]; by rewrite count_count | done].
    rewrite run_tbind. unfold bind at 1. rewrite run_evaluatePacket. unfold bind at 1.
    destruct (evaluatePacket _ _ _ e) as [e' [[[] r]|m]]; [done | | done].
    cbn [Allowed run exec]. unfold bind, get. destruct (pcapWriter e') as [w|]; [|done].
    by destruct (w raw).
  - intros s e'. cbn [run exec]. by rewrite count_count.
Qed.
End run.

(** A callback that nothing interrupts does what [handleQueuePacket] does. *)
Theorem callback_uninterrupted {E} `{Evaluator E} NewPacket v send attr (e : Engine E) :
  run (callback_task NewPacket v send attr) e =
  (let '(e', out, r) := handleQueuePacket NewPacket v send attr e in
   (e', match r with inl n => inl (out, n) | inr m => inr m end)).
Proof.
  unfold callback_task, handleQueuePacket. destruct (PacketID attr) as [id|]; [|done].
  rewrite run_tbind. unfold bind. rewrite run_packet. by destruct (packetHandler NewPacket v attr e) as [e' [d|m]].
Qed.
