(* ===== verification/EngineFacts.v ===== *)
(** * Theorems on package [engine]

    Which packets are accepted, that everything else is dropped, and the counters and
    logs of the pipeline, for a packet whose handling is not interrupted. *)
From Stdlib Require Import ZArith Lia ZifyBool Strings.Byte.
From stdpp Require Import base gmap sets list strings pretty relations.
From S2P Require Import Prelude GoTime GoFloat GoNet Packet PacketFacts Conntrack ConntrackFacts RateLimit RateLimitFacts L2Filter ThreatIntel Alert Opa Engine.

Local Open Scope Z_scope.

Section engine_facts.
Context {E : Type} `{Evaluator E}.
Implicit Types (e : Engine E) (v : Env) (pi : PacketInfo).

(** ** What does not change *)
Definition same_config e e' : Prop :=
  eval e' = eval e /\ auditOnly e' = auditOnly e /\ failClosed e' = failClosed e /\
  geoipReader e' = geoipReader e /\ threatIntel e' = threatIntel e /\
  pcapWriter e' = pcapWriter e /\ l2Filter e' = l2Filter e.

(** [m] neither panics nor changes the configuration or the tracking tables. *)
Definition quiet (m : M E unit) : Prop :=
  forall e, exists e', m e = (e', inl tt) /\ same_config e e' /\
    conntrack e' = conntrack e /\ ratelimit e' = ratelimit e.

Lemma quiet_bind {B} m (k : M E B) e :
  quiet m -> exists e', bind m (fun _ => k) e = k e' /\ same_config e e' /\
    conntrack e' = conntrack e /\ ratelimit e' = ratelimit e.
Proof. intros Hm. destruct (Hm e) as (e' & He & Hs). exists e'. unfold bind. by rewrite He. Qed.

Lemma quiet_count dp da db : quiet (modify (count dp da db)).
Proof. intros e. eexists. split; [done |]. done. Qed.

Lemma quiet_seq m1 m2 : quiet m1 -> quiet m2 -> quiet (bind m1 (fun _ => m2)).
Proof.
  intros H1 H2 e. destruct (quiet_bind m1 m2 e H1) as (e1 & -> & Hs1 & Hc1 & Hr1).
  destruct (H2 e1) as (e2 & -> & Hs2 & Hc2 & Hr2). exists e2. split; [done |].
  unfold same_config in *. split_and!; destruct_and!; congruence.
Qed.

Lemma quiet_recordBlock v pi reason tid : quiet (recordBlock v pi reason tid).
Proof. intros e. eexists. split; [done |]. done. Qed.

Lemma quiet_logAudit v ty tid pi reason : quiet (logAudit v ty tid pi reason).
Proof. intros e. eexists. split; [done |]. cbv beta. destruct (auditLog e); done. Qed.

Lemma quiet_fireAlert v ty msg : quiet (fireAlert v ty msg).
Proof.
  intros e. eexists. split; [done |]. cbv beta. destruct (alertRouter e) as [r|]; [|done].
  destruct (Send _ _ _) as [fired r']. done.
Qed.

Lemma quiet_blockPacket v pi tid reason : quiet (blockPacket v pi tid reason).
Proof.
  apply quiet_seq; [apply quiet_count | apply quiet_seq; [apply quiet_recordBlock | apply quiet_logAudit]].
Qed.

(** A quiet computation followed by a constant result. *)
Lemma quiet_ret {A} m (a : A) e : quiet m -> (bind m (fun _ => ret a) e).2 = inl a.
Proof. intros Hm. by destruct (quiet_bind m (ret a) e Hm) as (e' & -> & _). Qed.

Lemma quiet_ret2 {A} m1 m2 (a : A) e :
  quiet m1 -> quiet m2 -> (bind m1 (fun _ => bind m2 (fun _ => ret a)) e).2 = inl a.
Proof.
  intros H1 H2. destruct (quiet_bind m1 (bind m2 (fun _ => ret a)) e H1) as (e' & -> & _).
  by apply quiet_ret.
Qed.

(** ** The decision *)

(** The policy permits the input. *)
Definition policy_allows e (input : Input) : Prop :=
  match eval e with
  | None => failClosed e = false
  | Some ev => exists r, Evaluate ev input = OResult r /\ (Allowed r = true \/ auditOnly e = true)
  end.

(** The flow of the packet is within its limit, and [input] is the document built for it. *)
Definition presents v pi (size : Z) e (flow : Flow) (input : Input) : Prop :=
  (flowOf v pi (conntrack e)).1 = Some flow /\
  geoInput (geoipReader e) pi
    (policyInput v pi flow (ratesOf v pi size (ratelimit e)).1
       (trackPort pi (flowOf v pi (conntrack e)).2)) = Ok input.

(** The conditions under which a parsed packet is accepted. *)
Record accepted v pi (size : Z) e : Prop := {
  acc_trace : exists b, env_rand v = inl b;
  acc_mac : (MACAllowed (l2Filter e) (pi_SrcMAC pi)).1 = true;
  acc_rate : let '(rates, l) := ratesOf v pi size (ratelimit e) in
             ExceedsLimit l rates.1.1 rates.1.2 = false;
  acc_intel : Contains (pi_SrcIP pi) (threatIntel e) = false;
  acc_policy : exists flow input,
    (flowOf v pi (conntrack e)).1 = Some flow /\
    geoInput (geoipReader e) pi
      (policyInput v pi flow (ratesOf v pi size (ratelimit e)).1
         (trackPort pi (flowOf v pi (conntrack e)).2)) = Ok input /\
    policy_allows e input;
}.

Lemma decide_policy_result v pi tid input e :
  match (decide_policy v pi tid input e).2 with
  | inl r => Allowed r = true <-> policy_allows e input
  | inr _ => ~ policy_allows e input
  end.
Proof.
  unfold decide_policy, policy_allows. unfold bind at 1, get at 1.
  destruct (eval e) as [ev|].
  - destruct (Evaluate ev input) as [r| |err|m] eqn:Hev.
    + destruct r as [[] reason]; cbn [Allowed negb andb].
      * rewrite quiet_ret2 by (apply quiet_count || apply quiet_logAudit). simpl. naive_solver.
      * destruct (auditOnly e).
        -- rewrite quiet_ret2 by (apply quiet_count || apply quiet_logAudit). simpl. naive_solver.
        -- rewrite quiet_ret by apply quiet_blockPacket. simpl. naive_solver.
    + simpl. naive_solver.
    + rewrite quiet_ret2 by (apply quiet_blockPacket || apply quiet_fireAlert). simpl. naive_solver.
    + simpl. naive_solver.
  - destruct (failClosed e).
    + rewrite quiet_ret by apply quiet_blockPacket. simpl. naive_solver.
    + rewrite quiet_ret2 by (apply quiet_count || apply quiet_logAudit). simpl. naive_solver.
Qed.

Lemma geoInput_no_err db pi input err : geoInput db pi input <> Err err.
Proof.
  unfold geoInput. destruct db as [db|]; [|done].
  assert (forall s, LookupCountry db s <> Err err) as Hl.
  { intros s. unfold LookupCountry. destruct (ParseIP s); [|done]. by destruct (db _) as [[]| |]. }
  specialize (Hl (pi_SrcIP pi)) as H1. specialize (Hl (pi_DstIP pi)) as H2.
  destruct (LookupCountry db (pi_SrcIP pi)); simpl; [|congruence | done].
  destruct (LookupCountry db (pi_DstIP pi)); simpl; [done | congruence | done].
Qed.

(** The body of the pipeline permits exactly the accepted packets. *)
Lemma evaluate_body_result v pi size e :
  match (evaluate_body v pi size e).2 with
  | inl r => Allowed r = true <-> accepted v pi size e
  | inr _ => ~ accepted v pi size e
  end.
Proof.
  unfold evaluate_body. unfold bind at 1, modify at 1.
  unfold bind at 1, newTraceID. destruct (env_rand v) as [b|err] eqn:Hrand.
  2:{ simpl. intros [[b Hb] _ _ _ _]. congruence. }
  unfold ret at 1, bind at 1, trackFlow. cbn [count conntrack ratelimit].
  destruct (flowOf v pi (conntrack e)) as [[flow|] ct] eqn:Hflow.
  2:{ rewrite quiet_ret2 by (apply quiet_blockPacket || apply quiet_fireAlert). cbn [Allowed].
      split; [done |]. intros [_ _ _ _ (f & i & Hf & _)]. rewrite Hflow in Hf. done. }
  unfold bind at 1, modify at 1. unfold bind at 1, get at 1.
  cbn [set_tracking l2Filter count conntrack ratelimit].
  destruct (MACAllowed (l2Filter e) (pi_SrcMAC pi)) as [[] why] eqn:Hmac; cbn [negb].
  2:{ rewrite quiet_ret by apply quiet_blockPacket. cbn [Allowed]. split; [done |].
      intros [_ Hm _ _ _]. rewrite Hmac in Hm. done. }
  unfold bind at 1, trackRates. cbn [set_tracking ratelimit conntrack count].
  destruct (ratesOf v pi size (ratelimit e)) as [rates l] eqn:Hrates.
  unfold bind at 1, get at 1. destruct rates as [[pps bps] prates].
  cbn [set_tracking ratelimit conntrack count fst threatIntel geoipReader].
  destruct (ExceedsLimit l pps bps) eqn:Hex.
  { rewrite quiet_ret by apply quiet_blockPacket. cbn [Allowed]. split; [done |].
    intros [_ _ Hr _ _]. rewrite Hrates in Hr. simpl in Hr. congruence. }
  destruct (Contains (pi_SrcIP pi) (threatIntel e)) eqn:Hti.
  { rewrite quiet_ret by apply quiet_blockPacket. cbn [Allowed]. split; [done |].
    intros [_ _ _ Hc _]. congruence. }
  unfold bind at 1.
  destruct (geoInput (geoipReader e) pi (policyInput v pi flow (pps, bps, prates) (trackPort pi ct)))
    as [input|err|m] eqn:Hgeo; cbn [lift ret panic].
  - match goal with |- context [decide_policy v pi ?tid input ?e'] =>
      pose proof (decide_policy_result v pi tid input e') as Hd end.
    match goal with Hd : context [policy_allows ?e' input] |- _ =>
      change (policy_allows e' input) with (policy_allows e input) in Hd end.
    assert (accepted v pi size e <-> policy_allows e input) as Hiff.
    { split.
      - intros [_ _ _ _ (f & i & Hf & Hg & Hp)]. rewrite Hflow, Hrates in *. simpl in *. simplify_eq.
        rewrite Hgeo in Hg. by simplify_eq.
      - intros Hp. split; [by exists b | by rewrite Hmac | by rewrite Hrates | done |].
        exists flow, input. rewrite Hflow, Hrates. done. }
    destruct (decide_policy _ _ _ _ _) as [e' [r|m]]; cbn [snd] in *; by rewrite Hiff.
  - by destruct (geoInput_no_err _ _ _ _ Hgeo).
  - cbn [snd]. intros [_ _ _ _ (f & i & Hf & Hg & _)]. rewrite Hflow, Hrates in *. simpl in *.
    simplify_eq. rewrite Hgeo in Hg. done.
Qed.

Lemma evaluatePacket_result v pi size e :
  exists r, (evaluatePacket v pi size e).2 = inl r /\ (Allowed r = true <-> accepted v pi size e).
Proof.
  unfold evaluatePacket, recovering. pose proof (evaluate_body_result v pi size e) as Hb.
  destruct (evaluate_body v pi size e) as [e' [r|m]]; cbn [snd] in *.
  - by exists r.
  - eexists. split; [done |]. simpl. by split.
Qed.

Section callback.
Context (NewPacket : list byte -> LayerType -> option DecodedPacket).

(** The packet carries a payload that parses and passes every check. *)
Definition admitted v (attr : Attribute) e : Prop :=
  exists raw pi, Payload attr = Some raw /\ ParsePacket NewPacket raw = Ok pi /\
                 accepted v pi (zlen raw) e.

Lemma packetHandler_result v attr e :
  ((packetHandler NewPacket v attr e).2 = inl 0 /\ admitted v attr e) \/
  ((packetHandler NewPacket v attr e).2 = inl 1 /\ ~ admitted v attr e).
Proof.
  unfold packetHandler, recovering, handler_body, admitted.
  destruct (Payload attr) as [raw|]; [|right; split; [done | by intros (? & ? & ? & _)]].
  destruct (ParsePacket NewPacket raw) as [pi|err|m] eqn:Hp; [|right; split; [done | intros (? & ? & ? & ? & _); congruence]..].
  destruct (evaluatePacket_result v pi (zlen raw) e) as (r & Hr & Hiff).
  destruct (evaluatePacket v pi (zlen raw) e) as [e' s] eqn:Hev. cbn [snd] in Hr. subst s.
  unfold bind. rewrite Hev. destruct (Allowed r).
  - left. split; [done |]. exists raw, pi. by rewrite <-Hiff.
  - right. split; [|intros (raw' & pi' & Hraw & Hpi & Ha); simplify_eq;
           rewrite Hp in Hpi; simplify_eq; by apply Hiff in Ha].
    unfold get. cbv beta iota. destruct (pcapWriter e') as [write|]; [|done]. by destruct (write raw).
Qed.
End callback.
End engine_facts.

(** ** Which packets the kernel is told to accept *)

(** C1: [packetHandler] never panics and returns the accept decision exactly for the
    packets that carry a payload which parses, whose flow is within its source limit, whose
    MAC address passes the filter, whose source is within its rate limits and not on the
    blocklist, for which random bytes for a trace identifier could be read, and which the
    policy permits (or audit-only mode lets through, or no evaluator is configured and
    fail-closed is off); every other packet is blocked. *)
Theorem accept_exactly {E} `{Evaluator E} NewPacket v attr (e : Engine E) :
  ((packetHandler NewPacket v attr e).2 = inl 0 <-> admitted NewPacket v attr e) /\
  ((packetHandler NewPacket v attr e).2 = inl 1 <-> ~ admitted NewPacket v attr e).
Proof.
  destruct (packetHandler_result NewPacket v attr e) as [[-> Ha]|[-> Ha]]; split; split; try done.
Qed.

(** C4: For a packet with an identifier exactly one verdict is sent, for that
    packet, and it is accept only for the packets of [accept_exactly]; the receive loop is
    stopped only when the verdict could not be delivered, or when a packet has no
    identifier, in which case nothing is sent. *)
Theorem one_verdict_per_packet {E} `{Evaluator E} NewPacket v send attr (e : Engine E) :
  match handleQueuePacket NewPacket v send attr e with
  | (e', sent, r) =>
      match PacketID attr with
      | None => sent = [] /\ r = inl 1 /\ e' = e
      | Some id => exists d, sent = [(id, d)] /\ (d = NfAccept <-> admitted NewPacket v attr e) /\
          r = inl (if bool_decide (send id d = None) then 0 else 1)
      end
  end.
Proof.
  unfold handleQueuePacket. destruct (PacketID attr) as [id|]; [|done].
  pose proof (packetHandler_result NewPacket v attr e) as Hr.
  destruct (packetHandler NewPacket v attr e) as [e' [n|m]]; cbn [snd] in Hr;
    [|by destruct Hr as [[? _]|[? _]]].
  exists (if n =? 0 then NfAccept else NfDrop). split; [done |]. split.
  - destruct Hr as [[[= ->] Ha]|[[= ->] Ha]]; simpl; by split.
  - by destruct (send id _).
Qed.

(** C5: A packet is dropped, whatever the fail mode and also in audit-only mode, when it has no payload
    or does not parse, when its source is on the blocklist, and when the evaluator returns an error,
    returns no result or panics on the document built for this packet (also when it decides every other
    packet). *)
Theorem undecided_is_dropped {E} `{Evaluator E} NewPacket v attr (e : Engine E) :
  (forall raw pi, Payload attr = Some raw -> ParsePacket NewPacket raw = Ok pi ->
     Contains (pi_SrcIP pi) (threatIntel e) = true \/
     exists ev, eval e = Some ev /\
       forall flow input r, presents v pi (zlen raw) e flow input -> Evaluate ev input <> OResult r) ->
  (packetHandler NewPacket v attr e).2 = inl 1.
Proof.
  intros Hu. destruct (packetHandler_result NewPacket v attr e) as [[_ Ha]|[? _]]; [exfalso | done].
  destruct Ha as (raw & pi & Hraw & Hp & [_ _ _ Hti (f & i & Hf & Hg & Hpol)]).
  destruct (Hu raw pi Hraw Hp) as [Hc|(ev & Hev & Hno)]; [congruence |].
  unfold policy_allows in Hpol. rewrite Hev in Hpol. destruct Hpol as (r & Hr & _).
  by apply (Hno f i r (conj Hf Hg)) in Hr.
Qed.

Definition sample_env : Env :=
  mkEnv (frozenClock 1000) (map_order _ _) (map_order _ _) (map_order _ _) (inl [1; 2; 3; 4]).

Definition sample_engine : Engine unit :=
  New (Some tt) (NewTable DefaultConfig) (NewLimiter f0 f0) false true false None None None None None.

(** A 28-byte IPv4/UDP packet from 10.0.0.1 to port [port] of 10.0.0.2. *)
Definition udp_packet (port : byte) : list byte :=
  [x45; x00; x00; x1c; x00; x00; x00; x00; x40; x11; x00; x00; x0a; x00; x00; x01;
   x0a; x00; x00; x02; x00; x35; x00; port; x00; x08; x00; x00].

Definition sample_packet : list byte := udp_packet x35.

(** An evaluator that fails on the packets to one port and allows the others, and an engine
    around it that is neither fail-closed nor enforcing. *)
#[local] Instance picky_evaluator : Evaluator Z := fun port i =>
  if o_DstPort (i_Packet i) =? port then OError "rego_type_error" else OResult (mkResult true "").

Definition picky_engine : Engine Z :=
  New (Some 53) (NewTable DefaultConfig) (NewLimiter f0 f0) false true false None None None None None.

Lemma undecided_is_dropped_witness :
  (packetHandler reference_decoder sample_env (mkAttribute (Some 7) (Some sample_packet)) picky_engine).2 = inl 1 /\
  (packetHandler reference_decoder sample_env (mkAttribute (Some 7) (Some (udp_packet x36))) picky_engine).2 = inl 0.
Proof.
  split; [|vm_compute; reflexivity].
  apply undecided_is_dropped. intros raw pi [= <-] Hp. right. exists 53. split; [reflexivity |].
  intros flow input r [_ Hg]. injection Hg as <-. unfold policyInput.
  destruct (ratesOf _ _ _ _).1 as [[p q] [p' q']]. vm_compute in Hp. injection Hp as <-. discriminate.
Defined.
