(* ===== verification/EngineInv.v ===== *)
(** * The engine keeps its components well formed

    The invariants of the flow table, the limiter, the block log and the block counters
    hold after every critical section of every interleaving of packets with maintenance
    and restores; the counters balance; the audit log has one event per decision. *)
From Stdlib Require Import ZArith Lia ZifyBool Strings.Byte.
From stdpp Require Import base gmap sets list strings pretty relations.
From S2P Require Import Prelude GoTime GoFloat GoNet Packet PacketFacts Conntrack ConntrackFacts ConntrackSpec RateLimit RateLimitFacts L2Filter ThreatIntel Alert Opa Engine PacketSteps EngineFacts.

Local Open Scope Z_scope.

Section engine_inv.
Context {E : Type} `{Evaluator E}.
Implicit Types (e : Engine E) (v : Env) (pi : PacketInfo).

Definition reason_ok (s : string) : Prop := (String.length s <= maxReasonLength)%nat.

Record engine_inv e : Prop := {
  einv_table : table_inv (conntrack e);
  einv_limiter : limiter_inv (ratelimit e);
  einv_recent : Z.of_nat (length (recentBlocks e)) <= maxRecentBlocks;
  einv_stats : Z.of_nat (size (blockStats e)) <= maxBlockStatsReasons;
  einv_reasons : Forall (fun b => reason_ok (b_Reason b)) (recentBlocks e);
}.

Definition keeps {A} (m : M E A) : Prop := forall e, engine_inv e -> engine_inv (m e).1.

Lemma keeps_count dp da db : keeps (modify (count dp da db)).
Proof. intros e []. by split. Qed.

Lemma substring_length n s : (String.length (String.substring 0 n s) <= n)%nat.
Proof.
  revert s. induction n as [|n IH]; intros [|c s]; simpl; try lia. specialize (IH s). lia.
Qed.

Lemma truncate_ok s : reason_ok (truncate s).
Proof.
  unfold truncate, reason_ok. destruct (Nat.ltb_spec maxReasonLength (String.length s)); [|lia].
  apply substring_length.
Qed.

Lemma keeps_recordBlock v pi reason tid : keeps (recordBlock v pi reason tid).
Proof.
  intros e [H1 H3 H4 H5 H6]. split; simpl; try done.
  - rewrite length_app. cbn [length].
    destruct (Z.leb_spec maxRecentBlocks (Z.of_nat (length (recentBlocks e))));
      rewrite ?length_drop; unfold maxRecentBlocks in *; lia.
  - destruct (Z.ltb_spec (Z.of_nat (size (blockStats e))) maxBlockStatsReasons); [|done].
    destruct (blockStats e !! truncate reason) eqn:Hs.
    + rewrite map_size_insert_Some by eauto. done.
    + rewrite map_size_insert_None by done. lia.
  - apply Forall_app. split; [case_bool; [by apply Forall_drop | done] |].
    constructor; [apply truncate_ok | constructor].
Qed.

Lemma keeps_logAudit v ty tid pi reason : keeps (logAudit v ty tid pi reason).
Proof.
  intros e He. unfold logAudit, modify. simpl. destruct (auditLog e); [|done].
  destruct He. by split.
Qed.

Lemma keeps_fireAlert v ty msg : keeps (fireAlert v ty msg).
Proof.
  intros e He. unfold fireAlert, modify. cbn [fst]. destruct (alertRouter e) as [r|]; [|done].
  destruct (Send _ _ _) as [fired r']. destruct He. by split.
Qed.

(** ** Actions *)
Lemma flowOf_inv v pi ct : table_inv ct -> table_inv (flowOf v pi ct).2.
Proof.
  intros Hi. unfold flowOf. destruct (String.eqb (pi_Protocol pi) "TCP");
    [by apply UpdateTCPState_inv | by apply LookupOrCreate_inv].
Qed.

Lemma trackPort_inv pi ct : table_inv ct -> table_inv (trackPort pi ct).
Proof. intros Hi. unfold trackPort. case_bool; [by apply RecordDestPort_inv | done]. Qed.

Lemma keeps_tracking ct l e :
  engine_inv e -> table_inv ct -> limiter_inv l -> engine_inv (set_tracking ct l e).
Proof. intros []. by split. Qed.

(** The size an action hands to the limiter is an [int] that is not negative. *)
Definition action_ok {X} (c : action X) : Prop :=
  match c with AAllow _ _ size | AAllowPort _ _ size => 0 <= size < 2 ^ 63 | _ => True end.

Lemma exec_inv {X} (c : action X) e : action_ok c -> engine_inv e -> engine_inv (exec c e).1.
Proof.
  intros Hc He. pose proof (einv_table e He) as Ht. pose proof (einv_limiter e He) as Hl.
  destruct c; cbn [exec action_ok] in *; try exact He.
  - by apply (keeps_count dp da db).
  - pose proof (flowOf_inv v pi _ Ht) as Hf. destruct (flowOf v pi _) as [flow ct]. by apply keeps_tracking.
  - apply keeps_tracking; [done | by apply trackPort_inv | done].
  - pose proof (allowKey_inv (env_bucket_order v) (now_rate v) (ipKey (pi_SrcIP pi)) size _ Hl Hc) as [Hl' _].
    unfold Allow. destruct (allowKey _ _ _ _ _) as [r l]. by apply keeps_tracking.
  - pose proof (allowKey_inv (env_port_order v) (now_port v) (portKey (pi_SrcIP pi) (pi_DstPort pi)) size _ Hl Hc)
      as [Hl' _].
    unfold AllowPort. destruct (allowKey _ _ _ _ _) as [r l]. by apply keeps_tracking.
  - by apply keeps_recordBlock.
  - by apply keeps_logAudit.
  - by apply keeps_fireAlert.
Qed.

(** No action changes the configuration. *)
Lemma exec_config {X} (c : action X) e : same_config e (exec c e).1.
Proof.
  destruct c; cbn [exec]; try done.
  - by destruct (flowOf v pi _).
  - by destruct (Allow _ _ _ _ _).
  - by destruct (AllowPort _ _ _ _ _ _).
  - destruct (quiet_logAudit v ty tid pi reason e) as (e' & -> & Hs & _). exact Hs.
  - destruct (quiet_fireAlert v ty msg e) as (e' & -> & Hs & _). exact Hs.
Qed.

(** ** Tasks *)
Fixpoint task_ok {A} (t : task A) {struct t} : Prop :=
  match t with
  | Done _ | Panicked _ => True
  | Act c k => action_ok c /\ forall x, task_ok (k x)
  end.

Lemma task_ok_bind {A B} (t : task A) (k : A -> task B) :
  task_ok t -> (forall a, task_ok (k a)) -> task_ok (tbind t k).
Proof.
  intros Ht Hk. induction t as [a|m|X c h IH]; simpl in *; [done.. |]. destruct Ht as [Hc Hh].
  split; [done |]. intros x. by apply IH.
Qed.

Lemma task_ok_recover {A} (t : task A) h : task_ok t -> (forall m, task_ok (h m)) -> task_ok (trecover t h).
Proof.
  intros Ht Hh. induction t as [a|m|X c k IH]; simpl in *; [done.. |]. destruct Ht as [Hc Hk].
  split; [done |]. intros x. by apply IH.
Qed.

Ltac solve_task := repeat first [ done | progress intros | split; [done |] | case_match ].

Lemma evaluate_task_ok v pi size : 0 <= size < 2 ^ 63 -> task_ok (evaluatePacket_task v pi size).
Proof.
  intros Hs. apply task_ok_recover; [|by solve_task].
  unfold evaluate_task, rates_task, decide_task, block_task. solve_task.
Qed.

Lemma callback_task_ok NewPacket v send attr :
  (forall raw, Payload attr = Some raw -> zlen raw < 2 ^ 63) -> task_ok (callback_task NewPacket v send attr).
Proof.
  intros Hraw. unfold callback_task. case_match; [|done]. apply task_ok_bind; [|by intros d].
  apply task_ok_recover; [|by solve_task]. unfold handler_task. destruct (Payload attr) as [raw|] eqn:Hp; [|by solve_task].
  case_match; [|by solve_task..]. apply task_ok_bind; [|by solve_task].
  apply evaluate_task_ok. split; [unfold zlen; lia | by apply Hraw].
Qed.
End engine_inv.

(** ** Reachable engines *)
Section reachable.
Context {E : Type} `{Evaluator E}.
Context (NewPacket : list byte -> LayerType -> option DecodedPacket).
Implicit Types (e : Engine E) (m : Machine E).

Lemma restore_loop_size loaded keys stats :
  Z.of_nat (size stats) <= maxBlockStatsReasons ->
  Z.of_nat (size (restore_loop loaded keys stats)) <= maxBlockStatsReasons.
Proof.
  revert stats. induction keys as [|k keys IH]; intros stats Hs; [done |]. simpl.
  destruct (loaded !! k) as [n|]; [|by apply IH]. apply IH.
  destruct (Z.ltb_spec (Z.of_nat (size stats)) maxBlockStatsReasons); [|done].
  destruct (stats !! k) eqn:Hk.
  - by rewrite map_size_insert_Some by eauto.
  - rewrite map_size_insert_None by done. lia.
Qed.

Lemma expire_inv fo now e : engine_inv e -> engine_inv (expire_engine fo now e).
Proof. intros He. pose proof (einv_table e He). pose proof (einv_limiter e He). apply keeps_tracking; [done | by apply Expire_inv | done]. Qed.

Lemma cleanup_inv bo now e : engine_inv e -> engine_inv (cleanup_engine bo now e).
Proof. intros He. pose proof (einv_table e He). pose proof (einv_limiter e He). apply keeps_tracking; [done | done | by apply Cleanup_inv]. Qed.

Lemma restore_inv ro path loaded e : engine_inv e -> engine_inv (restoreState ro path loaded e).
Proof.
  intros He. unfold restoreState. case_bool; [done |]. destruct loaded as [[m|]|]; [|done..].
  case_bool; [done |]. destruct He. split; try done. by apply restore_loop_size.
Qed.

Lemma other_inv e e' : other_step e e' -> engine_inv e -> engine_inv e'.
Proof. intros [fo now|bo now|ro path loaded]; [apply expire_inv | apply cleanup_inv | apply restore_inv]. Qed.

Lemma other_config e e' : other_step e e' -> same_config e e'.
Proof.
  intros [fo now|bo now|ro path loaded]; [done.. |]. unfold restoreState. case_bool; [done |].
  destruct loaded as [[l|]|]; try done. by case_bool.
Qed.

(** The engine is well formed, and so is what is left of the callback in progress. *)
Definition machine_inv m : Prop :=
  engine_inv (m_engine m) /\ match m_task m with Some t => task_ok t | None => True end.

Lemma engine_step_inv m m' : engine_step NewPacket m m' -> machine_inv m -> machine_inv m'.
Proof.
  intros [e v send attr Hraw|e X c k|e r|e e' t Ho] [He Ht];
    unfold machine_inv in *; cbn [m_engine m_task] in *.
  - split; [done | by apply callback_task_ok].
  - destruct Ht as [Hc Hk]. split; [by apply exec_inv | apply Hk].
  - done.
  - split; [by eapply other_inv | done].
Qed.

Lemma engine_step_config m m' : engine_step NewPacket m m' -> same_config (m_engine m) (m_engine m').
Proof.
  intros [e v send attr Hraw|e X c k|e r|e e' t Ho]; cbn [m_engine]; [done | apply exec_config | done |].
  by apply other_config.
Qed.

Lemma machine_run_inv m m' : rtc (engine_step NewPacket) m m' -> machine_inv m -> machine_inv m'.
Proof. induction 1; eauto using engine_step_inv. Qed.

Lemma idle_inv e : engine_inv e -> machine_inv (idle e).
Proof. by split. Qed.

Lemma New_inv ev c p q fc ao al ar gr ti pw l2 :
  MaxEntries c < 2 ^ 63 ->
  engine_inv (New (E := E) ev (NewTable c) (NewLimiter p q) fc ao al ar gr ti pw l2).
Proof.
  intros Hc. split; cbn [New conntrack ratelimit recentBlocks blockStats]; try done.
  by apply NewTable_inv.
Qed.

Lemma engine_reachable_inv ev c p q fc ao al ar gr ti pw l2 m :
  MaxEntries c < 2 ^ 63 ->
  rtc (engine_step NewPacket) (idle (New ev (NewTable c) (NewLimiter p q) fc ao al ar gr ti pw l2)) m ->
  engine_inv (m_engine m).
Proof. intros Hc Hr. eapply machine_run_inv; [exact Hr |]. by apply idle_inv, New_inv. Qed.

(** *** Executions of the packet in progress *)

(** The machine after [n] actions of its callback. *)
Fixpoint advance (n : nat) m {struct n} : Machine E :=
  match n, m_task m with
  | S n', Some (Act c k) => let r := exec c (m_engine m) in advance n' (mkMachine r.1 (Some (k r.2)))
  | _, _ => m
  end.

Lemma advance_run n m : rtc (engine_step NewPacket) m (advance n m).
Proof.
  revert m. induction n as [|n IH]; intros [e [[a|s|X c k]|]]; simpl; try apply rtc_refl.
  eapply rtc_l; [apply step_action |]. apply IH.
Qed.

End reachable.

(** C12: Whatever packets arrive (malformed, hostile, panicking the evaluator) and
    however maintenance and restores run between the critical sections of their handling, the flow
    table and the limiter stay well formed, at most 100 recent blocks and 256 reasons are kept, and no
    logged reason is longer than 1024 bytes. *)
Theorem engine_components_wf {E} `{Evaluator E} NewPacket ev c p q fc ao al ar gr ti pw l2 (m : Machine E) :
  MaxEntries c < 2 ^ 63 ->
  rtc (engine_step NewPacket) (idle (New ev (NewTable c) (NewLimiter p q) fc ao al ar gr ti pw l2)) m ->
  engine_inv (m_engine m).
Proof. apply engine_reachable_inv. Qed.

#[local] Instance silent_evaluator : Evaluator unit := fun _ _ => ONil.

Definition sample_attribute : Attribute := mkAttribute (Some 1) (Some sample_packet).

Lemma sample_attribute_size raw : Payload sample_attribute = Some raw -> zlen raw < 2 ^ 63.
Proof. intros [= <-]. reflexivity. Qed.

(** The packet up to its flow lookup (two actions), then an expiry a minute later, then the
    rest of the packet. *)
Definition interrupted_packet : Machine unit :=
  let m := advance 2 (mkMachine sample_engine
             (Some (callback_task reference_decoder sample_env (fun _ _ => None) sample_attribute))) in
  advance 20 (mkMachine (expire_engine (map_order _ _) (mkTime (60 * Second) (Some (60 * Second))) (m_engine m)) (m_task m)).

Lemma interrupted_run : rtc (engine_step reference_decoder) (idle sample_engine) interrupted_packet.
Proof.
  eapply rtc_l; [apply (step_packet reference_decoder sample_engine sample_env (fun _ _ => None) _ sample_attribute_size) |].
  etransitivity; [apply (advance_run reference_decoder 2) |].
  unfold interrupted_packet. destruct (advance 2 _) as [e t].
  eapply rtc_l; [apply step_other, other_expire |]. apply (advance_run reference_decoder 20).
Qed.

(** The flow lookup and the recording of the port are two critical sections of the table;
    when an expiry runs between them, the source is left with a port history but no flow,
    which no later expiry removes. *)
Theorem history_outlives_flow :
  rtc (engine_step reference_decoder) (idle sample_engine) interrupted_packet /\
  let t := conntrack (m_engine interrupted_packet) in
  flows t = ∅ /\ srcPorts t !! "10.0.0.1"%string = Some [53] /\
  forall ro now, srcPorts (Expire ro now t).2 !! "10.0.0.1"%string = Some [53].
Proof.
  split; [exact interrupted_run |]. cbv zeta. set (t := conntrack _).
  assert (flows t = ∅) as Hfl by (vm_compute; reflexivity).
  assert (srcPorts t !! "10.0.0.1"%string = Some [53]) as Hps by (vm_compute; reflexivity).
  split; [done |]. split; [done |]. intros ro now. unfold Expire. cbn [snd with_stats srcPorts].
  assert (expired_keys ro now t = []) as ->; [|done].
  unfold expired_keys. rewrite Hfl.
  assert (range_keys ro ∅ = []) as ->; [|done].
  apply length_zero_iff_nil. by rewrite length_range_keys, map_size_empty.
Qed.

Lemma engine_components_wf_witness :
  packetsBlocked (m_engine interrupted_packet) = 1 /\ engine_inv (m_engine interrupted_packet).
Proof.
  split; [vm_compute; reflexivity |].
  apply (engine_components_wf reference_decoder (Some tt) DefaultConfig f0 f0 false true false
           None None None None None); [reflexivity | exact interrupted_run].
Defined.

(** ** Counters and audit events *)
Section effects.
Context {E : Type} `{Evaluator E}.
Implicit Types (e : Engine E) (v : Env) (pi : PacketInfo).

(** The counters advance by the given amounts, modulo 2^64, and events of the
    given types are handed to the audit logger. *)
Definition effect (dp da db : Z) (tys : list string) e e' : Prop :=
  wrap64 (packetsProcessed e') = wrap64 (packetsProcessed e + dp) /\
  wrap64 (packetsAllowed e') = wrap64 (packetsAllowed e + da) /\
  wrap64 (packetsBlocked e') = wrap64 (packetsBlocked e + db) /\
  (fmap a_Type <$> auditLog e') = ((fun l => l ++ tys) <$> (fmap a_Type <$> auditLog e)).

Lemma effect_refl e : effect 0 0 0 [] e e.
Proof.
  unfold effect. rewrite !Z.add_0_r. split_and!; try done.
  destruct (auditLog e); simpl; [by rewrite app_nil_r | done].
Qed.

Lemma effect_trans dp da db tys dp' da' db' tys' e1 e2 e3 :
  effect dp da db tys e1 e2 -> effect dp' da' db' tys' e2 e3 ->
  effect (dp + dp') (da + da') (db + db') (tys ++ tys') e1 e3.
Proof.
  intros (H1 & H2 & H3 & H4) (H5 & H6 & H7 & H8). unfold effect.
  rewrite H5, <-wrap64_add_l, H1, H6, <-(wrap64_add_l (packetsAllowed e2)), H2, H7,
    <-(wrap64_add_l (packetsBlocked e2)), H3, H8, H4, !wrap64_add_l, !Z.add_assoc.
  split_and!; try done. destruct (auditLog e1); simpl; [by rewrite app_assoc | done].
Qed.

Definition does (dp da db : Z) (tys : list string) (m : M E unit) : Prop :=
  forall e, exists e', m e = (e', inl tt) /\ effect dp da db tys e e' /\ same_config e e'.

Lemma does_bind {A} dp da db tys m (k : M E A) e :
  does dp da db tys m ->
  exists e', bind m (fun _ => k) e = k e' /\ effect dp da db tys e e' /\ same_config e e'.
Proof. intros Hm. destruct (Hm e) as (e' & He & Hf). exists e'. unfold bind. by rewrite He. Qed.

Lemma does_count dp da db : does dp da db [] (modify (count dp da db)).
Proof.
  intros e. eexists. split; [done |]. split; [|done]. unfold effect. cbn [count packetsProcessed packetsAllowed packetsBlocked auditLog].
  split_and!; try (by rewrite wrap64_small by apply wrap64_range).
  destruct (auditLog e); simpl; [by rewrite app_nil_r | done].
Qed.

Lemma does_recordBlock v pi reason tid : does 0 0 0 [] (recordBlock v pi reason tid).
Proof. intros e. eexists. split; [done |]. split; [|done]. apply (effect_refl e). Qed.

Lemma does_logAudit v ty tid pi reason : does 0 0 0 [ty] (logAudit v ty tid pi reason).
Proof.
  intros e. eexists. split; [done |]. cbv beta. destruct (auditLog e) as [l|] eqn:Hl.
  - split; [|done]. unfold effect. simpl. rewrite Hl, !Z.add_0_r. simpl. by rewrite fmap_app.
  - split; [|done]. unfold effect. rewrite Hl, !Z.add_0_r. done.
Qed.

Lemma does_fireAlert v ty msg : does 0 0 0 [] (fireAlert v ty msg).
Proof.
  intros e. eexists. split; [done |]. cbv beta. destruct (alertRouter e) as [r|].
  - destruct (Send _ _ _) as [fired r']. split; [|done]. apply (effect_refl e).
  - split; [|done]. apply (effect_refl e).
Qed.

Lemma same_config_trans e1 e2 e3 : same_config e1 e2 -> same_config e2 e3 -> same_config e1 e3.
Proof. unfold same_config. intros. destruct_and!. split_and!; congruence. Qed.

Lemma does_seq dp da db tys dp' da' db' tys' m1 m2 :
  does dp da db tys m1 -> does dp' da' db' tys' m2 ->
  does (dp + dp') (da + da') (db + db') (tys ++ tys') (bind m1 (fun _ => m2)).
Proof.
  intros H1 H2 e. destruct (does_bind _ _ _ _ m1 m2 e H1) as (e1 & -> & Hf & Hs).
  destruct (H2 e1) as (e2 & -> & Hf2 & Hs2). exists e2. split; [done |].
  split; [by eapply effect_trans | by eapply same_config_trans].
Qed.

Lemma does_blockPacket v pi tid reason : does 0 0 1 ["packet_block"%string] (blockPacket v pi tid reason).
Proof.
  apply (does_seq 0 0 1 [] 0 0 0 ["packet_block"%string]); [apply does_count |].
  apply (does_seq 0 0 0 [] 0 0 0 ["packet_block"%string]); [apply does_recordBlock | apply does_logAudit].
Qed.

(** One decision: one counter and one audit event, of matching kind. *)
Definition decision_effect (dp : Z) (allowed : bool) e e' : Prop :=
  exists ty, effect dp (if allowed then 1 else 0) (if allowed then 0 else 1) [ty] e e' /\
    (if allowed then ty = "packet_allow"%string \/ ty = "audit_block"%string
     else ty = "packet_block"%string).

Definition decides (dp : Z) (m : M E Result) e : Prop :=
  exists e' r, m e = (e', inl r) /\ decision_effect dp (Allowed r) e e' /\ same_config e e'.

Lemma decides_block v pi tid reason why e :
  decides 0 (bind (blockPacket v pi tid reason) (fun _ => ret (mkResult false why))) e.
Proof.
  unfold decides.
  destruct (does_bind 0 0 1 _ _ (ret (mkResult false why)) e (does_blockPacket v pi tid reason))
    as (e' & -> & Hf & Hs).
  exists e', (mkResult false why). split; [done |]. split; [by exists "packet_block"%string | done].
Qed.

Lemma decides_block_alert v pi tid reason why ty msg e :
  decides 0 (bind (blockPacket v pi tid reason)
               (fun _ => bind (fireAlert v ty msg) (fun _ => ret (mkResult false why)))) e.
Proof.
  unfold decides.
  destruct (does_bind 0 0 1 _ _ (bind (fireAlert v ty msg) (fun _ => ret (mkResult false why))) e
              (does_blockPacket v pi tid reason)) as (e1 & -> & Hf1 & Hs1).
  destruct (does_bind 0 0 0 _ _ (ret (mkResult false why)) e1 (does_fireAlert v ty msg))
    as (e2 & -> & Hf2 & Hs2).
  exists e2, (mkResult false why). split; [done |]. split; [|by eapply same_config_trans].
  exists "packet_block"%string. split; [|done]. apply (effect_trans _ _ _ _ _ _ _ _ _ _ _ Hf1 Hf2).
Qed.

Lemma decides_allow v pi tid reason ty r e :
  Allowed r = true -> ty = "packet_allow"%string \/ ty = "audit_block"%string ->
  decides 0 (bind (modify (count 0 1 0))
               (fun _ => bind (logAudit v ty tid pi reason) (fun _ => ret r))) e.
Proof.
  unfold decides.
  intros Hr Hty.
  destruct (does_bind 0 1 0 _ _ (bind (logAudit v ty tid pi reason) (fun _ => ret r)) e (does_count 0 1 0))
    as (e1 & -> & Hf1 & Hs1).
  destruct (does_bind 0 0 0 _ _ (ret r) e1 (does_logAudit v ty tid pi reason)) as (e2 & -> & Hf2 & Hs2).
  exists e2, r. split; [done |]. split; [|by eapply same_config_trans].
  exists ty. rewrite Hr. split; [|done]. apply (effect_trans _ _ _ _ _ _ _ _ _ _ _ Hf1 Hf2).
Qed.

(** Nothing the engine calls panics. *)
Record panic_free v e : Prop := {
  pf_trace : exists b, env_rand v = inl b;
  pf_eval : forall ev input, eval e = Some ev ->
            match Evaluate ev input with OResult _ | OError _ => True | _ => False end;
  pf_geo : forall db a m, geoipReader e = Some db -> db a <> Panic m;
  pf_pcap : forall w raw m, pcapWriter e = Some w -> w raw <> Panic m;
}.

Lemma panic_free_config v e e' : same_config e e' -> panic_free v e -> panic_free v e'.
Proof.
  intros (H1 & _ & _ & H4 & _ & H6 & _) [P1 P2 P3 P4].
  split; [done | rewrite H1 | rewrite H4 | rewrite H6]; done.
Qed.

Lemma decides_policy v pi tid input e :
  panic_free v e -> decides 0 (decide_policy v pi tid input) e.
Proof.
  intros [_ Hev _ _]. unfold decide_policy, decides. unfold bind at 1, get at 1.
  destruct (eval e) as [ev|].
  - specialize (Hev ev input eq_refl). destruct (Evaluate ev input) as [r| |err|m]; try done.
    + destruct r as [[] reason]; cbn [Allowed negb andb].
      * apply decides_allow; [done | by left].
      * destruct (auditOnly e); [apply decides_allow; [done | by right] | apply decides_block].
    + apply decides_block_alert.
  - destruct (failClosed e); [apply decides_block | apply decides_allow; [done | by left]].
Qed.

Lemma geoInput_panic db pi input m :
  (forall d a m, db = Some d -> d a <> Panic m) -> geoInput db pi input <> Panic m.
Proof.
  intros Hdb. unfold geoInput. destruct db as [d|]; [|done].
  assert (forall s, LookupCountry d s <> Panic m) as Hl.
  { intros s. unfold LookupCountry. destruct (ParseIP s) as [ip|]; [|done].
    specialize (Hdb d (match To4 ip with Some v4 => v4 | None => ip end) m eq_refl).
    destruct (d _) as [[]| |]; try done. congruence. }
  pose proof (Hl (pi_SrcIP pi)) as H1. pose proof (Hl (pi_DstIP pi)) as H2.
  destruct (LookupCountry d (pi_SrcIP pi)); simpl; [|done | congruence].
  destruct (LookupCountry d (pi_DstIP pi)); simpl; [done | done | congruence].
Qed.

(** [decides] through a prefix that only counts and tracks. *)
Lemma decides_after dp (k : M E Result) e e1 :
  effect dp 0 0 [] e e1 -> same_config e e1 -> decides 0 k e1 ->
  exists e' r, k e1 = (e', inl r) /\ decision_effect dp (Allowed r) e e' /\ same_config e e'.
Proof.
  intros Hf Hs (e' & r & Hk & (ty & Hf' & Hty) & Hs'). exists e', r.
  split; [done |]. split; [|by eapply same_config_trans]. exists ty. split; [|done].
  pose proof (effect_trans _ _ _ _ _ _ _ _ _ _ _ Hf Hf') as Hft.
  by rewrite Z.add_0_r, !Z.add_0_l in Hft.
Qed.

Lemma effect_tracking ct l e e0 dp : effect dp 0 0 [] e0 e -> effect dp 0 0 [] e0 (set_tracking ct l e).
Proof. done. Qed.

Lemma evaluate_body_decides v pi size e :
  panic_free v e -> decides 1 (evaluate_body v pi size) e.
Proof.
  intros Hpf. unfold decides, evaluate_body. unfold bind at 1, modify at 1.
  destruct (does_count 1 0 0 e) as (e1 & He1 & Hf1 & Hs1). unfold modify in He1. injection He1 as He1.
  rewrite He1. destruct (pf_trace v e Hpf) as [b Hb].
  unfold bind at 1, newTraceID. rewrite Hb. unfold ret at 1, bind at 1, trackFlow.
  destruct (flowOf v pi (conntrack e1)) as [[flow|] ct].
  2:{ apply (decides_after 1); [by apply effect_tracking | done | apply decides_block_alert]. }
  unfold bind at 1, modify at 1. unfold bind at 1, get at 1.
  set (e2 := set_tracking (trackPort pi _) _ _).
  destruct (MACAllowed (l2Filter e2) (pi_SrcMAC pi)) as [[] why]; cbn [negb].
  2:{ apply (decides_after 1); [by apply effect_tracking | done | apply decides_block]. }
  unfold bind at 1, trackRates. destruct (ratesOf v pi size (ratelimit e2)) as [[[pps bps] pr] l].
  unfold bind at 1, get at 1. cbn [fst]. set (e3 := set_tracking (conntrack e2) l e2).
  destruct (ExceedsLimit (ratelimit e3) pps bps).
  { apply (decides_after 1); [by apply effect_tracking | done | apply decides_block]. }
  destruct (Contains (pi_SrcIP pi) (threatIntel e3)).
  { apply (decides_after 1); [by apply effect_tracking | done | apply decides_block]. }
  unfold bind at 1.
  assert (panic_free v e3) as Hpf3 by (eapply panic_free_config; [|exact Hpf]; done).
  destruct (geoInput (geoipReader e3) pi _) as [input|err|m] eqn:Hgeo; cbn [lift ret].
  - apply (decides_after 1); [by apply effect_tracking | done | by apply decides_policy].
  - by destruct (geoInput_no_err _ _ _ _ Hgeo).
  - exfalso. eapply geoInput_panic; [|exact Hgeo]. intros d a m' Hd. by apply (pf_geo v e3 Hpf3).
Qed.

Lemma packetHandler_counts NewPacket v attr e :
  panic_free v e ->
  exists e' n, packetHandler NewPacket v attr e = (e', inl n) /\
    let allowed := n =? 0 in
    wrap64 (packetsProcessed e') = wrap64 (packetsProcessed e + 1) /\
    wrap64 (packetsAllowed e') = wrap64 (packetsAllowed e + if allowed then 1 else 0) /\
    wrap64 (packetsBlocked e') = wrap64 (packetsBlocked e + if allowed then 0 else 1) /\
    (forall raw pi, Payload attr = Some raw -> ParsePacket NewPacket raw = Ok pi ->
       decision_effect 1 allowed e e').
Proof.
  intros Hpf. unfold packetHandler, recovering, handler_body.
  assert (exists e', modify (count (E := E) 1 0 1) e = (e', inl tt) /\ effect 1 0 1 [] e e') as (eb & Heb & Hfb).
  { destruct (does_count 1 0 1 e) as (e' & He & Hf & _). eauto. }
  destruct (Payload attr) as [raw|].
  2:{ unfold bind at 1. rewrite Heb. exists eb, 1. split; [done |]. destruct Hfb as (? & ? & ? & _).
      split_and!; try done. }
  pose proof (parse_no_panic NewPacket raw) as Hnp.
  destruct (ParsePacket NewPacket raw) as [pi|err|m] eqn:Hp; [| |done].
  2:{ unfold bind at 1. rewrite Heb. exists eb, 1. split; [done |]. destruct Hfb as (? & ? & ? & _).
      split_and!; try done. congruence. }
  destruct (evaluate_body_decides v pi (zlen raw) e Hpf) as (e' & r & He & Hd & Hs).
  unfold bind at 1, evaluatePacket, recovering. rewrite He.
  assert (forall n, (n =? 0) = Allowed r -> 
    let allowed := n =? 0 in
    wrap64 (packetsProcessed e') = wrap64 (packetsProcessed e + 1) /\
    wrap64 (packetsAllowed e') = wrap64 (packetsAllowed e + if allowed then 1 else 0) /\
    wrap64 (packetsBlocked e') = wrap64 (packetsBlocked e + if allowed then 0 else 1) /\
    (forall raw0 pi0, Some raw = Some raw0 -> ParsePacket NewPacket raw0 = Ok pi0 ->
       decision_effect 1 allowed e e')) as Hout.
  { intros n Hn. cbv zeta. rewrite Hn. pose proof Hd as (ty & (? & ? & ? & _) & _). split_and!; try done. }
  destruct (Allowed r) eqn:Ha.
  { exists e', 0. split; [done |]. by apply Hout. }
  exists e', 1. split; [|by apply Hout]. unfold bind, get. cbv beta iota.
  pose proof (panic_free_config v e e' Hs Hpf) as Hpf'.
  destruct (pcapWriter e') as [w|] eqn:Hw; [|done].
  pose proof (fun m => pf_pcap v e' Hpf' w raw m Hw) as Hno. destruct (w raw); [done | done |].
  by destruct (Hno msg).
Qed.
End effects.

(** C15: As long as nothing the engine calls panics, every packet advances the
    processed counter by one and either the allowed or the blocked counter by one, the one
    that matches the decision, and a parsed packet hands exactly one event of the matching
    kind to the audit logger.  Counters wrap at 64 bits. *)
Theorem counters_match_decisions {E} `{Evaluator E} NewPacket v attr (e : Engine E) :
  panic_free v e ->
  exists e' n, packetHandler NewPacket v attr e = (e', inl n) /\
    let allowed := n =? 0 in
    wrap64 (packetsProcessed e') = wrap64 (packetsProcessed e + 1) /\
    wrap64 (packetsAllowed e') = wrap64 (packetsAllowed e + if allowed then 1 else 0) /\
    wrap64 (packetsBlocked e') = wrap64 (packetsBlocked e + if allowed then 0 else 1) /\
    (forall raw pi, Payload attr = Some raw -> ParsePacket NewPacket raw = Ok pi ->
       decision_effect 1 allowed e e').
Proof. apply packetHandler_counts. Qed.

(** A packet of 10.0.0.1 to an engine without evaluator that drops what it cannot decide,
    with an audit logger. *)
Lemma counters_match_decisions_witness :
  let e := New (E := unit) None (NewTable DefaultConfig) (NewLimiter f0 f0) true false true None None None None None in
  let r := packetHandler reference_decoder sample_env sample_attribute e in
  r.2 = inl 1 /\ wrap64 (packetsProcessed r.1) = 1 /\ wrap64 (packetsBlocked r.1) = 1 /\
  (fmap (M := list) a_Type <$> auditLog r.1) = Some ["packet_block"%string].
Proof.
  cbv zeta. set (e := New None _ _ _ _ _ _ _ _ _ _).
  destruct (counters_match_decisions reference_decoder sample_env sample_attribute e) as (e' & n & He & Hp & _ & Hb & Hd).
  - split; [by exists [1; 2; 3; 4] | discriminate | discriminate | discriminate].
  - assert (n = 1) as ->.
    { assert ((packetHandler reference_decoder sample_env sample_attribute e).2 = inl 1) as Hn by (vm_compute; reflexivity).
      rewrite He in Hn. by injection Hn. }
    assert (exists pi, ParsePacket reference_decoder sample_packet = Ok pi) as [pi Hpi] by (eexists; vm_compute; reflexivity).
    destruct (Hd sample_packet pi eq_refl Hpi) as (ty & (_ & _ & _ & Hlog) & ->).
    rewrite He. split; [reflexivity |]. split; [exact Hp |]. split; [exact Hb | exact Hlog].
Defined.

(** A packet whose evaluation panics is dropped and counted as blocked, but it
    advances the processed counter by two, since the recovery counts again what the
    pipeline had counted. *)
Theorem panic_counted_twice :
  let e := New (E := unit) (Some tt) (NewTable DefaultConfig) (NewLimiter f0 f0) true false false
             None None None None None in
  let r := packetHandler reference_decoder sample_env (mkAttribute (Some 1) (Some sample_packet)) e in
  r.2 = inl 1 /\ packetsProcessed r.1 = 2 /\ packetsAllowed r.1 = 0 /\ packetsBlocked r.1 = 1.
Proof. vm_compute. split_and!; reflexivity. Qed.

(** When the capture of a blocked packet panics, the packet is still dropped,
    but the recovery counts a second packet, as allowed. *)
Theorem dropped_counted_allowed :
  let e := New (E := unit) None (NewTable DefaultConfig) (NewLimiter f0 f0) true false false
             None None None (Some (fun _ => Panic "disk full")) None in
  let r := packetHandler reference_decoder sample_env (mkAttribute (Some 1) (Some sample_packet)) e in
  r.2 = inl 1 /\ packetsProcessed r.1 = 2 /\ packetsAllowed r.1 = 1 /\ packetsBlocked r.1 = 1.
Proof. vm_compute. split_and!; reflexivity. Qed.

(** ** The block counters *)
Section block_stats.
Context {E : Type} `{Evaluator E}.

Lemma restore_loop_spec (m : gmap string Z) keys stats :
  NoDup keys -> (forall k, k ∈ keys -> is_Some (m !! k)) -> (forall k, k ∈ keys -> stats !! k = None) ->
  Z.of_nat (size stats) + Z.of_nat (length keys) <= maxBlockStatsReasons ->
  forall k, restore_loop m keys stats !! k = if decide (k ∈ keys) then m !! k else stats !! k.
Proof.
  revert stats. induction keys as [|k keys IH]; intros stats Hnd Hin Hno Hsz k'; cbn [restore_loop length] in *.
  { by rewrite decide_False by apply not_elem_of_nil. }
  apply NoDup_cons in Hnd as [Hk Hnd]. destruct (Hin k ltac:(by left)) as [n Hn]. rewrite Hn.
  replace (_ <? _) with true by lia. rewrite IH; [|done | | |].
  - destruct (decide (k' = k)) as [->|Hne].
    + rewrite (decide_False (P := k ∈ keys)) by done. rewrite decide_True by (by left).
      by rewrite lookup_insert_eq.
    + rewrite lookup_insert_ne by done. destruct (decide (k' ∈ keys)).
      * by rewrite decide_True by (by right).
      * rewrite decide_False; [done |]. rewrite elem_of_cons. by intros [?|?].
  - intros k1 H1. apply Hin. by right.
  - intros k1 H1. rewrite lookup_insert_ne by (by intros ->). apply Hno. by right.
  - rewrite map_size_insert_None by (apply Hno; by left). lia.
Qed.

(** [BlockStats] returns the counters, whatever order the map is read in. *)
Lemma copy_stats_spec (m : gmap string Z) keys result k :
  (forall k, k ∈ keys -> is_Some (m !! k)) ->
  copy_stats m keys result !! k = if decide (k ∈ keys) then m !! k else result !! k.
Proof.
  revert result. induction keys as [|k' keys IH]; intros result Hin; cbn [copy_stats].
  { by rewrite decide_False by apply not_elem_of_nil. }
  destruct (Hin k' ltac:(by left)) as [n Hn]. rewrite Hn, IH by (intros k1 H1; apply Hin; by right).
  destruct (decide (k ∈ keys)) as [Hk|Hk]; [by rewrite decide_True by (by right) |].
  destruct (decide (k = k')) as [->|Hne].
  - by rewrite lookup_insert_eq, decide_True by (by left).
  - rewrite lookup_insert_ne by done. rewrite decide_False; [done |]. rewrite elem_of_cons. by intros [?|?].
Qed.

Lemma BlockStats_copy ro (e : Engine E) : BlockStats ro e = blockStats e.
Proof.
  apply map_eq. intros k. unfold BlockStats. rewrite copy_stats_spec by (intros k'; apply elem_of_range_keys).
  destruct (decide (k ∈ range_keys ro (blockStats e))) as [_|Hk]; [done |]. rewrite lookup_empty.
  rewrite elem_of_range_keys in Hk. by destruct (blockStats e !! k) eqn:Hs; [destruct Hk |].
Qed.

(** An engine restarted from the state another engine saved has its block
    counters, whatever order the saved map is read in. *)
Theorem restore_after_save ro path (e e0 : Engine E) :
  engine_inv e -> blockStats e0 = ∅ -> path <> ""%string ->
  blockStats (restoreState ro path (inl (Some (saved_stats e))) e0) = blockStats e.
Proof.
  intros He H0 Hp. unfold restoreState, saved_stats. apply String.eqb_neq in Hp. rewrite Hp.
  destruct (Nat.eqb_spec (size (blockStats e)) 0) as [Hz|_].
  { apply map_size_empty_inv in Hz. by rewrite H0, Hz. }
  cbn [set_blocks blockStats]. apply map_eq. intros k. rewrite H0, restore_loop_spec.
  - destruct (decide (k ∈ range_keys ro (blockStats e))) as [|Hk]; [done |].
    rewrite lookup_empty. symmetry. rewrite elem_of_range_keys in Hk.
    by destruct (blockStats e !! k); [destruct Hk |].
  - apply NoDup_range_keys.
  - intros k'. apply elem_of_range_keys.
  - intros k' _. apply lookup_empty.
  - rewrite map_size_empty, length_range_keys. pose proof (einv_stats e He). lia.
Qed.

(** Once 256 different reasons have been counted no block counter changes any
    more, not even that of a reason already known; the log of recent blocks goes on. *)
Theorem block_counters_freeze v pi reason tid (e : Engine E) :
  Z.of_nat (size (blockStats e)) = maxBlockStatsReasons ->
  blockStats (recordBlock v pi reason tid e).1 = blockStats e /\
  (b_Reason <$> last (recentBlocks (recordBlock v pi reason tid e).1)) = Some (truncate reason).
Proof.
  intros Hs. unfold recordBlock, modify. cbn [fst set_blocks blockStats recentBlocks].
  rewrite Hs, Z.ltb_irrefl. split; [done |]. by rewrite last_snoc.
Qed.
End block_stats.

Lemma set_blocks_inv {E} `{Evaluator E} stats (e : Engine E) :
  engine_inv e -> Z.of_nat (size stats) <= maxBlockStatsReasons -> engine_inv (set_blocks stats [] e).
Proof.
  intros [H1 H2 _ _ _] Hs. split; [exact H1 | exact H2 | | exact Hs | constructor].
  cbn. unfold maxRecentBlocks. lia.
Qed.

Lemma restore_after_save_witness :
  let e := set_blocks {[ "scan"%string := 3 ]} [] sample_engine in
  blockStats (restoreState (map_order _ _) "/tmp/state" (inl (Some (saved_stats e))) sample_engine) =
  {[ "scan"%string := 3 ]}.
Proof.
  intros e. apply (restore_after_save (map_order _ _) "/tmp/state" e sample_engine).
  - apply set_blocks_inv; [|vm_compute; discriminate].
    apply New_inv. reflexivity.
  - reflexivity.
  - discriminate.
Defined.

(** 256 reasons. *)
Definition many_reasons : gmap string Z := list_to_map ((fun n : nat => (pretty n, 1)) <$> seq 0 256).

Lemma block_counters_freeze_witness :
  blockStats (recordBlock sample_env (mkPacketInfo "" "" "10.0.0.1" "10.0.0.2" "UDP" 53 53 noFlags None None
                                        noFragment 28 []) "0" "t"
                (set_blocks many_reasons [] sample_engine)).1 = many_reasons.
Proof.
  refine (proj1 (block_counters_freeze sample_env _ "0" "t" (set_blocks many_reasons [] sample_engine) _)).
  vm_compute. reflexivity.
Defined.
