(* ===== verification/EndToEnd.v ===== *)
(** * The firewall with its policy

    The engine of Engine.v around the embedded evaluator of Opa.v, whose prepared query
    runs the policy of ShippedPolicy.v: which packets the kernel is told to accept, as a
    function of the packet, the tracked state and the constants of the policy. *)
From Stdlib Require Import ZArith Lia ZifyBool Strings.Byte.
From stdpp Require Import base gmap sets list strings pretty relations.
From S2P Require Import Prelude GoTime GoFloat GoFloatFacts GoNet GoNetFacts Packet PacketFacts Conntrack ConntrackFacts ConntrackSpec RateLimit RateLimitFacts L2Filter ThreatIntel Alert Opa OpaFacts ShippedPolicy ShippedPolicyFacts Engine PacketSteps EngineFacts EngineInv.

Local Open Scope Z_scope.

(** ** The numbers of the input *)

(** The window sum of a source is a 64-bit integer, so its rate is finite. *)
Lemma rate_sum_range sec ss cs sum : int64_range sum -> int64_range (rate_sum sec ss cs sum).
Proof.
  revert cs sum. induction ss as [|s ss IH]; intros [|n cs] sum Hs; simpl; try done.
  apply IH. case_bool; [apply wrap64_range | done].
Qed.

Lemma rate_finite now r : finite64 (rate now r).
Proof.
  unfold rate.
  assert (exists m e, of_int connRateWindowSecs = SpecFloat.S754_finite false m e /\ -100 <= e)
    as (m & e & -> & He) by (do 2 eexists; split; [vm_compute; reflexivity | lia]).
  apply fdiv_finite; [|done]. apply of_int_spec, rate_sum_range. by unfold int64_range.
Qed.

Lemma NewConnectionRate_finite now ip t : finite64 (NewConnectionRate now ip t).
Proof. unfold NewConnectionRate. destruct (_ !! _); [apply rate_finite | done]. Qed.

Lemma ratesOf_finite v pi size l :
  limiter_inv l -> 0 <= size < 2 ^ 63 ->
  let r := (ratesOf v pi size l).1 in
  finite64 r.1.1 /\ finite64 r.1.2 /\ finite64 r.2.1 /\ finite64 r.2.2.
Proof.
  intros Hl Hs. unfold ratesOf.
  pose proof (allowKey_inv (env_bucket_order v) (now_rate v) (ipKey (pi_SrcIP pi)) size l Hl Hs) as (H1 & Hp & Hq).
  fold (Allow (env_bucket_order v) (now_rate v) (pi_SrcIP pi) size l) in H1, Hp, Hq.
  destruct (Allow _ _ _ _ _) as [r1 l1]. cbn [fst snd] in *.
  pose proof (allowKey_inv (env_port_order v) (now_port v) (portKey (pi_SrcIP pi) (pi_DstPort pi)) size l1 H1 Hs)
    as (_ & Hp' & Hq').
  fold (AllowPort (env_port_order v) (now_port v) (pi_SrcIP pi) (pi_DstPort pi) size l1) in Hp', Hq'.
  destruct (AllowPort _ _ _ _ _ _) as [r2 l2]. cbn [fst snd] in *.
  split_and!; [apply Hp | apply Hq | apply Hp' | apply Hq'].
Qed.

(** ** The input the policy sees *)

(** The packet part of the document. *)
Definition document_packet (pi : PacketInfo) : oPacketInfo :=
  mkOPacket (pi_SrcIP pi) (pi_DstIP pi) (pi_Protocol pi) (pi_SrcPort pi) (pi_DstPort pi)
    (pi_TCPFlags pi) (pi_ICMPType pi) (pi_ICMPCode pi) (pi_Fragment pi) (pi_PacketSize pi).

Section input.
Context {E : Type} `{Evaluator E}.
Implicit Types (e : Engine E) (v : Env) (pi : PacketInfo).

Lemma geoInput_fields db pi i i' :
  geoInput db pi i = Ok i' ->
  i_Packet i' = i_Packet i /\ i_Connection i' = i_Connection i /\ i_Rate i' = i_Rate i /\ i_Time i' = i_Time i.
Proof.
  unfold geoInput. destruct db as [db|]; [|by intros [= ->]].
  destruct (LookupCountry db _); simpl; [|done..]. destruct (LookupCountry db _); simpl; [|done..].
  by intros [= <-].
Qed.

Lemma presents_fields v pi size e flow i :
  presents v pi size e flow i ->
  i_Packet i = document_packet pi /\ c_Established (i_Connection i) = Established flow /\
  c_PacketsInFlow (i_Connection i) = 1 /\
  i_Rate i = mkRateInfo (ratesOf v pi size (ratelimit e)).1.1.1 (ratesOf v pi size (ratelimit e)).1.1.2
               (ratesOf v pi size (ratelimit e)).1.2.1 (ratesOf v pi size (ratelimit e)).1.2.2
               (NewConnectionRate (now_conns v) (pi_SrcIP pi) (trackPort pi (flowOf v pi (conntrack e)).2)).
Proof.
  intros [_ Hg]. apply geoInput_fields in Hg as (H1 & H2 & H3 & _). rewrite H1, H2, H3. unfold policyInput.
  by destruct (ratesOf v pi size (ratelimit e)).1 as [[p q] [p' q']].
Qed.

Lemma presents_encodable v pi size e flow i :
  engine_inv e -> 0 <= size < 2 ^ 63 -> presents v pi size e flow i -> encodable i.
Proof.
  intros He Hs Hp. apply presents_fields in Hp as (_ & _ & _ & Hr).
  destruct (ratesOf_finite v pi size (ratelimit e) (einv_limiter e He) Hs) as (H1 & H2 & H3 & H4).
  unfold encodable. rewrite Hr. cbn [SrcIPpps SrcIPbps SrcPortPPS SrcPortBPS NewConnsPerSec].
  split_and!; try done. apply NewConnectionRate_finite.
Qed.

(** Without a database the countries are empty. *)
Lemma presents_no_geo v pi size e flow i :
  geoipReader e = None -> presents v pi size e flow i ->
  i_Geo i = mkGeoInfo "" "" /\
  c_RecentPorts (i_Connection i) =
  GetRecentDestPorts (pi_SrcIP pi) (trackPort pi (flowOf v pi (conntrack e)).2).
Proof.
  intros Hdb [_ Hg]. rewrite Hdb in Hg. injection Hg as <-. unfold policyInput.
  destruct (ratesOf v pi size (ratelimit e)).1 as [[p q] [p' q']]. split; [done |].
  cbn [BuildInput i_Connection c_RecentPorts]. by destruct (GetRecentDestPorts _ _).
Qed.

(** A segment with RST leaves its flow not established. *)
Lemma presents_rst v pi size e flow i :
  pi_Protocol pi = "TCP"%string -> RST (pi_TCPFlags pi) = true ->
  presents v pi size e flow i -> Established flow = false.
Proof.
  intros Hproto Hrst [Hf _]. unfold flowOf in Hf. rewrite Hproto in Hf. cbn [String.eqb Ascii.eqb Bool.eqb] in Hf.
  rewrite Hrst in Hf. revert Hf. unfold UpdateTCPState, tcp_new_flow. cbv zeta.
  destruct (flows _ !! _) as [f|]; [|destruct (createFlow _ _ _ _ _) as [t'|]; [|done]];
    rewrite !andb_false_r; by intros [= <-].
Qed.
End input.

(** The configuration is fixed. *)
Lemma machine_run_config {E} `{Evaluator E} NewPacket (m m' : Machine E) :
  rtc (engine_step NewPacket) m m' -> same_config (m_engine m) (m_engine m').
Proof. induction 1 as [|m1 m2 m3 Hs _ IH]; [done |]. eapply same_config_trans; [by eapply engine_step_config | exact IH]. Qed.

(** ** The decision *)
Section enforced.
Context `{Builtins} (R : Rego) (c : PolicyConfig).
Context (NewPacket : list byte -> LayerType -> option DecodedPacket).
Implicit Types (e : Engine (EmbeddedEvaluator R)) (v : Env) (pi : PacketInfo).

(** The engine enforces the policy with the constants [c]: its evaluator runs it, a
    denial is not only reported, and its components are well formed. *)
Record enforcing e : Prop := {
  enf_eval : exists ev p, eval e = Some ev /\ e_prepared R ev = Some p /\ runs_policy R c p;
  enf_audit : auditOnly e = false;
  enf_inv : engine_inv e;
}.

Lemma enforcing_run e m : rtc (engine_step NewPacket) (idle e) m -> enforcing e -> enforcing (m_engine m).
Proof.
  intros Hrun [(ev & p & Hev & Hp & Hr) Ha Hi]. pose proof (machine_run_config _ _ _ Hrun) as (Hc & Hau & _).
  split; [exists ev, p; by rewrite Hc | by rewrite Hau |]. eapply machine_run_inv; [exact Hrun | by apply idle_inv].
Qed.

Lemma New_enforcing ev p cf a b fc al ar gr ti pw l2 :
  MaxEntries cf < 2 ^ 63 -> e_prepared R ev = Some p -> runs_policy R c p ->
  enforcing (New (Some ev) (NewTable cf) (NewLimiter a b) fc false al ar gr ti pw l2).
Proof. intros Hcf Hp Hr. split; [by exists ev, p | done | by apply New_inv]. Qed.

(** An engine around a query that runs the policy, not in audit-only mode, at any moment of
    any interleaving of packets, maintenance and restores. *)
Definition in_service e : Prop :=
  exists ev p cf a b fc al ar gr ti pw l2 t,
    MaxEntries cf < 2 ^ 63 /\ e_prepared R ev = Some p /\ runs_policy R c p /\
    rtc (engine_step NewPacket) (idle (New (Some ev) (NewTable cf) (NewLimiter a b) fc false al ar gr ti pw l2))
      (mkMachine e t).

Lemma in_service_enforcing e : in_service e -> enforcing e.
Proof.
  intros (ev & p & cf & a & b & fc & al & ar & gr & ti & pw & l2 & t & Hcf & Hp & Hr & Hrun).
  change e with (m_engine (mkMachine e t)). eapply enforcing_run; [exact Hrun |]. by eapply New_enforcing.
Qed.

Lemma policy_decides e input : enforcing e -> encodable input -> (policy_allows e input <-> allow c input = true).
Proof.
  intros [(ev & p & Hev & Hp & Hr) Ha _] He. unfold policy_allows. rewrite Hev, Ha.
  change (Evaluate ev input) with (Evaluate_embedded R ev input). rewrite (Evaluate_policy R c ev p input Hp Hr He).
  split; [intros (r & [= <-] & [Hal|]); done |]. intros Hal. eexists. split; [done |]. by left.
Qed.

(** The checks of the engine that come before the policy. *)
Definition checks v pi (size : Z) e : Prop :=
  (exists b, env_rand v = inl b) /\
  (MACAllowed (l2Filter e) (pi_SrcMAC pi)).1 = true /\
  (let '(rates, l) := ratesOf v pi size (ratelimit e) in ExceedsLimit l rates.1.1 rates.1.2 = false) /\
  Contains (pi_SrcIP pi) (threatIntel e) = false.

Lemma accepted_iff v pi size e :
  enforcing e -> 0 <= size < 2 ^ 63 ->
  (accepted v pi size e <->
   checks v pi size e /\ exists flow input, presents v pi size e flow input /\
                          Forall (fun r => r.1 = false) (rules c input)).
Proof.
  intros Henf Hs.
  assert (forall flow input, presents v pi size e flow input ->
            (policy_allows e input <-> Forall (fun r => r.1 = false) (rules c input))) as Hiff.
  { intros flow input Hp. rewrite <-allow_true. apply policy_decides; [done |].
    exact (presents_encodable _ _ _ _ _ _ (enf_inv e Henf) Hs Hp). }
  split.
  - intros [H1 H2 H3 H4 (flow & input & Hf & Hg & Hp)]. split; [exact (conj H1 (conj H2 (conj H3 H4))) |].
    exists flow, input. assert (presents v pi size e flow input) as Hpr by (by split).
    split; [done |]. exact (proj1 (Hiff flow input Hpr) Hp).
  - intros [(H1 & H2 & H3 & H4) (flow & input & Hpr & Hr)]. apply (Hiff flow input Hpr) in Hr.
    destruct Hpr as [Hf Hg]. split; [done..|]. by exists flow, input.
Qed.

Lemma handler_iff v id raw pi e :
  enforcing e -> zlen raw < 2 ^ 63 -> ParsePacket NewPacket raw = Ok pi ->
  let decision := (packetHandler NewPacket v (mkAttribute id (Some raw)) e).2 in
  let passes := checks v pi (zlen raw) e /\ exists flow input, presents v pi (zlen raw) e flow input /\
                                            Forall (fun r => r.1 = false) (rules c input) in
  (decision = inl 0 <-> passes) /\ (decision = inl 1 <-> ~ passes).
Proof.
  intros Henf Hs Hp. cbv zeta. rewrite <-accepted_iff by (done || (unfold zlen in *; lia)).
  assert (admitted NewPacket v (mkAttribute id (Some raw)) e <-> accepted v pi (zlen raw) e) as <-.
  { unfold admitted. cbn [Payload]. split; [|by exists raw, pi].
    intros (raw' & pi' & [= <-] & Hp' & Ha). rewrite Hp in Hp'. by injection Hp' as <-. }
  destruct (packetHandler_result NewPacket v (mkAttribute id (Some raw)) e) as [[-> Ha]|[-> Ha]]; split; split; try done.
Qed.

(** A rule that holds of every document of a packet drops it. *)
Lemma rule_drops v id raw pi e (rule : Input -> bool) :
  enforcing e -> zlen raw < 2 ^ 63 -> ParsePacket NewPacket raw = Ok pi ->
  (forall i, rule i = true -> allow c i = false) ->
  (forall flow i, presents v pi (zlen raw) e flow i -> rule i = true) ->
  (packetHandler NewPacket v (mkAttribute id (Some raw)) e).2 = inl 1.
Proof.
  intros Henf Hs Hp Hrule Hall. apply (handler_iff v id raw pi e Henf Hs Hp).
  intros [_ (flow & i & Hpr & Hr)]. apply allow_true in Hr. rewrite Hrule in Hr; [done |]. by eapply Hall.
Qed.

Lemma allow_false i k b ts : rules c i !! k = Some (b, ts) -> b = true -> allow c i = false.
Proof.
  intros Hk Hb. subst b. destruct (allow c i) eqn:Ha; [|done]. apply allow_true in Ha.
  rewrite Forall_lookup in Ha. by specialize (Ha k _ Hk).
Qed.
End enforced.
