(* ===== verification/Guarantees.v ===== *)
(** * What the firewall guarantees for packets on the wire

    Theorems about raw packets and the enforcing engine of EndToEnd.v: which packets the
    constants of the repository let through, and that closed ports, first fragments with
    part of an L4 header and resets do not pass, whatever extension headers or options the
    packet has. *)
From Stdlib Require Import ZArith Lia ZifyBool Btauto Strings.Byte.
From stdpp Require Import base gmap sets list strings pretty relations.
From S2P Require Import Prelude GoTime GoFloat GoNet GoNetFacts Packet PacketFacts PacketSpec Conntrack RateLimit L2Filter ThreatIntel Opa ShippedPolicy ShippedPolicyFacts Engine EngineFacts EngineInv EndToEnd.

Local Open Scope Z_scope.

(** ** Packets on the wire *)

(** [raw] is a packet in which the destination reads [seg] as a segment of protocol
    [proto]: an IPv4 packet with any options, or an IPv6 packet with any valid chain of
    extension headers and at least one byte of the segment, at fragment offset zero.  (An
    IPv6 packet that ends with its extension headers is not covered: the walk over the
    chain finds no segment in it, see [empty_first_fragment_accepted].) *)
Inductive carries (proto : Z) (seg : list byte) : list byte -> Prop :=
| carries_v4 raw :
    20 <= zlen raw -> ip_version raw = 4 -> 5 <= v4_IHL (ipv4_fields raw) ->
    v4_FragOffset (ipv4_fields raw) = 0 -> rd raw 9 = proto ->
    drop (Z.to_nat (4 * v4_IHL (ipv4_fields raw))) raw = seg -> carries proto seg raw
| carries_v6 hdr exts :
    zlen hdr = 40 -> ip_version hdr = 6 -> rd hdr 6 = first_number exts proto ->
    extHeaderTypes proto = None -> 0 <= proto < 256 -> Forall ext_valid exts -> seg <> [] ->
    carries proto seg (hdr ++ encode_chain exts proto ++ seg).

Lemma octets_of_bytes (l : list byte) : octets_ok (b2z <$> l).
Proof. apply Forall_fmap, Forall_true. intros b. apply b2z_range. Qed.

Lemma ParseIP_IP_String (l : list byte) :
  length l = 4%nat \/ length l = 16%nat -> exists a, ParseIP (IP_String (b2z <$> l)) = Some a.
Proof.
  pose proof (octets_of_bytes l) as Ho. unfold IP_String. rewrite length_fmap.
  intros [Hl|Hl]; rewrite Hl; cbn [Nat.eqb orb].
  - unfold IPString, To4. rewrite length_fmap, Hl. cbn [Nat.eqb]. unfold ParseIP.
    rewrite codes_ipv4_text, ParseAddr_ipv4_text by (done || (split; [done | by rewrite length_fmap])). by eexists.
  - rewrite ParseIP_IPString by (split; [done | by rewrite length_fmap]). by eexists.
Qed.

Section decoder.
Context NewPacket `{!GopacketSpec NewPacket}.

Lemma carries_parses proto seg raw :
  carries proto seg raw ->
  exists pi, ParsePacket NewPacket raw = Ok pi /\ l4_view pi = l4_decode proto seg.
Proof.
  intros [raw' H1 H2 H3 H4 <- <-|hdr exts H1 H2 H3 H4 H5 H6 H7].
  - destruct (parse_ipv4_l4 NewPacket raw' H1 H2 H3 H4) as (pi & Hp & Hv & _). by exists pi.
  - destruct (ParsePacket_ipv6_chain NewPacket hdr exts proto seg) as (pi & Hp & Hv & _); try done. by exists pi.
Qed.

(** The addresses of a parsed packet are addresses. *)
Lemma parsed_addresses raw pi :
  ParsePacket NewPacket raw = Ok pi ->
  (exists a, ParseIP (pi_SrcIP pi) = Some a) /\ exists a, ParseIP (pi_DstIP pi) = Some a.
Proof.
  assert (forall n k, Z.of_nat (n + k) <= zlen raw -> length (take k (drop n raw)) = k) as Hlen.
  { intros n k Hk. rewrite length_take, length_drop. unfold zlen in Hk. lia. }
  intros Hp. destruct (Z.ltb_spec (zlen raw) 1) as [Hs|Hs].
  { unfold ParsePacket in Hp. destruct (Z.ltb_spec (zlen raw) 1); [done | lia]. }
  assert (ip_version raw = 4 \/ ip_version raw = 6) as [Hv|Hv].
  { unfold ParsePacket in Hp. destruct (Z.ltb_spec (zlen raw) 1); [done |].
    change 0 with (Z.of_nat 0) in Hp at 1. rewrite idx_rd in Hp by lia. cbn [res_bind] in Hp. unfold ip_version.
    destruct (Z.eqb_spec (Z.shiftr (rd raw 0) 4) 4); [by left |].
    destruct (Z.eqb_spec (Z.shiftr (rd raw 0) 4) 6); [by right | done]. }
  - rewrite ParsePacket_v4 in Hp by done. unfold parseIPv4Packet in Hp.
    destruct (Z.ltb_spec (zlen raw) 20); [done |].
    destruct (gp_ipv4 raw ltac:(lia) Hv) as (p & Hn & Hl & _). rewrite Hn, Hl in Hp.
    destruct (extractMAC p) as [sm dm].
    assert (pi_SrcIP pi = IP_String (v4_SrcIP (ipv4_fields raw)) /\
            pi_DstIP pi = IP_String (v4_DstIP (ipv4_fields raw))) as [-> ->].
    { case_bool; [by injection Hp as <- |]. case_bool; [by injection Hp as <- |].
      apply populateL4_addresses in Hp. by injection Hp as -> -> _. }
    split; apply ParseIP_IP_String; left; apply Hlen; lia.
  - rewrite ParsePacket_v6 in Hp by done. unfold parseIPv6Packet in Hp.
    destruct (Z.ltb_spec (zlen raw) 40); [done |].
    destruct (gp_ipv6 raw ltac:(lia) Hv) as (p & Hn & Hl & _). rewrite Hn, Hl in Hp.
    apply res_bind_ok in Hp as (chain & _ & Hp). destruct (extractMAC p) as [sm dm].
    apply populateL4_addresses in Hp. injection Hp as -> -> _.
    split; apply ParseIP_IP_String; right; apply Hlen; lia.
Qed.
End decoder.

(** ** Closed ports, cut headers, resets *)
Section guarantees.
Context `{Builtins} (R : Rego) (c : PolicyConfig).
Context (NewPacket : list byte -> LayerType -> option DecodedPacket) `{!GopacketSpec NewPacket}.
Implicit Types (e : Engine (EmbeddedEvaluator R)) (v : Env).

(** A rule on the packet part of the document, at the L4 view of the segment. *)
Lemma view_drops v id proto seg raw e (k : nat) (rule : Input -> bool) :
  enforcing R c e -> zlen raw < 2 ^ 63 -> carries proto seg raw ->
  (forall i, exists ts, rules c i !! k = Some (rule i, ts)) ->
  (forall pi flow i, l4_view pi = l4_decode proto seg -> i_Packet i = document_packet pi ->
     c_Established (i_Connection i) = Established flow ->
     (pi_Protocol pi = "TCP"%string -> RST (pi_TCPFlags pi) = true -> Established flow = false) ->
     rule i = true) ->
  (packetHandler NewPacket v (mkAttribute id (Some raw)) e).2 = inl 1.
Proof.
  intros Henf Hs Hc Hk Hrule. destruct (carries_parses NewPacket proto seg raw Hc) as (pi & Hp & Hv).
  apply (rule_drops R c NewPacket v id raw pi e rule Henf Hs Hp).
  - intros i Hi. destruct (Hk i) as [ts Hts]. by eapply allow_false.
  - intros flow i Hpr. pose proof (presents_rst v pi (zlen raw) e flow i) as Hrst.
    pose proof (presents_fields v pi (zlen raw) e flow i Hpr) as (Hpk & Hest & _).
    eapply Hrule; [exact Hv | exact Hpk | exact Hest |]. intros Ht Hr. exact (Hrst Ht Hr Hpr).
Qed.

(** A rule of the list, by its position. *)
Lemma rule_at (k : nat) (rule : Input -> bool) (ts : Input -> list string) :
  (forall i, rules c i !! k = Some (rule i, ts i)) -> forall i, exists ts', rules c i !! k = Some (rule i, ts').
Proof. intros Hr i. exists (ts i). apply Hr. Qed.

(** The header of the segment is complete. *)
Definition whole (proto : Z) (seg : list byte) : Prop := (proto = 6 /\ 20 <= zlen seg) \/ (proto = 17 /\ 8 <= zlen seg).

Definition seg_SrcPort (seg : list byte) : Z := rd seg 0 * 256 + rd seg 1.
Definition seg_DstPort (seg : list byte) : Z := rd seg 2 * 256 + rd seg 3.

Lemma whole_view proto seg pi :
  whole proto seg -> l4_view pi = l4_decode proto seg ->
  (pi_Protocol pi = "TCP"%string \/ pi_Protocol pi = "UDP"%string) /\
  pi_SrcPort pi = seg_SrcPort seg /\ pi_DstPort pi = seg_DstPort seg.
Proof.
  intros Hw Hv. unfold l4_decode in Hv. destruct Hw as [[-> Hl]|[-> Hl]]; cbn [Z.eqb Pos.eqb] in Hv.
  - destruct (Z.ltb_spec (zlen seg) 20); [lia |]. injection Hv as -> -> -> _ _ _ _. split_and!; [by left | done..].
  - destruct (Z.ltb_spec (zlen seg) 8); [lia |]. injection Hv as -> -> -> _ _ _ _. split_and!; [by right | done..].
Qed.

(** Every document of such a packet is denied. *)
Lemma ports_denied proto seg pi i :
  whole proto seg -> l4_view pi = l4_decode proto seg -> i_Packet i = document_packet pi ->
  port_in_ranges (seg_DstPort seg) (blocked_ports c) = true \/
  port_in_ranges (seg_SrcPort seg) (blocked_ports c) = true ->
  allow c i = false.
Proof.
  intros Hw Hv Hpk Hport. destruct (whole_view _ _ _ Hw Hv) as (Hproto & Hs & Hd).
  destruct Hport as [Hport|Hport].
  - apply (allow_false c i 5 (deny_blocked_port c i) _ eq_refl). unfold deny_blocked_port, is_proto. rewrite Hpk.
    cbn [document_packet o_Protocol o_DstPort]. rewrite Hd, Hport. by destruct Hproto as [->| ->].
  - apply (allow_false c i 13 (deny_source_port c i) _ eq_refl). unfold deny_source_port, is_proto. rewrite Hpk.
    cbn [document_packet o_Protocol o_SrcPort]. rewrite Hs, Hport. by destruct Hproto as [->| ->].
Qed.

Lemma ports_drop v id proto seg raw e :
  enforcing R c e -> zlen raw < 2 ^ 63 -> carries proto seg raw -> whole proto seg ->
  port_in_ranges (seg_DstPort seg) (blocked_ports c) = true \/
  port_in_ranges (seg_SrcPort seg) (blocked_ports c) = true ->
  (packetHandler NewPacket v (mkAttribute id (Some raw)) e).2 = inl 1.
Proof.
  intros Henf Hs Hc Hw Hport. destruct (carries_parses NewPacket proto seg raw Hc) as (pi & Hp & Hv).
  apply (rule_drops R c NewPacket v id raw pi e (fun i => negb (allow c i)) Henf Hs Hp).
  - intros i. by destruct (allow c i).
  - intros flow i Hpr. pose proof (presents_fields v pi (zlen raw) e flow i Hpr) as (Hpk & _).
    by rewrite (ports_denied proto seg pi i).
Qed.

Lemma incomplete_drop v id proto seg raw e :
  enforcing R c e -> zlen raw < 2 ^ 63 -> carries proto seg raw ->
  lv_Incomplete (l4_decode proto seg) = true ->
  (packetHandler NewPacket v (mkAttribute id (Some raw)) e).2 = inl 1.
Proof.
  intros Henf Hs Hc Hi. apply (view_drops v id proto seg raw e 12 deny_incomplete_fragment); try done; [by eapply rule_at |].
  intros pi flow i Hv Hpk _ _. unfold deny_incomplete_fragment. rewrite Hpk.
  change (lv_Incomplete (l4_view pi) = true). by rewrite Hv.
Qed.

Lemma rst_drop v id seg raw e :
  enforcing R c e -> zlen raw < 2 ^ 63 -> carries 6 seg raw -> 20 <= zlen seg ->
  Z.testbit (rd seg 13) 2 = true -> enable_stateful c = true ->
  (packetHandler NewPacket v (mkAttribute id (Some raw)) e).2 = inl 1.
Proof.
  intros Henf Hs Hc Hl Hrst Hst. apply (view_drops v id 6 seg raw e 8 (deny_state_violation c)); try done; [by eapply rule_at |].
  intros pi flow i Hv Hpk Hest Hcl. unfold deny_state_violation, is_proto, flags. rewrite Hst, Hest, Hpk.
  cbn [document_packet o_Protocol o_TCPFlags].
  assert (pi_Protocol pi = "TCP"%string /\ RST (pi_TCPFlags pi) = true) as [Hproto Hr].
  { unfold l4_decode in Hv. cbn [Z.eqb Pos.eqb] in Hv. destruct (Z.ltb_spec (zlen seg) 20); [lia |].
    injection Hv as -> _ _ -> _ _ _. by split. }
  by rewrite Hcl, Hproto, Hr.
Qed.
End guarantees.

(** ** The contract of the constants in the repository *)

Definition closed_ports : list Z := [22; 23; 3389; 5900; 5901].

Definition closed (port : Z) : bool := existsb (fun p => p =? port) closed_ports.

(** What the constants deny: cut headers; the closed ports, at either end; resets and
    SYN together with FIN; a SYN to the 20th port of its source or above 100 packets a
    second; echo requests and ICMP above 10 packets a second; more than 10000 packets a
    second of a source, 500 to a port, or 1000 new connections. *)
Definition default_denies (pi : PacketInfo) (pps portPPS conns : float64) (ports : list Z) : bool :=
  let proto p := String.eqb (pi_Protocol pi) p in
  let fl := pi_TCPFlags pi in
  L4Incomplete (pi_Fragment pi) ||
  (proto "TCP" || proto "UDP") && (closed (pi_DstPort pi) || closed (pi_SrcPort pi)) ||
  proto "TCP" && (RST fl || SYN fl && FIN fl) ||
  SYN fl && negb (ACK fl) && (20 <=? Z.of_nat (length ports)) ||
  proto "TCP" && SYN fl && negb (ACK fl) && above pps 100 ||
  proto "ICMP" && (bool_decide (pi_ICMPType pi = Some 8) || above pps 10) ||
  above pps 10000 || above portPPS 500 || above conns 1000.

Section contract.
Context `{Builtins}.

Lemma closed_ranges p : port_in_ranges p (blocked_ports shipped) = closed p.
Proof. done. Qed.

Lemma shipped_port_scan i :
  deny_port_scan shipped i =
  (c_PacketsInFlow (i_Connection i) =? 1) && SYN (flags i) && negb (ACK (flags i)) &&
  (20 <=? Z.of_nat (length (c_RecentPorts (i_Connection i)))).
Proof.
  unfold deny_port_scan. cbn [enable_port_scan shipped andb port_scan_threshold]. f_equal.
  by destruct (c_RecentPorts (i_Connection i)).
Qed.

Lemma shipped_icmp i :
  deny_icmp shipped i = is_proto "ICMP" i && bool_decide (o_ICMPType (i_Packet i) = Some 8).
Proof.
  unfold deny_icmp. f_equal. cbn [shipped blocked_icmp_types blocked_icmp_codes].
  assert (holds_code [] (o_ICMPCode (i_Packet i)) = false) as -> by (by destruct (o_ICMPCode _)).
  rewrite orb_false_r. destruct (o_ICMPType (i_Packet i)) as [t|]; [|done]. cbn [holds_code existsb].
  rewrite orb_false_r. destruct (Z.eqb_spec t 8) as [->|]; [done |].
  symmetry. apply bool_decide_eq_false_2. congruence.
Qed.

(** The rules, in terms of the packet. *)
Lemma shipped_allow pi i flow :
  i_Packet i = document_packet pi -> i_Geo i = mkGeoInfo "" "" -> c_PacketsInFlow (i_Connection i) = 1 ->
  (exists a, ParseIP (pi_SrcIP pi) = Some a) -> (exists a, ParseIP (pi_DstIP pi) = Some a) ->
  c_Established (i_Connection i) = Established flow ->
  (pi_Protocol pi = "TCP"%string -> RST (pi_TCPFlags pi) = true -> Established flow = false) ->
  allow shipped i = negb (default_denies pi (SrcIPpps (i_Rate i)) (SrcPortPPS (i_Rate i))
                            (NewConnsPerSec (i_Rate i)) (c_RecentPorts (i_Connection i))).
Proof.
  intros Hpk Hgeo Hone [a Ha] [b Hb] Hest Hrst. unfold allow. f_equal. unfold rules.
  destruct (shipped_no_spoofing i a b) as [Hs1 Hs2]; [by rewrite Hpk | by rewrite Hpk |].
  cbn [existsb fst]. rewrite Hs1, Hs2, shipped_port_scan, shipped_icmp, Hone.
  unfold deny_syn_flood, deny_protocol_anomaly, deny_blocked_port, deny_icmp_flood, deny_state_violation,
    deny_blocked_protocol, deny_traffic_rate, deny_fragment_attack, deny_incomplete_fragment, deny_source_port,
    deny_new_conn_rate, deny_port_rate, deny_geoip_blocked_src, deny_geoip_src_not_allowed,
    deny_geoip_dst_not_allowed, deny_time_based, deny_time_based_outside_window.
  rewrite !closed_ranges, Hgeo, Hest. unfold is_proto, flags, default_denies, invalid_tcp_flags. rewrite Hpk.
  cbn [document_packet o_Protocol o_TCPFlags o_Fragment o_SrcPort o_DstPort o_ICMPType shipped enable_syn_flood
       enable_stateful enable_fragment blocked_protocols time_based_rules existsb syn_rate_per_second
       icmp_rate_per_second max_packets_per_second max_port_pps max_new_connections_per_second
       SrcCountry DstCountry country String.eqb andb orb].
  generalize (above (SrcIPpps (i_Rate i)) 100) (above (SrcIPpps (i_Rate i)) 10) (above (SrcIPpps (i_Rate i)) 10000)
    (above (SrcPortPPS (i_Rate i)) 500) (above (NewConnsPerSec (i_Rate i)) 1000)
    (bool_decide (pi_ICMPType pi = Some 8)) (closed (pi_DstPort pi)) (closed (pi_SrcPort pi))
    (20 <=? Z.of_nat (length (c_RecentPorts (i_Connection i)))) (L4Incomplete (pi_Fragment pi)).
  clear - Hrst. intros b1 b2 b3 b4 b5 b6 b7 b8 b9 b10.
  destruct (String.eqb_spec (pi_Protocol pi) "TCP") as [Ht|Ht].
  - rewrite Ht. destruct (pi_TCPFlags pi) as [syn ack rst fin]. cbn [SYN ACK RST FIN] in *.
    destruct rst; [rewrite Hrst by done|]; cbn; btauto.
  - cbn [not_allowed shipped allowed_src_countries allowed_dst_countries Z.eqb Pos.eqb andb orb]. btauto.
Qed.
End contract.

(** ** The theorems *)
Section theorems.
Context `{Builtins} (R : Rego).
Context (NewPacket : list byte -> LayerType -> option DecodedPacket) `{!GopacketSpec NewPacket}.
Implicit Types (e : Engine (EmbeddedEvaluator R)) (v : Env).

(** C2: An engine in service accepts a parsed packet exactly when the checks of the engine pass (trace
    identifier, MAC address, source rate, blocklist), the flow table gives it a flow, and no
    rule of the policy matches the document built from the packet, the flow, the rates and
    the countries; every other parsed packet is dropped.  So the pipeline of the engine, the
    embedded evaluator and the policy together decide as the rules do. *)
Theorem firewall_decides (c : PolicyConfig) v id raw pi e :
  in_service R c NewPacket e -> zlen raw < 2 ^ 63 -> ParsePacket NewPacket raw = Ok pi ->
  let decision := (packetHandler NewPacket v (mkAttribute id (Some raw)) e).2 in
  let passes := checks R v pi (zlen raw) e /\ exists flow input, presents v pi (zlen raw) e flow input /\
                                            Forall (fun r => r.1 = false) (rules c input) in
  (decision = inl 0 <-> passes) /\ (decision = inl 1 <-> ~ passes).
Proof. intros Hs. apply in_service_enforcing in Hs. by apply handler_iff. Qed.

(** No TCP segment or UDP datagram with a blocked destination or source port passes an engine in
    service, whatever packets came before it, whatever options its IPv4 header or whatever
    chain of extension headers its IPv6 packet has. *)
Theorem blocked_ports_closed (c : PolicyConfig) v id proto seg raw e :
  in_service R c NewPacket e -> zlen raw < 2 ^ 63 -> carries proto seg raw -> whole proto seg ->
  port_in_ranges (seg_DstPort seg) (blocked_ports c) = true \/
  port_in_ranges (seg_SrcPort seg) (blocked_ports c) = true ->
  (packetHandler NewPacket v (mkAttribute id (Some raw)) e).2 = inl 1.
Proof. intros Hs. apply in_service_enforcing in Hs. by apply ports_drop. Qed.

(** C10: An IPv4 packet at fragment offset zero whose bytes behind the IP header are too few for its TCP,
    UDP or ICMP header, and an IPv6 packet whose complete chain of extension headers is followed by at
    least one byte but too few for that header, is dropped by an engine in service, with any constants
    of the policy.  An IPv6 first fragment without a single byte of that header is the exception
    ([empty_first_fragment_accepted]). *)
Theorem tiny_fragment_dropped (c : PolicyConfig) v id proto seg raw e :
  in_service R c NewPacket e -> zlen raw < 2 ^ 63 -> carries proto seg raw ->
  lv_Incomplete (l4_decode proto seg) = true ->
  (packetHandler NewPacket v (mkAttribute id (Some raw)) e).2 = inl 1.
Proof. intros Hs. apply in_service_enforcing in Hs. by apply (incomplete_drop R c). Qed.

(** With the stateful rule enabled, every TCP segment with RST is dropped by an engine in service,
    also one that belongs to an established connection: the flow is marked closed before the
    policy sees it. *)
Theorem every_rst_dropped (c : PolicyConfig) v id seg raw e :
  in_service R c NewPacket e -> zlen raw < 2 ^ 63 -> carries 6 seg raw -> 20 <= zlen seg ->
  Z.testbit (rd seg 13) 2 = true -> enable_stateful c = true ->
  (packetHandler NewPacket v (mkAttribute id (Some raw)) e).2 = inl 1.
Proof. intros Hs. apply in_service_enforcing in Hs. by apply (rst_drop R c). Qed.

(** C11: With the constants of the repository and no GeoIP database, an engine in service accepts a
    parsed packet exactly when the checks of the engine pass, the flow table gives it a flow,
    and [default_denies] does not hold: everything outside the listed denials passes, over
    IPv4 and IPv6. *)
Theorem shipped_contract v id raw pi e :
  in_service R shipped NewPacket e -> geoipReader e = None -> zlen raw < 2 ^ 63 ->
  ParsePacket NewPacket raw = Ok pi ->
  let rates := (ratesOf v pi (zlen raw) (ratelimit e)).1 in
  let table := trackPort pi (flowOf v pi (conntrack e)).2 in
  (packetHandler NewPacket v (mkAttribute id (Some raw)) e).2 = inl 0 <->
  checks R v pi (zlen raw) e /\ (exists flow, (flowOf v pi (conntrack e)).1 = Some flow) /\
  default_denies pi rates.1.1 rates.2.1 (NewConnectionRate (now_conns v) (pi_SrcIP pi) table)
    (GetRecentDestPorts (pi_SrcIP pi) table) = false.
Proof.
  intros Henf Hgeo Hs Hp. apply in_service_enforcing in Henf. cbv zeta.
  destruct (handler_iff R shipped NewPacket v id raw pi e Henf Hs Hp) as [-> _].
  destruct (parsed_addresses NewPacket raw pi Hp) as [Ha Hb].
  assert (forall flow i, presents v pi (zlen raw) e flow i ->
    (Forall (fun r => r.1 = false) (rules shipped i) <->
     default_denies pi (ratesOf v pi (zlen raw) (ratelimit e)).1.1.1 (ratesOf v pi (zlen raw) (ratelimit e)).1.2.1
       (NewConnectionRate (now_conns v) (pi_SrcIP pi) (trackPort pi (flowOf v pi (conntrack e)).2))
       (GetRecentDestPorts (pi_SrcIP pi) (trackPort pi (flowOf v pi (conntrack e)).2)) = false)) as Hiff.
  { intros flow i Hpr. rewrite <-allow_true.
    pose proof (presents_fields v pi (zlen raw) e flow i Hpr) as (Hpk & Hest & Hone & Hrate).
    destruct (presents_no_geo v pi (zlen raw) e flow i Hgeo Hpr) as [Hg Hports].
    rewrite (shipped_allow pi i flow); try done.
    - rewrite Hrate, Hports. by rewrite negb_true_iff.
    - intros Ht Hr. by eapply presents_rst. }
  split.
  - intros [Hc (flow & i & Hpr & Hr)]. apply (Hiff flow i Hpr) in Hr. split_and!; [done | | done].
    exists flow. apply Hpr.
  - intros (Hc & [flow Hf] & Hd). split; [done |].
    exists flow, (policyInput v pi flow (ratesOf v pi (zlen raw) (ratelimit e)).1
                    (trackPort pi (flowOf v pi (conntrack e)).2)).
    assert (presents v pi (zlen raw) e flow (policyInput v pi flow (ratesOf v pi (zlen raw) (ratelimit e)).1
              (trackPort pi (flowOf v pi (conntrack e)).2))) as Hpr by (split; [done | by rewrite Hgeo]).
    split; [done |]. by apply (Hiff _ _ Hpr).
Qed.
End theorems.

(** ** An engine in service *)

(** An interpreter that evaluates the policy as it is translated. *)
Definition policy_rego (b : Builtins) : Rego :=
  mkRego unit PolicyConfig (fun _ => inl tt) (fun _ => [Some decisionQuery]) (fun _ _ => inl shipped)
    (fun c _ i => inl [[Some (document c i)]]).

#[local] Existing Instance sample_builtins.
#[local] Notation SR := (policy_rego sample_builtins).

Definition guarded_engine : Engine (EmbeddedEvaluator SR) :=
  New (Some (mkEmbedded SR (Some shipped) tt 0 "package l3_firewall" false))
    (NewTable DefaultConfig) (NewLimiter f0 f0) true false false None None None None None.

Lemma guarded_in_service : in_service SR shipped reference_decoder guarded_engine.
Proof.
  exists (mkEmbedded SR (Some shipped) tt 0 "package l3_firewall" false), shipped, DefaultConfig, f0, f0, true, false,
    None, None, None, None, None, None.
  split; [done |]. split; [done |]. split; [by intros ? ? ? |]. apply rtc_refl.
Qed.

(** A TCP header from [sp] to [dp] with the given flags. *)
Definition tcp_segment (sp dp flags : byte) : list byte :=
  [x00; sp; x00; dp; x00; x00; x00; x01; x00; x00; x00; x00; x50; flags; x00; x00; x00; x00; x00; x00].

Definition tcp_packet (sp dp flags : byte) : list byte :=
  [x45; x00; x00; x28; x00; x00; x00; x00; x40; x06; x00; x00; x0a; x00; x00; x01; x0a; x00; x00; x02] ++
  tcp_segment sp dp flags.

Lemma tcp_packet_carries sp dp flags : carries 6 (tcp_segment sp dp flags) (tcp_packet sp dp flags).
Proof. apply carries_v4; reflexivity || (vm_compute; discriminate). Qed.

Lemma blocked_ports_closed_witness :
  (packetHandler reference_decoder sample_env
     (mkAttribute (Some 1) (Some (v6_header x00 ++ encode_chain sample_chain 6 ++ tcp_segment x50 x16 x02)))
     guarded_engine).2 = inl 1.
Proof.
  apply (blocked_ports_closed SR reference_decoder shipped sample_env (Some 1) 6 (tcp_segment x50 x16 x02)).
  - exact guarded_in_service.
  - reflexivity.
  - apply carries_v6; try reflexivity; [lia | exact sample_chain_valid | discriminate].
  - left. split; [reflexivity | vm_compute; discriminate].
  - left. reflexivity.
Defined.

Lemma tiny_fragment_dropped_witness :
  (packetHandler reference_decoder sample_env (mkAttribute (Some 1) (Some (take 28 (tcp_packet x50 x51 x02))))
     guarded_engine).2 = inl 1.
Proof.
  apply (tiny_fragment_dropped SR reference_decoder shipped sample_env (Some 1) 6 (take 8 (tcp_segment x50 x51 x02)));
    [exact guarded_in_service | reflexivity | | reflexivity].
  apply carries_v4; reflexivity || (vm_compute; discriminate).
Defined.

Lemma every_rst_dropped_witness :
  (packetHandler reference_decoder sample_env (mkAttribute (Some 1) (Some (tcp_packet x50 x51 x14)))
     guarded_engine).2 = inl 1.
Proof.
  apply (every_rst_dropped SR reference_decoder shipped sample_env (Some 1) (tcp_segment x50 x51 x14));
    [exact guarded_in_service | reflexivity | exact (tcp_packet_carries x50 x51 x14) | vm_compute; discriminate | reflexivity..].
Defined.

(** The parsed form of an ACK between ports 80 and 81. *)
Definition ack_info : PacketInfo :=
  mkPacketInfo "" "" "10.0.0.1" "10.0.0.2" "TCP" 80 81 (mkTCPFlags false true false false) None None noFragment 40 [].

Lemma ack_parses : ParsePacket reference_decoder (tcp_packet x50 x51 x10) = Ok ack_info.
Proof. vm_compute. reflexivity. Qed.

Lemma ack_checks : checks SR sample_env ack_info 40 guarded_engine.
Proof. split; [by eexists |]. split; [done |]. split; [vm_compute; reflexivity | done]. Qed.

Lemma ack_flow : exists flow, (flowOf sample_env ack_info (conntrack guarded_engine)).1 = Some flow.
Proof. eexists. vm_compute. reflexivity. Qed.

Lemma shipped_contract_witness :
  (packetHandler reference_decoder sample_env (mkAttribute (Some 1) (Some (tcp_packet x50 x51 x10)))
     guarded_engine).2 = inl 0.
Proof.
  apply (shipped_contract SR reference_decoder sample_env (Some 1) (tcp_packet x50 x51 x10) ack_info guarded_engine
           guarded_in_service eq_refl eq_refl ack_parses).
  split; [exact ack_checks |]. split; [exact ack_flow |]. vm_compute. reflexivity.
Defined.

Lemma ack_accepted :
  (packetHandler reference_decoder sample_env (mkAttribute (Some 1) (Some (tcp_packet x50 x51 x10)))
     guarded_engine).2 = inl 0.
Proof. vm_compute. reflexivity. Qed.

Lemma firewall_decides_witness :
  exists flow input, presents sample_env ack_info 40 guarded_engine flow input /\
    Forall (fun r => r.1 = false) (rules shipped input).
Proof.
  exact (proj2 (proj1 (proj1 (firewall_decides SR reference_decoder shipped sample_env (Some 1)
    (tcp_packet x50 x51 x10) ack_info guarded_engine guarded_in_service eq_refl ack_parses)) ack_accepted)).
Defined.

(** An IPv6 first fragment (offset 0, more fragments follow) of a TCP segment to port 22
    that ends right behind its Fragment header. *)
Definition empty_first_fragment : list byte :=
  v6_header x2c ++ [x06; x00; x00; x01; x00; x00; x00; x07].

(** It carries no byte of its L4 header, but it is not marked incomplete, and an engine in
    service accepts it. *)
Theorem empty_first_fragment_accepted :
  (exists pi, ParsePacket reference_decoder empty_first_fragment = Ok pi /\
     pi_Protocol pi = "TCP"%string /\ Offset (pi_Fragment pi) = 0 /\ MoreFragments (pi_Fragment pi) = true /\
     L4Incomplete (pi_Fragment pi) = false) /\
  (packetHandler reference_decoder sample_env (mkAttribute (Some 1) (Some empty_first_fragment)) guarded_engine).2
    = inl 0.
Proof.
  split.
  - eexists. split; [vm_compute; reflexivity |]. split_and!; reflexivity.
  - vm_compute. reflexivity.
Qed.
