(* ===== verification/Interrupted.v ===== *)
(** * Packets that are interrupted

    The theorems on [packetHandler] describe a packet whose handling runs through.  Here
    other goroutines act between its critical sections (PacketSteps.v): whatever they do,
    a packet that is accepted passed the MAC filter and the blocklist, and the policy
    permitted a document built from that packet. *)
From Stdlib Require Import ZArith Lia ZifyBool Strings.Byte.
From stdpp Require Import base gmap sets list strings pretty relations.
From S2P Require Import Prelude GoTime GoFloat GoFloatFacts GoNet Packet PacketFacts PacketSpec Conntrack ConntrackFacts RateLimit RateLimitFacts L2Filter ThreatIntel Alert Opa OpaFacts ShippedPolicy ShippedPolicyFacts Engine PacketSteps EngineFacts EngineInv EndToEnd Guarantees.

Local Open Scope Z_scope.

Section interrupted.
Context {E : Type} `{Evaluator E}.
Implicit Types (e : Engine E) (v : Env) (pi : PacketInfo).

(** The rest of a callback runs from [e] and ends in [e'] with the value [a], with other
    goroutines in between. *)
Inductive handled {A : Type} : task A -> Engine E -> A -> Engine E -> Prop :=
| handled_done a e : handled (Done a) e a e
| handled_act X (c : action X) k e a e' :
    handled (k (exec c e).2) (exec c e).1 a e' -> handled (Act c k) e a e'
| handled_other t e e1 a e' : other_step e e1 -> handled t e1 a e' -> handled t e a e'.

(** These are the runs of [engine_step] from the beginning of a packet to its end. *)
Lemma handled_steps_run NewPacket t e r e' :
  handled t e r e' -> rtc (engine_step NewPacket) (mkMachine e (Some t)) (mkMachine e' None).
Proof.
  induction 1 as [a e|X c k e a e' _ IH|t e e1 a e' Ho _ IH].
  - apply rtc_once, step_return.
  - eapply rtc_l; [apply step_action | exact IH].
  - eapply rtc_l; [apply step_other; exact Ho | exact IH].
Qed.

(** Without interruption this is [run]. *)
Lemma run_handled {A} (t : task A) e a e' : run t e = (e', inl a) -> handled t e a e'.
Proof.
  revert e. induction t as [x|m|X c k IH]; intros e; simpl; [|done |].
  - intros [= <- <-]. constructor.
  - intros Hr. constructor. destruct (exec c e) as [e1 x]. by apply IH.
Qed.

(** ** What every run of a task establishes *)

(** The states in which an action can run: the configuration is that of [e0]. *)
Definition during (e0 e : Engine E) : Prop := same_config e0 e /\ engine_inv e.

Fixpoint ensures (e0 : Engine E) {A} (P : A -> Prop) (t : task A) {struct t} : Prop :=
  match t with
  | Done a => P a
  | Panicked _ => True
  | Act c k => forall e, during e0 e -> ensures e0 P (k (exec c e).2)
  end.

Lemma ensures_handled e0 {A} (P : A -> Prop) t e a e' :
  handled t e a e' -> task_ok t -> during e0 e -> ensures e0 P t -> P a.
Proof.
  induction 1 as [a e|X c k e a e' _ IH|t e e1 a e' Ho _ IH]; intros Ht [Hc Hi] Hp; [done | |].
  - destruct Ht as [Hok Hk]. apply IH; [apply Hk | | by apply Hp].
    split; [eapply same_config_trans; [exact Hc | apply exec_config] | by apply exec_inv].
  - apply IH; [done | | done]. split; [eapply same_config_trans; [exact Hc | by apply other_config] | by eapply other_inv].
Qed.

Lemma ensures_bind e0 {A B} (Q : A -> Prop) (P : B -> Prop) t k :
  ensures e0 Q t -> (forall a, Q a -> ensures e0 P (k a)) -> ensures e0 P (tbind t k).
Proof.
  intros Ht Hk. induction t as [a|m|X c h IH]; simpl in *; [by apply Hk | done |].
  intros e He. apply IH. by apply Ht.
Qed.

Lemma ensures_recover e0 {A} (P : A -> Prop) t h :
  ensures e0 P t -> (forall m, ensures e0 P (h m)) -> ensures e0 P (trecover t h).
Proof.
  intros Ht Hh. induction t as [a|m|X c k IH]; simpl in *; [done | apply Hh |].
  intros e He. apply IH. by apply Ht.
Qed.

Lemma ensures_mono e0 {A} (P Q : A -> Prop) t : (forall a, P a -> Q a) -> ensures e0 P t -> ensures e0 Q t.
Proof. intros HP. induction t as [a|m|X c k IH]; simpl; auto. Qed.

(** ** Acceptance *)

(** A document for the packet that can be encoded and that the policy permits. *)
Definition permitted e0 pi : Prop :=
  exists input, i_Packet input = document_packet pi /\ encodable input /\ policy_allows e0 input.

Lemma ensures_block e0 v pi tid reason P t :
  ensures e0 P t -> ensures (A := Result) e0 P (block_task v pi tid reason t).
Proof. intros Ht. by intros e1 _ e2 _ e3 _. Qed.

Lemma decide_ensures e0 v pi tid input :
  i_Packet input = document_packet pi -> encodable input ->
  ensures e0 (fun r => Allowed r = true -> permitted e0 pi) (decide_task v pi tid input).
Proof.
  intros Hpk Henc. unfold decide_task. intros e (Hc & _) e1 (Hc1 & _). cbn [exec snd].
  destruct Hc as (Hev & _). destruct Hc1 as (_ & Hau & Hfc & _). cbn [fst snd].
  assert (policy_allows e0 input -> permitted e0 pi) as Hok by (by exists input).
  unfold policy_allows in Hok. rewrite Hev, Hau, Hfc. destruct (eval e0) as [ev|] eqn:He.
  - destruct (Evaluate ev input) as [[[] why]| |err|m]; [| |done | |done].
    + intros e2 _ e3 _. intros _. apply Hok. eauto.
    + cbn [Allowed negb andb]. destruct (auditOnly e0).
      * intros e2 _ e3 _. intros _. apply Hok. eauto.
      * by apply ensures_block.
    + apply ensures_block. by intros e2 _.
  - destruct (failClosed e0).
    + by apply ensures_block.
    + intros e2 _ e3 _. intros _. by apply Hok.
Qed.

Lemma rates_ensures e0 v pi size tid flow :
  0 <= size < 2 ^ 63 ->
  ensures e0 (fun r => Allowed r = true -> Contains (pi_SrcIP pi) (threatIntel e0) = false /\ permitted e0 pi)
    (rates_task v pi size tid flow).
Proof.
  intros Hs. unfold rates_task. intros e (_ & He) e1 (_ & He1).
  destruct (allowKey_inv (env_bucket_order v) (now_rate v) (ipKey (pi_SrcIP pi)) size _ (einv_limiter e He) Hs)
    as (_ & Hp & Hq).
  destruct (allowKey_inv (env_port_order v) (now_port v) (portKey (pi_SrcIP pi) (pi_DstPort pi)) size _
    (einv_limiter e1 He1) Hs) as (_ & Hp' & Hq').
  cbn [exec]. unfold Allow, AllowPort.
  destruct (allowKey (env_bucket_order v) _ _ _ _) as [r l]. destruct (allowKey (env_port_order v) _ _ _ _) as [pr l'].
  cbn [fst snd] in *. intros e2 _. cbn [exec snd].
  destruct (ExceedsLimit _ _ _); [by apply ensures_block |].
  intros e3 _ e4 _ e5 ((_ & _ & _ & _ & Hti & _) & _). cbn [exec snd]. rewrite Hti.
  destruct (Contains _ _); [by apply ensures_block |].
  intros e6 _. cbn [exec snd]. set (doc := BuildInput _ _ _ _ _ _ _ _ _ _).
  destruct (geoInput (geoipReader e6) pi doc) as [input|m|m] eqn:Hg; [|done..].
  apply geoInput_fields in Hg as (Hpk & _ & Hr & _).
  eapply ensures_mono; [|apply (decide_ensures e0 v pi tid input); [by rewrite Hpk |]]; [by auto |].
  unfold encodable. rewrite Hr.
  split_and!; [apply Hp | apply Hq | apply Hp' | apply Hq' | apply NewConnectionRate_finite].
Qed.

Lemma evaluate_ensures e0 v pi size :
  0 <= size < 2 ^ 63 ->
  ensures e0 (fun r => Allowed r = true ->
      (exists b, env_rand v = inl b) /\ (MACAllowed (l2Filter e0) (pi_SrcMAC pi)).1 = true /\
      Contains (pi_SrcIP pi) (threatIntel e0) = false /\ permitted e0 pi)
    (evaluatePacket_task v pi size).
Proof.
  intros Hs. apply ensures_recover; [|by intros m e1 _ e2 _]. unfold evaluate_task. intros e _.
  destruct (env_rand v) as [b|err] eqn:Hb; [|done]. intros e1 _.
  destruct (exec (ALookup v pi) e1).2 as [flow|].
  2:{ apply ensures_block. by intros e2 _. }
  intros e2 _ e3 ((_ & _ & _ & _ & _ & _ & Hl2) & _). cbn [exec snd]. rewrite Hl2.
  destruct (MACAllowed (l2Filter e0) (pi_SrcMAC pi)) as [[] why]; cbn [fst snd negb]; [|by apply ensures_block].
  eapply ensures_mono; [|by apply (rates_ensures e0 v pi size (text (hexString b)) flow)].
  intros r Hr Ha. destruct (Hr Ha) as [H1 H2]. split_and!; [by exists b | done..].
Qed.

(** The packet carries a payload that parses, and it passed. *)
Definition passed NewPacket v attr e0 : Prop :=
  exists raw pi, Payload attr = Some raw /\ ParsePacket NewPacket raw = Ok pi /\
    (exists b, env_rand v = inl b) /\ (MACAllowed (l2Filter e0) (pi_SrcMAC pi)).1 = true /\
    Contains (pi_SrcIP pi) (threatIntel e0) = false /\ permitted e0 pi.

Lemma packet_ensures e0 NewPacket v attr :
  (forall raw, Payload attr = Some raw -> zlen raw < 2 ^ 63) ->
  ensures e0 (fun d => d = 0 -> passed NewPacket v attr e0) (packet_task NewPacket v attr).
Proof.
  intros Hraw. apply ensures_recover; [|by intros m e1 _ e2 _]. unfold handler_task.
  destruct (Payload attr) as [raw|] eqn:Hp; [|by intros e1 _ e2 _].
  destruct (ParsePacket NewPacket raw) as [pi|err|m] eqn:Hpi; [|by intros e1 _ e2 _ | done].
  eapply ensures_bind; [apply (evaluate_ensures e0 v pi (zlen raw)); split; [unfold zlen; lia | by apply Hraw] |].
  intros r Hr. cbv beta in Hr. destruct (Allowed r).
  - intros _. exists raw, pi. split; [done |]. split; [done |]. by apply Hr.
  - intros e1 _. destruct (exec (ACapture raw) e1).2 as [[]|]; try done.
Qed.

(** What a callback reports and returns. *)
Definition verdict_ok NewPacket v (send : Z -> verdict -> option string) attr e0 (r : list (Z * verdict) * Z) : Prop :=
  match PacketID attr with
  | None => r = ([], 1)
  | Some id => exists d, r = ([(id, d)], if bool_decide (send id d = None) then 0 else 1) /\
      (d = NfAccept -> passed NewPacket v attr e0)
  end.

Lemma callback_ensures e0 NewPacket v send attr :
  (forall raw, Payload attr = Some raw -> zlen raw < 2 ^ 63) ->
  ensures e0 (verdict_ok NewPacket v send attr e0) (callback_task NewPacket v send attr).
Proof.
  intros Hraw. unfold callback_task, verdict_ok. destruct (PacketID attr) as [id|]; [|done].
  eapply ensures_bind; [by apply packet_ensures |]. intros d Hd. cbv beta in Hd.
  exists (if d =? 0 then NfAccept else NfDrop). split; [by destruct (send id _) |].
  destruct (Z.eqb_spec d 0); [by auto | done].
Qed.

Lemma handled_verdict NewPacket v send attr e r e' :
  engine_inv e -> (forall raw, Payload attr = Some raw -> zlen raw < 2 ^ 63) ->
  handled (callback_task NewPacket v send attr) e r e' -> verdict_ok NewPacket v send attr e r.
Proof.
  intros He Hraw Hh. eapply ensures_handled; [exact Hh | by apply callback_task_ok | by split |]. by apply callback_ensures.
Qed.
End interrupted.


(** C7: An engine in service drops a TCP segment or UDP datagram with a blocked destination or source
    port also when other goroutines run between the critical sections of its handling: no
    interleaving with maintenance lets such a packet through. *)
Theorem interrupted_ports_closed `{Builtins} (R : Rego) (c : PolicyConfig) NewPacket `{!GopacketSpec NewPacket}
    v send id proto seg raw (e : Engine (EmbeddedEvaluator R)) r e' :
  in_service R c NewPacket e -> zlen raw < 2 ^ 63 -> carries proto seg raw -> whole proto seg ->
  port_in_ranges (seg_DstPort seg) (blocked_ports c) = true \/
  port_in_ranges (seg_SrcPort seg) (blocked_ports c) = true ->
  handled (callback_task NewPacket v send (mkAttribute (Some id) (Some raw))) e r e' ->
  r.1 = [(id, NfDrop)].
Proof.
  intros Hin Hs Hc Hw Hport Hh. apply in_service_enforcing in Hin.
  assert (verdict_ok NewPacket v send (mkAttribute (Some id) (Some raw)) e r) as (d & -> & Hd).
  { eapply handled_verdict; [exact (enf_inv R c e Hin) | by intros raw' [= <-] | exact Hh]. }
  destruct d; [done | exfalso]. destruct (Hd eq_refl) as (raw' & pi & [= <-] & Hp & _ & _ & _ & input & Hpk & Henc & Hal).
  apply (policy_decides R c e input Hin Henc) in Hal.
  destruct (carries_parses NewPacket proto seg raw Hc) as (pi' & Hp' & Hv). rewrite Hp in Hp'. injection Hp' as <-.
  by rewrite (ports_denied c proto seg pi input Hw Hv Hpk Hport) in Hal.
Qed.

(** ** Concrete runs *)
#[local] Existing Instance sample_builtins.
#[local] Notation SR := (policy_rego sample_builtins).

(** Some actions, an expiry, and the rest. *)
Definition interrupted_result {E} `{Evaluator E} fo now (n : nat) (t : task (list (Z * verdict) * Z)) (e : Engine E)
  : (list (Z * verdict) * Z) + string :=
  let m := advance n (mkMachine e (Some t)) in
  (run (default (Panicked "") (m_task m)) (expire_engine fo now (m_engine m))).2.

Lemma handled_interrupted {E} `{Evaluator E} fo now (n : nat) t (e : Engine E) r :
  interrupted_result fo now n t e = inl r -> exists e', handled t e r e'.
Proof.
  unfold interrupted_result. revert t e. induction n as [|n IH]; intros t e.
  - cbn. destruct (run t (expire_engine fo now e)) as [e' x] eqn:Hr. cbn. intros ->. exists e'.
    eapply handled_other; [apply (other_expire e fo now) |]. by apply run_handled.
  - destruct t as [a|m|X c k].
    + intros Hr. apply (IH (Done a) e). destruct n; exact Hr.
    + intros Hr. destruct n; done.
    + intros Hr. destruct (IH (k (exec c e).2) (exec c e).1 Hr) as [e' He]. exists e'. by apply handled_act.
Qed.

Definition late : Time := mkTime (600 * Second) (Some (600 * Second)).

Definition ack_task : task (list (Z * verdict) * Z) :=
  callback_task reference_decoder sample_env (fun _ _ => None) (mkAttribute (Some 1) (Some (tcp_packet x50 x51 x10))).

(** An ACK to port 81 whose flow is expired right after its lookup. *)
Lemma ack_interrupted : exists e', handled ack_task guarded_engine ([(1, NfAccept)], 0) e'.
Proof. apply (handled_interrupted (map_order _ _) late 2). vm_compute. reflexivity. Qed.

Lemma guarded_inv : engine_inv guarded_engine.
Proof. exact (enf_inv SR shipped _ (in_service_enforcing _ _ _ _ guarded_in_service)). Qed.


(** A SYN to port 22, interrupted in the same way. *)
Lemma ssh_interrupted :
  exists r e', handled (callback_task reference_decoder sample_env (fun _ _ => None)
    (mkAttribute (Some 1) (Some (tcp_packet x50 x16 x02)))) guarded_engine r e'.
Proof.
  eexists. apply (handled_interrupted (map_order _ _) late 2). vm_compute. reflexivity.
Qed.

Lemma interrupted_ports_closed_witness :
  exists r e', handled (callback_task reference_decoder sample_env (fun _ _ => None)
    (mkAttribute (Some 1) (Some (tcp_packet x50 x16 x02)))) guarded_engine r e' /\ r.1 = [(1, NfDrop)].
Proof.
  destruct ssh_interrupted as (r & e' & Hh). exists r, e'. split; [exact Hh |].
  apply (interrupted_ports_closed SR shipped reference_decoder sample_env (fun _ _ => None) 1 6 (tcp_segment x50 x16 x02)
           (tcp_packet x50 x16 x02) guarded_engine r e');
    [exact guarded_in_service | reflexivity | exact (tcp_packet_carries x50 x16 x02)
    | left; split; [reflexivity | vm_compute; discriminate] | left; reflexivity | exact Hh].
Defined.
