(* ===== verification/BlockLog.v ===== *)
(** * The block log tells what happened

    The recent blocks and the counters per reason after one packet: unchanged when it is
    permitted, one entry with the packet's fields and the reason of the decision when it
    is not; with the shipped policy that reason is the one of the least matching rule. *)
From Stdlib Require Import ZArith Lia ZifyBool Strings.Byte.
From stdpp Require Import base gmap sets list strings pretty relations.
From S2P Require Import Prelude GoTime GoFloat GoNet Packet PacketFacts Conntrack RateLimit L2Filter ThreatIntel Alert Opa OpaFacts ShippedPolicy ShippedPolicyFacts Engine EngineFacts EngineInv EndToEnd Guarantees.

Local Open Scope Z_scope.

Section block_log.
Context {E : Type} `{Evaluator E}.
Implicit Types (e : Engine E) (v : Env) (pi : PacketInfo).

(** The parts of the engine the log consists of. *)
Definition blog e : list BlockLogEntry * gmap string Z := (recentBlocks e, blockStats e).

(** [recordBlock] on the log. *)
Definition block_entry v pi (reason tid : string) : BlockLogEntry :=
  mkBlockLogEntry (now_block v) (pi_SrcIP pi) (pi_DstIP pi) (pi_Protocol pi) (pi_SrcPort pi) (pi_DstPort pi)
    (truncate reason) (pi_PacketSize pi) tid.

Definition logged v pi (reason tid : string) (l : list BlockLogEntry * gmap string Z)
  : list BlockLogEntry * gmap string Z :=
  ((if maxRecentBlocks <=? Z.of_nat (length l.1) then drop 1 l.1 else l.1) ++ [block_entry v pi reason tid],
   if Z.of_nat (size l.2) <? maxBlockStatsReasons
   then <[truncate reason := wrap64 (default 0 (l.2 !! truncate reason) + 1)]> l.2 else l.2).

(** [m] does not panic, keeps the configuration and changes the log by [f]. *)
Definition writes {A} (f : list BlockLogEntry * gmap string Z -> list BlockLogEntry * gmap string Z)
    (m : M E A) (a : A) : Prop :=
  forall e, exists e', m e = (e', inl a) /\ blog e' = f (blog e).

Lemma writes_ret {A} (a : A) : writes (fun l => l) (ret a) a.
Proof. intros e. by exists e. Qed.

Lemma writes_bind {A B} f g (m : M E A) (k : A -> M E B) a b :
  writes f m a -> writes g (k a) b -> writes (fun l => g (f l)) (bind m k) b.
Proof.
  intros Hm Hk e. destruct (Hm e) as (e1 & He1 & Hl1). destruct (Hk e1) as (e2 & He2 & Hl2).
  exists e2. unfold bind. by rewrite He1, He2, Hl2, Hl1.
Qed.

Lemma writes_count dp da db : writes (fun l => l) (modify (count (E := E) dp da db)) tt.
Proof. intros e. by eexists. Qed.

Lemma writes_logAudit v ty tid pi reason : writes (fun l => l) (logAudit (E := E) v ty tid pi reason) tt.
Proof. intros e. eexists. split; [done |]. by destruct (auditLog e). Qed.

Lemma writes_fireAlert v ty msg : writes (fun l => l) (fireAlert (E := E) v ty msg) tt.
Proof.
  intros e. eexists. split; [done |]. destruct (alertRouter e) as [r|]; [|done]. by destruct (Send _ _ _).
Qed.

Lemma writes_recordBlock v pi reason tid : writes (logged v pi reason tid) (recordBlock (E := E) v pi reason tid) tt.
Proof. intros e. eexists. split; [done |]. done. Qed.

#[local] Hint Resolve writes_ret writes_count writes_logAudit writes_fireAlert writes_recordBlock : fw.

Lemma writes_blockPacket v pi tid reason : writes (logged v pi reason tid) (blockPacket (E := E) v pi tid reason) tt.
Proof.
  unfold blockPacket. eapply (writes_bind (fun l => l) _); [auto with fw |].
  eapply (writes_bind _ (fun l => l)); auto with fw.
Qed.

(** A block and its result; a permission and its result. *)
Lemma writes_block v pi tid reason why :
  writes (logged v pi reason tid) (bind (blockPacket (E := E) v pi tid reason) (fun _ => ret (mkResult false why)))
    (mkResult false why).
Proof. eapply (writes_bind _ (fun l => l)); [apply writes_blockPacket | auto with fw]. Qed.

Lemma writes_block_alert v pi tid reason why ty msg :
  writes (logged v pi reason tid)
    (bind (blockPacket (E := E) v pi tid reason) (fun _ => bind (fireAlert v ty msg) (fun _ => ret (mkResult false why))))
    (mkResult false why).
Proof.
  eapply (writes_bind _ (fun l => l)); [apply writes_blockPacket |].
  eapply (writes_bind (fun l => l) (fun l => l)); auto with fw.
Qed.

Lemma writes_allow v pi tid reason ty (r : Result) :
  writes (fun l => l) (bind (modify (count (E := E) 0 1 0)) (fun _ => bind (logAudit v ty tid pi reason) (fun _ => ret r))) r.
Proof.
  eapply (writes_bind (fun l => l) (fun l => l)); [auto with fw |].
  eapply (writes_bind (fun l => l) (fun l => l)); auto with fw.
Qed.

Lemma truncate_idemp s : truncate (truncate s) = truncate s.
Proof.
  pose proof (truncate_ok s) as Hl. unfold reason_ok in Hl. unfold truncate at 1.
  destruct (Nat.ltb_spec maxReasonLength (String.length (truncate s))); [lia | done].
Qed.

(** A result and the log it leaves. *)
Definition accounts v pi tid (r : Result) e e' : Prop :=
  blog e' = if Allowed r then blog e else logged v pi (Reason r) tid (blog e).

Definition logs v pi tid (m : M E Result) e : Prop :=
  exists e' r, m e = (e', inl r) /\ accounts v pi tid r e e'.

Lemma logs_block v pi tid reason e :
  logs v pi tid (bind (blockPacket v pi tid reason) (fun _ => ret (mkResult false reason))) e.
Proof.
  destruct (writes_block v pi tid reason reason e) as (e' & He & Hl). exists e', (mkResult false reason). by split.
Qed.

Lemma logs_block_alert v pi tid reason ty msg e :
  logs v pi tid (bind (blockPacket v pi tid reason) (fun _ => bind (fireAlert v ty msg) (fun _ => ret (mkResult false reason)))) e.
Proof.
  destruct (writes_block_alert v pi tid reason reason ty msg e) as (e' & He & Hl).
  exists e', (mkResult false reason). by split.
Qed.

Lemma logs_allow v pi tid reason ty r e :
  Allowed r = true ->
  logs v pi tid (bind (modify (count 0 1 0)) (fun _ => bind (logAudit v ty tid pi reason) (fun _ => ret r))) e.
Proof.
  intros Hr. destruct (writes_allow v pi tid reason ty r e) as (e' & He & Hl).
  exists e', r. split; [done |]. unfold accounts. by rewrite Hr.
Qed.

Lemma logs_decide_policy v pi tid input e :
  panic_free v e -> logs v pi tid (decide_policy v pi tid input) e.
Proof.
  intros [_ Hev _ _]. unfold decide_policy, logs. unfold bind at 1, get at 1.
  destruct (eval e) as [ev|].
  - specialize (Hev ev input eq_refl). destruct (Evaluate ev input) as [[[] reason]| |err|m]; try done.
    + apply logs_allow. done.
    + cbn [Allowed negb andb]. destruct (auditOnly e); [apply logs_allow; done | apply logs_block].
    + apply logs_block_alert.
  - destruct (failClosed e); [apply logs_block | apply logs_allow; done].
Qed.

(** A prefix that does not touch the log. *)
Lemma logs_after v pi tid (k : M E Result) e e1 :
  blog e1 = blog e -> logs v pi tid k e1 -> exists e' r, k e1 = (e', inl r) /\ accounts v pi tid r e e'.
Proof. intros Hb (e' & r & Hk & Ha). exists e', r. split; [done |]. unfold accounts in *. by rewrite Ha, Hb. Qed.

Lemma evaluate_body_logs v pi size e b :
  panic_free v e -> env_rand v = inl b -> logs v pi (text (hexString b)) (evaluate_body v pi size) e.
Proof.
  intros Hpf Hb. unfold logs, evaluate_body. unfold bind at 1, modify at 1.
  unfold bind at 1, newTraceID. rewrite Hb. unfold ret at 1, bind at 1, trackFlow.
  set (e1 := count 1 0 0 e). destruct (flowOf v pi (conntrack e1)) as [[flow|] ct].
  2:{ apply logs_after; [done | apply logs_block_alert]. }
  unfold bind at 1, modify at 1. unfold bind at 1, get at 1. set (e2 := set_tracking (trackPort pi _) _ _).
  destruct (MACAllowed (l2Filter e2) (pi_SrcMAC pi)) as [[] why]; cbn [negb].
  2:{ apply logs_after; [done | apply logs_block]. }
  unfold bind at 1, trackRates. destruct (ratesOf v pi size (ratelimit e2)) as [[[pps bps] pr] l].
  unfold bind at 1, get at 1. cbn [fst]. set (e3 := set_tracking (conntrack e2) l e2).
  destruct (ExceedsLimit (ratelimit e3) pps bps); [apply logs_after; [done | apply logs_block] |].
  destruct (Contains (pi_SrcIP pi) (threatIntel e3)); [apply logs_after; [done | apply logs_block] |].
  unfold bind at 1. assert (panic_free v e3) as Hpf3 by (eapply panic_free_config; [|exact Hpf]; done).
  destruct (geoInput (geoipReader e3) pi _) as [input|err|m] eqn:Hgeo; cbn [lift ret].
  - apply logs_after; [done | by apply logs_decide_policy].
  - by destruct (geoInput_no_err _ _ _ _ Hgeo).
  - exfalso. eapply geoInput_panic; [|exact Hgeo]. intros d a m' Hd. by apply (pf_geo v e3 Hpf3).
Qed.

Lemma evaluatePacket_logs v pi size e b :
  panic_free v e -> env_rand v = inl b -> logs v pi (text (hexString b)) (evaluatePacket v pi size) e.
Proof.
  intros Hpf Hb. destruct (evaluate_body_logs v pi size e b Hpf Hb) as (e' & r & He & Ha).
  exists e', r. split; [|done]. unfold evaluatePacket, recovering. by rewrite He.
Qed.
End block_log.

(** C14: As long as nothing the engine calls panics, a permitted packet leaves the block log and the
    counters per reason as they are, and a blocked one appends exactly one entry, with the
    addresses, protocol, ports and size of the packet, its trace identifier and the reason
    of the decision cut at 1024 bytes, drops the oldest entry when there are 100, and
    counts the reason while there are fewer than 256. *)
Theorem block_log_exact {E} `{Evaluator E} v pi size (e : Engine E) b :
  panic_free v e -> env_rand v = inl b ->
  exists e' r, evaluatePacket v pi size e = (e', inl r) /\
    blog e' = if Allowed r then blog e else logged v pi (Reason r) (text (hexString b)) (blog e).
Proof. apply evaluatePacket_logs. Qed.

(** A closed engine whose evaluator denies. *)
#[local] Instance denying_evaluator : Evaluator unit := fun _ _ => OResult (mkResult false "no").

Lemma block_log_exact_witness :
  exists e' r, evaluatePacket sample_env ack_info 40
      (New (Some tt) (NewTable DefaultConfig) (NewLimiter f0 f0) false false false None None None None None) = (e', inl r) /\
    recentBlocks e' = [block_entry sample_env ack_info "no" (text (hexString [1; 2; 3; 4]))] /\
    blockStats e' = {[ "no"%string := 1 ]}.
Proof.
  set (e := New (Some tt) _ _ _ _ _ _ _ _ _ _).
  destruct (block_log_exact sample_env ack_info 40 e [1; 2; 3; 4]) as (e' & r & He & Hl).
  - split; [by eexists | intros ? ? [= <-]; exact I | discriminate | discriminate].
  - reflexivity.
  - assert ((evaluatePacket sample_env ack_info 40 e).2 = inl (mkResult false "no")) as Hr by (vm_compute; reflexivity).
    rewrite He in Hr. cbn [snd] in Hr. assert (r = mkResult false "no") as -> by (by injection Hr).
    cbn [Allowed Reason] in Hl. exists e', (mkResult false "no"). split; [exact He |].
    split; [exact (f_equal fst Hl) |]. rewrite (f_equal snd Hl : blockStats e' = _). vm_compute. reflexivity.
Defined.

(** ** The reasons of the policy *)
Section policy_reason.
Context `{Builtins} (R : Rego) (c : PolicyConfig).
Implicit Types (e : Engine (EmbeddedEvaluator R)) (v : Env).

Lemma logged_truncate v pi r tid l : logged v pi (truncate r) tid l = logged v pi r tid l.
Proof. unfold logged, block_entry. by rewrite truncate_idemp. Qed.

(** After its checks the pipeline is the decision of the policy. *)
Lemma body_decides v pi size e flow input b :
  checks R v pi size e -> env_rand v = inl b -> presents v pi size e flow input ->
  exists e3, same_config e e3 /\ blog e3 = blog e /\
    evaluate_body v pi size e = decide_policy v pi (text (hexString b)) input e3.
Proof.
  intros (_ & Hmac & Hrate & Hti) Hb [Hflow Hgeo]. unfold evaluate_body. unfold bind at 1, modify at 1.
  unfold bind at 1, newTraceID. rewrite Hb. unfold ret at 1, bind at 1, trackFlow. cbn [count conntrack ratelimit].
  destruct (flowOf v pi (conntrack e)) as [f ct]. cbn [fst snd] in Hflow, Hgeo. subst f.
  unfold bind at 1, modify at 1. unfold bind at 1, get at 1. cbn [set_tracking l2Filter count conntrack ratelimit].
  destruct (MACAllowed (l2Filter e) (pi_SrcMAC pi)) as [m why]. cbn [fst] in Hmac. subst m. cbn [negb].
  unfold bind at 1, trackRates. cbn [set_tracking ratelimit conntrack count].
  destruct (ratesOf v pi size (ratelimit e)) as [[[pps bps] pr] l]. unfold bind at 1, get at 1.
  cbn [set_tracking ratelimit conntrack count fst threatIntel geoipReader snd] in *. rewrite Hrate, Hti.
  unfold bind at 1. rewrite Hgeo. cbn [lift ret]. eexists. split; [|split; [|reflexivity]]; done.
Qed.

Lemma decide_policy_denies v pi tid input e r :
  (exists ev p, eval e = Some ev /\ e_prepared R ev = Some p /\ runs_policy R c p) -> auditOnly e = false ->
  encodable input -> deny_reason c input = Some r ->
  exists e', decide_policy v pi tid input e = (e', inl (mkResult false (truncate r))) /\
    blog e' = logged v pi r tid (blog e).
Proof.
  intros (ev & p & Hev & Hp & Hr) Ha He Hd. unfold decide_policy. unfold bind at 1, get at 1. rewrite Hev, Ha.
  change (Evaluate ev input) with (Evaluate_embedded R ev input). rewrite (Evaluate_policy R c ev p input Hp Hr He).
  pose proof (denial_spec c input) as Hs. rewrite Hd in *. destruct Hs as [Hal _]. rewrite Hal.
  cbn [Allowed negb andb Reason default]. change (default ""%string (Some r)) with r.
  destruct (writes_block v pi tid (truncate r) (truncate r) e) as (e' & He' & Hl).
  exists e'. split; [exact He' |]. rewrite Hl. apply logged_truncate.
Qed.
End policy_reason.

(** C13: When the checks of the engine pass and rules of the policy match, the packet is blocked with the
    least of the texts of the matching rules, cut at 1024 bytes, and exactly that reason,
    with the fields of the packet, is appended to the block log and counted (while fewer than 256
    reasons are). *)
Theorem policy_reason_logged `{Builtins} (R : Rego) (c : PolicyConfig) NewPacket v pi size
    (e : Engine (EmbeddedEvaluator R)) flow input b r :
  in_service R c NewPacket e -> 0 <= size < 2 ^ 63 -> checks R v pi size e -> env_rand v = inl b ->
  presents v pi size e flow input -> deny_reason c input = Some r ->
  exists e', evaluatePacket v pi size e = (e', inl (mkResult false (truncate r))) /\
    blog e' = logged v pi r (text (hexString b)) (blog e).
Proof.
  intros Hs Hsz Hc Hb Hp Hr. apply in_service_enforcing in Hs.
  destruct (body_decides R v pi size e flow input b Hc Hb Hp) as (e3 & Hcfg & Hlog & Hbody).
  pose proof (presents_encodable v pi size e flow input (enf_inv R c e Hs) Hsz Hp) as Henc.
  assert (exists e', decide_policy v pi (text (hexString b)) input e3 = (e', inl (mkResult false (truncate r))) /\
            blog e' = logged v pi r (text (hexString b)) (blog e3)) as (e' & He & Hl).
  { destruct Hcfg as (Hev & Hau & _). apply (decide_policy_denies R c); [| |done | done].
    - rewrite Hev. apply (enf_eval R c e Hs).
    - rewrite Hau. apply (enf_audit R c e Hs). }
  exists e'. split; [unfold evaluatePacket, recovering; by rewrite Hbody, He |]. by rewrite Hl, Hlog.
Qed.

#[local] Existing Instance sample_builtins.

(** A SYN to port 22. *)
Definition ssh_info : PacketInfo :=
  mkPacketInfo "" "" "10.0.0.1" "10.0.0.2" "TCP" 80 22 (mkTCPFlags true false false false) None None noFragment 40 [].

Lemma ssh_checks : checks (policy_rego sample_builtins) sample_env ssh_info 40 guarded_engine.
Proof. split; [by eexists |]. split; [done |]. split; [vm_compute; reflexivity | done]. Qed.

Lemma ssh_presented : exists flow input,
  presents sample_env ssh_info 40 guarded_engine flow input /\
  deny_reason shipped input = Some "blocked port 22 (TCP)"%string.
Proof. eexists _, _. split; [split; [vm_compute; reflexivity | reflexivity] | vm_compute; reflexivity]. Qed.

Lemma policy_reason_logged_witness :
  exists e', evaluatePacket sample_env ssh_info 40 guarded_engine =
      (e', inl (mkResult false (truncate "blocked port 22 (TCP)"))) /\
    recentBlocks e' = [block_entry sample_env ssh_info "blocked port 22 (TCP)" (text (hexString [1; 2; 3; 4]))].
Proof.
  destruct ssh_presented as (flow & input & Hp & Hr).
  destruct (policy_reason_logged (policy_rego sample_builtins) shipped reference_decoder sample_env ssh_info 40
    guarded_engine flow input [1; 2; 3; 4] "blocked port 22 (TCP)" guarded_in_service) as (e' & He & Hl);
    [lia | exact ssh_checks | reflexivity | exact Hp | exact Hr |].
  exists e'. split; [exact He |]. apply (f_equal fst) in Hl. exact Hl.
Defined.
