(* ===== verification/Metrics.v ===== *)
(** * Package [metrics]: the collectors of the process

    Translated from src/internal/metrics/metrics.go.  The package keeps the collectors
    in a global variable behind a [sync.Once] and registers them with the default
    registry of the Prometheus client.  That registry belongs to a third-party package:
    it is a class that states what the documentation of [MustRegister] promises. *)
From Stdlib Require Import ZArith Lia ZifyBool.
From stdpp Require Import base gmap sets list strings.
From S2P Require Import Prelude.

Local Open Scope Z_scope.

(** A registry knows collectors by name.  [MustRegister] gives the registry after the
    call and the message of its panic, if it panics: names that are new and distinct
    are registered, a name that is already known is refused. *)
Class Registry (R : Type) : Type := {
  names : R -> gset string;
  MustRegister : list string -> R -> R * option string;
  MustRegister_new cs r : NoDup cs -> (forall c, c ∈ cs -> c ∉ names r) ->
    (MustRegister cs r).2 = None /\ names (MustRegister cs r).1 = names r ∪ list_to_set cs;
  MustRegister_known cs r c : c ∈ cs -> c ∈ names r -> (MustRegister cs r).2 <> None;
}.

(** A vector of counters or gauges: its name and the names of its labels. *)
Record Vec : Type := mkVec { v_Name : string; v_labels : list string }.

(** [T] is what the gauge of tracked connections reads. *)
Record Metrics (T : Type) : Type := mkMetrics {
  m_PacketsProcessed : Vec;
  m_PacketsAllowed : Vec;
  m_PacketsBlocked : Vec;
  m_PacketRate : Vec;
  m_ConntrackEntries : option (string * (T -> Z));
  m_RuleUpdates : string;
  m_AuditBlocks : Vec;
}.
Arguments mkMetrics {T}.
Arguments m_PacketsProcessed {T}. Arguments m_PacketsAllowed {T}. Arguments m_PacketsBlocked {T}.
Arguments m_PacketRate {T}. Arguments m_ConntrackEntries {T}. Arguments m_RuleUpdates {T}.
Arguments m_AuditBlocks {T}.

Definition conntrack_name : string := "l3_firewall_conntrack_entries".

(** The collectors [newMetrics] builds before it registers them. *)
Definition build {T} (getConntrackLen : option (T -> Z)) : Metrics T :=
  mkMetrics
    (mkVec "l3_firewall_packets_processed_total" ["protocol"%string])
    (mkVec "l3_firewall_packets_allowed_total" ["protocol"%string])
    (mkVec "l3_firewall_packets_blocked_total" ["reason"%string])
    (mkVec "l3_firewall_packet_rate" ["src_ip"%string])
    (match getConntrackLen with Some f => Some (conntrack_name, f) | None => None end)
    "l3_firewall_rule_updates_total"
    (mkVec "l3_firewall_audit_blocks_total" ["reason"%string]).

(** The arguments of the first call of [MustRegister]. *)
Definition registered_first {T} (mt : Metrics T) : list string :=
  [v_Name (m_PacketsProcessed mt); v_Name (m_PacketsAllowed mt); v_Name (m_PacketsBlocked mt);
   v_Name (m_PacketRate mt); m_RuleUpdates mt; v_Name (m_AuditBlocks mt)].

Section metrics.
Context {R T : Type} `{Registry R}.

(** The package's variables and the registry. *)
Record Globals : Type := mkGlobals { initOnce : bool; m : option (Metrics T); registry : R }.

(** [newMetrics]: the variable is assigned before anything is registered. *)
Definition newMetrics (getConntrackLen : option (T -> Z)) (g : Globals) : res (Metrics T) * Globals :=
  let mt := build getConntrackLen in
  match MustRegister (registered_first mt) (registry g) with
  | (r, Some msg) => (Panic msg, mkGlobals (initOnce g) (Some mt) r)
  | (r, None) =>
      match m_ConntrackEntries mt with
      | None => (Ok mt, mkGlobals (initOnce g) (Some mt) r)
      | Some (name, _) =>
          match MustRegister [name] r with
          | (r, Some msg) => (Panic msg, mkGlobals (initOnce g) (Some mt) r)
          | (r, None) => (Ok mt, mkGlobals (initOnce g) (Some mt) r)
          end
      end
  end.

(** [Init]: [Once.Do] counts a call that panics as done.  The result is [None] for a
    nil pointer. *)
Definition Init (getConntrackLen : option (T -> Z)) (g : Globals) : res (option (Metrics T)) * Globals :=
  if initOnce g then (Ok (m g), g)
  else
    match newMetrics getConntrackLen g with
    | (Ok _, g') => (Ok (m g'), mkGlobals true (m g') (registry g'))
    | (Err e, g') => (Err e, mkGlobals true (m g') (registry g'))
    | (Panic msg, g') => (Panic msg, mkGlobals true (m g') (registry g'))
    end.

Definition Get (g : Globals) : res (Metrics T) :=
  match m g with
  | None => Panic "metrics: Init() must be called before Get()"
  | Some mt => Ok mt
  end.

(** The names of the collectors that [Init] registers for its argument. *)
Definition collector_names (getConntrackLen : option (T -> Z)) : list string :=
  registered_first (build getConntrackLen) ++
  match getConntrackLen with Some _ => [conntrack_name] | None => [] end.

(** A process that has not called [Init] yet, with a registry that has none of the
    names. *)
Definition fresh_process (g : Globals) : Prop :=
  initOnce g = false /\ m g = None /\
  forall c, c ∈ collector_names (Some (fun _ => 0)) -> c ∉ names (registry g).

Lemma newMetrics_fresh f g :
  fresh_process g ->
  exists r, newMetrics f g = (Ok (build f), mkGlobals false (Some (build f)) r) /\
    names r = names (registry g) ∪ list_to_set (collector_names f).
Proof.
  intros (Hi & _ & Hn). unfold newMetrics.
  assert (forall c, c ∈ registered_first (build f) -> c ∉ names (registry g)) as Hfirst.
  { intros c Hc. apply Hn. apply elem_of_app. left. exact Hc. }
  assert (NoDup (registered_first (build f))) as Hnd by (apply (bool_decide_eq_true_1 (NoDup (registered_first (build f)))); vm_compute; done).
  destruct (MustRegister_new _ _ Hnd Hfirst) as [Hp Hr].
  destruct (MustRegister (registered_first (build f)) (registry g)) as [r [msg|]]; [done |]. cbn [fst] in Hr.
  rewrite Hi. destruct f as [f|]; simpl; [|by exists r].
  assert (forall c, c ∈ [conntrack_name] -> c ∉ names r) as Hlast.
  { intros c ->%list_elem_of_singleton. rewrite Hr. intros [Hc|Hc%elem_of_list_to_set]%elem_of_union.
    - apply (Hn conntrack_name); [apply elem_of_app; right; by left | done].
    - revert Hc. apply (bool_decide_eq_true_1 (conntrack_name ∉ registered_first (build (Some f)))). by vm_compute. }
  destruct (MustRegister_new [conntrack_name] r (NoDup_singleton _) Hlast) as [Hp' Hr'].
  destruct (MustRegister [conntrack_name] r) as [r' [msg|]]; [done |]. cbn [fst] in Hr'.
  exists r'. split; [done |]. rewrite Hr', Hr, <-assoc_L, <-list_to_set_app_L by apply _. done.
Qed.

(** The calls of [Init] of a process. *)
Fixpoint init_calls (fs : list (option (T -> Z))) (g : Globals) : list (res (option (Metrics T))) * Globals :=
  match fs with
  | [] => ([], g)
  | f :: fs => let '(x, g) := Init f g in let '(xs, g) := init_calls fs g in (x :: xs, g)
  end.

Lemma init_calls_done mt r fs :
  init_calls fs (mkGlobals true (Some mt) r) = (List.map (fun _ => Ok (Some mt)) fs, mkGlobals true (Some mt) r).
Proof. induction fs as [|f fs IH]; [done |]. simpl. by rewrite IH. Qed.

(** However many times the collectors are initialized, with whatever arguments, no call panics, every
    call returns the collectors of the first, and the names of those, the gauge of tracked connections
    only if the first call asked for it, are all that is added to the registry. *)
Theorem init_idempotent f fs g :
  fresh_process g ->
  exists r, init_calls (f :: fs) g =
      (List.map (fun _ => Ok (Some (build f))) (f :: fs), mkGlobals true (Some (build f)) r) /\
    names r = names (registry g) ∪ list_to_set (collector_names f) /\
    Get g = Panic "metrics: Init() must be called before Get()" /\
    Get (mkGlobals true (Some (build f)) r) = Ok (build f).
Proof.
  intros Hg. destruct (newMetrics_fresh f g Hg) as (r & Hn & Hr). exists r. destruct Hg as (Hi & Hm & _).
  simpl. unfold Init, Get. rewrite Hi, Hm, Hn. simpl. by rewrite init_calls_done.
Qed.
End metrics.
Arguments Globals R T : clear implicits.

(** A registry that is the set of its names. *)
#[refine, export] Instance set_registry : Registry (gset string) := {
  names r := r;
  MustRegister cs r :=
    if bool_decide (NoDup cs /\ Forall (fun c => c ∉ r) cs) then (r ∪ list_to_set cs, None)
    else (r, Some "duplicate metrics collector registration attempted"%string) }.
Proof.
  - intros cs r Hn Hd. rewrite bool_decide_eq_true_2; [done |]. split; [done |]. by apply Forall_forall.
  - intros cs r c Hc Hr. rewrite bool_decide_eq_false_2; [done |]. intros [_ Hd]. rewrite Forall_forall in Hd.
    by destruct (Hd c Hc).
Defined.

Lemma init_idempotent_witness :
  (init_calls [Some (fun n : nat => Z.of_nat n); None] (mkGlobals false None ({[ "go_goroutines"%string ]} : gset string))).1 =
    [Ok (Some (build (Some Z.of_nat))); Ok (Some (build (Some Z.of_nat)))].
Proof.
  destruct (init_idempotent (Some Z.of_nat) [None] (mkGlobals false None ({[ "go_goroutines"%string ]} : gset string)))
    as (r & Hr & _).
  - split_and!; [done..|]. intros c Hc Hg. cbn in Hg. apply elem_of_singleton in Hg as ->. revert Hc.
    apply (bool_decide_eq_true_1 ("go_goroutines"%string ∉ collector_names (Some (fun _ : nat => 0)))). by vm_compute.
  - exact (f_equal fst Hr).
Defined.
