(* ===== verification/Syncer.v ===== *)
(** * Package [syncer]: policy updates from etcd

    Translated from src/internal/syncer/syncer.go.  The etcd client is outside the
    repository: what it delivers (watch responses, [Get] responses) are arguments
    of the steps.  The watch goroutine owns all the state but the stop channel,
    so its iterations are steps of a sequential machine; every clock reading is an
    argument.  [calls] lists the policies handed to the callback. *)
From Stdlib Require Import ZArith Lia ZifyBool.
From stdpp Require Import base gmap sets list strings pretty relations.
From S2P Require Import Prelude GoTime.

Local Open Scope Z_scope.

Definition maxPolicySize : Z := 10 * 1024 * 1024.
Definition maxWatchEventsPerResponse : Z := 10000.
Definition minReloadInterval : Z := 100 * Millisecond.
Definition watchReconnectDelay : Z := 100 * Millisecond.

Record SyncerConfig : Type := mkSyncerConfig {
  Endpoints : list string;
  sc_Key : string;
  sc_Timeout : Z;
}.

(** The configuration [New] works with; [None] when there are no endpoints. *)
Definition effective_config (c : SyncerConfig) : option SyncerConfig :=
  match Endpoints c with
  | [] => None
  | _ => Some (mkSyncerConfig (Endpoints c)
                 (if String.eqb (sc_Key c) "" then "/l3-firewall/policy" else sc_Key c)
                 (if sc_Timeout c <=? 0 then 5 * Second else sc_Timeout c))
  end.

(** The syncer and the local variables of [watch]: [pending] is [pendingPolicy]
    when [pendingSet] is true. *)
Record Syncer : Type := mkSyncer {
  lastPolicy : string;
  lastReload : Time;
  pending : option string;
  calls : list string;
}.

(** Before [Start]. *)
Definition newSyncer : Syncer := mkSyncer "" zeroTime None [].

(** What a callback can do. *)
Definition callback : Type := string -> res unit.

(** [safeOnUpdate]; [None] is a nil callback.  The result is the error. *)
Definition safeOnUpdate (fn : option callback) (policy : string) : option string :=
  match fn with
  | None => Some "onUpdate callback is nil"%string
  | Some f =>
      match f policy with
      | Ok _ => None
      | Err e => Some e
      | Panic m => Some ("onUpdate panic: " +:+ m)
      end
  end.

(** The policies a call of [safeOnUpdate] hands to the callback. *)
Definition handed (fn : option callback) (policy : string) : list string :=
  match fn with None => [] | Some _ => [policy] end.

Definition applyPolicy (policy : string) (s : Syncer) : bool * Syncer :=
  if String.eqb policy (lastPolicy s) then (false, s)
  else (true, mkSyncer policy (lastReload s) (pending s) (calls s)).

(** A [Get]: an error, or the values of the returned keys, with [None] for a nil
    key-value; a nil response has none. *)
Definition getResponse : Type := list (option string) + string.

Section syncer.
Context (fn : option callback).

Definition loadCurrent (get : getResponse) (s : Syncer) : string * Syncer :=
  match get with
  | inr _ => (""%string, s)
  | inl [] | inl (None :: _) => (""%string, s)
  | inl (Some value :: _) =>
      if maxPolicySize <? Z.of_nat (String.length value) then (""%string, s)
      else
        match applyPolicy value s with
        | (false, s') => (value, s')
        | (true, s') =>
            (value, mkSyncer (lastPolicy s') (lastReload s') (pending s') (calls s' ++ handed fn value))
        end
  end.

(** [flushPending]: [now] is the reading of [time.Since], [after] the one that
    becomes [lastReload]. *)
Definition flushPending (now after : Time) (s : Syncer) : Syncer :=
  match pending s with
  | None => s
  | Some policy =>
      if time_sub now (lastReload s) <? minReloadInterval then s
      else mkSyncer (lastPolicy s) after None (calls s ++ handed fn policy)
  end.

(** A watch event: a missing key-value, a deletion, or a new value. *)
Inductive event : Type := EvMissing | EvDelete | EvPut (value : string).

Definition handleEvent (s : Syncer) (ev : event) : Syncer :=
  match ev with
  | EvMissing | EvDelete => s
  | EvPut value =>
      if maxPolicySize <? Z.of_nat (String.length value) then s
      else
        match applyPolicy value s with
        | (false, s') => s'
        | (true, s') => mkSyncer (lastPolicy s') (lastReload s') (Some value) (calls s')
        end
  end.

(** [events[len(events)-1:]] when there are too many. *)
Definition collapse (events : list event) : list event :=
  if maxWatchEventsPerResponse <? Z.of_nat (length events)
  then drop (length events - 1) events else events.

(** A watch response that is not a termination. *)
Definition handleResponse (n1 a1 n2 a2 : Time) (events : list event) (s : Syncer) : Syncer :=
  let s := flushPending n1 a1 s in
  let s := foldl handleEvent s (collapse events) in
  flushPending n2 a2 s.

(** The flush timer of a pending policy. *)
Definition timerDelay (now : Time) (s : Syncer) : option Z :=
  match pending s with
  | None => None
  | Some _ =>
      let d := wrap64 (minReloadInterval - time_sub now (lastReload s)) in
      Some (if d <? Millisecond then Millisecond else d)
  end.

(** The resynchronization after the watch terminated. *)
Definition reconnect (get : getResponse) (s : Syncer) : Syncer :=
  let '(current, s) := loadCurrent get s in
  match pending s with
  | Some p =>
      if negb (String.eqb current "") && negb (String.eqb p current)
      then mkSyncer (lastPolicy s) (lastReload s) None (calls s) else s
  | None => s
  end.

(** [Start] loads the current policy and starts the watch. *)
Definition started (get : getResponse) : Syncer := (loadCurrent get newSyncer).2.
End syncer.

(** ** Closing *)

(** The once-guard, the stop channel and the calls of [client.Close]. *)
Record Closer : Type := mkCloser { closeDone : bool; stopClosed : bool; clientCloses : nat }.

(** [Close]: closing a closed channel would panic. *)
Definition Close (clientErr : option string) (c : Closer) : res (option string * Closer) :=
  if closeDone c then Ok (None, c)
  else if stopClosed c then Panic "close of closed channel"
  else Ok (clientErr, mkCloser true true (S (clientCloses c))).
