(* ===== verification/SyncerFacts.v ===== *)
(** * Theorems on package [syncer] *)
From Stdlib Require Import ZArith Lia ZifyBool.
From stdpp Require Import base gmap sets list strings pretty relations.
From S2P Require Import Prelude GoTime Syncer.

Local Open Scope Z_scope.

Section convergence.
Context (f : callback).

(** The latest processed policy is queued, or was the last one handed to the
    callback. *)
Definition converging (s : Syncer) : Prop :=
  match pending s with
  | Some p => p = lastPolicy s
  | None => lastPolicy s = ""%string \/ last (calls s) = Some (lastPolicy s)
  end.

Lemma flushPending_converging now after s :
  converging s -> converging (flushPending (Some f) now after s).
Proof.
  unfold converging, flushPending. intros Hs. destruct (pending s) as [p|] eqn:Hp; [|by rewrite Hp].
  case_bool; [by rewrite Hp |]. simpl. right. by rewrite last_snoc, Hs.
Qed.

Lemma handleEvent_converging ev s : converging s -> converging (handleEvent s ev).
Proof.
  intros Hs. unfold handleEvent, applyPolicy. destruct ev as [| |v]; [done..|].
  case_bool; [done |]. case_bool; [done |]. done.
Qed.

Lemma handleEvents_converging evs s : converging s -> converging (foldl handleEvent s evs).
Proof.
  revert s. induction evs as [|ev evs IH]; intros s Hs; [done |]. by apply IH, handleEvent_converging.
Qed.

(** What [loadCurrent] does: nothing, or it hands over the value it read. *)
Lemma loadCurrent_cases get s :
  let '(current, s') := loadCurrent (Some f) get s in
  (s' = s /\ (current = ""%string \/ current = lastPolicy s)) \/
  (current <> lastPolicy s /\
   s' = mkSyncer current (lastReload s) (pending s) (calls s ++ [current])).
Proof.
  unfold loadCurrent, applyPolicy. destruct get as [[|[v|] kvs]|err]; try (left; split; [done | by left]).
  destruct (maxPolicySize <? _); [left; split; [done | by left] |].
  destruct (String.eqb_spec v (lastPolicy s)) as [->|Hne]; [left; split; [done | by right] |].
  by right.
Qed.

(** A [Get] that does not find an empty value. *)
Definition nonempty_get (get : getResponse) : Prop :=
  forall kvs, get <> inl (Some ""%string :: kvs).

Lemma loadCurrent_nonempty get s :
  nonempty_get get -> (loadCurrent (Some f) get s).1 = ""%string -> (loadCurrent (Some f) get s).2 = s.
Proof.
  intros Hg. unfold loadCurrent, applyPolicy. destruct get as [[|[v|] kvs]|err]; try done.
  case_bool; [done |]. destruct (String.eqb_spec v (lastPolicy s)) as [->|Hne]; [done |].
  simpl. intros ->. by destruct (Hg kvs).
Qed.

Lemma reconnect_converging get s :
  nonempty_get get -> converging s -> converging (reconnect (Some f) get s).
Proof.
  intros Hg Hs. unfold reconnect. pose proof (loadCurrent_cases get s) as Hc.
  pose proof (loadCurrent_nonempty get s Hg) as Hne.
  destruct (loadCurrent (Some f) get s) as [current s']. cbn [fst snd] in *.
  destruct Hc as [[-> Hcur]|[Hd ->]].
  - destruct (pending s) as [p|] eqn:Hp; [|done]. unfold converging in Hs. rewrite Hp in Hs. subst p.
    destruct Hcur as [->| ->]; simpl; [unfold converging; by rewrite Hp |].
    rewrite String.eqb_refl, andb_false_r. unfold converging. by rewrite Hp.
  - cbn [pending]. destruct (pending s) as [p|] eqn:Hp.
    + unfold converging in Hs. rewrite Hp in Hs. subst p.
      destruct (String.eqb_spec current "") as [->|Hcur].
      { specialize (Hne eq_refl). apply (f_equal lastPolicy) in Hne. simpl in Hne. congruence. }
      rewrite (proj2 (String.eqb_neq (lastPolicy s) current)) by done. simpl.
      unfold converging. simpl. right. by rewrite last_snoc.
    + unfold converging. simpl. right. by rewrite last_snoc.
Qed.

(** The steps whose [Get]s do not find an empty value. *)
Inductive good_step (s : Syncer) : Syncer -> Prop :=
| good_response n1 a1 n2 a2 events : good_step s (handleResponse (Some f) n1 a1 n2 a2 events s)
| good_timer now after : good_step s (flushPending (Some f) now after s)
| good_reconnect get : nonempty_get get -> good_step s (reconnect (Some f) get s).

Lemma good_step_converging s s' : good_step s s' -> converging s -> converging s'.
Proof.
  intros [n1 a1 n2 a2 evs|now after|get Hg] Hs.
  - by apply flushPending_converging, handleEvents_converging, flushPending_converging.
  - by apply flushPending_converging.
  - by apply reconnect_converging.
Qed.

Lemma started_converging get : converging (started (Some f) get).
Proof.
  unfold started. pose proof (loadCurrent_cases get newSyncer) as Hc.
  destruct (loadCurrent (Some f) get newSyncer) as [current s']. simpl.
  destruct Hc as [[-> _]|[_ ->]]; unfold converging; simpl; [by left |]. right. done.
Qed.

Lemma run_converging get s : rtc good_step (started (Some f) get) s -> converging s.
Proof.
  pose proof (started_converging get) as Hi.
  induction 1 as [|s1 s2 s3 Hs _ IH]; [done |]. eauto using good_step_converging.
Qed.
End convergence.

(** Through any sequence of watch responses, timer expiries, watch failures and
    resynchronizations whose reads do not find an empty value, the latest policy the syncer
    processed is either queued or was the last one it handed to the evaluator: a reconnect
    never puts an older policy back in force, and nothing accepted is lost. *)
Theorem no_stale_policy f get s :
  rtc (good_step f) (started (Some f) get) s ->
  match pending s with
  | Some p => p = lastPolicy s
  | None => lastPolicy s = ""%string \/ last (calls s) = Some (lastPolicy s)
  end.
Proof. apply run_converging. Qed.

Lemma no_stale_policy_witness :
  let f : callback := fun _ => Ok tt in
  let t0 := mkTime (10 * Second) None in
  let s := reconnect (Some f) (inl [Some "v2"%string])
             (handleResponse (Some f) t0 t0 t0 t0 [EvPut "v1"] (started (Some f) (inl []))) in
  last (calls s) = Some "v2"%string.
Proof.
  intros f t0 s. destruct (no_stale_policy f (inl []) s) as [Hl|Hl].
  - eapply rtc_l; [apply (good_response f _ t0 t0 t0 t0 [EvPut "v1"]) |].
    apply rtc_once. apply (good_reconnect f _ (inl [Some "v2"%string])). intros kvs. discriminate.
  - vm_compute in Hl. discriminate Hl.
  - exact Hl.
Defined.

(** When the resynchronization reads an empty value while an older policy is
    queued, the queued policy is kept and put in force afterwards, although the syncer has
    already processed the newer, empty value. *)
Theorem empty_resync_keeps_stale :
  let f : callback := fun p => if String.eqb p "" then Err "policy source is empty" else Ok tt in
  let at_ms n := mkTime (10 * Second + n * Millisecond) None in
  let s0 := handleResponse (Some f) (at_ms 0) (at_ms 0) (at_ms 0) (at_ms 0) [EvPut "v1"] newSyncer in
  let s1 := handleResponse (Some f) (at_ms 1) (at_ms 1) (at_ms 1) (at_ms 1) [EvPut "v2"] s0 in
  let s2 := reconnect (Some f) (inl [Some ""%string]) s1 in
  let s3 := flushPending (Some f) (at_ms 200) (at_ms 200) s2 in
  lastPolicy s2 = ""%string /\ calls s3 = ["v1"; ""; "v2"]%string.
Proof. vm_compute. split; reflexivity. Qed.

(** ** Rate limit *)

(** A flush that hands a policy over happens at least the minimum interval after
    the last one, and one is handed over at the first flush after that. *)
Lemma flushPending_spec fn now after s :
  (flushPending fn now after s = s /\
   (pending s = None \/ time_sub now (lastReload s) < minReloadInterval)) \/
  (exists p, pending s = Some p /\ minReloadInterval <= time_sub now (lastReload s) /\
     flushPending fn now after s = mkSyncer (lastPolicy s) after None (calls s ++ handed fn p)).
Proof.
  unfold flushPending. destruct (pending s) as [p|]; [|left; split; [done | by left]].
  destruct (Z.ltb_spec (time_sub now (lastReload s)) minReloadInterval);
    [left; split; [done | by right] | right; eauto].
Qed.

Lemma handleEvents_calls evs s :
  calls (foldl handleEvent s evs) = calls s /\ lastReload (foldl handleEvent s evs) = lastReload s.
Proof.
  revert s. induction evs as [|ev evs IH]; intros s; [done |]. simpl.
  destruct (IH (handleEvent s ev)) as [-> ->]. unfold handleEvent, applyPolicy.
  destruct ev; [done..|]. by repeat case_bool.
Qed.

(** One watch response, however many events it carries, causes at most two
    reloads, each only when the minimum interval since the previous reload has passed at the
    moment it is made, so events that arrive within the interval cause none. *)
Theorem reloads_rate_limited fn n1 a1 n2 a2 events s :
  let s' := handleResponse fn n1 a1 n2 a2 events s in
  (length (calls s') <= length (calls s) + 2)%nat /\
  (time_sub n1 (lastReload s) < minReloadInterval ->
   time_sub n2 (lastReload s) < minReloadInterval -> calls s' = calls s).
Proof.
  unfold handleResponse. cbv zeta.
  set (s1 := flushPending fn n1 a1 s). set (s2 := foldl handleEvent s1 (collapse events)).
  destruct (handleEvents_calls (collapse events) s1) as [Hc2 Hr2]. fold s2 in Hc2, Hr2.
  assert (forall p, (length (handed fn p) <= 1)%nat) as Hh by (intros p; destruct fn; simpl; lia).
  destruct (flushPending_spec fn n1 a1 s) as [[E1 W1]|(p & Hp & W1 & E1)]; fold s1 in E1;
    destruct (flushPending_spec fn n2 a2 s2) as [[E2 W2]|(q & Hq & W2 & E2)]; rewrite E2; cbn [calls].
  - rewrite Hc2, E1. split; [lia | done].
  - rewrite Hc2, E1, length_app. specialize (Hh q). split; [lia |]. rewrite Hr2, E1 in W2. lia.
  - rewrite Hc2, E1. cbn [calls]. rewrite length_app. specialize (Hh p). split; [lia |]. lia.
  - rewrite Hc2, E1. cbn [calls]. rewrite !length_app. pose proof (Hh p). pose proof (Hh q).
    split; [lia |]. lia.
Qed.

(** A queued policy is handed over by the first flush made once the interval has
    passed, and the timer the loop arms for it never waits longer than the interval (for
    a clock that does not run backwards). *)
Theorem pending_is_flushed f now after s p :
  pending s = Some p ->
  (minReloadInterval <= time_sub now (lastReload s) ->
   last (calls (flushPending (Some f) now after s)) = Some p /\
   pending (flushPending (Some f) now after s) = None) /\
  (0 <= time_sub now (lastReload s) ->
   exists d, timerDelay now s = Some d /\ Millisecond <= d <= minReloadInterval).
Proof.
  intros Hp. split.
  - intros Hi. destruct (flushPending_spec (Some f) now after s) as [[_ [?|?]]|(q & Hq & _ & ->)];
      [congruence | lia |]. cbn [calls pending handed]. rewrite last_snoc. split; congruence.
  - intros H0. unfold timerDelay. rewrite Hp. eexists. split; [done |].
    pose proof (saturate_range (time_diff now (lastReload s))) as Hr.
    fold (time_sub now (lastReload s)) in Hr. unfold int64_range in Hr.
    rewrite wrap64_small by (unfold int64_range, minReloadInterval, Millisecond in *; lia).
    unfold minReloadInterval, Millisecond in *. case_bool; lia.
Qed.

Lemma pending_is_flushed_witness :
  let s := mkSyncer "v1" zeroTime (Some "v1"%string) [] in
  last (calls (flushPending (Some (fun _ => Ok tt)) (mkTime 0 None) (mkTime 0 None) s)) = Some "v1"%string.
Proof.
  intros s.
  refine (proj1 (proj1 (pending_is_flushed (fun _ => Ok tt) (mkTime 0 None) (mkTime 0 None) s "v1" eq_refl) _)).
  vm_compute. discriminate.
Defined.

(** Closing any number of times closes the client exactly once and never panics. *)
Theorem Close_once errs :
  errs <> [] ->
  exists c, foldl (fun r err => let* p := r in Close err p.2) (Ok (None, mkCloser false false 0)) errs
            = Ok c /\ clientCloses c.2 = 1%nat.
Proof.
  destruct errs as [|err errs]; [done |]. intros _. cbn [foldl res_bind Close closeDone stopClosed snd].
  assert (forall r, exists c, foldl (fun r err => let* p := r in Close err p.2)
            (Ok (r, mkCloser true true 1)) errs = Ok c /\ clientCloses c.2 = 1%nat) as Hgen; [|apply Hgen].
  induction errs as [|e errs IH]; intros r; [by eexists |]. cbn [foldl res_bind Close closeDone snd]. apply IH.
Qed.

Lemma Close_once_witness :
  exists c, foldl (fun r err => let* p := r in Close err p.2) (Ok (None, mkCloser false false 0)) [None; None]
            = Ok c /\ clientCloses c.2 = 1%nat.
Proof. apply Close_once. discriminate. Defined.
