(* ===== verification/Watch.v ===== *)
(** * The goroutine of package [syncer]

    [New], [Start], [watch] and [Close] of src/internal/syncer/syncer.go as one machine.
    The watch loop is where it may block: at its [select], after the stream ended, and in
    the pause before it reconnects.  Responses, reads and clocks are chosen by the steps;
    [select] takes any case that is ready. *)
From Stdlib Require Import ZArith Lia ZifyBool.
From stdpp Require Import base gmap sets list strings pretty relations.
From S2P Require Import Prelude GoTime Syncer SyncerFacts.

Local Open Scope Z_scope.

(** Where the goroutine stands. *)
Inductive watch_pc : Type := WNone | WConnect | WSelect | WEnded | WPause | WReturned.

Record Watching : Type := mkWatching {
  wt_pc : watch_pc;
  wt_started : bool;      (* startOnce *)
  wt_cancelled : bool;    (* the context is cancelled *)
  wt_closer : Closer;
  wt_sync : Syncer;
  wt_streams : nat;       (* the calls of client.Watch *)
}.

(** [New] with a client: [None] when there are no endpoints. *)
Definition sy_New (dial : SyncerConfig -> option string) (c : SyncerConfig) : option Watching + string :=
  match effective_config c with
  | None => inl None
  | Some cfg =>
      match dial cfg with
      | Some e => inr ("connecting to etcd: " +:+ e)
      | None => inl (Some (mkWatching WNone false false (mkCloser false false 0) newSyncer 0))
      end
  end.

Section watch.
Context (f : callback).

(** [Start]: the first call loads the current policy and starts the goroutine. *)
Definition Start (get : getResponse) (w : Watching) : Watching :=
  if wt_started w then w
  else mkWatching WConnect true (wt_cancelled w) (wt_closer w) (loadCurrent (Some f) get (wt_sync w)).2 (wt_streams w).

(** One turn of [watch].  Resynchronizations that read an empty value are left out: what they do
    is [empty_resync_keeps_stale]. *)
Inductive watch_step : Watching -> Watching -> Prop :=
| watch_connect st cn cl s n :
    watch_step (mkWatching WConnect st cn cl s n) (mkWatching WSelect st cn cl s (S n))
| watch_stop st cn cl s n :
    stopClosed cl = true ->
    watch_step (mkWatching WSelect st cn cl s n) (mkWatching WReturned st cn cl s n)
| watch_response st cn cl s n n1 a1 n2 a2 events :
    watch_step (mkWatching WSelect st cn cl s n)
      (mkWatching WSelect st cn cl (handleResponse (Some f) n1 a1 n2 a2 events s) n)
| watch_terminated st cn cl s n :
    watch_step (mkWatching WSelect st cn cl s n) (mkWatching WEnded st cn cl s n)
| watch_timer st cn cl s n armed d now after :
    timerDelay armed s = Some d ->
    watch_step (mkWatching WSelect st cn cl s n)
      (mkWatching WSelect st cn cl (flushPending (Some f) now after s) n)
| watch_cancelled st cl s n :
    watch_step (mkWatching WEnded st true cl s n) (mkWatching WReturned st true cl s n)
| watch_resync st cl s n get :
    nonempty_get get ->
    watch_step (mkWatching WEnded st false cl s n) (mkWatching WPause st false cl (reconnect (Some f) get s) n)
| watch_pause_stop st cn cl s n :
    stopClosed cl = true \/ cn = true ->
    watch_step (mkWatching WPause st cn cl s n) (mkWatching WReturned st cn cl s n)
| watch_pause_over st cn cl s n :
    watch_step (mkWatching WPause st cn cl s n) (mkWatching WConnect st cn cl s n).

(** What happens to a syncer: calls of [Start] and [Close], a cancellation, turns of the
    goroutine. *)
Inductive syncer_step (w : Watching) : Watching -> Prop :=
| do_start get : syncer_step w (Start get w)
| do_close err r cl :
    Close err (wt_closer w) = Ok (r, cl) ->
    syncer_step w (mkWatching (wt_pc w) (wt_started w) (wt_cancelled w) cl (wt_sync w) (wt_streams w))
| do_cancel : syncer_step w (mkWatching (wt_pc w) (wt_started w) true (wt_closer w) (wt_sync w) (wt_streams w))
| do_watch w' : watch_step w w' -> syncer_step w w'.

(** The machine while it runs. *)
Record watching_inv (w : Watching) : Prop := {
  wi_sync : converging (wt_sync w);
  wi_fresh : wt_started w = false -> wt_pc w = WNone /\ wt_sync w = newSyncer;
  wi_on : wt_started w = true -> wt_pc w <> WNone;
  wi_close : closeDone (wt_closer w) = stopClosed (wt_closer w);
}.

Lemma Start_inv get w : watching_inv w -> watching_inv (Start get w).
Proof.
  intros [Hs Hf Ho Hc]. unfold Start. destruct (wt_started w) eqn:Hst; [by split; rewrite ?Hst |].
  destruct (Hf eq_refl) as [_ Hn]. rewrite Hn. split; simpl; [|done..]. apply (started_converging f get).
Qed.

Lemma watch_step_inv w w' : watch_step w w' -> watching_inv w -> watching_inv w'.
Proof.
  intros Hst [Hs Hf Ho Hc].
  destruct Hst; simpl in *; (split; simpl; [|intros ->; by destruct (Hf eq_refl) | done..]); try done.
  - by eapply good_step_converging; [apply good_response |].
  - by eapply good_step_converging; [apply good_timer |].
  - by eapply good_step_converging; [by apply good_reconnect |].
Qed.

Lemma syncer_step_inv w w' : syncer_step w w' -> watching_inv w -> watching_inv w'.
Proof.
  intros [get|err r cl Hcl| |w'' Hw] Hi; [by apply Start_inv | | | by eapply watch_step_inv].
  - destruct Hi as [Hs Hf Ho Hc]. split; simpl; try done.
    unfold Close in Hcl. destruct (closeDone (wt_closer w)) eqn:Hcd; [injection Hcl as <- <-; congruence |].
    destruct (stopClosed (wt_closer w)); [done |]. by injection Hcl as <- <-.
  - destruct Hi. by split.
Qed.

Lemma syncer_reachable_inv dial c w0 w :
  sy_New dial c = inl (Some w0) -> rtc syncer_step w0 w -> watching_inv w.
Proof.
  intros Hn Hr. assert (watching_inv w0) as Hi.
  { unfold sy_New in Hn. destruct (effective_config c) as [cfg|]; [|done]. destruct (dial cfg); [done |].
    injection Hn as <-. split; try done. by left. }
  clear Hn. induction Hr as [|w1 w2 w3 Hs _ IH]; [done |]. eauto using syncer_step_inv.
Qed.

(** C30: However a syncer is started (again), closed (again) and cancelled, and through any sequence of watch responses, timer
    expiries, broken streams and resynchronizations whose reads do not find an empty value, the
    latest policy it processed is queued or was the last one it handed to the evaluator, so a
    reconnect never puts an older policy back in force; closing never panics; and a goroutine that has returned
    hands over nothing more, also when [Start] is called again. *)
Theorem watch_no_stale dial c w0 w :
  sy_New dial c = inl (Some w0) -> rtc syncer_step w0 w ->
  match pending (wt_sync w) with
  | Some p => p = lastPolicy (wt_sync w)
  | None => lastPolicy (wt_sync w) = ""%string \/ last (calls (wt_sync w)) = Some (lastPolicy (wt_sync w))
  end /\
  (forall err, exists r cl, Close err (wt_closer w) = Ok (r, cl) /\ stopClosed cl = true) /\
  (wt_pc w = WReturned -> forall w', rtc syncer_step w w' -> wt_pc w' = WReturned /\ wt_sync w' = wt_sync w).
Proof.
  intros Hn Hr. pose proof (syncer_reachable_inv _ _ _ _ Hn Hr) as Hi. pose proof Hi as [Hs _ _ Hc]. split_and!.
  - exact Hs.
  - intros err. unfold Close. rewrite Hc. destruct (stopClosed (wt_closer w)) eqn:Hcl; eauto.
  - intros Hpc w' Hw'. clear Hr Hs Hc Hn. induction Hw' as [|w1 w2 w3 H1 _ IH]; [done |].
    assert (wt_pc w2 = WReturned /\ wt_sync w2 = wt_sync w1) as [Hp2 Hs2].
    { destruct Hi as [_ Hf _ _]. destruct H1 as [get| | |w2 H1]; [|done..|destruct H1; simpl in *; congruence].
      unfold Start. destruct (wt_started w1); [done |]. destruct (Hf eq_refl). congruence. }
    rewrite <-Hs2. apply IH; [by eapply syncer_step_inv | done].
Qed.
End watch.

Definition etcd_config : SyncerConfig := mkSyncerConfig ["http://e:2379"%string] "" 0.

Lemma watch_no_stale_witness :
  let f : callback := fun _ => Ok tt in
  let t0 := mkTime (10 * Second) None in
  let s := reconnect (Some f) (inl [Some "v2"%string])
             (handleResponse (Some f) t0 t0 t0 t0 [EvPut "v1"] (loadCurrent (Some f) (inl []) newSyncer).2) in
  last (calls s) = Some "v2"%string.
Proof.
  intros f t0 s.
  destruct (watch_no_stale f (fun _ => None) etcd_config (mkWatching WNone false false (mkCloser false false 0) newSyncer 0)
    (mkWatching WPause true false (mkCloser false false 0) s 1) eq_refl) as [[Hl|Hl] _].
  - eapply rtc_l; [apply (do_start f _ (inl [])) |].
    eapply rtc_l; [apply do_watch, watch_connect |].
    eapply rtc_l; [apply do_watch, (watch_response f _ _ _ _ _ t0 t0 t0 t0 [EvPut "v1"]) |].
    eapply rtc_l; [apply do_watch, watch_terminated |].
    apply rtc_once, do_watch, (watch_resync f _ _ _ _ (inl [Some "v2"%string])). intros kvs. discriminate.
  - vm_compute in Hl. discriminate Hl.
  - exact Hl.
Defined.
