(* ===== verification/Admin.v ===== *)
(** * Package [admin]: the HTTP interface

    Translated from src/internal/admin/api.go.  A handler maps a request to a
    response and the new state of the API; a response body is the value that is
    encoded as JSON.  Routing covers the registered paths and treats every other
    path as not found.  Listening and TLS are not modelled. *)
From Stdlib Require Import ZArith Lia ZifyBool.
From stdpp Require Import base gmap sets list strings pretty.
From S2P Require Import Prelude GoTime GoFloat Packet Conntrack RateLimit L2Filter ThreatIntel Alert Opa Engine.

Local Open Scope Z_scope.

Record PolicyVersion : Type := mkPolicyVersion {
  pv_Timestamp : Time;
  pv_Version : string;
  pv_Description : string;
}.

Record Request : Type := mkRequest {
  Method : string;
  Path : string;
  Authorization : string;
}.

(** The value a handler encodes. *)
Inductive body : Type :=
| BError (msg : string)
| BHealth (version : string) (uptime : Z) (running : bool)
| BStats (processed allowed blocked created expired evicted : Z) (running : bool) (uptime : Z) (version : string)
| BBlocks (blocks : list BlockLogEntry)
| BBlockStats (stats : gmap string Z)
| BReload
| BVersions (versions : list PolicyVersion).

Record Response : Type := mkResponse { Status : Z; Headers : gmap string string; RespBody : body }.

Definition StatusOK : Z := 200.
Definition StatusUnauthorized : Z := 401.
Definition StatusForbidden : Z := 403.
Definition StatusNotFound : Z := 404.
Definition StatusMethodNotAllowed : Z := 405.

Record API : Type := mkAPI {
  version : string;
  started : Time;
  token : string;
  readToken : string;
  policyVersions : list PolicyVersion;
}.

(** [New] at time [now] *)
Definition New (now : Time) (version token readToken : string) : API :=
  mkAPI version now token readToken [].

Definition httpError (msg : string) (code : Z) : Response :=
  mkResponse code {[ "Content-Type"%string := "text/plain; charset=utf-8"%string ]} (BError msg).

Definition json : gmap string string := {[ "Content-Type"%string := "application/json"%string ]}.

(** ** Credentials *)
Definition extractToken (r : Request) : string :=
  let auth := Authorization r in
  if String.eqb auth "" then ""
  else if (7 <? String.length auth)%nat && String.eqb (String.substring 0 7 auth) "Bearer "
  then String.substring 7 (String.length auth - 7) auth
  else auth.

(** [subtle.ConstantTimeCompare] is 1 exactly for equal byte strings. *)
Definition tokenMatches (given expected : string) : bool :=
  if String.eqb expected "" then false else String.eqb given expected.

Section admin.
Context {E : Type} `{Evaluator E}.

(** What a handler sees besides the request: the engine, whether it runs, and the
    clock. *)
Record World : Type := mkWorld { w_engine : Engine E; w_running : bool; w_now : Time }.

Definition Handler : Type := World -> Request -> API -> Response * API.

Definition requireReadAuth (next : Handler) : Handler := fun w r a =>
  if String.eqb (token a) "" && String.eqb (readToken a) "" then next w r a
  else
    let given := extractToken r in
    if String.eqb given "" then (httpError "authorization required" StatusUnauthorized, a)
    else if tokenMatches given (token a)
            || (negb (String.eqb (readToken a) "") && tokenMatches given (readToken a))
    then next w r a
    else (httpError "invalid authorization token" StatusForbidden, a).

Definition requireWriteAuth (next : Handler) : Handler := fun w r a =>
  if String.eqb (token a) "" && String.eqb (readToken a) "" then next w r a
  else
    let given := extractToken r in
    if String.eqb given "" then (httpError "authorization required" StatusUnauthorized, a)
    else if tokenMatches given (token a) then next w r a
    else if negb (String.eqb (readToken a) "") && tokenMatches given (readToken a)
    then (httpError "read-only token cannot modify resources" StatusForbidden, a)
    else (httpError "invalid authorization token" StatusForbidden, a).

(** ** Handlers *)
Definition handleHealth : Handler := fun w r a =>
  (mkResponse StatusOK json
     (BHealth (version a) (time_sub (w_now w) (started a)) (w_running w)), a).

Definition handleStats : Handler := fun w r a =>
  let st := engine_Stats (w_engine w) in
  let ct := ConntrackStats (w_engine w) in
  (mkResponse StatusOK ∅
     (BStats (PacketsProcessed st) (PacketsAllowed st) (PacketsBlocked st)
        (Created ct) (Expired ct) (Evicted ct) (w_running w)
        (time_sub (w_now w) (started a)) (version a)), a).

Definition handleBlocks : Handler := fun w r a =>
  (mkResponse StatusOK json (BBlocks (RecentBlocks (w_engine w))), a).

(** The copy [BlockStats] makes is the map, in any iteration order ([BlockStats_copy]). *)
Definition handleBlockStats : Handler := fun w r a =>
  (mkResponse StatusOK json (BBlockStats (BlockStats (map_order _ _) (w_engine w))), a).

Definition handlePolicyReload : Handler := fun w r a =>
  if negb (String.eqb (Method r) "POST") then (httpError "use POST" StatusMethodNotAllowed, a)
  else
    let versions := policyVersions a ++
      [mkPolicyVersion (w_now w) (version a) "policy reload triggered via admin API"] in
    let versions := if (100 <? length versions)%nat
                    then drop (length versions - 100) versions else versions in
    (mkResponse StatusOK json BReload,
     mkAPI (version a) (started a) (token a) (readToken a) versions).

Definition handlePolicyVersions : Handler := fun w r a =>
  (mkResponse StatusOK json (BVersions (policyVersions a)), a).

Definition withSecurityHeaders (next : Handler) : Handler := fun w r a =>
  let '(resp, a) := next w r a in
  (mkResponse (Status resp)
     (Headers resp ∪ (<["X-Content-Type-Options"%string := "nosniff"%string]>
                      {["X-Frame-Options"%string := "DENY"%string]}))
     (RespBody resp), a).

(** [Handler] of the API: the routes. *)
Definition serve : Handler := withSecurityHeaders (fun w r a =>
  if String.eqb (Path r) "/admin/health" then handleHealth w r a
  else if String.eqb (Path r) "/admin/stats" then requireReadAuth handleStats w r a
  else if String.eqb (Path r) "/admin/blocks" then requireReadAuth handleBlocks w r a
  else if String.eqb (Path r) "/admin/block-stats" then requireReadAuth handleBlockStats w r a
  else if String.eqb (Path r) "/admin/policy/versions" then requireReadAuth handlePolicyVersions w r a
  else if String.eqb (Path r) "/admin/policy/reload" then requireWriteAuth handlePolicyReload w r a
  else (httpError "404 page not found" StatusNotFound, a)).
End admin.
Arguments World E : clear implicits.
Arguments Handler E : clear implicits.
