(* ===== verification/AdminFacts.v ===== *)
(** * Theorems on package [admin]: who can do what *)
From Stdlib Require Import ZArith Lia ZifyBool.
From stdpp Require Import base gmap sets list strings pretty relations.
From S2P Require Import Prelude GoTime GoFloat Packet Conntrack RateLimit L2Filter ThreatIntel Alert Opa Engine EngineFacts Admin.

Local Open Scope Z_scope.

Section admin_facts.
Context {E : Type} `{Evaluator E}.
Implicit Types (w : World E) (next : Handler E) (a : API).

(** Credentials are configured. *)
Definition protected (a : API) : Prop := token a <> ""%string \/ readToken a <> ""%string.

Definition full_access (r : Request) (a : API) : Prop :=
  token a <> ""%string /\ extractToken r = token a.
Definition read_access (r : Request) (a : API) : Prop :=
  full_access r a \/ (readToken a <> ""%string /\ extractToken r = readToken a).

Lemma tokenMatches_spec given expected :
  tokenMatches given expected = true <-> expected <> ""%string /\ given = expected.
Proof.
  unfold tokenMatches. destruct (String.eqb_spec expected "") as [->|Hne].
  - split; [done | by intros []].
  - rewrite String.eqb_eq. naive_solver.
Qed.

Lemma protected_flags a : protected a -> String.eqb (token a) "" && String.eqb (readToken a) "" = false.
Proof.
  intros Hp. destruct (String.eqb_spec (token a) ""), (String.eqb_spec (readToken a) ""); try done.
  by destruct Hp.
Qed.

Lemma requireReadAuth_denied next w r a :
  protected a -> ~ read_access r a ->
  (requireReadAuth next w r a).2 = a /\
  (Status (requireReadAuth next w r a).1 = StatusUnauthorized \/
   Status (requireReadAuth next w r a).1 = StatusForbidden).
Proof.
  intros Hp Hn. unfold requireReadAuth. rewrite protected_flags by done.
  case_bool; [split; [done | by left] |].
  destruct (tokenMatches (extractToken r) (token a)) eqn:Hf.
  { apply tokenMatches_spec in Hf. by destruct Hn; left. }
  destruct (tokenMatches (extractToken r) (readToken a)) eqn:Hr.
  { apply tokenMatches_spec in Hr. by destruct Hn; right. }
  rewrite andb_false_r. split; [done | by right].
Qed.

Lemma requireWriteAuth_denied next w r a :
  protected a -> ~ full_access r a ->
  (requireWriteAuth next w r a).2 = a /\
  (Status (requireWriteAuth next w r a).1 = StatusUnauthorized \/
   Status (requireWriteAuth next w r a).1 = StatusForbidden).
Proof.
  intros Hp Hn. unfold requireWriteAuth. rewrite protected_flags by done.
  case_bool; [split; [done | by left] |].
  destruct (tokenMatches (extractToken r) (token a)) eqn:Hf.
  { apply tokenMatches_spec in Hf. by destruct Hn. }
  case_bool; (split; [done | by right]).
Qed.

(** The endpoints that need the read or the full token. *)
Definition read_path (p : string) : Prop :=
  p ∈ ["/admin/stats"; "/admin/blocks"; "/admin/block-stats"; "/admin/policy/versions"]%string.

Definition denied (resp : Response) : Prop :=
  Status resp = StatusUnauthorized \/ Status resp = StatusForbidden.

Lemma withSecurityHeaders_result next w r a :
  (withSecurityHeaders next w r a).2 = (next w r a).2 /\
  Status (withSecurityHeaders next w r a).1 = Status (next w r a).1.
Proof. unfold withSecurityHeaders. by destruct (next w r a). Qed.

Lemma requireReadAuth_pure next w r a :
  (forall w r a, (next w r a).2 = a) -> (requireReadAuth next w r a).2 = a.
Proof. intros Hn. unfold requireReadAuth. by repeat case_bool. Qed.

(** C32: With any credential configured, a request for a read endpoint without the
    full or the read token, and a request for the reload endpoint without the full token
    (in particular one with only the read token), is refused with 401 or 403 and changes
    nothing. *)
Theorem unauthorized_denied w r a :
  protected a ->
  (read_path (Path r) /\ ~ read_access r a) \/
  (Path r = "/admin/policy/reload"%string /\ ~ full_access r a) ->
  denied (serve w r a).1 /\ (serve w r a).2 = a.
Proof.
  intros Hp Hcase. unfold serve, denied.
  destruct (withSecurityHeaders_result (fun (w : World E) r a =>
    if String.eqb (Path r) "/admin/health" then handleHealth w r a
    else if String.eqb (Path r) "/admin/stats" then requireReadAuth handleStats w r a
    else if String.eqb (Path r) "/admin/blocks" then requireReadAuth handleBlocks w r a
    else if String.eqb (Path r) "/admin/block-stats" then requireReadAuth handleBlockStats w r a
    else if String.eqb (Path r) "/admin/policy/versions" then requireReadAuth handlePolicyVersions w r a
    else if String.eqb (Path r) "/admin/policy/reload" then requireWriteAuth handlePolicyReload w r a
    else (httpError "404 page not found" StatusNotFound, a)) w r a) as [-> ->].
  destruct Hcase as [[Hpath Hn]|[-> Hn]].
  - unfold read_path in Hpath. rewrite !elem_of_cons in Hpath.
    destruct Hpath as [->|[->|[->|[->|Hpath]]]]; [simpl..|by apply not_elem_of_nil in Hpath];
      by apply and_comm, requireReadAuth_denied.
  - simpl. by apply and_comm, requireWriteAuth_denied.
Qed.

(** The only request that changes the state of the API is an authorized POST to
    the reload endpoint; it appends one entry to the version history, of which the last 100
    are kept, and every response carries the security headers. *)
Theorem only_reload_writes w r a :
  let '(resp, a') := serve w r a in
  (a' <> a -> Path r = "/admin/policy/reload"%string /\ Method r = "POST"%string /\
              (protected a -> full_access r a)) /\
  ((length (policyVersions a) <= 100)%nat -> (length (policyVersions a') <= 100)%nat) /\
  token a' = token a /\ readToken a' = readToken a /\
  is_Some (Headers resp !! "X-Content-Type-Options"%string) /\
  is_Some (Headers resp !! "X-Frame-Options"%string).
Proof.
  destruct (serve w r a) as [resp a'] eqn:Hserve.
  assert (is_Some (Headers resp !! "X-Content-Type-Options"%string) /\
          is_Some (Headers resp !! "X-Frame-Options"%string)) as Hh.
  { unfold serve, withSecurityHeaders in Hserve. destruct (if String.eqb (Path r) _ then _ else _) as [resp0 a0].
    injection Hserve as <- <-. cbn [Headers].
    split; apply lookup_union_is_Some; right; [by rewrite lookup_insert_eq |].
    rewrite lookup_insert_ne by done. by rewrite lookup_singleton_eq. }
  assert (a' = a \/ (Path r = "/admin/policy/reload"%string /\ requireWriteAuth handlePolicyReload w r a =
            ((requireWriteAuth handlePolicyReload w r a).1, a'))) as [->|[Hpath Hw]].
  { apply (f_equal snd) in Hserve. cbn [snd] in Hserve. subst a'. unfold serve.
    rewrite (proj1 (withSecurityHeaders_result _ w r a)).
    do 5 (case_bool; [left; try done; by apply requireReadAuth_pure |]).
    case_bool; [|by left]. right. bool_hyps. split; [done |].
    by destruct (requireWriteAuth handlePolicyReload w r a). }
  { split; [done |]. split; [done |]. done. }
  assert (forall a1 resp1, handlePolicyReload w r a = (resp1, a1) ->
    (a1 <> a -> Method r = "POST"%string) /\
    ((length (policyVersions a) <= 100)%nat -> (length (policyVersions a1) <= 100)%nat) /\
    token a1 = token a /\ readToken a1 = readToken a) as Hreload.
  { intros a1 resp1. unfold handlePolicyReload.
    destruct (String.eqb_spec (Method r) "POST"); cbn [negb]; intros [= <- <-]; [|done].
    split; [done |]. cbn [policyVersions token readToken]. split; [|done]. intros Hl.
    destruct (Nat.ltb_spec 100 (length (policyVersions a ++
      [mkPolicyVersion (w_now w) (version a) "policy reload triggered via admin API"])));
      [rewrite length_drop|]; rewrite length_app in *; simpl in *; lia. }
  revert Hw. unfold requireWriteAuth.
  destruct (String.eqb (token a) "" && String.eqb (readToken a) "") eqn:Hopen.
  { intros Hw. destruct (Hreload _ _ Hw) as (H1 & H2 & H3 & H4). split; [|done].
    intros Hne. split; [done |]. split; [auto |]. intros Hp. rewrite protected_flags in Hopen by done. done. }
  case_bool; [intros [= <-]; done |].
  destruct (tokenMatches (extractToken r) (token a)) eqn:Hm.
  - intros Hw. destruct (Hreload _ _ Hw) as (H1 & H2 & H3 & H4). split; [|done].
    intros Hne. split; [done |]. split; [auto |]. intros _. by apply tokenMatches_spec in Hm.
  - case_bool; intros [= <-]; done.
Qed.
End admin_facts.

Lemma unauthorized_denied_witness :
  let a := mkAPI "1.0" zeroTime "secret" "viewer" [] in
  let w : World unit := mkWorld sample_engine true zeroTime in
  denied (serve w (mkRequest "POST" "/admin/policy/reload" "Bearer viewer") a).1.
Proof.
  intros a w. apply (unauthorized_denied w (mkRequest "POST" "/admin/policy/reload" "Bearer viewer") a).
  - left. discriminate.
  - right. split; [reflexivity |]. intros [_ Htok]. vm_compute in Htok. discriminate Htok.
Defined.
