(* ===== verification/GoFS.v ===== *)
(** * Paths and files: what the program uses of packages [os] and [path/filepath]

    A file system is a tree of names over inodes, as the kernel presents it to the
    process: directories, regular files (names of inodes, so that two names can
    share one file), symbolic links and FIFOs.  Paths are resolved component by
    component and symbolic links are followed, 40 at most.  Every system call can
    fail for reasons outside the tree (permissions, input and output errors); such
    failures are chosen by a [Faults] argument.  An [IO] computation also lists the
    states the file system goes through, so that a statement can range over the
    points at which the process may die. *)
From Stdlib Require Import ZArith Lia ZifyBool.
From stdpp Require Import base gmap sets list strings pretty fin_maps.
From S2P Require Import Prelude GoTime.

Local Open Scope Z_scope.

(** ** Path strings *)
Definition slash : Ascii.ascii := Ascii.ascii_of_nat 47.
Definition dot : Ascii.ascii := Ascii.ascii_of_nat 46.

(** [strings.Split(s, "/")] *)
Fixpoint split_slash (s : string) : list string :=
  match s with
  | EmptyString => [""%string]
  | String c s' =>
      if Ascii.eqb c slash then ""%string :: split_slash s'
      else match split_slash s' with
           | [] => [String c ""]
           | h :: t => String c h :: t
           end
  end.

(** [strings.Join(l, "/")] *)
Fixpoint join_slash (l : list string) : string :=
  match l with
  | [] => ""
  | [x] => x
  | x :: l' => x +:+ String slash (join_slash l')
  end.

Definition IsAbs (p : string) : bool :=
  match p with String c _ => Ascii.eqb c slash | EmptyString => false end.

(** A component that names the directory it is in. *)
Definition is_skip (c : string) : bool := String.eqb c "" || String.eqb c ".".

(** [strings.Contains(s, "..")] *)
Fixpoint has_dotdot (s : string) : bool :=
  match s with
  | String a s' =>
      match s' with
      | String b _ => (Ascii.eqb a dot && Ascii.eqb b dot) || has_dotdot s'
      | EmptyString => false
      end
  | EmptyString => false
  end.

(** The components [filepath.Clean] keeps; [out] is the reversed result. *)
Fixpoint clean_loop (rooted : bool) (out rest : list string) : list string :=
  match rest with
  | [] => rev out
  | c :: rest' =>
      if is_skip c then clean_loop rooted out rest'
      else if String.eqb c ".." then
        match out with
        | x :: out' =>
            if String.eqb x ".." then clean_loop rooted (".."%string :: out) rest'
            else clean_loop rooted out' rest'
        | [] => clean_loop rooted (if rooted then [] else [".."%string]) rest'
        end
      else clean_loop rooted (c :: out) rest'
  end.

(** [filepath.Clean] *)
Definition Clean (p : string) : string :=
  let out := clean_loop (IsAbs p) [] (split_slash p) in
  if IsAbs p then String slash (join_slash out)
  else match out with [] => "." | _ => join_slash out end.

(** [filepath.Dir]: the text up to the last separator, cleaned. *)
Definition Dir (p : string) : string :=
  Clean (join_slash (removelast (split_slash p) ++ [""%string])).

(** [filepath.Base] *)
Definition Base (p : string) : string :=
  if String.eqb p "" then "."
  else match last (List.filter (fun c => negb (String.eqb c "")) (split_slash p)) with
       | Some c => c
       | None => String slash ""
       end.

(** [filepath.Join(a, b)] *)
Definition Join (a b : string) : string :=
  if String.eqb a "" then (if String.eqb b "" then "" else Clean b)
  else Clean (a +:+ String slash b).

(** ** The tree *)
Inductive node : Type :=
| NDir
| NFile (ino : nat)
| NLink (target : string)
| NFifo (reader : bool).

#[export] Instance node_eq_dec : EqDecision node.
Proof. solve_decision. Defined.

Record inode : Type := mkInode { i_data : list Z; i_mtime : Time }.

(** [tree] maps the components of a name, from the root, to what it names. *)
Record FS : Type := mkFS {
  tree : gmap (list string) node;
  inodes : gmap nat inode;
  cwd : list string;
}.

Inductive errno : Type :=
| ENOENT | ENOTDIR | EISDIR | EEXIST | ELOOP | ENXIO | ENOTEMPTY | EBUSY
| EOther (msg : string).

Definition errno_text (e : errno) : string :=
  match e with
  | ENOENT => "no such file or directory"
  | ENOTDIR => "not a directory"
  | EISDIR => "is a directory"
  | EEXIST => "file exists"
  | ELOOP => "too many levels of symbolic links"
  | ENXIO => "no such device or address"
  | ENOTEMPTY => "directory not empty"
  | EBUSY => "device or resource busy"
  | EOther msg => msg
  end.

(** [os.IsNotExist] *)
Definition is_not_exist (e : errno) : bool := match e with ENOENT => true | _ => false end.

Inductive sysop : Type :=
  OpLstat | OpStat | OpMkdir | OpOpen | OpFstat | OpRead | OpWrite | OpClose | OpRename | OpRemove.

(** What fails for outside reasons: an operation on a path, and how much of a
    failing write reached the file. *)
Record Faults : Type := mkFaults { fault : sysop -> string -> option string; fault_written : nat }.

Definition no_faults : Faults := mkFaults (fun _ _ => None) 0.

(** The state of a name. *)
Definition node_at (fs : FS) (p : list string) : option node :=
  match p with [] => Some NDir | _ => tree fs !! p end.

(** The path walk of the kernel: [cur] is the directory reached so far. *)
Fixpoint walk_path (fs : FS) (links : nat) : list string -> list string -> bool -> list string + errno :=
  fix go (cur rest : list string) (follow : bool) {struct rest} : list string + errno :=
    match rest with
    | [] => inl cur
    | c :: rest' =>
        if is_skip c then go cur rest' follow
        else if String.eqb c ".." then go (removelast cur) rest' follow
        else
          let last := match rest' with [] => true | _ => false end in
          match tree fs !! (cur ++ [c]) with
          | None => if last then inl (cur ++ [c]) else inr ENOENT
          | Some NDir => go (cur ++ [c]) rest' follow
          | Some (NLink target) =>
              if last && negb follow then inl (cur ++ [c])
              else match links with
                   | O => inr ELOOP
                   | S links' =>
                       walk_path fs links' (if IsAbs target then [] else cur)
                         (split_slash target ++ rest') follow
                   end
          | Some _ => if last then inl (cur ++ [c]) else inr ENOTDIR
          end
    end.

Definition max_links : nat := 40.

Definition resolve (fs : FS) (follow : bool) (p : string) : list string + errno :=
  if String.eqb p "" then inr ENOENT
  else walk_path fs max_links (if IsAbs p then [] else cwd fs) (split_slash p) follow.

(** ** System calls that do not change the tree *)
Definition stat_at (follow : bool) (op : sysop) (flt : Faults) (fs : FS) (p : string) : node + errno :=
  match fault flt op p with
  | Some msg => inr (EOther msg)
  | None =>
      match resolve fs follow p with
      | inr e => inr e
      | inl rp => match node_at fs rp with Some n => inl n | None => inr ENOENT end
      end
  end.

(** [os.Lstat] and [os.Stat] *)
Definition Lstat : Faults -> FS -> string -> node + errno := stat_at false OpLstat.
Definition Stat : Faults -> FS -> string -> node + errno := stat_at true OpStat.

(** [os.OpenFile] with [O_RDONLY|O_NONBLOCK|O_NOFOLLOW]: what the descriptor
    refers to. *)
Definition open_read (flt : Faults) (fs : FS) (p : string) : node + errno :=
  match fault flt OpOpen p with
  | Some msg => inr (EOther msg)
  | None =>
      match resolve fs false p with
      | inr e => inr e
      | inl rp =>
          match node_at fs rp with
          | None => inr ENOENT
          | Some (NLink _) => inr ELOOP
          | Some n => inl n
          end
      end
  end.

(** ** Computations that change the tree *)

(** The states gone through, the final state and the result. *)
Definition IO (A : Type) : Type := FS -> list FS * FS * A.

Definition io_ret {A} (a : A) : IO A := fun fs => ([], fs, a).
Definition io_bind {A B} (m : IO A) (k : A -> IO B) : IO B := fun fs =>
  let '(tr1, fs1, a) := m fs in
  let '(tr2, fs2, b) := k a fs1 in
  (tr1 ++ tr2, fs2, b).
(** A question about the current state. *)
Definition io_ask {A} (f : FS -> A) : IO A := fun fs => ([], fs, f fs).
(** One change. *)
Definition io_set {A} (fs' : FS) (a : A) : IO A := fun _ => ([fs'], fs', a).

Declare Scope io_scope.
Delimit Scope io_scope with io.
Notation "'do' x ':=' m 'in' k" := (io_bind m (fun x => k))
  (at level 200, x pattern, m at level 100, k at level 200) : io_scope.
Open Scope io_scope.

Definition set_tree (t : gmap (list string) node) (fs : FS) : FS := mkFS t (inodes fs) (cwd fs).
Definition set_inode (ino : nat) (i : inode) (fs : FS) : FS :=
  mkFS (tree fs) (<[ino := i]> (inodes fs)) (cwd fs).

(** [os.Mkdir] *)
Definition Mkdir (flt : Faults) (p : string) : IO (option errno) := fun fs =>
  match fault flt OpMkdir p with
  | Some msg => io_ret (Some (EOther msg)) fs
  | None =>
      match resolve fs false p with
      | inr e => io_ret (Some e) fs
      | inl rp =>
          match node_at fs rp with
          | Some _ => io_ret (Some EEXIST) fs
          | None => io_set (set_tree (<[rp := NDir]> (tree fs)) fs) None fs
          end
      end
  end.

(** The path of the components [rcs], which are in reverse order. *)
Definition prefix_path (abs : bool) (rcs : list string) : string :=
  if abs then String slash (join_slash (rev rcs)) else join_slash (rev rcs).

(** [os.MkdirAll] on the components of a path, last component first.  Empty
    components are separators that follow each other.  The recursive call keeps the
    separator after the parent's name, so that a parent that is not a directory is
    found to exist by [Mkdir]. *)
Fixpoint mkdir_all (flt : Faults) (abs top : bool) (rcs : list string) : IO (option errno) :=
  match rcs with
  | [] => io_ret None
  | c :: rcs' =>
      let p := prefix_path abs rcs in
      do st := io_ask (fun fs => Stat flt fs p) in
      match st with
      | inl NDir => io_ret None
      | inl _ => io_ret (Some (if top then ENOTDIR else EEXIST))
      | inr _ =>
          do r := mkdir_all flt abs false rcs' in
          match r with
          | Some e => io_ret (Some e)
          | None =>
              do r := Mkdir flt p in
              match r with
              | None => io_ret None
              | Some e =>
                  do st := io_ask (fun fs => Lstat flt fs p) in
                  io_ret (match st with inl NDir => None | _ => Some e end)
              end
          end
      end
  end.

Definition MkdirAll (flt : Faults) (p : string) : IO (option errno) :=
  mkdir_all flt (IsAbs p) true (rev (List.filter (fun c => negb (String.eqb c "")) (split_slash p))).

(** A descriptor open for writing: a regular file or a FIFO. *)
Inductive handle : Type := HFile (ino : nat) | HFifo.

(** A new file at a free name. *)
Definition create_at (now : Time) (rp : list string) (fs : FS) : nat * FS :=
  let ino := fresh (dom (inodes fs)) in
  (ino, mkFS (<[rp := NFile ino]> (tree fs)) (<[ino := mkInode [] now]> (inodes fs)) (cwd fs)).

(** [os.OpenFile] for writing with [O_CREATE|O_NOFOLLOW|O_NONBLOCK], and with
    [O_TRUNC] or [O_APPEND]. *)
Definition open_write (flt : Faults) (now : Time) (trunc : bool) (p : string) : IO (handle + errno) := fun fs =>
  match fault flt OpOpen p with
  | Some msg => io_ret (inr (EOther msg)) fs
  | None =>
      match resolve fs false p with
      | inr e => io_ret (inr e) fs
      | inl rp =>
          match node_at fs rp with
          | None => let '(ino, fs') := create_at now rp fs in io_set fs' (inl (HFile ino)) fs
          | Some (NFile ino) =>
              if trunc then io_set (set_inode ino (mkInode [] now) fs) (inl (HFile ino)) fs
              else io_ret (inl (HFile ino)) fs
          | Some NDir => io_ret (inr EISDIR) fs
          | Some (NLink _) => io_ret (inr ELOOP) fs
          | Some (NFifo true) => io_ret (inl HFifo) fs
          | Some (NFifo false) => io_ret (inr ENXIO) fs
          end
      end
  end.

(** The file after some more bytes. *)
Definition append_bytes (now : Time) (ino : nat) (bs : list Z) (fs : FS) : FS :=
  match inodes fs !! ino with
  | Some i => set_inode ino (mkInode (i_data i ++ bs) now) fs
  | None => fs
  end.

(** [File.Write] at the end of the file: the bytes arrive in any number of
    pieces. *)
Definition write_all (flt : Faults) (now : Time) (p : string) (h : handle) (bs : list Z)
  : IO (option string) := fun fs =>
  match h with
  | HFifo => io_ret (fault flt OpWrite p) fs
  | HFile ino =>
      let n := match fault flt OpWrite p with
               | None => length bs
               | Some _ => Nat.min (fault_written flt) (length bs)
               end in
      (List.map (fun k => append_bytes now ino (take k bs) fs) (seq 0 (S n)),
       append_bytes now ino (take n bs) fs, fault flt OpWrite p)
  end.

(** Two names of one file: the kernel leaves both. *)
Definition same_file (n : node) (n' : option node) : bool :=
  match n, n' with
  | NFile a, Some (NFile b) => (a =? b)%nat
  | _, _ => false
  end.

(** [os.Rename] of something that is not a directory. *)
Definition os_Rename (flt : Faults) (old new : string) : IO (option errno) := fun fs =>
  match fault flt OpRename old with
  | Some msg => io_ret (Some (EOther msg)) fs
  | None =>
      match resolve fs false old, resolve fs false new with
      | inr e, _ | _, inr e => io_ret (Some e) fs
      | inl ro, inl rn =>
          match node_at fs ro, node_at fs rn with
          | None, _ => io_ret (Some ENOENT) fs
          | Some NDir, _ => io_ret (Some EBUSY) fs
          | _, Some NDir => io_ret (Some EISDIR) fs
          | Some n, n' =>
              if same_file n n' then io_ret None fs
              else io_set (set_tree (<[rn := n]> (delete ro (tree fs))) fs) None fs
          end
      end
  end.

(** The names in a directory. *)
Definition child_of (d : list string) (kv : list string * node) : Prop :=
  exists c, kv.1 = d ++ [c].

#[export] Instance child_of_dec d kv : Decision (child_of d kv).
Proof.
  destruct (last kv.1) as [c|] eqn:Hl.
  - destruct (decide (kv.1 = d ++ [c])) as [He|Hne]; [left; by exists c | right].
    intros [c' Hc']. rewrite Hc', last_snoc in Hl. simplify_eq.
  - right. intros [c' Hc']. by rewrite Hc', last_snoc in Hl.
Defined.

Definition children (fs : FS) (d : list string) : gmap (list string) node := filter (child_of d) (tree fs).

(** [os.Remove]: a file, or an empty directory. *)
Definition os_Remove (flt : Faults) (p : string) : IO (option errno) := fun fs =>
  match fault flt OpRemove p with
  | Some msg => io_ret (Some (EOther msg)) fs
  | None =>
      match resolve fs false p with
      | inr e => io_ret (Some e) fs
      | inl rp =>
          match node_at fs rp with
          | None => io_ret (Some ENOENT) fs
          | Some NDir =>
              if decide (rp = [] \/ children fs rp <> ∅) then io_ret (Some ENOTEMPTY) fs
              else io_set (set_tree (delete rp (tree fs)) fs) None fs
          | Some _ => io_set (set_tree (delete rp (tree fs)) fs) None fs
          end
      end
  end.

(** [os.OpenFile(dir, O_RDONLY|O_NONBLOCK)] and [Readdirnames(n)]: at most [n]
    names, in the order the directory gives them. *)
Definition read_names (flt : Faults) (ro : range_order (list string) node) (n : nat) (d : string) (fs : FS)
  : option (list string) :=
  match fault flt OpOpen d with
  | Some _ => None
  | None =>
      match resolve fs true d with
      | inr _ => None
      | inl rp =>
          match node_at fs rp with
          | Some NDir => Some (take n (omap last (range_keys ro (children fs rp))))
          | Some _ => Some []
          | None => None
          end
      end
  end.
