(* ===== verification/GoFSFacts.v ===== *)
(** * Facts about paths and files

    Splitting and joining of paths, resolution of paths that meet no symbolic
    link, and what the system calls leave alone. *)
From Stdlib Require Import ZArith Lia ZifyBool.
From stdpp Require Import base gmap sets list strings pretty fin_maps.
From S2P Require Import Prelude GoTime GoFS.

Local Open Scope Z_scope.

(** ** Components *)

(** The name of something in a directory. *)
Definition proper (c : string) : Prop :=
  is_skip c = false /\ c <> ".."%string /\ ~ has_char slash c.

(** The components of a path that lead somewhere. *)
Definition comps (p : string) : list string := List.filter (fun c => negb (is_skip c)) (split_slash p).

Lemma split_slash_ne s : split_slash s <> [].
Proof. destruct s as [|c s]; simpl; [done |]. case_bool; [done | by destruct (split_slash s)]. Qed.

Lemma split_slash_app s t :
  ~ has_char slash s -> split_slash (s +:+ String slash t) = s :: split_slash t.
Proof.
  induction s as [|c s IH]; intros Hs; simpl.
  - done.
  - destruct (Ascii.eqb_spec c slash) as [->|Hne]; [destruct Hs; by left |].
    rewrite IH by (intros ?; apply Hs; by right). done.
Qed.

Lemma split_slash_single s : ~ has_char slash s -> split_slash s = [s].
Proof.
  induction s as [|c s IH]; intros Hs; simpl; [done |].
  destruct (Ascii.eqb_spec c slash) as [->|Hne]; [destruct Hs; by left |].
  rewrite IH by (intros ?; apply Hs; by right). done.
Qed.

Lemma split_slash_chars s : Forall (fun c => ~ has_char slash c) (split_slash s).
Proof.
  induction s as [|c s IH]; simpl.
  { constructor; [by intros [] | constructor]. }
  destruct (Ascii.eqb_spec c slash) as [->|Hne].
  - constructor; [by intros [] | done].
  - destruct (split_slash s) as [|h t] eqn:Hs; [by destruct (split_slash_ne s) |].
    apply Forall_cons in IH as [Hh Ht]. constructor; [|done].
    intros [?|?]; [congruence | done].
Qed.

Lemma split_join l :
  l <> [] -> Forall (fun c => ~ has_char slash c) l -> split_slash (join_slash l) = l.
Proof.
  induction l as [|x l IH]; intros Hne Hl; [done |]. apply Forall_cons in Hl as [Hx Hl].
  destruct l as [|y l]; [by apply split_slash_single |].
  change (join_slash (x :: y :: l)) with (x +:+ String slash (join_slash (y :: l))).
  by rewrite split_slash_app, IH.
Qed.

Lemma join_split s : join_slash (split_slash s) = s.
Proof.
  induction s as [|c s IH]; [done |]. simpl.
  destruct (Ascii.eqb_spec c slash) as [->|Hne].
  - destruct (split_slash s) eqn:Hs; [by destruct (split_slash_ne s) |].
    rewrite <-IH. done.
  - destruct (split_slash s) as [|h [|h' t]] eqn:Hs; [by destruct (split_slash_ne s) | |];
      simpl in *; by rewrite <-IH.
Qed.

(** ** Cleaning paths without [..] *)
Definition no_dotdot (l : list string) : Prop := Forall (fun c => c <> ".."%string) l.

Lemma clean_loop_filter rooted out rest :
  no_dotdot rest ->
  clean_loop rooted out rest = rev out ++ List.filter (fun c => negb (is_skip c)) rest.
Proof.
  intros Hd. revert out. induction Hd as [|c rest Hc Hd IH]; intros out; simpl.
  { by rewrite app_nil_r. }
  destruct (is_skip c) eqn:Hs; simpl; [apply IH |].
  apply String.eqb_neq in Hc. rewrite Hc, IH. simpl. by rewrite <-app_assoc.
Qed.

Lemma comps_proper p : no_dotdot (split_slash p) -> Forall proper (comps p).
Proof.
  intros Hd. apply Forall_forall. intros c [Hin Hc]%list_elem_of_In%filter_In.
  apply list_elem_of_In in Hin. split_and!.
  - by destruct (is_skip c).
  - by eapply Forall_forall in Hd.
  - pose proof (split_slash_chars p) as Hs. by eapply Forall_forall in Hs.
Qed.

(** The text of an absolute or relative path. *)
Definition path_text (abs : bool) (cs : list string) : string :=
  if abs then String slash (join_slash cs)
  else match cs with [] => "." | _ => join_slash cs end.

Lemma Clean_text p : no_dotdot (split_slash p) -> Clean p = path_text (IsAbs p) (comps p).
Proof. intros Hd. unfold Clean, path_text. by rewrite clean_loop_filter. Qed.

Lemma is_skip_empty : is_skip "" = true.
Proof. done. Qed.

Lemma filter_proper cs :
  Forall proper cs -> List.filter (fun c => negb (is_skip c)) cs = cs.
Proof. induction 1 as [|c cs [Hc _] _ IH]; simpl; [done |]. by rewrite Hc, IH. Qed.

Lemma proper_chars cs : Forall proper cs -> Forall (fun c => ~ has_char slash c) cs.
Proof. intros H. eapply Forall_impl; [exact H |]. by intros c (_ & _ & ?). Qed.

Lemma proper_no_dotdot cs : Forall proper cs -> no_dotdot cs.
Proof. intros H. eapply Forall_impl; [exact H |]. by intros c (_ & ? & _). Qed.

Lemma proper_not_abs c p : proper c -> IsAbs (c +:+ p) = false.
Proof.
  intros (Hs & _ & Hc). destruct c as [|a c]; [done |]. simpl.
  apply Ascii.eqb_neq. intros ->. apply Hc. by left.
Qed.

Lemma join_not_abs c cs : proper c -> IsAbs (join_slash (c :: cs)) = false.
Proof.
  intros Hc. destruct cs as [|d cs].
  - generalize (proper_not_abs c "" Hc). simpl. by destruct c.
  - cbn [join_slash]. by apply proper_not_abs.
Qed.

Lemma IsAbs_path_text abs cs : Forall proper cs -> IsAbs (path_text abs cs) = abs.
Proof.
  intros Hp. destruct abs; [done |]. destruct cs as [|c cs]; [done |].
  apply Forall_cons in Hp as [Hc _]. by apply join_not_abs.
Qed.

Lemma split_path_text abs cs :
  Forall proper cs ->
  split_slash (path_text abs cs) =
    (if abs then [""%string] else []) ++ (match cs with [] => if abs then [""%string] else ["."%string] | _ => cs end).
Proof.
  intros Hp%proper_chars. destruct abs, cs as [|c cs]; try done.
  - cbn [path_text]. change (split_slash (String slash (join_slash (c :: cs))))
      with (""%string :: split_slash (join_slash (c :: cs))). by rewrite split_join.
  - cbn [path_text app]. by rewrite split_join.
Qed.

Lemma comps_path_text abs cs : Forall proper cs -> comps (path_text abs cs) = cs.
Proof.
  intros Hp. unfold comps. rewrite split_path_text by done.
  destruct abs, cs as [|c cs]; try done; cbn [app]; by rewrite <-(filter_proper (c :: cs)) at 2.
Qed.

Lemma split_slash_cat a b : split_slash (a +:+ String slash b) = split_slash a ++ split_slash b.
Proof.
  induction a as [|c a IH]; [done |]. simpl. rewrite IH.
  case_bool; [done |]. destruct (split_slash a) eqn:Ha; [by destruct (split_slash_ne a) | done].
Qed.

Lemma comps_cat a b : comps (a +:+ String slash b) = comps a ++ comps b.
Proof. unfold comps. by rewrite split_slash_cat, List.filter_app. Qed.

Lemma no_dotdot_cat a b :
  no_dotdot (split_slash a) -> no_dotdot (split_slash b) -> no_dotdot (split_slash (a +:+ String slash b)).
Proof. intros. unfold no_dotdot. rewrite split_slash_cat. by apply Forall_app. Qed.

Lemma no_dotdot_comps p : no_dotdot (split_slash p) <-> no_dotdot (comps p).
Proof.
  unfold no_dotdot, comps. rewrite !Forall_forall. split; intros Hd c Hc.
  - apply Hd. by apply list_elem_of_In, filter_In, proj1, list_elem_of_In in Hc.
  - destruct (is_skip c) eqn:Hs; [intros ->; done |].
    apply Hd, list_elem_of_In, filter_In. rewrite Hs. split; [by apply list_elem_of_In | done].
Qed.

Lemma path_text_ne abs cs : Forall proper cs -> path_text abs cs <> ""%string.
Proof.
  intros Hp. destruct abs; [done |]. destruct cs as [|c cs]; [done |].
  apply Forall_cons in Hp as [(Hs & _) _]. destruct c as [|a c]; [done |]. by destruct cs.
Qed.

Lemma no_dotdot_text abs cs : Forall proper cs -> no_dotdot (split_slash (path_text abs cs)).
Proof. intros Hp. apply no_dotdot_comps. rewrite comps_path_text by done. by apply proper_no_dotdot. Qed.

Lemma proper_text c : proper c -> comps c = [c] /\ no_dotdot (split_slash c).
Proof.
  intros Hc. pose proof Hc as (Hs & Hd & Hch). unfold comps, no_dotdot.
  rewrite split_slash_single by done. simpl. rewrite Hs. split; [done | by constructor].
Qed.

Lemma Join_text abs cs c :
  Forall proper cs -> proper c -> Join (path_text abs cs) c = path_text abs (cs ++ [c]).
Proof.
  intros Hcs Hc. destruct (proper_text c Hc) as [Hcc Hcd]. unfold Join.
  destruct (String.eqb_spec (path_text abs cs) "") as [He|_]; [by apply path_text_ne in He |].
  rewrite Clean_text by (apply no_dotdot_cat; [by apply no_dotdot_text | done]).
  rewrite comps_cat, comps_path_text, Hcc by done. f_equal.
  generalize (IsAbs_path_text abs cs Hcs). pose proof (path_text_ne abs cs Hcs).
  by destruct (path_text abs cs).
Qed.

(** ** Resolution that meets no link *)

(** Walking [rest] from [cur] reaches no symbolic link. *)
Fixpoint clear (fs : FS) (cur rest : list string) : Prop :=
  match rest with
  | [] => True
  | c :: rest' =>
      match tree fs !! (cur ++ [c]) with
      | Some NDir => clear fs (cur ++ [c]) rest'
      | Some (NLink _) => False
      | _ => True
      end
  end.

(** A result of a walk that did not leave the path it was given. *)
Definition lexical (r : list string + errno) (p : list string) : Prop :=
  r = inl p \/ r = inr ENOENT \/ r = inr ENOTDIR.

Lemma walk_step fs links cur c rest follow :
  proper c ->
  walk_path fs links cur (c :: rest) follow =
    match tree fs !! (cur ++ [c]) with
    | None => match rest with [] => inl (cur ++ [c]) | _ => inr ENOENT end
    | Some NDir => walk_path fs links (cur ++ [c]) rest follow
    | Some (NLink target) =>
        if match rest with [] => true | _ => false end && negb follow then inl (cur ++ [c])
        else match links with
             | O => inr ELOOP
             | S links' => walk_path fs links' (if IsAbs target then [] else cur) (split_slash target ++ rest) follow
             end
    | Some _ => match rest with [] => inl (cur ++ [c]) | _ => inr ENOTDIR end
    end.
Proof.
  intros (Hs & Hd & _). apply String.eqb_neq in Hd. destruct links; simpl; rewrite Hs, Hd;
    destruct (tree fs !! (cur ++ [c])) as [[]|]; by destruct rest.
Qed.

Lemma walk_skip fs links cur c rest follow :
  is_skip c = true -> walk_path fs links cur (c :: rest) follow = walk_path fs links cur rest follow.
Proof. intros Hs. destruct links; simpl; by rewrite Hs. Qed.

Lemma walk_nil fs links cur follow : walk_path fs links cur [] follow = inl cur.
Proof. by destruct links. Qed.

Lemma clear_walk fs links cur rest follow :
  Forall proper rest -> clear fs cur rest ->
  lexical (walk_path fs links cur rest follow) (cur ++ rest).
Proof.
  intros Hp. revert cur. induction Hp as [|c rest Hc Hp IH]; intros cur Hcl.
  { rewrite walk_nil, app_nil_r. by left. }
  rewrite walk_step by done. simpl in Hcl.
  replace (cur ++ c :: rest) with ((cur ++ [c]) ++ rest) by (by rewrite <-app_assoc).
  destruct (tree fs !! (cur ++ [c])) as [[]|] eqn:Ht; try done.
  all: try (destruct rest; [rewrite app_nil_r; by left | unfold lexical; by auto]).
  by apply IH.
Qed.

(** The last component may be anything when it is not followed. *)
Lemma clear_walk_last fs links cur rest f :
  Forall proper rest -> proper f -> clear fs cur rest ->
  lexical (walk_path fs links cur (rest ++ [f]) false) (cur ++ rest ++ [f]).
Proof.
  intros Hp Hf. revert cur. induction Hp as [|c rest Hc Hp IH]; intros cur Hcl.
  - simpl. rewrite walk_step by done. destruct (tree fs !! (cur ++ [f])) as [[]|] eqn:Ht;
      rewrite ?walk_nil; by left.
  - simpl. rewrite walk_step by done. simpl in Hcl.
    replace (cur ++ c :: rest ++ [f]) with ((cur ++ [c]) ++ rest ++ [f]) by (by rewrite <-app_assoc).
    destruct (tree fs !! (cur ++ [c])) as [[]|] eqn:Ht; try done; [by apply IH | |..];
      destruct rest; simpl; unfold lexical; by auto.
Qed.

(** Where a path starts. *)
Definition base_of (fs : FS) (abs : bool) : list string := if abs then [] else cwd fs.

(** The name a path spells when no link is followed. *)
Definition lexical_path (fs : FS) (p : string) : list string := base_of fs (IsAbs p) ++ comps p.

Lemma resolve_text fs follow abs cs :
  Forall proper cs ->
  resolve fs follow (path_text abs cs) = walk_path fs max_links (base_of fs abs) cs follow.
Proof.
  intros Hp. unfold resolve.
  destruct (String.eqb_spec (path_text abs cs) "") as [He|_]; [by apply path_text_ne in He |].
  rewrite IsAbs_path_text, split_path_text by done.
  destruct abs; cbn [app]; [rewrite walk_skip by done |];
    (destruct cs; [rewrite walk_skip by done |]); done.
Qed.

Lemma clear_walk_raw fs links cur raw f :
  no_dotdot raw -> Forall (fun c => ~ has_char slash c) raw -> proper f ->
  clear fs cur (List.filter (fun c => negb (is_skip c)) raw) ->
  lexical (walk_path fs links cur (raw ++ [f]) false)
    (cur ++ List.filter (fun c => negb (is_skip c)) raw ++ [f]).
Proof.
  intros Hd Hch Hf. revert cur. induction raw as [|c raw IH]; intros cur Hcl.
  { apply (clear_walk_last fs links cur []); [done | done | done]. }
  apply Forall_cons in Hd as [Hdc Hd], Hch as [Hcc Hch]. simpl in *.
  destruct (is_skip c) eqn:Hs; simpl in *; [rewrite walk_skip by done; by apply IH |].
  rewrite walk_step by done.
  replace (cur ++ c :: _ ++ [f]) with ((cur ++ [c]) ++ List.filter (fun c => negb (is_skip c)) raw ++ [f])
    by (by rewrite <-app_assoc).
  destruct (tree fs !! (cur ++ [c])) as [[]|] eqn:Ht; try done; [by apply IH | |..];
    destruct raw; simpl; unfold lexical; by auto.
Qed.

(** A path whose last component is a name. *)
Definition file_path (p : string) (pre : list string) (f : string) : Prop :=
  split_slash p = pre ++ [f] /\ proper f /\ no_dotdot pre.

Lemma file_path_comps p pre f :
  file_path p pre f -> comps p = List.filter (fun c => negb (is_skip c)) pre ++ [f].
Proof.
  intros (Hp & (Hs & _) & _). unfold comps. rewrite Hp, List.filter_app. simpl. by rewrite Hs.
Qed.

Lemma file_path_ne p pre f : file_path p pre f -> p <> ""%string.
Proof.
  intros (Hp & (Hs & _) & _) ->. simpl in Hp. symmetry in Hp.
  destruct pre as [|? []]; simplify_eq/=.
Qed.

Lemma join_abs x l : IsAbs (join_slash (x :: l)) = match x with ""%string => match l with [] => false | _ => true end | _ => IsAbs x end.
Proof. destruct x, l; try done. Qed.

Lemma Dir_spec p pre f :
  file_path p pre f ->
  Dir p = path_text (IsAbs p) (List.filter (fun c => negb (is_skip c)) pre).
Proof.
  intros Hf. pose proof Hf as (Hp & Hpf & Hd). unfold Dir. rewrite Hp, removelast_last.
  assert (Forall (fun c => ~ has_char slash c) pre) as Hch.
  { pose proof (split_slash_chars p) as Hc. rewrite Hp in Hc. by apply Forall_app in Hc as [? _]. }
  assert (split_slash (join_slash (pre ++ [""%string])) = pre ++ [""%string]) as Hs.
  { apply split_join; [by destruct pre |]. apply Forall_app. split; [done |]. by repeat constructor; intros []. }
  rewrite Clean_text; last first.
  { rewrite Hs. apply Forall_app. split; [done | by repeat constructor]. }
  unfold comps. rewrite Hs, List.filter_app. cbn [List.filter is_skip]. simpl. rewrite app_nil_r. f_equal.
  rewrite <-(join_split p), Hp. destruct pre as [|x pre]; simpl app.
  - destruct Hpf as (Hfs & _ & Hfc). destruct f as [|a f]; [done |]. simpl. symmetry.
    apply Ascii.eqb_neq. intros ->. apply Hfc. by left.
  - rewrite !join_abs by done. destruct x; [by destruct pre | done].
Qed.

(** A name that no link on its directory redirects. *)
Lemma resolve_file fs p pre f :
  file_path p pre f ->
  clear fs (base_of fs (IsAbs p)) (List.filter (fun c => negb (is_skip c)) pre) ->
  lexical (resolve fs false p) (lexical_path fs p).
Proof.
  intros Hf Hcl. pose proof Hf as (Hp & Hpf & Hd). unfold resolve, lexical_path.
  rewrite (file_path_comps p pre f Hf).
  destruct (String.eqb_spec p "") as [He|_]; [by eapply file_path_ne in He |].
  rewrite Hp. apply clear_walk_raw; try done.
  pose proof (split_slash_chars p) as Hc. rewrite Hp in Hc. by apply Forall_app in Hc as [? _].
Qed.

(** Another file in the same directory. *)
Lemma file_path_sibling p pre f s :
  file_path p pre f -> proper (f +:+ s) -> ~ has_char slash s ->
  file_path (p +:+ s) pre (f +:+ s) /\ IsAbs (p +:+ s) = IsAbs p.
Proof.
  intros Hf Hs Hss. pose proof Hf as (Hp & Hpf & Hd). split.
  - split; [|done]. rewrite <-(join_split p), Hp.
    assert (join_slash (pre ++ [f]) +:+ s = join_slash (pre ++ [f +:+ s])) as ->.
    { clear. induction pre as [|x pre IH]; [done |]. simpl app.
      destruct pre as [|y pre]; simpl in *; rewrite <-?IH; by rewrite str_app_assoc. }
    apply split_join; [by destruct pre |].
    pose proof (split_slash_chars p) as Hc. rewrite Hp in Hc. apply Forall_app in Hc as [? _].
    apply Forall_app. split; [done |]. constructor; [apply Hs | constructor].
  - pose proof (file_path_ne p pre f Hf). by destruct p.
Qed.

(** ** What is left alone *)

(** The contents of a regular file under a name. *)
Definition file_data (fs : FS) (q : list string) : option (list Z) :=
  match tree fs !! q with
  | Some (NFile ino) => i_data <$> inodes fs !! ino
  | _ => None
  end.

(** Every name of a file leads to a file. *)
Definition fs_ok (fs : FS) : Prop :=
  forall q ino, tree fs !! q = Some (NFile ino) -> is_Some (inodes fs !! ino).

(** Only directories were added. *)
Record grows (fs fs' : FS) : Prop := {
  grows_inodes : inodes fs' = inodes fs;
  grows_cwd : cwd fs' = cwd fs;
  grows_tree : forall q, tree fs' !! q = tree fs !! q \/ (tree fs !! q = None /\ tree fs' !! q = Some NDir);
}.

Lemma grows_refl fs : grows fs fs.
Proof. split; auto. Qed.

Lemma grows_trans fs1 fs2 fs3 : grows fs1 fs2 -> grows fs2 fs3 -> grows fs1 fs3.
Proof.
  intros [Hi1 Hc1 Ht1] [Hi2 Hc2 Ht2]. split; [congruence | congruence |]. intros q.
  destruct (Ht1 q) as [He1|[Hn1 Hd1]], (Ht2 q) as [He2|[Hn2 Hd2]]; rewrite ?He1, ?He2 in *; auto.
Qed.

Lemma grows_data fs fs' q : grows fs fs' -> file_data fs' q = file_data fs q.
Proof.
  intros [Hi _ Ht]. unfold file_data. rewrite Hi.
  destruct (Ht q) as [->|[-> ->]]; done.
Qed.

Lemma grows_dir fs fs' q : grows fs fs' -> tree fs !! q = Some NDir -> tree fs' !! q = Some NDir.
Proof. intros [_ _ Ht] Hq. destruct (Ht q) as [->|[? ?]]; [done | congruence]. Qed.

Lemma grows_file fs fs' q ino : grows fs fs' -> tree fs' !! q = Some (NFile ino) -> tree fs !! q = Some (NFile ino).
Proof. intros [_ _ Ht] Hq. destruct (Ht q) as [<-|[? ?]]; [done | congruence]. Qed.

Lemma grows_ok fs fs' : grows fs fs' -> fs_ok fs -> fs_ok fs'.
Proof.
  intros Hg Hok q ino Hq. rewrite (grows_inodes _ _ Hg). eapply Hok. by eapply grows_file.
Qed.

(** A computation all of whose states are related to the first. *)
Definition io_all {A} (R : FS -> FS -> Prop) (m : IO A) : Prop :=
  forall fs tr fs' a, m fs = (tr, fs', a) -> Forall (R fs) tr /\ R fs fs'.

Lemma io_all_ret {A} (R : FS -> FS -> Prop) (a : A) : (forall fs, R fs fs) -> io_all R (io_ret a).
Proof. intros HR fs tr fs' a' [= <- <- <-]. auto. Qed.

Lemma io_all_ask {A} (R : FS -> FS -> Prop) (f : FS -> A) : (forall fs, R fs fs) -> io_all R (io_ask f).
Proof. intros HR fs tr fs' a' [= <- <- <-]. auto. Qed.

Lemma io_all_bind {A B} (R : FS -> FS -> Prop) (m : IO A) (k : A -> IO B) :
  (forall x y z, R x y -> R y z -> R x z) ->
  io_all R m -> (forall a, io_all R (k a)) -> io_all R (io_bind m k).
Proof.
  intros Htr Hm Hk fs tr fs' b. unfold io_bind.
  destruct (m fs) as [[tr1 fs1] a] eqn:E1, (k a fs1) as [[tr2 fs2] b'] eqn:E2. intros [= <- <- <-].
  destruct (Hm _ _ _ _ E1) as [Ht1 H1], (Hk _ _ _ _ _ E2) as [Ht2 H2].
  split; [|eauto]. apply Forall_app. split; [done |].
  eapply Forall_impl; [exact Ht2 |]. eauto.
Qed.

(** One step of a computation. *)
Lemma io_bind_eq {A B} (m : IO A) (k : A -> IO B) fs tr1 fs1 a tr2 fs2 b :
  m fs = (tr1, fs1, a) -> k a fs1 = (tr2, fs2, b) -> io_bind m k fs = (tr1 ++ tr2, fs2, b).
Proof. intros H1 H2. unfold io_bind. by rewrite H1, H2. Qed.

Lemma Mkdir_grows flt p : io_all grows (Mkdir flt p).
Proof.
  intros fs tr fs' r. unfold Mkdir.
  destruct (fault flt OpMkdir p); [by apply io_all_ret, grows_refl |].
  destruct (resolve fs false p) as [rp|e]; [|by apply io_all_ret, grows_refl].
  destruct (node_at fs rp) eqn:Hn; [by apply io_all_ret, grows_refl |].
  assert (grows fs (set_tree (<[rp := NDir]> (tree fs)) fs)) as Hg.
  { split; [done | done |]. intros q. simpl. destruct (decide (q = rp)) as [->|Hne].
    - right. rewrite lookup_insert_eq. destruct rp; [done |]. by split.
    - left. by rewrite lookup_insert_ne. }
  intros [= <- <- <-]. split; [by constructor | done].
Qed.

Lemma mkdir_all_grows flt abs top rcs : io_all grows (mkdir_all flt abs top rcs).
Proof.
  revert top. induction rcs as [|c rcs IH]; intros top; [by apply io_all_ret, grows_refl |].
  cbn [mkdir_all].
  apply io_all_bind; [exact grows_trans | by apply io_all_ask, grows_refl |].
  intros [[]|]; try (by apply io_all_ret, grows_refl).
  apply io_all_bind; [exact grows_trans | apply IH |].
  intros [|]; [by apply io_all_ret, grows_refl |].
  apply io_all_bind; [exact grows_trans | apply Mkdir_grows |].
  intros [|]; [|by apply io_all_ret, grows_refl].
  apply io_all_bind; [exact grows_trans | by apply io_all_ask, grows_refl |].
  intros ?. by apply io_all_ret, grows_refl.
Qed.

Lemma MkdirAll_grows flt p : io_all grows (MkdirAll flt p).
Proof. apply mkdir_all_grows. Qed.

(** ** Resolution that succeeds *)

(** Every component is a directory. *)
Fixpoint dirs (fs : FS) (cur rest : list string) : Prop :=
  match rest with
  | [] => True
  | c :: rest' => tree fs !! (cur ++ [c]) = Some NDir /\ dirs fs (cur ++ [c]) rest'
  end.

Lemma dirs_ext fs fs' cur rest :
  (forall q, (length q <= length cur + length rest)%nat -> tree fs' !! q = tree fs !! q) ->
  dirs fs cur rest -> dirs fs' cur rest.
Proof.
  revert cur. induction rest as [|c rest IH]; intros cur Hq; [done |]. simpl in *. intros [Hc Hd].
  split; [rewrite Hq; [done | rewrite length_app; simpl; lia] |]. apply IH; [|done].
  intros q Hl. apply Hq. rewrite length_app in Hl. simpl in Hl. lia.
Qed.

Lemma dirs_walk fs links cur raw f :
  no_dotdot raw -> Forall (fun c => ~ has_char slash c) raw -> proper f ->
  dirs fs cur (List.filter (fun c => negb (is_skip c)) raw) ->
  walk_path fs links cur (raw ++ [f]) false =
    inl (cur ++ List.filter (fun c => negb (is_skip c)) raw ++ [f]).
Proof.
  intros Hd Hch Hf. revert cur. induction raw as [|c raw IH]; intros cur Hdir.
  - simpl. rewrite walk_step by done. destruct (tree fs !! (cur ++ [f])) as [[]|]; by rewrite ?walk_nil.
  - apply Forall_cons in Hd as [Hdc Hd], Hch as [Hcc Hch]. simpl in *.
    destruct (is_skip c) eqn:Hs; simpl in *; [rewrite walk_skip by done; by apply IH |].
    destruct Hdir as [Hc Hdir]. rewrite walk_step, Hc, IH by done. by rewrite <-!app_assoc.
Qed.

Lemma walk_dirs fs links cur raw f q :
  no_dotdot raw -> Forall (fun c => ~ has_char slash c) raw -> proper f ->
  clear fs cur (List.filter (fun c => negb (is_skip c)) raw) ->
  walk_path fs links cur (raw ++ [f]) false = inl q ->
  dirs fs cur (List.filter (fun c => negb (is_skip c)) raw).
Proof.
  intros Hd Hch Hf. revert cur. induction raw as [|c raw IH]; intros cur Hcl Hw; [done |].
  apply Forall_cons in Hd as [Hdc Hd], Hch as [Hcc Hch]. simpl in *.
  destruct (is_skip c) eqn:Hs; simpl in *; [rewrite walk_skip in Hw by done; by apply IH |].
  rewrite walk_step in Hw by done. destruct (tree fs !! (cur ++ [c])) as [[]|]; try done;
    try (by destruct raw). split; [done |]. by apply IH.
Qed.

Lemma resolve_dirs fs p pre f :
  file_path p pre f ->
  (dirs fs (base_of fs (IsAbs p)) (List.filter (fun c => negb (is_skip c)) pre) ->
   resolve fs false p = inl (lexical_path fs p)) /\
  (forall q, clear fs (base_of fs (IsAbs p)) (List.filter (fun c => negb (is_skip c)) pre) ->
   resolve fs false p = inl q -> dirs fs (base_of fs (IsAbs p)) (List.filter (fun c => negb (is_skip c)) pre)).
Proof.
  intros Hf. pose proof Hf as (Hp & Hpf & Hd). unfold resolve, lexical_path.
  rewrite (file_path_comps p pre f Hf).
  destruct (String.eqb_spec p "") as [He|_]; [by eapply file_path_ne in He |].
  assert (Forall (fun c => ~ has_char slash c) pre) as Hch.
  { pose proof (split_slash_chars p) as Hc. rewrite Hp in Hc. by apply Forall_app in Hc as [? _]. }
  rewrite Hp. split; [by apply dirs_walk |]. intros q. by apply walk_dirs.
Qed.
