(* ===== verification/SecurePath.v ===== *)
(** * Package [securepath]: no symbolic link on the way

    Translated from src/internal/securepath/securepath.go.  The walk makes one [Lstat] per
    component; other processes can act between them, so each sees a state of its own:
    [seen cur] is the file system when the [Lstat] of [cur] runs.
    [RejectSymlinkComponents] is the walk in a state that does not change meanwhile. *)
From Stdlib Require Import ZArith Lia ZifyBool.
From stdpp Require Import base gmap sets list strings pretty fin_maps.
From S2P Require Import Prelude GoTime GoFS.

Local Open Scope Z_scope.

(** The first loop: a component [..] anywhere in the raw path. *)
Definition has_dotdot_component (dir : string) : bool :=
  existsb (fun part => String.eqb part "..") (split_slash dir).

(** The second loop: [cur] is the path walked so far.  The result is the error. *)
Fixpoint reject_loop (flt : Faults) (seen : string -> FS) (cur : string) (parts : list string) : option string :=
  match parts with
  | [] => None
  | part :: parts' =>
      if String.eqb part "" then reject_loop flt seen cur parts'
      else
        let cur := Join cur part in
        match Lstat flt (seen cur) cur with
        | inr e =>
            if is_not_exist e then reject_loop flt seen cur parts'
            else Some ("stating " +:+ cur +:+ ": " +:+ errno_text e)
        | inl (NLink _) => Some ("path component is a symlink: " +:+ cur)
        | inl _ => reject_loop flt seen cur parts'
        end
  end.

(** [strings.TrimPrefix(s, "/")] *)
Definition trim_slash (s : string) : string :=
  match s with
  | String c s' => if Ascii.eqb c slash then s' else s
  | EmptyString => s
  end.

Definition RejectSymlinkWalk (flt : Faults) (seen : string -> FS) (dir : string) : option string :=
  if has_dotdot_component dir then Some ("path component '..' not allowed: " +:+ dir)
  else
    let cleaned := Clean dir in
    if IsAbs cleaned then reject_loop flt seen (String slash "") (split_slash (trim_slash cleaned))
    else reject_loop flt seen "." (split_slash cleaned).

Definition RejectSymlinkComponents (flt : Faults) (fs : FS) (dir : string) : option string :=
  RejectSymlinkWalk flt (fun _ => fs) dir.
