(* ===== verification/SecurePathFacts.v ===== *)
(** * What the symlink check guarantees

    The check is exact: without failures of [Lstat] it accepts precisely the paths
    on which every component is missing or a directory (the last one may be a
    file).  The paths it accepts are resolved by the kernel to the names they
    spell. *)
From Stdlib Require Import ZArith Lia ZifyBool.
From stdpp Require Import base gmap sets list strings pretty fin_maps.
From S2P Require Import Prelude GoTime GoFS GoFSFacts SecurePath.

Local Open Scope Z_scope.

(** Walking [rest] from [cur] meets directories until a component is missing or
    the last one is reached, which is not a link. *)
Fixpoint walkable (fs : FS) (cur rest : list string) : Prop :=
  match rest with
  | [] => True
  | c :: rest' =>
      match tree fs !! (cur ++ [c]) with
      | None => True
      | Some NDir => walkable fs (cur ++ [c]) rest'
      | Some (NLink _) => False
      | Some _ => rest' = []
      end
  end.

Lemma walkable_clear fs cur rest : walkable fs cur rest -> clear fs cur rest.
Proof.
  revert cur. induction rest as [|c rest IH]; intros cur; [done |]. simpl.
  destruct (tree fs !! (cur ++ [c])) as [[]|]; auto.
Qed.

Lemma walkable_prefix fs cur a b : walkable fs cur (a ++ b) -> walkable fs cur a.
Proof.
  revert cur. induction a as [|c a IH]; intros cur; [done |]. simpl.
  destruct (tree fs !! (cur ++ [c])) as [[]|]; auto; by destruct a.
Qed.

(** What the walk of one more component says. *)
Lemma walkable_snoc fs cur a c :
  Forall proper a -> proper c -> walkable fs cur a ->
  match walk_path fs max_links cur (a ++ [c]) false with
  | inl rp => rp = cur ++ a ++ [c] /\
      (walkable fs cur (a ++ [c]) <-> forall t, tree fs !! rp <> Some (NLink t))
  | inr ENOENT => walkable fs cur (a ++ [c])
  | inr ENOTDIR => ~ walkable fs cur (a ++ [c])
  | inr _ => False
  end.
Proof.
  intros Ha Hc. revert cur. induction Ha as [|x a Hx Ha IH]; intros cur Hw.
  - simpl app. rewrite walk_step by done. simpl.
    destruct (tree fs !! (cur ++ [c])) as [[]|] eqn:Ht; rewrite ?walk_nil; simpl; rewrite ?Ht;
      (split; [done |]); split; try done. intros H. by eapply H.
  - rewrite <-app_comm_cons, walk_step by done. simpl in *.
    replace (cur ++ x :: a ++ [c]) with ((cur ++ [x]) ++ a ++ [c]) by (by rewrite <-app_assoc).
    destruct (tree fs !! (cur ++ [x])) as [[]|] eqn:Ht; try done; [by apply IH | |..];
      try subst a; simpl; try done; by destruct a.
Qed.

Section check.
Context (flt : Faults) (fs : FS).

Lemma Lstat_snoc abs a c :
  Forall proper a -> proper c -> walkable fs (base_of fs abs) a ->
  fault flt OpLstat (path_text abs (a ++ [c])) = None ->
  match Lstat flt fs (path_text abs (a ++ [c])) with
  | inl (NLink _) => ~ walkable fs (base_of fs abs) (a ++ [c])
  | inl _ => walkable fs (base_of fs abs) (a ++ [c])
  | inr e => is_not_exist e = true <-> walkable fs (base_of fs abs) (a ++ [c])
  end.
Proof.
  intros Ha Hc Hw Hflt. unfold Lstat, stat_at. rewrite Hflt, resolve_text by (apply Forall_app; auto).
  pose proof (walkable_snoc fs (base_of fs abs) a c Ha Hc Hw) as Hs.
  destruct (walk_path fs max_links (base_of fs abs) (a ++ [c]) false) as [rp|e].
  - destruct Hs as [Hrp Hs]. assert (node_at fs rp = tree fs !! rp) as ->.
    { rewrite Hrp. unfold node_at. destruct (base_of fs abs ++ a ++ [c]) eqn:He; [|done].
      apply app_eq_nil in He as [_ He]. by destruct a. }
    destruct (tree fs !! rp) as [[]|] eqn:Ht; try (apply Hs; intros ?; congruence).
    + intros Hl. by destruct (proj1 Hs Hl target).
    + split; [|done]. intros _. apply Hs. intros ?. congruence.
  - destruct e; try done; simpl; by split.
Qed.

(** With or without failures, what the loop accepts is walkable; without failures
    it accepts everything walkable. *)
Lemma reject_loop_sound abs a parts :
  Forall proper a -> Forall proper parts -> walkable fs (base_of fs abs) a ->
  reject_loop flt (fun _ => fs) (path_text abs a) parts = None -> walkable fs (base_of fs abs) (a ++ parts).
Proof.
  intros Ha Hp. revert a Ha. induction Hp as [|c parts Hc Hp IH]; intros a Ha Hw.
  { by rewrite app_nil_r. }
  cbn [reject_loop]. destruct (String.eqb_spec c "") as [->|_]; [by destruct Hc |].
  rewrite Join_text by done. intros Hr.
  destruct (fault flt OpLstat (path_text abs (a ++ [c]))) eqn:Hflt.
  { unfold Lstat, stat_at in Hr. by rewrite Hflt in Hr. }
  pose proof (Lstat_snoc abs a c Ha Hc Hw Hflt) as Hs. rewrite cons_middle, app_assoc.
  destruct (Lstat flt fs (path_text abs (a ++ [c]))) as [[]|e]; try done;
    try (apply IH; [by apply Forall_app; auto | done | done]).
  destruct (is_not_exist e) eqn:He; [|done].
  apply IH; [by apply Forall_app; auto | by apply Hs | done].
Qed.

Lemma reject_loop_complete abs a parts :
  (forall p, fault flt OpLstat p = None) ->
  Forall proper a -> Forall proper parts -> walkable fs (base_of fs abs) (a ++ parts) ->
  reject_loop flt (fun _ => fs) (path_text abs a) parts = None.
Proof.
  intros Hflt Ha Hp. revert a Ha. induction Hp as [|c parts Hc Hp IH]; intros a Ha; [done |].
  intros Hw. cbn [reject_loop]. destruct (String.eqb_spec c "") as [->|_]; [by destruct Hc |].
  rewrite cons_middle, app_assoc in Hw. rewrite Join_text by done.
  pose proof (walkable_prefix _ _ _ _ Hw) as Hac.
  pose proof (Lstat_snoc abs a c Ha Hc (walkable_prefix _ _ _ _ Hac) (Hflt _)) as Hs.
  destruct (Lstat flt fs (path_text abs (a ++ [c]))) as [[]|e]; try done;
    try (by apply IH; [apply Forall_app; auto | done]).
  apply Hs in Hac as ->. by apply IH; [apply Forall_app; auto | done].
Qed.
End check.

(** What the walk through changing states guarantees: the [Lstat] of each component met
    no link. *)
Definition no_link_seen (flt : Faults) (seen : string -> FS) (cur : string) : Prop :=
  forall t, Lstat flt (seen cur) cur <> inl (NLink t).

Lemma reject_loop_seen flt seen abs a parts b c :
  Forall proper a -> Forall proper parts -> reject_loop flt seen (path_text abs a) parts = None ->
  parts = b ++ c -> b <> [] -> no_link_seen flt seen (path_text abs (a ++ b)).
Proof.
  intros Ha Hp. revert a Ha b c. induction Hp as [|x parts Hx Hp IH]; intros a Ha b c; cbn [reject_loop].
  { intros _ Hb Hne. symmetry in Hb. by apply app_eq_nil in Hb as [-> _]. }
  destruct (String.eqb_spec x "") as [->|_]; [by destruct Hx |]. rewrite Join_text by done.
  intros Hr Hb Hne. destruct b as [|y b]; [done |]. injection Hb as <- Hb.
  assert (no_link_seen flt seen (path_text abs (a ++ [x])) /\
          reject_loop flt seen (path_text abs (a ++ [x])) parts = None) as [H1 H2].
  { unfold no_link_seen. destruct (Lstat flt _ _) as [[]|e]; try done. by destruct (is_not_exist e). }
  destruct b as [|y b]; [done |]. rewrite cons_middle, app_assoc.
  eapply (IH (a ++ [x])); [apply Forall_app; auto | done | exact Hb | done].
Qed.

Lemma reject_walk_const flt seen fs dir :
  (forall cur, seen cur = fs) -> RejectSymlinkWalk flt seen dir = RejectSymlinkComponents flt fs dir.
Proof.
  intros Hs. unfold RejectSymlinkComponents, RejectSymlinkWalk.
  assert (forall parts cur, reject_loop flt seen cur parts = reject_loop flt (fun _ => fs) cur parts) as Hl.
  { induction parts as [|c parts IH]; intros cur; cbn [reject_loop]; [done |]. by rewrite Hs, !IH. }
  by rewrite !Hl.
Qed.

Lemma has_dotdot_component_spec dir : has_dotdot_component dir = false <-> no_dotdot (split_slash dir).
Proof.
  unfold has_dotdot_component, no_dotdot. rewrite Forall_forall, <-not_true_iff_false, existsb_exists.
  split.
  - intros Hn c Hc ->. apply Hn. exists ".."%string. split; [by apply list_elem_of_In | done].
  - intros Hn (c & Hc & He%String.eqb_eq). subst c. by eapply Hn; [apply list_elem_of_In |].
Qed.

(** The loop that runs on the cleaned path. *)
Lemma RejectSymlinkComponents_loop flt fs dir :
  no_dotdot (split_slash dir) ->
  (RejectSymlinkComponents flt fs dir = None <->
   comps dir = [] /\ (IsAbs dir = true \/ match Lstat flt fs "." with inr e => is_not_exist e = true | inl n => forall t, n <> NLink t end) \/
   comps dir <> [] /\ reject_loop flt (fun _ => fs) (path_text (IsAbs dir) []) (comps dir) = None).
Proof.
  intros Hd. pose proof (comps_proper dir Hd) as Hp. unfold RejectSymlinkComponents, RejectSymlinkWalk.
  apply has_dotdot_component_spec in Hd as Hd'. rewrite Hd', Clean_text, IsAbs_path_text by done.
  destruct (IsAbs dir).
  - change (trim_slash (path_text true (comps dir))) with (join_slash (comps dir)).
    destruct (comps dir) as [|c cs] eqn:Hc.
    + simpl. naive_solver.
    + rewrite split_join by (done || by apply proper_chars). naive_solver.
  - rewrite split_path_text by done. destruct (comps dir) as [|c cs] eqn:Hc; [|simpl app; naive_solver].
    simpl app. cbn [reject_loop]. change (Join "." ".") with "."%string. simpl String.eqb.
    destruct (Lstat flt fs ".") as [[]|e]; try (destruct (is_not_exist e)); naive_solver.
Qed.

(** The process runs in a directory. *)
Definition cwd_ok (fs : FS) : Prop := node_at fs (cwd fs) = Some NDir.

Lemma Lstat_dot flt fs :
  fault flt OpLstat "." = None -> cwd_ok fs -> Lstat flt fs "." = inl NDir.
Proof.
  intros Hflt Hc. unfold Lstat, stat_at. rewrite Hflt. unfold resolve. simpl String.eqb. cbv iota.
  change (split_slash ".") with ["."%string]. rewrite walk_skip, walk_nil by done. simpl. by rewrite Hc.
Qed.

Lemma reject_walkable flt fs dir :
  RejectSymlinkComponents flt fs dir = None ->
  no_dotdot (split_slash dir) /\ walkable fs (base_of fs (IsAbs dir)) (comps dir).
Proof.
  intros Hr. assert (no_dotdot (split_slash dir)) as Hd.
  { apply has_dotdot_component_spec. unfold RejectSymlinkComponents, RejectSymlinkWalk in Hr. by destruct (has_dotdot_component dir). }
  split; [done |]. apply RejectSymlinkComponents_loop in Hr as [[-> _]|[_ Hr]]; [done | | done].
  by eapply (reject_loop_sound flt fs _ []); [| apply comps_proper | |].
Qed.

(** When no [Lstat] fails for outside reasons, [RejectSymlinkComponents] accepts a path
    exactly when it has no component [..] and every component that exists is a directory, or is the
    last one and not a symbolic link; so links are always found and ordinary paths are never refused. *)
Theorem check_exact flt fs dir :
  (forall p, fault flt OpLstat p = None) -> cwd_ok fs ->
  RejectSymlinkComponents flt fs dir = None <->
  no_dotdot (split_slash dir) /\ walkable fs (base_of fs (IsAbs dir)) (comps dir).
Proof.
  intros Hflt Hc. split; [apply reject_walkable |]. intros [Hd Hw].
  apply RejectSymlinkComponents_loop; [done |].
  destruct (comps dir) as [|c cs] eqn:He; [left | right]; (split; [done |]).
  - right. by rewrite Lstat_dot.
  - rewrite <-He in *. apply reject_loop_complete; try done. by apply comps_proper.
Qed.

(** The components of the directory of a file. *)
Definition dir_comps (pre : list string) : list string := List.filter (fun c => negb (is_skip c)) pre.

Lemma dir_comps_proper p pre f : file_path p pre f -> Forall proper (dir_comps pre).
Proof.
  intros Hf. pose proof Hf as (Hp & Hpf & Hd). pose proof (comps_proper p) as Hc.
  rewrite (file_path_comps p pre f Hf), Hp in Hc.
  apply Forall_app in Hc as [? _]; [done |]. apply Forall_app. split; [done |].
  constructor; [apply Hpf | constructor].
Qed.

Lemma accepted_clear flt fs p pre f :
  file_path p pre f -> RejectSymlinkComponents flt fs (Dir p) = None ->
  clear fs (base_of fs (IsAbs p)) (dir_comps pre).
Proof.
  intros Hf [_ Hw]%reject_walkable. pose proof (dir_comps_proper p pre f Hf) as Hpp.
  rewrite (Dir_spec p pre f Hf) in Hw. fold (dir_comps pre) in Hw.
  rewrite IsAbs_path_text, comps_path_text in Hw by done. by apply walkable_clear.
Qed.

(** No [Lstat] of the walk over the directories of a file met a link. *)
Definition walked (flt : Faults) (seen : string -> FS) (p : string) (pre : list string) : Prop :=
  forall b c, dir_comps pre = b ++ c -> b <> [] -> no_link_seen flt seen (path_text (IsAbs p) b).

Lemma accepted_walked flt seen p pre f :
  file_path p pre f -> RejectSymlinkWalk flt seen (Dir p) = None -> walked flt seen p pre.
Proof.
  intros Hf Hr b c Hb Hne. pose proof (dir_comps_proper p pre f Hf) as Hpp. rewrite (Dir_spec p pre f Hf) in Hr.
  fold (dir_comps pre) in Hr. unfold RejectSymlinkWalk in Hr.
  rewrite (proj2 (has_dotdot_component_spec _)) in Hr by (by apply no_dotdot_text).
  rewrite Clean_text in Hr by (by apply no_dotdot_text).
  rewrite comps_path_text, !IsAbs_path_text in Hr by done.
  assert (reject_loop flt seen (path_text (IsAbs p) []) (dir_comps pre) = None) as Hl.
  { destruct (IsAbs p).
    - change (trim_slash (path_text true (dir_comps pre))) with (join_slash (dir_comps pre)) in Hr.
      destruct (dir_comps pre) as [|x l] eqn:Hd; [done |]. by rewrite split_join in Hr by (done || by apply proper_chars).
    - rewrite split_path_text in Hr by done. destruct (dir_comps pre) as [|x l] eqn:Hd; [done |]. exact Hr. }
  by eapply (reject_loop_seen flt seen (IsAbs p) [] (dir_comps pre) b c).
Qed.


Lemma dirs_walkable fs cur rest : dirs fs cur rest -> walkable fs cur rest.
Proof.
  revert cur. induction rest as [|c rest IH]; intros cur; [done |]. simpl. intros [-> Hd]. auto.
Qed.

Lemma dirs_clear fs cur rest : dirs fs cur rest -> clear fs cur rest.
Proof. intros Hd. by apply walkable_clear, dirs_walkable. Qed.

(** An ordinary directory is accepted. *)
Lemma reject_dirs fs p pre f :
  file_path p pre f -> cwd_ok fs -> dirs fs (base_of fs (IsAbs p)) (dir_comps pre) ->
  RejectSymlinkComponents no_faults fs (Dir p) = None.
Proof.
  intros Hf Hcwd Hdirs. pose proof (dir_comps_proper _ _ _ Hf) as Hpp.
  rewrite (Dir_spec p pre f Hf). fold (dir_comps pre).
  apply RejectSymlinkComponents_loop; [by apply no_dotdot_text |].
  rewrite comps_path_text, IsAbs_path_text by done.
  destruct (dir_comps pre) as [|c cs] eqn:Hc; [left | right]; (split; [done |]).
  - right. by rewrite Lstat_dot.
  - apply reject_loop_complete; try done. by apply dirs_walkable.
Qed.

(** A directory with a state file, and a link to it planted beside it. *)
Definition sample_fs : FS :=
  mkFS (<[["var"]%string := NDir]> (<[["var"; "fw"]%string := NDir]>
       (<[["var"; "fw"; "state.json"]%string := NFile 0]>
       (<[["var"; "link"]%string := NLink "/var/fw"]> ∅))))
    {[ 0%nat := mkInode [123; 125] zeroTime ]} [].

Lemma sample_file_path : file_path "/var/fw/state.json" [""; "var"; "fw"]%string "state.json".
Proof.
  split_and!; [done | | by repeat constructor].
  split_and!; [done | done |]. vm_compute. intros H. repeat (destruct H as [H|H]; [done |]). done.
Qed.

Lemma check_exact_witness :
  RejectSymlinkComponents no_faults sample_fs "/var/fw" = None /\
  ~ walkable sample_fs [] ["var"; "link"]%string.
Proof.
  split; [reflexivity |]. intros Hw.
  assert (RejectSymlinkComponents no_faults sample_fs "/var/link" = None) as Hr.
  { apply check_exact; [done | reflexivity |]. split; [by repeat constructor | exact Hw]. }
  vm_compute in Hr. discriminate.
Defined.

