(* ===== verification/Persist.v ===== *)
(** * Package [persist]: the state file

    Translated from src/internal/persist/persist.go.  [SaveState] runs under a
    mutex; it is an [IO] computation whose trace lists every state of the file
    system, so the points at which the process may die are in it.  The encoder and
    the decoder of package [encoding/json] are parameters. *)
From Stdlib Require Import ZArith Lia ZifyBool.
From stdpp Require Import base gmap sets list strings pretty fin_maps.
From S2P Require Import Prelude GoTime GoFS SecurePath.

Local Open Scope Z_scope.
Local Open Scope io_scope.

Definition maxStateFileSize : Z := 10 * 1024 * 1024.

(** A nil map is [None]. *)
Record EngineState : Type := mkEngineState { BlockStats : option (gmap string Z) }.

Section persist.
Context (Encode : EngineState -> list Z + string).
Context (Decode : list Z -> EngineState + string).

(** [SaveState] from the point where the temporary file is open. *)
Definition finish_save (flt : Faults) (now : Time) (path tmpPath : string) (f : handle)
    (state : EngineState) : IO (option string) :=
  do written := match Encode state with
                | inl bs => write_all flt now tmpPath f bs
                | inr e => io_ret (Some e)
                end in
  match written with
  | Some e =>
      do _ := os_Remove flt tmpPath in
      io_ret (Some ("encoding state: " +:+ e))
  | None =>
      do renamed := os_Rename flt tmpPath path in
      match renamed with
      | Some e =>
          do _ := os_Remove flt tmpPath in
          io_ret (Some ("renaming state file: " +:+ errno_text e))
      | None => io_ret None
      end
  end.

(** [SaveState]; [None] is a nil state.  The result is the error. *)
Definition SaveState (flt : Faults) (now : Time) (path : string) (state : option EngineState)
  : IO (option string) :=
  match state with
  | None => io_ret None
  | Some state =>
      if String.eqb path "" then io_ret None
      else if has_dotdot path then io_ret (Some ("path traversal rejected: " +:+ path))
      else
        let dir := Dir path in
        do made := MkdirAll flt dir in
        match made with
        | Some e => io_ret (Some ("creating state dir: " +:+ errno_text e))
        | None =>
            do rejected := io_ask (fun fs => RejectSymlinkComponents flt fs dir) in
            match rejected with
            | Some e => io_ret (Some e)
            | None =>
                let tmpPath := path +:+ ".tmp" in
                do opened := open_write flt now true tmpPath in
                match opened with
                | inr e => io_ret (Some ("creating temp state file: " +:+ errno_text e))
                | inl f =>
                    finish_save flt now path tmpPath f state
                end
            end
        end
  end.

(** [LoadState]: the state, which may be nil, or the error.  It runs once, when the engine
    starts; no other process acts during the load, so its system calls see one state. *)
Definition LoadState (flt : Faults) (fs : FS) (path : string) : option EngineState + string :=
  if String.eqb path "" then inl None
  else if has_dotdot path then inr ("path traversal rejected: " +:+ path)
  else
    match RejectSymlinkComponents flt fs (Dir path) with
    | Some e => inr e
    | None =>
        match open_read flt fs path with
        | inr e => if is_not_exist e then inl None else inr ("opening state file: " +:+ errno_text e)
        | inl f =>
            match fault flt OpFstat path with
            | Some e => inr ("stating state file: " +:+ e)
            | None =>
                match f with
                | NFile ino =>
                    let data := match inodes fs !! ino with Some i => i_data i | None => [] end in
                    match match fault flt OpRead path with Some e => inr e | None => Decode (take (Z.to_nat (maxStateFileSize + 1)) data) end with
                    | inr e => inr ("decoding state: " +:+ e)
                    | inl st =>
                        inl (Some (mkEngineState (Some (default ∅ (BlockStats st)))))
                    end
                | _ => inr ("state path is not a regular file: " +:+ path)
                end
            end
        end
    end.
End persist.
