(* ===== verification/PersistFacts.v ===== *)
(** * The state file is replaced atomically

    At every state of the file system that [SaveState] goes through, the state
    file holds its old contents or the complete new ones, and no other file
    changes.  What is saved is what is loaded. *)
From Stdlib Require Import ZArith Lia ZifyBool.
From stdpp Require Import base gmap sets list strings pretty fin_maps.
From S2P Require Import Prelude GoTime GoFS GoFSFacts SecurePath SecurePathFacts Persist.

Local Open Scope Z_scope.
Local Open Scope io_scope.

Lemma io_bind_inv {A B} (m : IO A) (k : A -> IO B) fs tr fs' b :
  io_bind m k fs = (tr, fs', b) ->
  exists tr1 fs1 a tr2, m fs = (tr1, fs1, a) /\ k a fs1 = (tr2, fs', b) /\ tr = tr1 ++ tr2.
Proof.
  unfold io_bind. destruct (m fs) as [[tr1 fs1] a] eqn:E1, (k a fs1) as [[tr2 fs2] b'] eqn:E2.
  intros [= <- <- <-]. eauto 10.
Qed.

(** Links are looked for on the directories only. *)
Lemma clear_ext fs fs' cur rest :
  (forall q, (length q <= length cur + length rest)%nat -> tree fs' !! q = tree fs !! q) ->
  clear fs cur rest -> clear fs' cur rest.
Proof.
  revert cur. induction rest as [|c rest IH]; intros cur Hq; [done |]. simpl in *.
  rewrite Hq by (rewrite length_app; simpl; lia).
  destruct (tree fs !! (cur ++ [c])) as [[]|]; try done. apply IH.
  intros q Hl. apply Hq. rewrite length_app in Hl. simpl in Hl. lia.
Qed.

Section replace.
Context (fs0 : FS) (path : string) (pre : list string) (f : string).
Context (Hpath : file_path path pre f).

Let tmp : string := path +:+ ".tmp".
Let rp : list string := lexical_path fs0 path.
Let rt : list string := lexical_path fs0 tmp.

Lemma proper_tmp : proper (f +:+ ".tmp").
Proof.
  destruct Hpath as (_ & (Hs & Hd & Hc) & _). split_and!.
  - destruct f as [|a [|b g]]; [done | |]; by destruct a as [[] [] [] [] [] [] [] []].
  - by destruct f as [|a [|b [|c g]]].
  - rewrite has_char_app. intros [?|Ht]; [done |]. vm_compute in Ht.
    repeat (destruct Ht as [Ht|Ht]; [done |]). done.
Qed.

Lemma tmp_file_path : file_path tmp pre (f +:+ ".tmp") /\ IsAbs tmp = IsAbs path.
Proof.
  apply file_path_sibling; [done | apply proper_tmp |]. vm_compute. intros Ht.
  repeat (destruct Ht as [Ht|Ht]; [done |]). done.
Qed.

Lemma rt_eq : rt = base_of fs0 (IsAbs path) ++ dir_comps pre ++ [f +:+ ".tmp"].
Proof.
  unfold rt, lexical_path. destruct tmp_file_path as [Ht ->].
  by rewrite (file_path_comps _ _ _ Ht).
Qed.

Lemma rp_eq : rp = base_of fs0 (IsAbs path) ++ dir_comps pre ++ [f].
Proof. unfold rp, lexical_path. by rewrite (file_path_comps _ _ _ Hpath). Qed.

Lemma rp_rt : rp <> rt.
Proof.
  rewrite rp_eq, rt_eq. intros H. apply app_inv_head, app_inv_head in H. injection H as H.
  symmetry in H. by apply str_app_ne in H.
Qed.

(** ** The temporary file *)

(** The tree of [fs1] with a file [ino] under the temporary name, holding [d]. *)
Definition Tmp (fs1 : FS) (ino : nat) (d : list Z) (fs' : FS) : Prop :=
  tree fs' = <[rt := NFile ino]> (tree fs1) /\
  (exists mt, inodes fs' = <[ino := mkInode d mt]> (inodes fs1)) /\ cwd fs' = cwd fs1.

(** No other name leads to the temporary file, whose name is not a directory's. *)
Definition sole (fs1 : FS) (ino : nat) : Prop :=
  (forall q, tree fs1 !! q = Some (NFile ino) -> q = rt) /\ tree fs1 !! rt <> Some NDir.

Lemma Tmp_other fs1 ino d fs' q :
  Tmp fs1 ino d fs' -> sole fs1 ino -> q <> rt -> file_data fs' q = file_data fs1 q.
Proof.
  intros (Ht & (mt & Hi) & _) [Hs _] Hq. unfold file_data. rewrite Ht, Hi, lookup_insert_ne by done.
  destruct (tree fs1 !! q) as [[|ino'| |]|] eqn:Hn; try done.
  rewrite lookup_insert_ne; [done |]. intros ->. by apply Hs in Hn.
Qed.

Lemma short_ne_rt q :
  (length q <= length (base_of fs0 (IsAbs path)) + length (dir_comps pre))%nat -> q <> rt.
Proof. intros Hl ->. rewrite rt_eq, !length_app in Hl. simpl in Hl. lia. Qed.

Lemma short_ne_rp q :
  (length q <= length (base_of fs0 (IsAbs path)) + length (dir_comps pre))%nat -> q <> rp.
Proof. intros Hl ->. rewrite rp_eq, !length_app in Hl. simpl in Hl. lia. Qed.

(** The two names resolve to themselves as long as the directories are clear. *)
Lemma resolves fs' :
  cwd fs' = cwd fs0 -> clear fs' (base_of fs' (IsAbs path)) (dir_comps pre) ->
  lexical (resolve fs' false tmp) rt /\ lexical (resolve fs' false path) rp.
Proof.
  intros Hc Hcl. destruct tmp_file_path as [Htf Hta].
  assert (forall a, base_of fs' a = base_of fs0 a) as Hb by (intros []; simpl; congruence).
  split.
  - pose proof (resolve_file fs' tmp pre _ Htf) as Hr. rewrite Hta in Hr.
    specialize (Hr Hcl). unfold lexical_path in Hr. rewrite Hb in Hr. exact Hr.
  - pose proof (resolve_file fs' path pre f Hpath Hcl) as Hr.
    unfold lexical_path in Hr. rewrite Hb in Hr. exact Hr.
Qed.

Lemma node_at_rt fs' : node_at fs' rt = tree fs' !! rt.
Proof.
  unfold node_at. rewrite rt_eq. destruct (_ ++ _ ++ [_]) eqn:He; [|done].
  apply app_eq_nil in He as [_ [_ He]%app_eq_nil]. done.
Qed.

Lemma node_at_rp fs' : node_at fs' rp = tree fs' !! rp.
Proof.
  unfold node_at. rewrite rp_eq. destruct (_ ++ _ ++ [_]) eqn:He; [|done].
  apply app_eq_nil in He as [_ [_ He]%app_eq_nil]. done.
Qed.

Section run.
Context (fs1 : FS) (Hcwd : cwd fs1 = cwd fs0) (Hok : fs_ok fs1).
Context (Hclear : clear fs1 (base_of fs0 (IsAbs path)) (dir_comps pre)).
Context (Hfifo : tree fs1 !! rt <> Some (NFifo true)).
Context (Hone : forall ino, tree fs1 !! rt = Some (NFile ino) ->
  forall q, tree fs1 !! q = Some (NFile ino) -> q = rt).

Lemma clear_Tmp ino d fs' :
  Tmp fs1 ino d fs' -> clear fs' (base_of fs' (IsAbs path)) (dir_comps pre).
Proof.
  intros (Ht & _ & Hc). replace (base_of fs' (IsAbs path)) with (base_of fs0 (IsAbs path))
    by (destruct (IsAbs path); simpl; congruence).
  eapply clear_ext; [|exact Hclear]. intros q Hq%short_ne_rt. by rewrite Ht, lookup_insert_ne.
Qed.

Lemma open_tmp flt now tr fs2 r :
  open_write flt now true tmp fs1 = (tr, fs2, r) ->
  match r with
  | inl h => exists ino, h = HFile ino /\ Tmp fs1 ino [] fs2 /\ sole fs1 ino /\ tr = [fs2] /\
      dirs fs1 (base_of fs0 (IsAbs path)) (dir_comps pre)
  | inr _ => fs2 = fs1 /\ tr = []
  end.
Proof.
  unfold open_write. destruct (fault flt OpOpen tmp); [by intros [= <- <- <-] |].
  assert (base_of fs1 (IsAbs path) = base_of fs0 (IsAbs path)) as Hb
    by (destruct (IsAbs path); simpl; congruence).
  destruct (resolves fs1) as [[Hr|[->| ->]] _]; [done | by rewrite Hb | |by intros [= <- <- <-] |by intros [= <- <- <-]].
  assert (dirs fs1 (base_of fs0 (IsAbs path)) (dir_comps pre)) as Hdirs.
  { destruct tmp_file_path as [Htf Hta]. destruct (resolve_dirs fs1 tmp pre _ Htf) as [_ Hd].
    rewrite Hta, Hb in Hd. by eapply Hd. }
  rewrite Hr, node_at_rt. destruct (tree fs1 !! rt) as [[|ino| |[]]|] eqn:Hn; try (by intros [= <- <- <-]).
  - intros [= <- <- <-]. exists ino. split_and!; [done | | by split; [apply Hone | congruence] | done | done].
    split_and!; [simpl; by rewrite insert_id | by exists now | done].
  - unfold create_at. intros [= <- <- <-]. eexists. split_and!; [done | | | done | done].
    + split_and!; [done | by exists now | done].
    + split; [|congruence]. intros q Hq. destruct (Hok q _ Hq) as [i Hi].
      apply elem_of_dom_2 in Hi. by apply is_fresh in Hi.
Qed.

Lemma append_Tmp now ino bs fs2 k :
  Tmp fs1 ino [] fs2 -> Tmp fs1 ino (take k bs) (append_bytes now ino (take k bs) fs2).
Proof.
  intros (Ht & (mt & Hi) & Hc). unfold append_bytes. rewrite Hi, lookup_insert_eq.
  split_and!; [done | | done]. exists now. simpl. by rewrite Hi, insert_insert_eq.
Qed.

Lemma write_tmp flt now ino bs fs2 tr fs3 r :
  Tmp fs1 ino [] fs2 -> write_all flt now tmp (HFile ino) bs fs2 = (tr, fs3, r) ->
  Forall (fun fs' => exists d, Tmp fs1 ino d fs') tr /\
  exists d, Tmp fs1 ino d fs3 /\ (r = None -> d = bs).
Proof.
  intros Ht [= <- <- <-]. split.
  - constructor; [|apply List.Forall_map, Forall_true; intros k]; eexists; by apply append_Tmp.
  - eexists. split; [by apply append_Tmp |]. intros ->. by rewrite firstn_all.
Qed.

(** The directories of [fs1] are still there. *)
Definition dirs_kept (fs' : FS) : Prop :=
  cwd fs' = cwd fs0 /\ forall q, tree fs1 !! q = Some NDir -> tree fs' !! q = Some NDir.

(** A state in which every name but the temporary one is as in [fs1]. *)
Definition rest_same (fs' : FS) : Prop :=
  (forall q, q <> rt -> file_data fs' q = file_data fs1 q) /\ dirs_kept fs'.

Lemma rest_same_Tmp ino d fs' : Tmp fs1 ino d fs' -> sole fs1 ino -> rest_same fs'.
Proof.
  intros Ht Hs. split; [intros q; by eapply Tmp_other |]. destruct Ht as (Ht & _ & Hc).
  split; [congruence |]. intros q Hq. destruct Hs as [_ Hnd].
  rewrite Ht, lookup_insert_ne; [done |]. by intros <-.
Qed.

Lemma remove_tmp flt ino d fs3 tr fs4 r :
  Tmp fs1 ino d fs3 -> sole fs1 ino -> os_Remove flt tmp fs3 = (tr, fs4, r) ->
  Forall rest_same tr /\ rest_same fs4.
Proof.
  intros Htmp Hs. assert (rest_same fs3) as [H3 [Hk1 Hk2]] by (by eapply rest_same_Tmp).
  unfold os_Remove. destruct (fault flt OpRemove tmp); [by intros [= <- <- <-] |].
  destruct (resolves fs3) as [[->|[->| ->]] _]; [done |by eapply clear_Tmp | | by intros [= <- <- <-].. ].
  rewrite node_at_rt. destruct Htmp as (Ht & Hi & Hc). rewrite Ht, lookup_insert_eq.
  assert (rest_same (set_tree (delete rt (<[rt:=NFile ino]> (tree fs1))) fs3)) as H4.
  { split; [|split; [done |]]; simpl.
    - intros q Hq. rewrite <-(H3 q Hq). unfold file_data. simpl. by rewrite lookup_delete_ne, Ht.
    - intros q Hq. destruct Hs as [_ Hnd].
      by rewrite lookup_delete_ne, lookup_insert_ne by (by intros <-). }
  intros [= <- <- <-]. split; [by apply Forall_singleton | done].
Qed.

(** The new contents are in place and everything else is as before. *)
Definition replaced (bs : list Z) (fs' : FS) : Prop :=
  (file_data fs' rp = Some bs /\ forall q, q <> rp -> q <> rt -> file_data fs' q = file_data fs1 q) /\
  dirs_kept fs' /\ dirs fs' (base_of fs0 (IsAbs path)) (dir_comps pre).

Lemma rename_tmp flt ino d fs3 tr fs4 r :
  Tmp fs1 ino d fs3 -> sole fs1 ino -> os_Rename flt tmp path fs3 = (tr, fs4, r) ->
  match r with
  | None => replaced d fs4 /\ tr = [fs4]
  | Some _ => fs4 = fs3 /\ tr = []
  end.
Proof.
  intros Htmp Hs. pose proof rp_rt as Hne. pose proof (proj2 Hs) as Hnd.
  assert (rest_same fs3) as [H3 [Hk1 Hk2]] by (by eapply rest_same_Tmp).
  unfold os_Rename. destruct (fault flt OpRename tmp); [by intros [= <- <- <-] |].
  destruct (resolves fs3) as [[->|[->| ->]] Hp]; [by destruct Htmp as (_ & _ & ->) |by eapply clear_Tmp | | by intros [= <- <- <-].. ].
  destruct Hp as [Hr|[->| ->]]; [ | by intros [= <- <- <-].. ].
  assert (dirs fs3 (base_of fs0 (IsAbs path)) (dir_comps pre)) as Hdirs.
  { destruct (resolve_dirs fs3 path pre f Hpath) as [_ Hd]. specialize (Hd rp (clear_Tmp _ _ _ Htmp) Hr).
    destruct Htmp as (_ & _ & Hc). by destruct (IsAbs path); simpl in *; rewrite ?Hc, ?Hcwd in Hd. }
  rewrite Hr, node_at_rt, node_at_rp. destruct Htmp as (Ht & (mt & Hi) & Hc).
  rewrite Ht, lookup_insert_eq, lookup_insert_ne by done.
  assert (tree fs1 !! rp <> Some NDir -> replaced d (set_tree (<[rp:=NFile ino]> (delete rt (<[rt:=NFile ino]> (tree fs1)))) fs3)) as H4.
  { intros Hpd. split_and!.
    - unfold file_data. simpl. by rewrite lookup_insert_eq, Hi, lookup_insert_eq.
    - intros q Hq1 Hq2. rewrite <-(H3 q Hq2). unfold file_data. simpl.
      by rewrite lookup_insert_ne, lookup_delete_ne, Ht.
    - split; [done |]. simpl. intros q Hq.
      by rewrite lookup_insert_ne, lookup_delete_ne, lookup_insert_ne by (by intros <-).
    - eapply dirs_ext; [|exact Hdirs]. intros q Hq. rewrite Ht. simpl.
      by rewrite lookup_insert_ne, lookup_delete_ne by (apply not_eq_sym; auto using short_ne_rt, short_ne_rp). }
  destruct (tree fs1 !! rp) as [[|ino'| |]|] eqn:Hn; try (by intros [= <- <- <-]; auto).
  simpl. destruct (Nat.eqb_spec ino ino') as [->|_]; [|by intros [= <- <- <-]; auto].
  by apply Hs in Hn.
Qed.

Context (Encode : EngineState -> list Z + string) (state : EngineState).

(** What a state of the file system can look like while the file is replaced. *)
Definition step_ok (fs' : FS) : Prop :=
  rest_same fs' \/ exists bs, Encode state = inl bs /\ replaced bs fs'.

Lemma rest_step tr : Forall rest_same tr -> Forall step_ok tr.
Proof. intros H. eapply Forall_impl; [exact H |]. by left. Qed.

(** Giving up: the temporary file is removed. *)
Lemma abandon_save flt ino d fs3 (e : string) tr fs' r :
  Tmp fs1 ino d fs3 -> sole fs1 ino ->
  (do _ := os_Remove flt tmp in io_ret (Some e)) fs3 = (tr, fs', r) ->
  Forall step_ok tr /\ rest_same fs' /\ r = Some e.
Proof.
  intros Ht Hs (tr1 & fs4 & a & tr2 & Hr & [= <- <- <-] & ->)%io_bind_inv.
  destruct (remove_tmp _ _ _ _ _ _ _ Ht Hs Hr) as [Hf1 Hf2]. rewrite app_nil_r.
  split_and!; [by apply rest_step | done | done].
Qed.

Lemma finish_save_steps flt now ino fs2 tr fs' r :
  Tmp fs1 ino [] fs2 -> sole fs1 ino ->
  finish_save Encode flt now path tmp (HFile ino) state fs2 = (tr, fs', r) ->
  Forall step_ok tr /\
  match r with
  | None => exists bs, Encode state = inl bs /\ replaced bs fs'
  | Some _ => rest_same fs'
  end.
Proof.
  intros Ht Hs (tr1 & fs3 & w & tr2 & Hw & Hk & ->)%io_bind_inv.
  assert (Forall step_ok tr1 /\ exists d, Tmp fs1 ino d fs3 /\ (w = None -> Encode state = inl d)) as (Hf1 & d & H3 & Hd).
  { destruct (Encode state) as [bs|e].
    - destruct (write_tmp _ _ _ _ _ _ _ _ Ht Hw) as (Hf & d & Hd & He). split.
      + eapply rest_step, Forall_impl; [exact Hf |]. intros s [d' Hd']. by eapply rest_same_Tmp.
      + exists d. split; [done |]. by intros ->%He.
    - injection Hw as <- <- <-. split; [constructor |]. by exists []. }
  destruct w as [e|].
  { destruct (abandon_save _ _ _ _ _ _ _ _ H3 Hs Hk) as (? & ? & ->). split; [by apply Forall_app | done]. }
  apply io_bind_inv in Hk as (tr3 & fs4 & ren & tr4 & Hren & Hk & ->).
  pose proof (rename_tmp _ _ _ _ _ _ _ H3 Hs Hren) as H4. destruct ren as [e|].
  - destruct H4 as [-> ->]. destruct (abandon_save _ _ _ _ _ _ _ _ H3 Hs Hk) as (? & ? & ->).
    split; [by apply Forall_app | done].
  - destruct H4 as [H4 ->]. injection Hk as <- <- <-. rewrite app_nil_r.
    assert (exists bs, Encode state = inl bs /\ replaced bs fs4) as Hn by (exists d; auto).
    split; [|done]. apply Forall_app. split; [done |]. constructor; [by right | constructor].
Qed.
End run.
End replace.

(** The temporary file is absent, or a leftover that no other name shares, or not
    something that can be opened. *)
Definition tmp_private (fs : FS) (rt : list string) : Prop :=
  tree fs !! rt <> Some (NFifo true) /\
  forall ino q, tree fs !! rt = Some (NFile ino) -> tree fs !! q = Some (NFile ino) -> q = rt.

Lemma tmp_private_grows fs fs' rt : grows fs fs' -> tmp_private fs rt -> tmp_private fs' rt.
Proof.
  intros Hg [H1 H2]. split.
  - destruct (grows_tree _ _ Hg rt) as [->|[_ ->]]; done.
  - intros ino q Hrt Hq. apply (H2 ino); by eapply grows_file.
Qed.

Section save.
Context (Encode : EngineState -> list Z + string).

(** The steps of [SaveState], relative to the state it starts from. *)
Lemma SaveState_steps flt now path pre f state fs0 tr fs' r :
  file_path path pre f -> fs_ok fs0 -> tmp_private fs0 (lexical_path fs0 (path +:+ ".tmp")) ->
  SaveState Encode flt now path (Some state) fs0 = (tr, fs', r) ->
  Forall (step_ok fs0 path pre fs0 Encode state) tr /\
  match r with
  | None => exists bs, Encode state = inl bs /\ replaced fs0 path pre fs0 bs fs'
  | Some _ => rest_same fs0 path fs0 fs'
  end.
Proof.
  intros Hpath Hok Hpriv Hsave.
  assert (forall s, grows fs0 s -> rest_same fs0 path fs0 s) as Hgr.
  { intros s Hs. split; [intros q _; by apply grows_data |].
    split; [apply (grows_cwd _ _ Hs) |]. intros q. apply (grows_dir _ _ _ Hs). }
  unfold SaveState in Hsave.
  destruct (String.eqb_spec path "") as [He|_]; [by eapply file_path_ne in He |].
  destruct (has_dotdot path); [injection Hsave as <- <- <-; split; [done | apply Hgr, grows_refl] |].
  apply io_bind_inv in Hsave as (tr1 & fs1 & made & tr2 & Hmk & Hk & ->).
  destruct (MkdirAll_grows _ _ _ _ _ _ Hmk) as [Hf1 Hg1].
  assert (Forall (step_ok fs0 path pre fs0 Encode state) tr1) as Hs1.
  { eapply Forall_impl; [exact Hf1 |]. intros s Hs. left. auto. }
  destruct made as [e|]; [injection Hk as <- <- <-; rewrite app_nil_r; auto |].
  apply io_bind_inv in Hk as (tr3 & fs1' & rej & tr4 & [= <- <- Hrej] & Hk & ->).
  destruct rej as [e|]; [injection Hk as <- <- <-; rewrite !app_nil_r; auto |].
  apply io_bind_inv in Hk as (tr5 & fs2 & opened & tr6 & Ho & Hk & ->). rewrite !Forall_app.
  pose proof (grows_cwd _ _ Hg1) as Hc. pose proof (grows_ok _ _ Hg1 Hok) as Hok1.
  destruct (tmp_private_grows _ _ _ Hg1 Hpriv) as [Hff Hone].
  pose proof (accepted_clear _ _ _ _ _ Hpath Hrej) as Hcl.
  replace (base_of fs1 (IsAbs path)) with (base_of fs0 (IsAbs path)) in Hcl
    by (destruct (IsAbs path); simpl; congruence).
  pose proof (open_tmp fs0 path pre f Hpath fs1 Hc Hok1 Hcl Hff (fun ino H q => Hone ino q H) _ _ _ _ _ Ho) as H2.
  destruct opened as [h|e]; [|destruct H2 as [-> ->]; injection Hk as <- <- <-; auto].
  destruct H2 as (ino & -> & H2 & Hsole & -> & _).
  destruct (finish_save_steps fs0 path pre f Hpath fs1 Hc Hcl Encode state _ _ _ _ _ _ _ H2 Hsole Hk) as [Hf6 Hr].
  assert (forall s, rest_same fs0 path fs1 s -> rest_same fs0 path fs0 s) as Hrs.
  { intros s [Hs [Hs1' Hs2]]. split; [|split; eauto using grows_dir].
    intros q Hq. by rewrite (Hs q Hq), (grows_data _ _ _ Hg1). }
  assert (forall bs s, replaced fs0 path pre fs1 bs s -> replaced fs0 path pre fs0 bs s) as Hrp.
  { intros bs s [[Ha Hb] [[Hd1 Hd2] Hd3]]. split_and!; try done; [|split; eauto using grows_dir].
    intros q ??. by rewrite Hb, (grows_data _ _ _ Hg1). }
  assert (forall s, step_ok fs0 path pre fs1 Encode state s -> step_ok fs0 path pre fs0 Encode state s) as Hst.
  { intros s [Ha|(bs & Hb & Hd)]; [left; auto | right; eauto]. }
  split_and!; [done | constructor | |by eapply Forall_impl | by destruct r; naive_solver].
  constructor; [|constructor]. left. apply Hrs. eapply rest_same_Tmp; eauto.
Qed.

(** At every state of the file system that [SaveState] goes through (so also where the
    process dies, or a system call fails) the state file holds its old contents or the complete new
    ones and no other file but the temporary one differs; the new contents are in place exactly when
    no error is returned. *)
Theorem save_atomic flt now path pre f state fs0 tr fs' r :
  file_path path pre f -> fs_ok fs0 -> tmp_private fs0 (lexical_path fs0 (path +:+ ".tmp")) ->
  SaveState Encode flt now path (Some state) fs0 = (tr, fs', r) ->
  let rp := lexical_path fs0 path in
  (forall s, s ∈ tr ++ [fs'] ->
     (file_data s rp = file_data fs0 rp \/ exists bs, Encode state = inl bs /\ file_data s rp = Some bs) /\
     forall q, q <> rp -> q <> lexical_path fs0 (path +:+ ".tmp") -> file_data s q = file_data fs0 q) /\
  match r with
  | None => exists bs, Encode state = inl bs /\ file_data fs' rp = Some bs
  | Some _ => file_data fs' rp = file_data fs0 rp
  end.
Proof.
  intros Hpath Hok Hpriv Hsave rp.
  destruct (SaveState_steps _ _ _ _ _ _ _ _ _ _ Hpath Hok Hpriv Hsave) as [Htr Hr].
  pose proof (rp_rt fs0 path pre f Hpath) as Hne. split.
  - intros s Hin. assert (step_ok fs0 path pre fs0 Encode state s) as [[Hs _]|(bs & Hb & [[Hs1 Hs2] _])].
    + apply elem_of_app in Hin as [Hin|[= ->]%list_elem_of_singleton]; [by eapply Forall_forall in Htr |].
      destruct r; [by left | by right].
    + split; [left; by apply Hs |]. intros q _ Hq. by apply Hs.
    + split; [right; eauto | done].
  - destruct r as [e|]; [by apply Hr |]. destruct Hr as (bs & Hb & [[Hs1 _] _]). eauto.
Qed.
End save.

(** ** Loading *)
Section load.
Context (Decode : list Z -> EngineState + string).

(** What [LoadState] makes of the bytes of a file. *)
Definition decoded (data : list Z) : option EngineState + string :=
  match Decode (take (Z.to_nat (maxStateFileSize + 1)) data) with
  | inl st => inl (Some (mkEngineState (Some (default ∅ (BlockStats st)))))
  | inr e => inr ("decoding state: " +:+ e)
  end.

Lemma LoadState_file fs path pre f ino i :
  file_path path pre f -> has_dotdot path = false -> cwd_ok fs ->
  dirs fs (base_of fs (IsAbs path)) (dir_comps pre) ->
  tree fs !! lexical_path fs path = Some (NFile ino) -> inodes fs !! ino = Some i ->
  LoadState Decode no_faults fs path = decoded (i_data i).
Proof.
  intros Hf Hdd Hcwd Hdirs Ht Hi. unfold LoadState.
  destruct (String.eqb_spec path "") as [He|_]; [by eapply file_path_ne in He |]. rewrite Hdd.
  rewrite (reject_dirs fs path pre f Hf Hcwd Hdirs).
  unfold open_read. simpl fault. cbv iota beta.
  destruct (resolve_dirs fs path pre f Hf) as [-> _]; [|done].
  assert (node_at fs (lexical_path fs path) = Some (NFile ino)) as ->.
  { rewrite <-Ht. unfold node_at, lexical_path. rewrite (file_path_comps _ _ _ Hf).
    destruct (_ ++ _ ++ [_]) eqn:He; [|done]. apply app_eq_nil in He as [_ [_ He]%app_eq_nil]. done. }
  rewrite Hi. unfold decoded. done.
Qed.

Lemma LoadState_data fs0 s path pre f d :
  file_path path pre f -> has_dotdot path = false -> cwd_ok s -> cwd s = cwd fs0 ->
  dirs s (base_of fs0 (IsAbs path)) (dir_comps pre) ->
  file_data s (lexical_path fs0 path) = Some d ->
  LoadState Decode no_faults s path = decoded d.
Proof.
  intros Hf Hdd Hok Hc Hdirs Hd.
  assert (forall a, base_of s a = base_of fs0 a) as Hba by (intros []; simpl; congruence).
  assert (lexical_path s path = lexical_path fs0 path) as Hlp by (unfold lexical_path; by rewrite Hba).
  unfold file_data in Hd. rewrite <-Hlp in Hd.
  destruct (tree s !! lexical_path s path) as [[|ino| |]|] eqn:Ht; try done.
  destruct (inodes s !! ino) as [i|] eqn:Hi; [|done]. injection Hd as <-.
  eapply LoadState_file; try done. by rewrite Hba.
Qed.

Lemma dirs_kept_cwd fs0 s : dirs_kept fs0 fs0 s -> cwd_ok fs0 -> cwd_ok s.
Proof. intros [Hc Hk]. unfold cwd_ok, node_at. rewrite Hc. destruct (cwd fs0); auto. Qed.

Lemma dirs_kept_dirs fs0 s cur rest : dirs_kept fs0 fs0 s -> dirs fs0 cur rest -> dirs s cur rest.
Proof.
  intros [_ Hk]. revert cur. induction rest as [|c rest IH]; intros cur; simpl; [done |].
  intros [Hc Hd]. auto.
Qed.

(** After [SaveState] has returned without error, [LoadState] of the same path
    returns what the decoder makes of the bytes the encoder produced for the saved state. *)
Theorem save_then_load Encode flt now path pre f state fs0 tr fs' :
  file_path path pre f -> fs_ok fs0 -> cwd_ok fs0 ->
  tmp_private fs0 (lexical_path fs0 (path +:+ ".tmp")) ->
  SaveState Encode flt now path (Some state) fs0 = (tr, fs', None) ->
  exists bs, Encode state = inl bs /\ LoadState Decode no_faults fs' path = decoded bs.
Proof.
  intros Hpath Hok Hcwd Hpriv Hsave.
  destruct (SaveState_steps _ _ _ _ _ _ _ _ _ _ _ Hpath Hok Hpriv Hsave) as [_ (bs & Hb & [[Hd _] [Hk Hdirs]])].
  exists bs. split; [done |]. apply (LoadState_data fs0 _ _ pre f); try done; [|by eapply dirs_kept_cwd | apply Hk].
  unfold SaveState in Hsave. destruct (String.eqb_spec path "") as [He|_]; [by eapply file_path_ne in He |].
  by destruct (has_dotdot path).
Qed.

(** When a state file is in place, every state of the file system that [SaveState]
    goes through loads as the old file or as the complete new one. *)
Theorem crash_then_load Encode flt now path pre f state fs0 tr fs' r d0 s :
  file_path path pre f -> has_dotdot path = false -> fs_ok fs0 -> cwd_ok fs0 ->
  tmp_private fs0 (lexical_path fs0 (path +:+ ".tmp")) ->
  dirs fs0 (base_of fs0 (IsAbs path)) (dir_comps pre) ->
  file_data fs0 (lexical_path fs0 path) = Some d0 ->
  SaveState Encode flt now path (Some state) fs0 = (tr, fs', r) -> s ∈ tr ++ [fs'] ->
  LoadState Decode no_faults s path = decoded d0 \/
  exists bs, Encode state = inl bs /\ LoadState Decode no_faults s path = decoded bs.
Proof.
  intros Hpath Hdd Hok Hcwd Hpriv Hdirs Hd0 Hsave Hin.
  destruct (SaveState_steps _ _ _ _ _ _ _ _ _ _ _ Hpath Hok Hpriv Hsave) as [Htr Hr].
  assert (step_ok fs0 path pre fs0 Encode state s) as Hs.
  { apply elem_of_app in Hin as [Hin|[= ->]%list_elem_of_singleton]; [by eapply Forall_forall in Htr |].
    destruct r; [by left | by right]. }
  destruct Hs as [[Hs Hk]|(bs & Hb & [[Hs _] [Hk Hd]])]; [left | right; exists bs; split; [done |]];
    apply (LoadState_data fs0 _ _ pre f); eauto using dirs_kept_cwd, dirs_kept_dirs; try apply Hk.
  rewrite Hs; [done |]. by eapply rp_rt.
Qed.

(** Whatever is planted in the file system, a state [LoadState] returns was
    decoded from the regular file whose name the path spells: never through a symbolic link, from a
    FIFO or from a directory. *)
Theorem load_regular_only flt fs path pre f st :
  file_path path pre f -> fs_ok fs -> LoadState Decode flt fs path = inl (Some st) ->
  exists data, file_data fs (lexical_path fs path) = Some data /\ decoded data = inl (Some st).
Proof.
  intros Hf Hok. unfold LoadState. destruct (String.eqb path ""); [done |].
  destruct (has_dotdot path); [done |].
  destruct (RejectSymlinkComponents flt fs (Dir path)) eqn:Hr; [done |].
  pose proof (resolve_file fs path pre f Hf (accepted_clear _ _ _ _ _ Hf Hr)) as Hl.
  unfold open_read. destruct (fault flt OpOpen path); [done |].
  destruct Hl as [->|[->| ->]]; [|done..].
  destruct (node_at fs (lexical_path fs path)) as [[|ino| |]|] eqn:Hn; try done;
    destruct (fault flt OpFstat path); try done.
  assert (tree fs !! lexical_path fs path = Some (NFile ino)) as Ht.
  { unfold node_at in Hn. by destruct (lexical_path fs path). }
  destruct (Hok _ _ Ht) as [i Hi]. rewrite Hi. unfold file_data, decoded. rewrite Ht, Hi.
  destruct (fault flt OpRead path); [done |]. intros Hd. exists (i_data i). split; [done |].
  destruct (Decode _); done.
Qed.
End load.

(** ** Concrete runs *)

(** A codec that writes the number of reasons. *)
Definition count_codec (st : EngineState) : list Z + string :=
  inl [123; Z.of_nat (size (default ∅ (BlockStats st))); 125].

Definition count_decode (bs : list Z) : EngineState + string :=
  match bs with
  | [123; n; 125] => inl (mkEngineState (Some {[ "restored"%string := n ]}))
  | _ => inr "unexpected end of JSON input"%string
  end.

Definition sample_state : EngineState := mkEngineState (Some {[ "blocked port"%string := 3 ]}).

(** The names of a given tree, one by one. *)
Lemma fs_ok_forall fs :
  Forall (fun kv => match kv.2 with NFile ino => is_Some (inodes fs !! ino) | _ => True end)
    (map_to_list (tree fs)) -> fs_ok fs.
Proof.
  intros Hall q ino Hq. apply elem_of_map_to_list in Hq. eapply Forall_forall in Hall; [|exact Hq]. exact Hall.
Qed.

Ltac check_names :=
  apply fs_ok_forall; vm_compute;
  repeat (apply Forall_cons_2; [first [exact I | exact (ex_intro _ _ eq_refl)] |]); apply Forall_nil_2.

Lemma sample_fs_ok : fs_ok sample_fs.
Proof. check_names. Qed.

Lemma sample_tmp_private : tmp_private sample_fs ["var"; "fw"; "state.json.tmp"]%string.
Proof. by split. Qed.

(** The run of a save on [sample_fs]. *)
Definition sample_save : list FS * FS * option string :=
  SaveState count_codec no_faults zeroTime "/var/fw/state.json" (Some sample_state) sample_fs.

Lemma save_atomic_witness :
  file_data sample_save.1.2 ["var"; "fw"; "state.json"]%string = Some [123; 1; 125] /\
  Forall (fun s => file_data s ["var"; "fw"; "state.json"]%string = Some [123; 125] \/
                   file_data s ["var"; "fw"; "state.json"]%string = Some [123; 1; 125]) sample_save.1.1.
Proof.
  destruct (save_atomic count_codec no_faults zeroTime "/var/fw/state.json" [""; "var"; "fw"]%string "state.json"
    sample_state sample_fs sample_save.1.1 sample_save.1.2 None sample_file_path sample_fs_ok sample_tmp_private)
    as [Hall (bs & Hbs & Hd)].
  { reflexivity. }
  injection Hbs as <-. split; [exact Hd |].
  apply Forall_forall. intros s Hs. destruct (Hall s) as [[Ho|(bs & Hb & Hn)] _].
  - apply elem_of_app. by left.
  - left. refine (eq_trans Ho _). reflexivity.
  - right. injection Hb as <-. exact Hn.
Defined.

Lemma save_then_load_witness :
  LoadState count_decode no_faults sample_save.1.2 "/var/fw/state.json" =
    inl (Some (mkEngineState (Some {[ "restored"%string := 1 ]}))).
Proof.
  destruct (save_then_load count_decode count_codec no_faults zeroTime "/var/fw/state.json" [""; "var"; "fw"]%string
    "state.json" sample_state sample_fs sample_save.1.1 sample_save.1.2 sample_file_path sample_fs_ok)
    as (bs & Hbs & Hl).
  - reflexivity.
  - exact sample_tmp_private.
  - reflexivity.
  - rewrite Hl. injection Hbs as <-. reflexivity.
Defined.

Lemma load_regular_only_witness :
  exists data, file_data sample_save.1.2 ["var"; "fw"; "state.json"]%string = Some data /\
    decoded count_decode data = inl (Some (mkEngineState (Some {[ "restored"%string := 1 ]}))).
Proof.
  apply (load_regular_only count_decode no_faults sample_save.1.2 "/var/fw/state.json" [""; "var"; "fw"]%string
    "state.json"); [apply sample_file_path | | reflexivity].
  check_names.
Defined.

(** [SaveState] does not look at what it opened: a FIFO with a waiting reader at the
    name of the temporary file opens without error, is renamed over the state file,
    and the save reports success. *)
Theorem fifo_replaces_state :
  let fs := set_tree (<[["var"; "fw"; "state.json.tmp"]%string := NFifo true]> (tree sample_fs)) sample_fs in
  let '(_, fs', r) := SaveState count_codec no_faults zeroTime "/var/fw/state.json" (Some sample_state) fs in
  r = None /\ tree fs' !! ["var"; "fw"; "state.json"]%string = Some (NFifo true).
Proof. vm_compute. split; reflexivity. Qed.

(** The checks look for symbolic links only: when the temporary name is a hard link
    to another file, that file is overwritten. *)
Theorem hard_link_overwritten :
  let victim := ["etc"; "victim"]%string in
  let fs := mkFS (<[["etc"]%string := NDir]> (<[victim := NFile 7]>
              (<[["var"; "fw"; "state.json.tmp"]%string := NFile 7]> (tree sample_fs))))
              (<[7%nat := mkInode [1; 2; 3] zeroTime]> (inodes sample_fs)) [] in
  let '(_, fs', r) := SaveState count_codec no_faults zeroTime "/var/fw/state.json" (Some sample_state) fs in
  file_data fs victim = Some [1; 2; 3] /\ r = None /\ file_data fs' victim = Some [123; 1; 125].
Proof. vm_compute. split_and!; reflexivity. Qed.
