(* ===== verification/GoJSON.v ===== *)
(** * What the program uses of package [encoding/json]

    The encoder and the decoder of the state file ([json.NewEncoder(f).Encode] and
    [json.NewDecoder(r).Decode] of a [persist.EngineState]), on lists of byte values:
    strings are escaped and unescaped as the library does, with invalid UTF-8
    replaced by U+FFFD; the decoder reads one value, whatever follows it, matches
    member names without regard to case, ignores unknown members, and refuses a
    number that does not fit [int64].  Error texts are not reproduced. *)
From Stdlib Require Import ZArith Lia ZifyBool.
From stdpp Require Import base gmap sets list strings pretty sorting.
From S2P Require Import Prelude GoNet GoTime GoFS SecurePath Persist.

Local Open Scope Z_scope.

(** ** UTF-8 *)

(** What [utf8.DecodeRune] finds: the bytes of a rune, or a byte that starts none. *)
Inductive chunk : Type := Rune (bs : list Z) | Invalid.

Definition cont (b : Z) : bool := (128 <=? b) && (b <=? 191).

Definition is2 (b1 b2 : Z) : bool := (194 <=? b1) && (b1 <=? 223) && cont b2.

Definition is3 (b1 b2 b3 : Z) : bool :=
  ((b1 =? 224) && (160 <=? b2) && (b2 <=? 191) || (225 <=? b1) && (b1 <=? 236) && cont b2 ||
   (b1 =? 237) && (128 <=? b2) && (b2 <=? 159) || (238 <=? b1) && (b1 <=? 239) && cont b2) && cont b3.

Definition is4 (b1 b2 b3 b4 : Z) : bool :=
  ((b1 =? 240) && (144 <=? b2) && (b2 <=? 191) || (241 <=? b1) && (b1 <=? 243) && cont b2 ||
   (b1 =? 244) && (128 <=? b2) && (b2 <=? 143)) && cont b3 && cont b4.

Definition next_rune (b1 : Z) (r1 : list Z) : chunk * list Z :=
  if b1 <? 128 then (Rune [b1], r1)
  else
    match r1 with
    | [] => (Invalid, r1)
    | b2 :: r2 =>
        if is2 b1 b2 then (Rune [b1; b2], r2)
        else
          match r2 with
          | [] => (Invalid, r1)
          | b3 :: r3 =>
              if is3 b1 b2 b3 then (Rune [b1; b2; b3], r3)
              else
                match r3 with
                | [] => (Invalid, r1)
                | b4 :: r4 => if is4 b1 b2 b3 b4 then (Rune [b1; b2; b3; b4], r4) else (Invalid, r1)
                end
          end
    end.

Fixpoint runes_go (fuel : nat) (bs : list Z) : list chunk :=
  match fuel, bs with
  | S fuel', b :: r => let '(c, r') := next_rune b r in c :: runes_go fuel' r'
  | _, _ => []
  end.

(** A byte string, rune by rune. *)
Definition runes (bs : list Z) : list chunk := runes_go (length bs) bs.

(** U+FFFD *)
Definition replacement : list Z := [239; 191; 189].

Definition valid_chunk (c : chunk) : list Z := match c with Rune bs => bs | Invalid => replacement end.

(** [strings.ToValidUTF8] with U+FFFD for every invalid byte. *)
Definition to_valid (bs : list Z) : list Z := concat (valid_chunk <$> runes bs).

Definition valid_utf8 (bs : list Z) : bool :=
  forallb (fun c => match c with Rune _ => true | Invalid => false end) (runes bs).

(** [utf8.AppendRune] *)
Definition append_rune (v : Z) : list Z :=
  if v <? 128 then [v]
  else if v <? 2048 then [192 + v / 64; 128 + v mod 64]
  else if v <? 65536 then [224 + v / 4096; 128 + v / 64 mod 64; 128 + v mod 64]
  else [240 + v / 262144; 128 + v / 4096 mod 64; 128 + v / 64 mod 64; 128 + v mod 64].

(** ** The encoder *)
Definition hex_digit (x : Z) : Z := if x <? 10 then 48 + x else 87 + x.

(** [appendString] on one byte below 128, with the escapes for HTML. *)
Definition escape_byte (b : Z) : list Z :=
  if (b =? 34) || (b =? 92) then [92; b]
  else if b =? 8 then [92; 98]
  else if b =? 12 then [92; 102]
  else if b =? 10 then [92; 110]
  else if b =? 13 then [92; 114]
  else if b =? 9 then [92; 116]
  else if (b <? 32) || (b =? 60) || (b =? 62) || (b =? 38) then
    [92; 117; 48; 48; hex_digit (b / 16); hex_digit (b mod 16)]
  else [b].

Definition escape_chunk (c : chunk) : list Z :=
  match c with
  | Invalid => codes "\ufffd"
  | Rune bs =>
      match bs with
      | [b] => escape_byte b
      | _ =>
          if decide (bs = [226; 128; 168]) then codes "\u2028"
          else if decide (bs = [226; 128; 169]) then codes "\u2029"
          else bs
      end
  end.

Definition escaped (s : list Z) : list Z := concat (escape_chunk <$> runes s).

Definition quote (s : list Z) : list Z := [34] ++ escaped s ++ [34].

(** The values of the flat objects the program writes. *)
Inductive scalar : Type := SStr (s : string) | SInt (z : Z).

Definition scalar_text (v : scalar) : list Z :=
  match v with SStr s => quote (codes s) | SInt z => codes (pretty z) end.

Definition member_text (kv : string * scalar) : list Z := quote (codes kv.1) ++ [58] ++ scalar_text kv.2.

Definition encode_member (kv : string * Z) : list Z := member_text (kv.1, SInt kv.2).

(** Members in the order of their names. *)
Definition sorted_members (m : gmap string Z) : list (string * Z) :=
  (fun k => (k, default 0 (m !! k))) <$> merge_sort String.le (map_to_list m).*1.

Fixpoint comma_sep (l : list (list Z)) : list Z :=
  match l with
  | [] => []
  | [x] => x
  | x :: l' => x ++ [44] ++ comma_sep l'
  end.

(** An object with the members in the given order. *)
Definition object_text (l : list (string * scalar)) : list Z := [123] ++ comma_sep (member_text <$> l) ++ [125].

Definition encode_stats (m : option (gmap string Z)) : list Z :=
  match m with
  | None => codes "null"
  | Some m => [123] ++ comma_sep (encode_member <$> sorted_members m) ++ [125]
  end.

(** The text of a state, with the newline the encoder adds. *)
Definition state_text (st : EngineState) : list Z :=
  [123] ++ quote (codes "block_stats") ++ [58] ++ encode_stats (BlockStats st) ++ [125; 10].

(** [json.NewEncoder(f).Encode(state)]; an [EngineState] has nothing that cannot be
    encoded. *)
Definition json_Encode (st : EngineState) : list Z + string := inl (state_text st).

(** ** Values *)
Inductive json : Type :=
| JNull
| JBool (b : bool)
| JNum (t : list Z)
| JStr (s : list Z)
| JArr (l : list json)
| JObj (l : list (list Z * json)).

Inductive perr : Type := Unexpected | UnexpectedEOF | TooDeep | OutOfFuel.

(** A value and the unread input, or an error. *)
Definition parsed (A : Type) : Type := (A * list Z) + perr.

Definition pbind {A B} (p : parsed A) (k : A -> list Z -> parsed B) : parsed B :=
  match p with inl (a, r) => k a r | inr e => inr e end.

Declare Scope json_scope.
Notation "'let>' ( x , r ) := p 'in' k" := (pbind p (fun x r => k))
  (at level 200, x name, r name, p at level 100, k at level 200) : json_scope.
Local Open Scope json_scope.

Definition is_space (b : Z) : bool := (b =? 32) || (b =? 9) || (b =? 10) || (b =? 13).

Fixpoint skip_ws (bs : list Z) : list Z :=
  match bs with
  | b :: r => if is_space b then skip_ws r else bs
  | [] => []
  end.

(** The error at a byte that does not fit, or at the end of the input. *)
Definition stuck {A} (bs : list Z) : parsed A := inr (match bs with [] => UnexpectedEOF | _ => Unexpected end).

(** *** Strings *)
Definition hex4 (bs : list Z) : parsed Z :=
  match bs with
  | a :: b :: c :: d :: r =>
      match hexval a, hexval b, hexval c, hexval d with
      | Some a, Some b, Some c, Some d => inl (4096 * a + 256 * b + 16 * c + d, r)
      | _, _, _, _ => inr Unexpected
      end
  | _ => inr UnexpectedEOF
  end.

Definition is_surrogate (v : Z) : bool := (55296 <=? v) && (v <? 57344).

(** The second half of a surrogate pair, as [utf16.DecodeRune] combines it. *)
Definition low_surrogate (v : Z) (bs : list Z) : list Z * list Z :=
  match bs with
  | b :: u :: r =>
      if (b =? 92) && (u =? 117) then
        match hex4 r with
        | inl (v', r') =>
            if (v <? 56320) && (56320 <=? v') && (v' <? 57344)
            then (append_rune (65536 + (v - 55296) * 1024 + (v' - 56320)), r')
            else (replacement, bs)
        | inr _ => (replacement, bs)
        end
      else (replacement, bs)
  | _ => (replacement, bs)
  end.

(** What follows a backslash. *)
Definition parse_escape (bs : list Z) : parsed (list Z) :=
  match bs with
  | [] => inr UnexpectedEOF
  | e :: r =>
      if (e =? 34) || (e =? 92) || (e =? 47) then inl ([e], r)
      else if e =? 98 then inl ([8], r)
      else if e =? 102 then inl ([12], r)
      else if e =? 110 then inl ([10], r)
      else if e =? 114 then inl ([13], r)
      else if e =? 116 then inl ([9], r)
      else if e =? 117 then
        let> (v, r') := hex4 r in
        if is_surrogate v then inl (low_surrogate v r') else inl (append_rune v, r')
      else inr Unexpected
  end.

(** The rest of a string after its opening quote. *)
Fixpoint parse_str (fuel : nat) (bs : list Z) : parsed (list Z) :=
  match fuel with
  | O => inr OutOfFuel
  | S fuel' =>
      match bs with
      | [] => inr UnexpectedEOF
      | b :: r =>
          if b =? 34 then inl ([], r)
          else if b =? 92 then
            let> (out, r') := parse_escape r in
            let> (s, r'') := parse_str fuel' r' in
            inl (out ++ s, r'')
          else if b <? 32 then inr Unexpected
          else
            let '(c, r') := next_rune b r in
            let> (s, r'') := parse_str fuel' r' in
            inl (valid_chunk c ++ s, r'')
      end
  end.

Definition string_body (bs : list Z) : parsed (list Z) := parse_str (S (length bs)) bs.

(** *** Numbers *)
Fixpoint span_digits (bs : list Z) : list Z * list Z :=
  match bs with
  | b :: r => if is_digit b then let '(ds, r') := span_digits r in (b :: ds, r') else ([], bs)
  | [] => ([], [])
  end.

(** At least one digit. *)
Definition digits1 (bs : list Z) : parsed (list Z) :=
  match span_digits bs with
  | ([], r) => stuck r
  | (ds, r) => inl (ds, r)
  end.

(** The digits before the point: a zero is not followed by others. *)
Definition int_part (bs : list Z) : parsed (list Z) :=
  match bs with
  | b :: r => if b =? 48 then inl ([48], r) else digits1 bs
  | [] => digits1 bs
  end.

Definition frac_part (bs : list Z) : parsed (list Z) :=
  match bs with
  | b :: r => if b =? 46 then let> (ds, r') := digits1 r in inl (46 :: ds, r') else inl ([], bs)
  | [] => inl ([], bs)
  end.

Definition exp_part (bs : list Z) : parsed (list Z) :=
  match bs with
  | e :: r =>
      if (e =? 101) || (e =? 69) then
        match r with
        | s :: r' =>
            if (s =? 43) || (s =? 45) then let> (ds, r'') := digits1 r' in inl (e :: s :: ds, r'')
            else let> (ds, r'') := digits1 r in inl (e :: ds, r'')
        | [] => inr UnexpectedEOF
        end
      else inl ([], bs)
  | [] => inl ([], bs)
  end.

Definition parse_num (bs : list Z) : parsed (list Z) :=
  let '(sign, bs1) := match bs with
                      | b :: r => if b =? 45 then ([45], r) else ([], bs)
                      | [] => ([], bs)
                      end in
  let> (i, r1) := int_part bs1 in
  let> (f, r2) := frac_part r1 in
  let> (e, r3) := exp_part r2 in
  inl (sign ++ i ++ f ++ e, r3).

(** *** Literals, arrays and objects *)
Fixpoint literal (word : list Z) (v : json) (bs : list Z) : parsed json :=
  match word with
  | [] => inl (v, bs)
  | c :: word' =>
      match bs with
      | b :: r => if b =? c then literal word' v r else inr Unexpected
      | [] => inr UnexpectedEOF
      end
  end.

(** The next byte that is not white space must be [c]. *)
Definition expect {A} (c : Z) (bs : list Z) (k : list Z -> parsed A) : parsed A :=
  match skip_ws bs with
  | b :: r => if b =? c then k r else inr Unexpected
  | [] => inr UnexpectedEOF
  end.

(** After a member or an element: [close] ends the list, a comma continues it. *)
Definition more {A} (close : Z) (x : A) (bs : list Z) (k : list Z -> parsed (list A)) : parsed (list A) :=
  match skip_ws bs with
  | b :: r =>
      if b =? close then inl ([x], r)
      else if b =? 44 then let> (xs, r') := k r in inl (x :: xs, r')
      else inr Unexpected
  | [] => inr UnexpectedEOF
  end.

(** Is the array or object empty? *)
Definition closes (close : Z) (bs : list Z) : option (list Z) :=
  match skip_ws bs with
  | b :: r => if b =? close then Some r else None
  | [] => None
  end.

(** The values the scanner accepts; [depth] is how many arrays and objects may still
    be opened. *)
Fixpoint parse_value (fuel depth : nat) (bs : list Z) : parsed json :=
  match fuel with
  | O => inr OutOfFuel
  | S fuel' =>
      match skip_ws bs with
      | [] => inr UnexpectedEOF
      | b :: r =>
          if b =? 123 then
            match depth with
            | O => inr TooDeep
            | S depth' =>
                match closes 125 r with
                | Some r' => inl (JObj [], r')
                | None => let> (ms, r') := parse_members fuel' depth' r in inl (JObj ms, r')
                end
            end
          else if b =? 91 then
            match depth with
            | O => inr TooDeep
            | S depth' =>
                match closes 93 r with
                | Some r' => inl (JArr [], r')
                | None => let> (vs, r') := parse_elements fuel' depth' r in inl (JArr vs, r')
                end
            end
          else if b =? 34 then let> (s, r') := string_body r in inl (JStr s, r')
          else if b =? 116 then literal (codes "rue") (JBool true) r
          else if b =? 102 then literal (codes "alse") (JBool false) r
          else if b =? 110 then literal (codes "ull") JNull r
          else if (b =? 45) || is_digit b then let> (t, r') := parse_num (b :: r) in inl (JNum t, r')
          else inr Unexpected
      end
  end
with parse_members (fuel depth : nat) (bs : list Z) : parsed (list (list Z * json)) :=
  match fuel with
  | O => inr OutOfFuel
  | S fuel' =>
      expect 34 bs (fun r =>
        let> (k, r1) := string_body r in
        expect 58 r1 (fun r2 =>
          let> (v, r3) := parse_value fuel' depth r2 in
          more 125 (k, v) r3 (parse_members fuel' depth)))
  end
with parse_elements (fuel depth : nat) (bs : list Z) : parsed (list json) :=
  match fuel with
  | O => inr OutOfFuel
  | S fuel' =>
      let> (v, r1) := parse_value fuel' depth bs in
      more 93 v r1 (parse_elements fuel' depth)
  end.

Definition maxNestingDepth : nat := Z.to_nat 10000.

Definition parse_json (bs : list Z) : parsed json := parse_value (S (2 * length bs)) maxNestingDepth bs.

(** ** Unmarshalling *)

(** [foldName] of a member name, as far as it can equal an ASCII name: letters become
    upper case, and U+017F and U+212A are the letters S and K. *)
Definition fold_chunk (c : chunk) : list Z :=
  match c with
  | Invalid => replacement
  | Rune bs =>
      match bs with
      | [b] => if (97 <=? b) && (b <=? 122) then [b - 32] else [b]
      | _ => if decide (bs = [197; 191]) then [83] else if decide (bs = [226; 132; 170]) then [75] else bs
      end
  end.

Definition fold_name (s : list Z) : list Z := concat (fold_chunk <$> runes s).

(** Does the member set the field [BlockStats]? *)
Definition names_block_stats (k : list Z) : bool :=
  bool_decide (k = codes "block_stats") || bool_decide (fold_name k = codes "BLOCK_STATS").

Fixpoint dec_val (acc : Z) (ds : list Z) : option Z :=
  match ds with
  | [] => Some acc
  | d :: ds' => if is_digit d then dec_val (10 * acc + (d - 48)) ds' else None
  end.

(** [strconv.ParseInt(s, 10, 64)] on the text of a JSON number. *)
Definition ParseInt64 (t : list Z) : option Z :=
  let r := match t with
           | b :: ds => if b =? 45 then Z.opp <$> dec_val 0 ds else dec_val 0 t
           | [] => None
           end in
  match r with
  | Some z => if (- 2 ^ 63 <=? z) && (z <? 2 ^ 63) then Some z else None
  | None => None
  end.

(** A member of the map; [None] is a type error, which makes [Decode] fail. *)
Definition stats_member (acc : option (gmap string Z)) (kv : list Z * json) : option (gmap string Z) :=
  match acc with
  | None => None
  | Some m =>
      match kv.2 with
      | JNull => Some (<[text kv.1 := 0]> m)
      | JNum t => (fun z => <[text kv.1 := z]> m) <$> ParseInt64 t
      | _ => None
      end
  end.

Definition set_field (acc : option EngineState) (kv : list Z * json) : option EngineState :=
  match acc with
  | None => None
  | Some st =>
      if names_block_stats kv.1 then
        match kv.2 with
        | JNull => Some (mkEngineState None)
        | JObj ms => (fun m => mkEngineState (Some m)) <$> fold_left stats_member ms (Some (default ∅ (BlockStats st)))
        | _ => None
        end
      else Some st
  end.

Definition unmarshal (v : json) : option EngineState :=
  match v with
  | JNull => Some (mkEngineState None)
  | JObj ms => fold_left set_field ms (Some (mkEngineState None))
  | _ => None
  end.

(** [json.NewDecoder(r).Decode(&state)] *)
Definition json_Decode (bs : list Z) : EngineState + string :=
  match parse_json bs with
  | inr OutOfFuel => inr "out of fuel"%string
  | inr UnexpectedEOF => inr "unexpected EOF"%string
  | inr TooDeep => inr "exceeded max depth"%string
  | inr Unexpected => inr "invalid character"%string
  | inl (v, _) =>
      match unmarshal v with
      | Some st => inl st
      | None => inr "json: cannot unmarshal"%string
      end
  end.
