(* ===== verification/GoJSONFacts.v ===== *)
(** * The state file's JSON: what is written is what is read

    Strings survive escaping and unescaping up to the replacement of invalid UTF-8,
    numbers up to [int64], maps up to the order of their members.  The decoder
    terminates on every input, and the text of an engine's state is far below the size
    the loader reads. *)
From Stdlib Require Import ZArith Lia ZifyBool.
From stdpp Require Import base gmap sets list strings pretty sorting.
From S2P Require Import Prelude GoNet GoNetFacts GoTime GoFS SecurePath Persist GoJSON.

Local Open Scope Z_scope.
Local Open Scope json_scope.

(** ** Runes *)
Lemma next_rune_spec b r c r' :
  next_rune b r = (c, r') ->
  match c with
  | Rune bs => b :: r = bs ++ r' /\ (1 <= length bs <= 4)%nat
  | Invalid => r' = r /\ 128 <= b
  end.
Proof.
  unfold next_rune. intros H. repeat case_match; simplify_eq/=; try (split; [done | simpl; lia]); lia.
Qed.

Lemma next_rune_length b r c r' : next_rune b r = (c, r') -> (length r' <= length r)%nat.
Proof.
  intros H%next_rune_spec. destruct c as [bs|]; [|by destruct H as [-> _]].
  destruct H as [He [Hl _]]. apply (f_equal length) in He. rewrite length_app in He. simpl in He. lia.
Qed.

Lemma runes_go_ge fuel bs : (length bs <= fuel)%nat -> runes_go fuel bs = runes bs.
Proof.
  unfold runes. revert bs. induction fuel as [fuel IH] using lt_wf_ind; intros bs Hl.
  destruct bs as [|b r]; [by destruct fuel |]. destruct fuel as [|fuel]; simpl in Hl; [lia |].
  simpl. destruct (next_rune b r) as [c r'] eqn:Hn. apply next_rune_length in Hn.
  f_equal. rewrite (IH fuel) by lia. symmetry. apply IH; lia.
Qed.

Lemma runes_cons b r c r' : next_rune b r = (c, r') -> runes (b :: r) = c :: runes r'.
Proof.
  intros Hn. unfold runes at 1. simpl. rewrite Hn. f_equal. apply runes_go_ge. by eapply next_rune_length.
Qed.

(** A rune is recognized by its own bytes. *)
Definition chunk_ok (c : chunk) : Prop :=
  match c with
  | Invalid => True
  | Rune bs => exists b bs', bs = b :: bs' /\ 0 <= b /\ forall t, next_rune b (bs' ++ t) = (Rune bs, t)
  end.

Lemma next_rune_ok b r c r' : 0 <= b -> next_rune b r = (c, r') -> chunk_ok c.
Proof.
  intros Hb H. destruct c as [bs|]; [|done]. unfold next_rune in *.
  repeat case_match; simplify_eq; eexists b, _; (split; [reflexivity | split; [done | intros t]]);
    simpl; unfold next_rune; repeat (case_match; [..|]); congruence.
Qed.

Lemma runes_ok s : Forall (fun b => 0 <= b) s -> Forall chunk_ok (runes s).
Proof.
  induction s as [s IH] using (induction_ltof1 _ (@length Z)). unfold ltof in IH. intros Hs.
  destruct s as [|b r]; [constructor |]. destruct (next_rune b r) as [c r'] eqn:Hn.
  rewrite (runes_cons _ _ _ _ Hn). inversion_clear Hs as [|?? Hb Hr]. constructor; [by eapply next_rune_ok |].
  pose proof (next_rune_length _ _ _ _ Hn). apply IH; [simpl; lia |].
  apply next_rune_spec in Hn. destruct c as [bs|]; [|by destruct Hn as [-> _]].
  destruct Hn as [He _]. apply (Forall_cons_2 _ _ _ Hb) in Hr. rewrite He in Hr. by apply Forall_app in Hr as [_ ?].
Qed.

Lemma concat_runes s : valid_utf8 s = true -> to_valid s = s.
Proof.
  unfold valid_utf8, to_valid. induction s as [s IH] using (induction_ltof1 _ (@length Z)). unfold ltof in IH.
  destruct s as [|b r]; [done |]. destruct (next_rune b r) as [c r'] eqn:Hn.
  rewrite (runes_cons _ _ _ _ Hn). pose proof (next_rune_length _ _ _ _ Hn). apply next_rune_spec in Hn.
  simpl. destruct c as [bs|]; [|done]. simpl. intros Hv. destruct Hn as [He _].
  rewrite He. f_equal. apply IH; [simpl; lia | done].
Qed.

(** ** Strings *)
Lemma hexval_hex x : 0 <= x < 16 -> hexval (hex_digit x) = Some x.
Proof.
  intros Hx. unfold hex_digit, hexval. case Z.ltb_spec; intros Hc.
  - replace ((48 <=? 48 + x) && (48 + x <=? 57)) with true by lia. f_equal. lia.
  - replace ((48 <=? 87 + x) && (87 + x <=? 57)) with false by lia.
    replace ((97 <=? 87 + x) && (87 + x <=? 102)) with true by lia. f_equal. lia.
Qed.

Lemma hex4_byte b tl :
  0 <= b < 256 -> hex4 (48 :: 48 :: hex_digit (b / 16) :: hex_digit (b mod 16) :: tl) = inl (b, tl).
Proof.
  intros Hb. unfold hex4. change (hexval 48) with (Some 0).
  rewrite !hexval_hex by (pose proof (Z.mod_pos_bound b 16); pose proof (Z.div_lt_upper_bound b 16 16);
    pose proof (Z.div_pos b 16); lia).
  do 2 f_equal. pose proof (Z.div_mod b 16). lia.
Qed.

(** [parse_str] after something it reads as [out]. *)
Definition reads (src out : list Z) : Prop :=
  forall n tl, parse_str (S n) (src ++ tl) = let> (s, r) := parse_str n tl in inl (out ++ s, r).

Lemma reads_escape e r out :
  (forall tl, parse_escape (e :: r ++ tl) = inl (out, tl)) -> reads (92 :: e :: r) out.
Proof.
  intros H n tl. change ((92 :: e :: r) ++ tl) with (92 :: (e :: r ++ tl)). cbn [parse_str Z.eqb Pos.eqb].
  by rewrite H.
Qed.

Lemma reads_byte b : 0 <= b < 128 -> reads (escape_byte b) [b].
Proof.
  intros Hb. unfold escape_byte.
  destruct ((b =? 34) || (b =? 92)) eqn:E1.
  { apply reads_escape. intros tl. simpl. replace ((b =? 34) || (b =? 92) || (b =? 47)) with true by lia. done. }
  destruct (Z.eqb_spec b 8) as [->|]; [by apply reads_escape |].
  destruct (Z.eqb_spec b 12) as [->|]; [by apply reads_escape |].
  destruct (Z.eqb_spec b 10) as [->|]; [by apply reads_escape |].
  destruct (Z.eqb_spec b 13) as [->|]; [by apply reads_escape |].
  destruct (Z.eqb_spec b 9) as [->|]; [by apply reads_escape |].
  destruct (_ || _ || _ || _) eqn:E2.
  - apply reads_escape. intros tl.
    change (parse_escape _) with (let> (v, r') := hex4 (48 :: 48 :: hex_digit (b / 16) :: hex_digit (b mod 16) :: tl) in
      if is_surrogate v then inl (low_surrogate v r') else inl (append_rune v, r')).
    rewrite hex4_byte by lia. simpl. unfold is_surrogate, append_rune.
    replace ((55296 <=? b) && (b <? 57344)) with false by lia. by replace (b <? 128) with true by lia.
  - intros m tl. simpl. replace (b =? 34) with false by lia. replace (b =? 92) with false by lia.
    replace (b <? 32) with false by lia. unfold next_rune. by replace (b <? 128) with true by lia.
Qed.

Lemma reads_chunk c : chunk_ok c -> reads (escape_chunk c) (valid_chunk c).
Proof.
  destruct c as [bs|]; [|intros _; by apply reads_escape].
  intros (b & bs' & -> & Hb & Hn). destruct bs' as [|b2 bs'].
  { simpl. apply reads_byte. specialize (Hn []). unfold next_rune in Hn. simpl in Hn.
    destruct (Z.ltb_spec b 128); [lia | done]. }
  unfold escape_chunk. case_decide as H1; [rewrite H1; by apply reads_escape |].
  case_decide as H2; [rewrite H2; by apply reads_escape |].
  intros n tl. simpl. specialize (Hn tl). simpl in Hn.
  assert (128 <= b) as Hge.
  { destruct (Z.ltb_spec b 128) as [Hlt|]; [|done]. unfold next_rune in Hn.
    by replace (b <? 128) with true in Hn by lia. }
  replace (b =? 34) with false by lia. replace (b =? 92) with false by lia.
  replace (b <? 32) with false by lia. by rewrite Hn.
Qed.

Lemma escape_chunk_ne c : chunk_ok c -> (1 <= length (escape_chunk c))%nat.
Proof.
  destruct c as [bs|]; [|simpl; lia]. intros (b & bs' & -> & _). destruct bs'; [|unfold escape_chunk; repeat case_decide; simpl; lia].
  simpl. unfold escape_byte. repeat case_match; simpl; lia.
Qed.

(** A quoted string is read as itself, with its invalid bytes replaced. *)
Lemma string_body_quote s rest :
  Forall (fun b => 0 <= b) s -> string_body (escaped s ++ 34 :: rest) = inl (to_valid s, rest).
Proof.
  intros Hs%runes_ok. unfold string_body, escaped, to_valid.
  assert (forall n, (length (runes s) <= n)%nat ->
    parse_str (S n) (concat (escape_chunk <$> runes s) ++ 34 :: rest) = inl (concat (valid_chunk <$> runes s), rest)) as H.
  { induction Hs as [|c cs Hc _ IH]; intros n Hn; [done |]. destruct n as [|n]; simpl in Hn; [lia |].
    rewrite !fmap_cons. simpl concat. rewrite <-app_assoc, (reads_chunk c Hc), IH by lia. done. }
  apply H. rewrite length_app. simpl. clear H. induction Hs as [|c cs Hc _ IH]; [simpl; lia |].
  rewrite fmap_cons. simpl. rewrite length_app. pose proof (escape_chunk_ne c Hc). lia.
Qed.

(** ** Numbers *)
Definition digit_ok (c : Z) : Prop := 48 <= c <= 57.

Lemma dec_val_app acc l c :
  digit_ok c -> dec_val acc (l ++ [c]) = (fun v => 10 * v + (c - 48)) <$> dec_val acc l.
Proof.
  intros Hc. revert acc. induction l as [|d l IH]; intros acc; simpl.
  - unfold is_digit, digit_ok in *. by replace ((48 <=? c) && (c <=? 57)) with true by lia.
  - destruct (is_digit d); [apply IH | done].
Qed.

Lemma code_digit x : (x < 10)%N -> Z.of_N (Ascii.N_of_ascii (pretty_N_char x)) = 48 + Z.of_N x.
Proof.
  intros Hx. assert (x = 0 \/ x = 1 \/ x = 2 \/ x = 3 \/ x = 4 \/ x = 5 \/ x = 6 \/ x = 7 \/ x = 8 \/ x = 9)%N as H by lia.
  repeat destruct H as [->|H]; try done. by subst.
Qed.

(** The digits of a positive number: the first is not zero. *)
Definition decimal (x : N) (l : list Z) : Prop :=
  Forall digit_ok l /\ dec_val 0 l = Some (Z.of_N x) /\ exists d l', l = d :: l' /\ 49 <= d <= 57.

Lemma pretty_go_decimal x s : (0 < x)%N -> exists l, codes (pretty_N_go x s) = l ++ codes s /\ decimal x l.
Proof.
  revert s. induction (N.lt_wf_0 x) as [x _ IH]; intros s Hx. rewrite pretty_N_go_step by lia.
  assert (x mod 10 < 10)%N as Hm by (apply N.mod_lt; lia). pose proof (N.div_mod x 10 ltac:(lia)) as Hdm.
  destruct (decide (x `div` 10 = 0)%N) as [Hz|Hz].
  - assert (x < 10)%N as Hx10 by lia. clear IH. exists [48 + Z.of_N x]. rewrite Hz, pretty_N_go_0. cbn [codes].
    rewrite code_digit by done. replace (x mod 10)%N with x by lia. split; [done |].
    assert (is_digit (48 + Z.of_N x) = true) as Hd by (unfold is_digit; clear - Hx10; lia).
    unfold decimal, digit_ok. cbn [dec_val]. rewrite Hd.
    split_and!; [repeat constructor; lia | f_equal; lia | exists (48 + Z.of_N x), []; split; [done | lia]].
  - destruct (IH (x `div` 10)%N ltac:(apply N.div_lt; lia) (String (pretty_N_char (x mod 10)) s) ltac:(lia))
      as (l & -> & Hl & Hv & d & l' & -> & Hd).
    exists ((d :: l') ++ [48 + Z.of_N (x mod 10)]). simpl codes. rewrite code_digit by done. split; [by rewrite <-app_assoc |].
    assert (digit_ok (48 + Z.of_N (x mod 10))) as Hok.
    { unfold digit_ok. clear -Hm. revert Hm. generalize (x mod 10)%N. lia. }
    split_and!; [apply Forall_app; auto | | by eexists _, _].
    rewrite dec_val_app, Hv by done. simpl. f_equal. lia.
Qed.

Lemma decimal_pretty p : exists l, codes (pretty (Z.pos p)) = l /\ decimal (N.pos p) l.
Proof.
  destruct (pretty_go_decimal (N.pos p) "" ltac:(lia)) as (l & Hl & Hd). exists l. split; [|done].
  simpl in Hl. rewrite app_nil_r in Hl. exact Hl.
Qed.

(** What may follow a number without belonging to it. *)
Definition ends_number (rest : list Z) : Prop :=
  match rest with
  | [] => True
  | c :: _ => is_digit c = false /\ c <> 46 /\ c <> 101 /\ c <> 69
  end.

Lemma span_digits_app l rest :
  Forall digit_ok l -> ends_number rest -> span_digits (l ++ rest) = (l, rest).
Proof.
  intros Hl Hr. induction Hl as [|d l Hd _ IH]; simpl.
  - destruct rest as [|c rest]; [done |]. simpl. by destruct Hr as [-> _].
  - unfold is_digit, digit_ok in *. replace ((48 <=? d) && (d <=? 57)) with true by lia. by rewrite IH.
Qed.

Lemma no_fraction rest : ends_number rest -> frac_part rest = inl ([], rest) /\ exp_part rest = inl ([], rest).
Proof.
  destruct rest as [|c rest]; [done |]. intros (_ & Hd & He & HE). split.
  - simpl. by replace (c =? 46) with false by lia.
  - simpl. by replace ((c =? 101) || (c =? 69)) with false by lia.
Qed.

Lemma parse_num_decimal x l sign rest :
  decimal x l -> sign = [] \/ sign = [45] -> ends_number rest ->
  parse_num (sign ++ l ++ rest) = inl (sign ++ l, rest).
Proof.
  intros (Hl & _ & d & l' & -> & Hd) Hs Hr.
  assert (int_part ((d :: l') ++ rest) = inl (d :: l', rest)) as Hi.
  { unfold int_part, digits1. rewrite span_digits_app by done. simpl. by destruct (Z.eqb_spec d 48); [lia |]. }
  destruct (no_fraction rest Hr) as [Hf He].
  assert (forall sg, (let> (i, r1) := int_part ((d :: l') ++ rest) in
    let> (f, r2) := frac_part r1 in let> (e, r3) := exp_part r2 in inl (sg ++ i ++ f ++ e, r3))
    = inl (sg ++ d :: l', rest)) as Hg.
  { intros sg. rewrite Hi. simpl. rewrite Hf. simpl. rewrite He. simpl. by rewrite app_nil_r. }
  destruct Hs as [->| ->]; [|exact (Hg [45])]. rewrite <-(Hg []).
  unfold parse_num. simpl app at 1. cbv iota beta. by destruct (Z.eqb_spec d 45); [lia |].
Qed.

Lemma parse_value_num fuel depth b r :
  b = 45 \/ digit_ok b ->
  parse_value (S fuel) depth (b :: r) = let> (t, r') := parse_num (b :: r) in inl (JNum t, r').
Proof.
  intros Hb. unfold digit_ok in Hb. cbn [parse_value skip_ws]. unfold is_space.
  replace ((b =? 32) || (b =? 9) || (b =? 10) || (b =? 13)) with false by lia.
  replace (b =? 123) with false by lia. replace (b =? 91) with false by lia. replace (b =? 34) with false by lia.
  replace (b =? 116) with false by lia. replace (b =? 102) with false by lia. replace (b =? 110) with false by lia.
  unfold is_digit. by replace ((b =? 45) || (48 <=? b) && (b <=? 57)) with true by lia.
Qed.

Lemma ParseInt64_decimal x l :
  decimal x l ->
  (Z.of_N x < 2 ^ 63 -> ParseInt64 l = Some (Z.of_N x)) /\
  (Z.of_N x <= 2 ^ 63 -> ParseInt64 (45 :: l) = Some (- Z.of_N x)).
Proof.
  intros (_ & Hv & d & l' & -> & Hd). unfold ParseInt64. split; intros Hx.
  - replace (d =? 45) with false by lia. rewrite Hv. by replace (_ && _) with true by lia.
  - rewrite Z.eqb_refl, Hv. simpl. by replace (_ && _) with true by lia.
Qed.

(** A number in the file is read as itself. *)
Lemma parse_value_int fuel depth z rest :
  int64_range z -> ends_number rest ->
  parse_value (S fuel) depth (codes (pretty z) ++ rest) = inl (JNum (codes (pretty z)), rest) /\
  ParseInt64 (codes (pretty z)) = Some z.
Proof.
  intros Hz Hr. unfold int64_range in Hz. destruct z as [|p|p].
  - split; [|done]. change (codes (pretty 0)) with [48]. simpl app.
    rewrite parse_value_num by (right; unfold digit_ok; lia). unfold parse_num. simpl.
    destruct (no_fraction rest Hr) as [-> He]. simpl. by rewrite He.
  - destruct (decimal_pretty p) as (l & -> & Hl). split; [|apply (ParseInt64_decimal _ _ Hl); lia].
    pose proof (parse_num_decimal _ _ [] rest Hl (or_introl eq_refl) Hr) as Hn. pose proof Hl as (_ & _ & d & l' & -> & Hd).
    cbn [app] in Hn |- *. rewrite parse_value_num by (right; unfold digit_ok; lia). by rewrite Hn.
  - change (pretty (Z.neg p)) with ("-" +:+ pretty (Z.pos p)). rewrite codes_app. change (codes "-") with [45].
    destruct (decimal_pretty p) as (l & -> & Hl). split; [|apply (ParseInt64_decimal _ _ Hl); lia].
    pose proof (parse_num_decimal _ _ [45] rest Hl (or_intror eq_refl) Hr) as Hn. rewrite app_assoc in Hn.
    cbn [app] in Hn |- *. rewrite parse_value_num by (by left). by rewrite Hn.
Qed.

(** ** Maps *)
Definition byte_codes (s : string) : Forall (fun b => 0 <= b) (codes s).
Proof. induction s as [|a s IH]; simpl; constructor; [lia | done]. Qed.

(** What the decoder makes of a member. *)
Definition read_scalar (v : scalar) : json :=
  match v with SStr s => JStr (to_valid (codes s)) | SInt z => JNum (codes (pretty z)) end.

Definition read_text (kv : string * scalar) : list Z * json := (to_valid (codes kv.1), read_scalar kv.2).

Definition read_member (kv : string * Z) : list Z * json := read_text (kv.1, SInt kv.2).

Definition scalar_ok (v : scalar) : Prop := match v with SStr _ => True | SInt z => int64_range z end.

Lemma parse_value_scalar fuel depth v rest :
  scalar_ok v -> ends_number rest ->
  parse_value (S fuel) depth (scalar_text v ++ rest) = inl (read_scalar v, rest).
Proof.
  destruct v as [s|z]; intros Hv Hr; [|by apply parse_value_int].
  unfold scalar_text, quote. rewrite <-!app_assoc.
  change (parse_value (S fuel) depth ([34] ++ ?r)) with (let> (s, r') := string_body r in inl (JStr s, r')).
  change ([34] ++ rest) with (34 :: rest). by rewrite (string_body_quote (codes s) rest (byte_codes s)).
Qed.

Lemma member_text_app k v tl :
  member_text (k, v) ++ tl = 34 :: escaped (codes k) ++ 34 :: 58 :: scalar_text v ++ tl.
Proof. unfold member_text, quote. simpl. by rewrite <-!app_assoc. Qed.

(** One member and what follows it. *)
Lemma parse_members_step k v fuel depth tl :
  scalar_ok v -> ends_number tl ->
  parse_members (S (S fuel)) depth (member_text (k, v) ++ tl) =
    more 125 (read_text (k, v)) tl (parse_members (S fuel) depth).
Proof.
  intros Hz Ht. rewrite member_text_app.
  change (parse_members (S (S fuel)) depth (34 :: ?r)) with
    (let> (k, r1) := string_body r in
     expect 58 r1 (fun r2 => let> (v, r3) := parse_value (S fuel) depth r2 in
       more 125 (k, v) r3 (parse_members (S fuel) depth))).
  rewrite (string_body_quote (codes k) (58 :: scalar_text v ++ tl) (byte_codes k)). cbn [pbind].
  change (expect 58 (58 :: ?r) ?k) with (k r). cbv beta. by rewrite parse_value_scalar.
Qed.

Lemma parse_members_map l fuel depth rest :
  l <> [] -> (length l < fuel)%nat -> Forall (fun kv => scalar_ok kv.2) l ->
  parse_members fuel depth (comma_sep (member_text <$> l) ++ 125 :: rest) = inl (read_text <$> l, rest).
Proof.
  revert fuel. induction l as [|[k z] l IH]; intros fuel Hne Hf Hl; [done |]. inversion_clear Hl as [|?? Hz Hl'].
  destruct fuel as [|[|fuel]]; simpl in Hf; [lia | lia |]. destruct l as [|kv l].
  - change (comma_sep (member_text <$> [(k, z)])) with (member_text (k, z)). by rewrite parse_members_step.
  - change (comma_sep (member_text <$> (k, z) :: kv :: l)) with
      (member_text (k, z) ++ [44] ++ comma_sep (member_text <$> kv :: l)).
    rewrite <-!app_assoc, parse_members_step by done.
    change (more 125 ?x ([44] ++ ?r) ?k) with (let> (xs, r') := k r in inl (x :: xs, r')).
    rewrite IH by (done || simpl in *; lia). done.
Qed.

Lemma member_text_ne kv : exists c, member_text kv = 34 :: c.
Proof. destruct kv as [k z]. rewrite <-(app_nil_r (member_text (k, z))), member_text_app. eauto. Qed.

(** A flat object. *)
Lemma parse_object fuel depth l rest :
  (length l < fuel)%nat -> Forall (fun kv => scalar_ok kv.2) l ->
  parse_value (S fuel) (S depth) (123 :: comma_sep (member_text <$> l) ++ 125 :: rest) =
    inl (JObj (read_text <$> l), rest).
Proof.
  intros Hf Hl. change (parse_value (S fuel) (S depth) (123 :: ?r)) with
    (match closes 125 r with
     | Some r' => inl (JObj [], r')
     | None => let> (ms, r') := parse_members fuel depth r in inl (JObj ms, r')
     end).
  destruct l as [|kv l]; [done |].
  assert (closes 125 (comma_sep (member_text <$> kv :: l) ++ 125 :: rest) = None) as ->.
  { destruct (member_text_ne kv) as [c Hc]. rewrite fmap_cons, Hc. by destruct l. }
  by rewrite parse_members_map.
Qed.

(** The name a reason has after it was written and read. *)
Definition reread (k : string) : string := text (to_valid (codes k)).

Lemma reread_valid k : valid_utf8 (codes k) = true -> reread k = k.
Proof. intros H. unfold reread. by rewrite concat_runes, text_codes. Qed.

Lemma stats_members l m :
  Forall (fun kv => int64_range kv.2) l ->
  fold_left stats_member (read_member <$> l) (Some m) =
    Some (fold_left (fun m kv => <[reread kv.1 := kv.2]> m) l m).
Proof.
  intros Hl. revert m. induction Hl as [|[k z] l Hz _ IH]; intros m; [done |]. simpl in Hz |- *.
  destruct (parse_value_int 0 0 z [] Hz I) as [_ ->]. simpl. apply IH.
Qed.

(** The members are the entries of the map. *)
Lemma sorted_members_perm m : sorted_members m ≡ₚ map_to_list m.
Proof.
  unfold sorted_members. rewrite merge_sort_Permutation, <-list_fmap_compose.
  assert (Forall (fun kv => ((fun k => (k, default 0 (m !! k))) ∘ fst) kv = kv) (map_to_list m)) as H.
  { apply Forall_forall. intros [k z] Hin%elem_of_map_to_list. simpl. by rewrite Hin. }
  induction H as [|kv l Hkv _ IH]; [done |]. rewrite fmap_cons, Hkv. by constructor.
Qed.

Lemma fold_insert_lookup (g : string -> string) l (m : gmap string Z) k :
  (forall kv, kv ∈ l -> g kv.1 = kv.1) -> NoDup l.*1 ->
  fold_left (fun m kv => <[g kv.1 := kv.2]> m) l m !! k = (list_to_map l ∪ m) !! k.
Proof.
  revert m. induction l as [|[k' z] l IH]; intros m Hg Hnd; simpl; [by rewrite (left_id_L ∅ (∪)) |].
  apply NoDup_cons in Hnd as [Hk Hnd]. pose proof (Hg (k', z) ltac:(by left)) as Hk'. simpl in Hk'. rewrite Hk'.
  rewrite IH by (done || intros; apply Hg; by right).
  rewrite <-insert_union_r by (by apply not_elem_of_list_to_map). by rewrite insert_union_l.
Qed.

(** Reading the members of a map whose keys are valid UTF-8 gives the map. *)
Lemma reread_map m :
  map_Forall (fun k _ => valid_utf8 (codes k) = true) m ->
  fold_left (fun m kv => <[reread kv.1 := kv.2]> m) (sorted_members m) ∅ = m.
Proof.
  intros Hv. apply map_eq. intros k. pose proof (sorted_members_perm m) as Hp. rewrite fold_insert_lookup.
  - rewrite (right_id_L ∅ (∪)).
    rewrite (list_to_map_proper _ (map_to_list m)), list_to_map_to_list; [done | | done].
    rewrite Hp. apply NoDup_fst_map_to_list.
  - intros [k' z]. rewrite Hp. intros Hin%elem_of_map_to_list. simpl. apply reread_valid. exact (Hv _ _ Hin).
  - rewrite Hp. apply NoDup_fst_map_to_list.
Qed.

Lemma sorted_members_range m :
  map_Forall (fun _ z => int64_range z) m -> Forall (fun kv => int64_range kv.2) (sorted_members m).
Proof.
  intros Hm. rewrite sorted_members_perm. apply Forall_forall. intros [k z] Hin%elem_of_map_to_list.
  exact (Hm _ _ Hin).
Qed.

Lemma comma_sep_length l : (length l <= S (length (comma_sep l)))%nat.
Proof.
  induction l as [|x [|y l] IH]; simpl in *; [lia | lia |]. rewrite length_app. simpl in *. lia.
Qed.

(** The object of the map. *)
Lemma parse_stats_object fuel depth l rest :
  (length l < fuel)%nat -> Forall (fun kv => int64_range kv.2) l ->
  parse_value (S fuel) (S depth) (123 :: comma_sep (encode_member <$> l) ++ 125 :: rest) =
    inl (JObj (read_member <$> l), rest).
Proof.
  intros Hf Hl. set (g := fun kv : string * Z => (kv.1, SInt kv.2)).
  change (encode_member <$> l) with (member_text ∘ g <$> l). change (read_member <$> l) with (read_text ∘ g <$> l).
  rewrite !list_fmap_compose. apply parse_object; [by rewrite length_fmap | by apply Forall_fmap].
Qed.

Lemma string_body_name rest : string_body (codes "block_stats" ++ 34 :: rest) = inl (codes "block_stats", rest).
Proof. exact (string_body_quote (codes "block_stats") rest (byte_codes _)). Qed.

(** The whole file, for any keys: every key is read with its invalid bytes replaced. *)
Lemma decode_state_text m :
  map_Forall (fun _ z => int64_range z) m ->
  json_Decode (state_text (mkEngineState (Some m))) = inl (mkEngineState (Some
    (fold_left (fun m kv => <[reread kv.1 := kv.2]> m) (sorted_members m) ∅))).
Proof.
  intros Hm%sorted_members_range. set (l := sorted_members m) in *.
  set (inner := 123 :: comma_sep (encode_member <$> l) ++ 125 :: [125; 10]).
  set (bs := state_text _). assert (bs = 123 :: 34 :: codes "block_stats" ++ 34 :: 58 :: inner) as Hbs.
  { unfold bs, inner, state_text, encode_stats. fold l.
    change (quote (codes "block_stats")) with (34 :: codes "block_stats" ++ [34]).
    cbn [app BlockStats]. by rewrite <-!app_assoc. }
  assert (length l + 3 < 2 * length bs)%nat as Hlen.
  { rewrite Hbs. unfold inner. simpl. rewrite length_app. simpl.
    pose proof (comma_sep_length (encode_member <$> l)). rewrite length_fmap in *. lia. }
  unfold json_Decode, parse_json. rewrite Hbs at 2. destruct (2 * length bs)%nat as [|[|n]]; [lia | lia |].
  change maxNestingDepth with (S (S (Z.to_nat 9998))).
  change (parse_value (S (S (S n))) (S (S ?d)) (123 :: 34 :: ?r)) with
    (let> (ms, r') := (let> (k, r1) := string_body r in
       expect 58 r1 (fun r2 => let> (v, r3) := parse_value (S n) (S d) r2 in
         more 125 (k, v) r3 (parse_members (S n) (S d)))) in inl (JObj ms, r')).
  rewrite string_body_name. cbn [pbind]. change (expect 58 (58 :: ?r) ?k) with (k r). cbv beta.
  unfold inner. rewrite parse_stats_object by (done || lia). cbn [pbind].
  change (more 125 ?x (125 :: [10]) ?k) with (@inl (list (list Z * json) * list Z) perr ([x], [10])). cbn [pbind].
  cbv beta iota. unfold unmarshal. simpl fold_left. unfold set_field. simpl.
  rewrite stats_members by done. done.
Qed.

(** The decoder reads from the text of a state the state itself, when its reasons
    are valid UTF-8 and its counters fit [int64]. *)
Theorem json_roundtrip m :
  map_Forall (fun k z => valid_utf8 (codes k) = true /\ int64_range z) m ->
  exists bs, json_Encode (mkEngineState (Some m)) = inl bs /\ json_Decode bs = inl (mkEngineState (Some m)).
Proof.
  intros Hm. eexists. split; [done |]. rewrite decode_state_text by (eapply map_Forall_impl; naive_solver).
  by rewrite reread_map by (eapply map_Forall_impl; naive_solver).
Qed.

(** ** Ranges *)
Definition stats_range (st : EngineState) : Prop :=
  forall m, BlockStats st = Some m -> map_Forall (fun _ z => int64_range z) m.

Lemma ParseInt64_range t z : ParseInt64 t = Some z -> int64_range z.
Proof.
  unfold ParseInt64, int64_range. destruct (match t with [] => None | _ => _ end) as [x|]; [|done].
  destruct ((- 2 ^ 63 <=? x) && (x <? 2 ^ 63)) eqn:Hx; [|done]. intros [= <-]. lia.
Qed.

Lemma stats_member_range ms acc m :
  fold_left stats_member ms acc = Some m ->
  (forall m0, acc = Some m0 -> map_Forall (fun _ z => int64_range z) m0) -> map_Forall (fun _ z => int64_range z) m.
Proof.
  revert acc. induction ms as [|[k v] ms IH]; intros acc; simpl; [naive_solver |]. intros H Hacc.
  apply (IH _ H). intros m0. destruct acc as [m1|]; [|done]. specialize (Hacc m1 eq_refl). simpl.
  destruct v; try done; [intros [= <-]; by apply map_Forall_insert_2 |].
  destruct (ParseInt64 t) as [z|] eqn:Hz; [|done]. intros [= <-].
  apply map_Forall_insert_2; [by eapply ParseInt64_range | done].
Qed.

Lemma set_field_range ms acc st :
  fold_left set_field ms acc = Some st -> (forall st0, acc = Some st0 -> stats_range st0) -> stats_range st.
Proof.
  revert acc. induction ms as [|[k v] ms IH]; intros acc; simpl; [naive_solver |]. intros H Hacc.
  apply (IH _ H). intros st0. destruct acc as [st1|]; [|done]. specialize (Hacc st1 eq_refl). simpl.
  destruct (names_block_stats k); [|by intros [= <-]]. destruct v; try done; [by intros [= <-] |].
  destruct (fold_left stats_member l _) as [m|] eqn:Hf; [|done]. intros [= <-] m' [= <-].
  apply (stats_member_range _ _ _ Hf). intros m0 [= <-].
  destruct (BlockStats st1) as [m1|] eqn:Hb; simpl; [by apply Hacc | apply map_Forall_empty].
Qed.

Lemma unmarshal_range v st : unmarshal v = Some st -> stats_range st.
Proof.
  destruct v; try done; [by intros [= <-] |]. intros H. apply (set_field_range _ _ _ H). by intros st0 [= <-].
Qed.

(** ** Size *)
Lemma escape_chunk_length b r c r' :
  next_rune b r = (c, r') -> (length (escape_chunk c) + 6 * length r' <= 6 * S (length r))%nat.
Proof.
  intros H%next_rune_spec. destruct c as [bs|]; [|destruct H as [-> _]; simpl; lia].
  destruct H as [He Hl]. apply (f_equal length) in He. rewrite length_app in He. simpl in He.
  assert (length (escape_chunk (Rune bs)) <= 6 * length bs)%nat; [|lia].
  destruct bs as [|b1 [|b2 bs]]; [simpl in Hl; lia | |].
  - simpl. unfold escape_byte. repeat case_match; simpl; lia.
  - unfold escape_chunk. repeat case_decide; simpl; lia.
Qed.

Lemma escaped_length s : (length (escaped s) <= 6 * length s)%nat.
Proof.
  unfold escaped. induction s as [s IH] using (induction_ltof1 _ (@length Z)). unfold ltof in IH.
  destruct s as [|b r]; [done |]. destruct (next_rune b r) as [c r'] eqn:Hn. rewrite (runes_cons _ _ _ _ Hn).
  rewrite fmap_cons. simpl concat. rewrite length_app. pose proof (escape_chunk_length _ _ _ _ Hn).
  pose proof (next_rune_length _ _ _ _ Hn). specialize (IH r' ltac:(simpl; lia)). simpl. lia.
Qed.

Lemma dec_val_ge acc l v : 0 <= acc -> dec_val acc l = Some v -> acc * 10 ^ Z.of_nat (length l) <= v.
Proof.
  revert acc. induction l as [|d l IH]; intros acc Ha; simpl; [intros [= <-]; lia |].
  unfold is_digit. destruct (_ && _) eqn:Hd; [|done]. intros Hv%IH; [|lia].
  rewrite Nat2Z.inj_succ, Z.pow_succ_r by lia. pose proof (Z.pow_nonneg 10 (Z.of_nat (length l))). nia.
Qed.

Lemma decimal_length x l : decimal x l -> Z.of_N x <= 2 ^ 63 -> (length l <= 19)%nat.
Proof.
  intros (_ & Hv & d & l' & -> & Hd) Hx. simpl in Hv. unfold is_digit in Hv.
  replace ((48 <=? d) && (d <=? 57)) with true in Hv by lia.
  apply dec_val_ge in Hv; [|lia]. simpl. destruct (decide (length l' <= 18)%nat) as [|Hn]; [lia |].
  pose proof (Z.pow_le_mono_r 10 19 (Z.of_nat (length l')) ltac:(lia) ltac:(lia)). nia.
Qed.

Lemma pretty_length z : int64_range z -> (length (codes (pretty z)) <= 20)%nat.
Proof.
  unfold int64_range. intros Hz. destruct z as [|p|p]; [simpl; lia | |].
  - destruct (decimal_pretty p) as (l & -> & Hl). pose proof (decimal_length _ _ Hl). lia.
  - change (pretty (Z.neg p)) with ("-" +:+ pretty (Z.pos p)). rewrite codes_app.
    destruct (decimal_pretty p) as (l & -> & Hl). pose proof (decimal_length _ _ Hl). simpl. lia.
Qed.

Lemma codes_length s : length (codes s) = String.length s.
Proof. induction s as [|a s IH]; simpl; [done | by rewrite IH]. Qed.

Lemma comma_sep_bound n l : Forall (fun x : list Z => (length x <= n)%nat) l -> (length (comma_sep l) <= length l * S n)%nat.
Proof.
  induction 1 as [|x l Hx _ IH]; simpl; [done |]. destruct l as [|y l]; [simpl; lia |].
  rewrite length_app. simpl in *. lia.
Qed.

(** The text of a map with short names. *)
Lemma state_text_length n m :
  map_Forall (fun k z => (String.length k <= n)%nat /\ int64_range z) m ->
  (length (state_text (mkEngineState (Some m))) <= 19 + size m * (6 * n + 24))%nat.
Proof.
  intros Hm. unfold state_text, encode_stats. cbn [BlockStats]. rewrite !length_app.
  change (length (quote (codes "block_stats"))) with 13%nat. cbn [length].
  assert (length (sorted_members m) = size m) as <-.
  { rewrite (Permutation_length (sorted_members_perm m)). apply length_map_to_list. }
  assert (Forall (fun x : list Z => (length x <= 6 * n + 23)%nat) (encode_member <$> sorted_members m)) as Hall.
  { apply Forall_fmap, Forall_forall. intros [k z]. rewrite sorted_members_perm. intros Hin%elem_of_map_to_list.
    destruct (Hm _ _ Hin) as [Hk Hz]. unfold encode_member, member_text, quote. simpl. rewrite !length_app. simpl.
    pose proof (escaped_length (codes k)). pose proof (pretty_length z Hz). rewrite codes_length in *. lia. }
  apply comma_sep_bound in Hall. rewrite length_fmap, <-Nat.add_succ_r in Hall. lia.
Qed.

(** ** Termination *)

(** The parser has not run out of fuel, and at most [n] bytes are unread. *)
Definition within {A} (n : nat) (p : parsed A) : Prop :=
  match p with
  | inl (_, r) => (length r <= n)%nat
  | inr e => e <> OutOfFuel
  end.

Lemma within_bind {A B} n m (p : parsed A) (k : A -> list Z -> parsed B) :
  within n p -> (forall a r, (length r <= n)%nat -> within m (k a r)) -> within m (pbind p k).
Proof. destruct p as [[a r]|e]; simpl; auto. Qed.

Lemma skip_ws_length bs : (length (skip_ws bs) <= length bs)%nat.
Proof. induction bs as [|b r IH]; simpl; [done |]. destruct (is_space b); simpl in *; lia. Qed.

Lemma skip_ws_cons bs b r : skip_ws bs = b :: r -> (S (length r) <= length bs)%nat.
Proof. intros H. pose proof (skip_ws_length bs) as Hl. by rewrite H in Hl. Qed.

Lemma within_expect {A} c bs (k : list Z -> parsed A) n :
  (forall r, (S (length r) <= length bs)%nat -> within n (k r)) -> within n (expect c bs k).
Proof.
  intros Hk. unfold expect. destruct (skip_ws bs) as [|b r] eqn:Hs; [done |].
  destruct (b =? c); [|done]. apply Hk. by eapply skip_ws_cons.
Qed.

Lemma within_more {A} c (x : A) bs (k : list Z -> parsed (list A)) n :
  (length bs <= S n)%nat -> (forall r, (S (length r) <= length bs)%nat -> within n (k r)) -> within n (more c x bs k).
Proof.
  intros Hn Hk. unfold more. destruct (skip_ws bs) as [|b r] eqn:Hs; [done |]. apply skip_ws_cons in Hs.
  destruct (b =? c); [simpl; lia |]. destruct (b =? 44); [|done].
  eapply within_bind; [by apply Hk |]. done.
Qed.

Lemma within_hex4 bs n : (length bs <= n)%nat -> within n (hex4 bs).
Proof. intros Hn. destruct bs as [|a [|b [|c [|d r]]]]; try done. simpl in *. repeat case_match; simpl; (done || lia). Qed.

Lemma within_escape bs n : (length bs <= n)%nat -> within n (parse_escape bs).
Proof.
  intros Hn. destruct bs as [|e r]; [done |]. simpl in *. repeat (case_match; [simpl; lia |]). case_match; [|done].
  eapply (within_bind n); [apply within_hex4; lia |]. intros v r' Hr. case_match; [|done].
  unfold low_surrogate. destruct r' as [|a [|u r2]]; [done.. |]. case_match; [|done].
  pose proof (within_hex4 r2 n ltac:(simpl in *; lia)) as Hh. destruct (hex4 r2) as [[v' r3]|]; [|done].
  by case_match.
Qed.

Lemma within_str fuel bs : (length bs < fuel)%nat -> within (pred (length bs)) (parse_str fuel bs).
Proof.
  revert bs. induction fuel as [|fuel IH]; intros bs Hf; [lia |]. destruct bs as [|b r]; [done |]. simpl in *.
  case_match; [simpl; lia |].
  assert (forall out r', (length r' <= length r)%nat ->
    within (length r) (let> (s, r'') := parse_str fuel r' in inl (out ++ s, r''))) as Hstep.
  { intros out r' Hr. eapply within_bind; [apply (IH r'); lia |]. simpl. lia. }
  case_match; [eapply (within_bind (length r)); [by apply within_escape | auto] |]. case_match; [done |].
  destruct (next_rune b r) as [c r'] eqn:Hn. apply Hstep. by eapply next_rune_length.
Qed.

Lemma within_string_body bs : within (pred (length bs)) (string_body bs).
Proof. apply within_str. lia. Qed.

Lemma span_digits_length bs : (length (span_digits bs).2 <= length bs)%nat.
Proof. induction bs as [|b r IH]; simpl; [done |]. destruct (is_digit b), (span_digits r); simpl in *; lia. Qed.

Lemma within_digits1 bs n : (length bs <= n)%nat -> within n (digits1 bs).
Proof.
  intros Hn. unfold digits1, stuck. pose proof (span_digits_length bs).
  destruct (span_digits bs) as [[|d ds] r]; simpl in *; [by destruct r | lia].
Qed.

Lemma within_int bs n : (length bs <= n)%nat -> within n (int_part bs).
Proof.
  intros Hn. destruct bs as [|b r]; [done |]. simpl. case_match; [simpl in *; lia | by apply within_digits1].
Qed.

Lemma within_int_cons b r : is_digit b = true -> within (length r) (int_part (b :: r)).
Proof.
  intros Hb. simpl. case_match; [simpl; lia |]. unfold digits1. simpl. rewrite Hb.
  pose proof (span_digits_length r). destruct (span_digits r) as [ds r']. simpl in *. lia.
Qed.

Lemma within_num b r : (b =? 45) || is_digit b = true -> within (length r) (parse_num (b :: r)).
Proof.
  intros Hb. unfold parse_num.
  assert (exists sign bs1, (if b =? 45 then ([45], r) else ([], b :: r)) = (sign, bs1) /\
    within (length r) (int_part bs1)) as (sign & bs1 & -> & H1).
  { case_match; eexists _, _; (split; [done |]); [by apply within_int | by apply within_int_cons]. }
  eapply (within_bind (length r)); [done |]. intros i r1 Hr1. eapply (within_bind (length r)).
  { destruct r1 as [|b' r1]; [simpl; lia |]. simpl. case_match; [|done].
    eapply within_bind; [apply (within_digits1 r1 (length r)); simpl in *; lia | done]. }
  intros f r2 Hr2. eapply (within_bind (length r)); [|done].
  destruct r2 as [|e r2]; [simpl; lia |]. simpl. case_match; [|done]. destruct r2 as [|s r']; [done |].
  case_match; (eapply within_bind; [apply (within_digits1 _ (length r)); simpl in *; lia | done]).
Qed.

Lemma within_literal w v bs n : (length bs <= n)%nat -> within n (literal w v bs).
Proof.
  revert bs. induction w as [|c w IH]; intros bs Hn; [done |]. destruct bs as [|b r]; [done |].
  simpl. case_match; [|done]. apply IH. simpl in *. lia.
Qed.

Lemma within_weaken {A} n m (p : parsed A) : within n p -> (n <= m)%nat -> within m p.
Proof. destruct p as [[a r]|]; simpl; [lia | done]. Qed.

(** With enough fuel for the bytes the parser does not run out, and it reads at
    least one byte. *)
Lemma within_value fuel :
  (forall depth bs, (2 * length bs < fuel)%nat -> within (pred (length bs)) (parse_value fuel depth bs)) /\
  (forall depth bs, (2 * length bs < fuel)%nat -> within (pred (length bs)) (parse_members fuel depth bs)) /\
  (forall depth bs, (2 * length bs + 1 < fuel)%nat -> within (pred (length bs)) (parse_elements fuel depth bs)).
Proof.
  induction fuel as [|fuel (IHv & IHm & IHe)]; [split_and!; lia |]. split_and!; intros depth bs Hf.
  - cbn [parse_value]. destruct (skip_ws bs) as [|b r] eqn:Hs; [done |]. apply skip_ws_cons in Hs.
    assert (forall c r', closes c r = Some r' -> (length r' <= pred (length bs))%nat) as Hc.
    { unfold closes. intros c r'. destruct (skip_ws r) as [|b' r0] eqn:Hs'; [done |].
      apply skip_ws_cons in Hs'. case_match; [intros [= <-]; lia | done]. }
    case_match; [|case_match; [|case_match; [|repeat (case_match; [apply within_literal; lia |]); case_match; [|done]]]].
    + destruct depth as [|depth]; [done |]. destruct (closes 125 r) as [r'|] eqn:Hcl; [by apply (Hc 125) |].
      eapply within_bind; [apply IHm; lia |]. simpl. lia.
    + destruct depth as [|depth]; [done |]. destruct (closes 93 r) as [r'|] eqn:Hcl; [by apply (Hc 93) |].
      eapply within_bind; [apply IHe; lia |]. simpl. lia.
    + eapply within_bind; [apply within_string_body |]. simpl. lia.
    + eapply (within_bind (length r)); [by apply within_num | simpl; lia].
  - cbn [parse_members]. apply within_expect. intros r Hr. eapply within_bind; [apply within_string_body |].
    intros k r1 Hr1. apply within_expect. intros r2 Hr2. eapply within_bind; [apply IHv; lia |].
    intros v r3 Hr3. apply within_more; [lia |]. intros r4 Hr4. eapply within_weaken; [apply IHm; lia | lia].
  - cbn [parse_elements]. eapply within_bind; [apply IHv; lia |].
    intros v r1 Hr1. apply within_more; [lia |]. intros r2 Hr2. eapply within_weaken; [apply IHe; lia | lia].
Qed.

(** The decoder returns on every input, and a state it returns has counters that
    fit [int64]; the fuel of the parser never runs out. *)
Theorem json_Decode_total bs :
  json_Decode bs <> inr "out of fuel"%string /\
  forall st m, json_Decode bs = inl st -> BlockStats st = Some m -> map_Forall (fun _ z => int64_range z) m.
Proof.
  split.
  - unfold json_Decode, parse_json.
    pose proof (proj1 (within_value (S (2 * length bs))) maxNestingDepth bs ltac:(lia)) as H.
    destruct (parse_value _ _ bs) as [[v r]|[]]; try done. by destruct (unmarshal v).
  - intros st m H Hm. unfold json_Decode in H. destruct (parse_json bs) as [[v r]|[]]; try done.
    destruct (unmarshal v) as [st'|] eqn:Hu; [|done]. injection H as <-. by apply (unmarshal_range _ _ Hu).
Qed.
