(* ===== verification/Restart.v ===== *)
(** * Saving and restoring an engine

    [saveState] and [restoreState] of src/internal/engine/engine.go over the state file
    of package [persist]: a restarted engine has the block counters of the one
    that was stopped, and a save that fails or is cut short leaves it with the
    counters of an earlier one. *)
From Stdlib Require Import ZArith Lia ZifyBool.
From stdpp Require Import base gmap sets list strings pretty fin_maps.
From S2P Require Import Prelude GoTime RateLimit Conntrack Opa Engine EngineFacts EngineInv GoFS GoFSFacts SecurePath SecurePathFacts Persist PersistFacts GoNet GoJSON GoJSONFacts.

Local Open Scope Z_scope.
Local Open Scope io_scope.

Section restart.
Context {E : Type} `{Evaluator E}.
(** [saveState]: the error of [persist.SaveState] is logged and dropped. *)
Definition saveState (flt : Faults) (now : Time) (statePath : string) (e : Engine E) : IO unit :=
  if String.eqb statePath "" then io_ret tt
  else
    do _ := SaveState json_Encode flt now statePath (Some (mkEngineState (Some (saved_stats e)))) in
    io_ret tt.

(** [restoreState] with the call of [persist.LoadState]. *)
Definition restoreFrom (flt : Faults) (fs : FS) (ro : range_order string Z) (statePath : string)
    (e : Engine E) : Engine E :=
  restoreState ro statePath
    (match LoadState json_Decode flt fs statePath with
     | inr err => inr err
     | inl None => inl None
     | inl (Some st) => inl (BlockStats st)
     end) e.

(** Counters that the state file can hold: reasons of valid UTF-8, as short as
    [recordBlock] makes them. *)
Definition persistable (e : Engine E) : Prop :=
  map_Forall (fun k z => valid_utf8 (codes k) = true /\ (String.length k <= maxReasonLength)%nat /\ int64_range z)
    (blockStats e).

Definition saved_text (e : Engine E) : list Z := state_text (mkEngineState (Some (saved_stats e))).

Lemma saved_text_size e :
  engine_inv e -> persistable e -> Z.of_nat (length (saved_text e)) <= maxStateFileSize + 1.
Proof.
  intros He Hp. pose proof (einv_stats e He) as Hs.
  pose proof (state_text_length maxReasonLength (blockStats e)) as Hl. unfold saved_text, saved_stats.
  change maxReasonLength with (Z.to_nat 1024) in *. unfold maxStateFileSize, maxBlockStatsReasons in *.
  assert (length (state_text (mkEngineState (Some (blockStats e)))) <= 19 + size (blockStats e) * (6 * Z.to_nat 1024 + 24))%nat.
  { apply Hl. eapply map_Forall_impl; [exact Hp |]. naive_solver. }
  nia.
Qed.

Lemma saved_text_decodes e :
  persistable e -> json_Decode (saved_text e) = inl (mkEngineState (Some (saved_stats e))).
Proof.
  intros Hp. unfold saved_text, saved_stats.
  rewrite decode_state_text by (eapply map_Forall_impl; [exact Hp | naive_solver]).
  by rewrite reread_map by (eapply map_Forall_impl; [exact Hp | naive_solver]).
Qed.

(** The counters of an engine that finds the file of [e] in place. *)
Lemma restore_decoded ro path fs (e e0 : Engine E) :
  engine_inv e -> persistable e -> blockStats e0 = ∅ -> path <> ""%string ->
  LoadState json_Decode no_faults fs path = decoded json_Decode (saved_text e) ->
  blockStats (restoreFrom no_faults fs ro path e0) = blockStats e.
Proof.
  intros He Hp H0 Hpath Hload. unfold restoreFrom. rewrite Hload. unfold decoded.
  pose proof (saved_text_size e He Hp). rewrite take_ge by lia. rewrite saved_text_decodes by done.
  by apply restore_after_save.
Qed.

Lemma saveState_inv flt now path (e : Engine E) fs tr fs' :
  path <> ""%string -> saveState flt now path e fs = (tr, fs', tt) ->
  exists r, SaveState json_Encode flt now path (Some (mkEngineState (Some (saved_stats e)))) fs = (tr, fs', r).
Proof.
  intros Hp. unfold saveState. apply String.eqb_neq in Hp. rewrite Hp.
  intros (tr1 & fs1 & r & tr2 & Hs & [= <- <-] & ->)%io_bind_inv. exists r. by rewrite app_nil_r.
Qed.

Lemma saveState_run flt now path (e : Engine E) fs tr fs' r :
  path <> ""%string ->
  SaveState json_Encode flt now path (Some (mkEngineState (Some (saved_stats e)))) fs = (tr, fs', r) ->
  saveState flt now path e fs = (tr, fs', tt).
Proof.
  intros Hp Hs. unfold saveState. apply String.eqb_neq in Hp. rewrite Hp. unfold io_bind. rewrite Hs.
  simpl. by rewrite app_nil_r.
Qed.

(** C37: While an engine saves its block counters over those of an earlier run, the process may die at any
    point and any system call may fail; an engine started on what is then in the file system has the
    counters of the earlier run or those being saved, complete, and once [persist.SaveState] has returned
    without error it has the latter.  This holds for reasons that are valid UTF-8 of at most 1024 bytes
    (a cut can break a rune, [cut_reasons_merge]) and when no other name leads to the temporary file (a
    hard link or FIFO planted there is not noticed). *)
Theorem restart_after_crash flt now path pre f ro fs0 tr fs' (old e e0 : Engine E) :
  engine_inv old -> engine_inv e -> persistable old -> persistable e -> blockStats e0 = ∅ ->
  file_path path pre f -> has_dotdot path = false -> fs_ok fs0 -> cwd_ok fs0 ->
  tmp_private fs0 (lexical_path fs0 (path +:+ ".tmp")) ->
  dirs fs0 (base_of fs0 (IsAbs path)) (dir_comps pre) -> file_data fs0 (lexical_path fs0 path) = Some (saved_text old) ->
  saveState flt now path e fs0 = (tr, fs', tt) ->
  (forall s, s ∈ tr ++ [fs'] ->
     blockStats (restoreFrom no_faults s ro path e0) = blockStats old \/
     blockStats (restoreFrom no_faults s ro path e0) = blockStats e) /\
  (SaveState json_Encode flt now path (Some (mkEngineState (Some (saved_stats e)))) fs0 = (tr, fs', None) ->
   blockStats (restoreFrom no_faults fs' ro path e0) = blockStats e).
Proof.
  intros Hold He Ho Hb H0 Hpath Hdd Hok Hcwd Hpriv Hdirs Hd0 Hsave.
  assert (path <> ""%string) as Hne by (by eapply file_path_ne).
  destruct (saveState_inv _ _ _ _ _ _ _ Hne Hsave) as [r Hs]. split.
  - intros s Hin.
    destruct (crash_then_load json_Decode json_Encode _ _ _ _ _ _ _ _ _ _ _ _ Hpath Hdd Hok Hcwd Hpriv Hdirs Hd0 Hs Hin)
      as [Hl|(bs' & [= <-] & Hl)]; [left | right]; by apply restore_decoded.
  - intros Hs'.
    destruct (save_then_load json_Decode json_Encode _ _ _ _ _ _ _ _ _ Hpath Hok Hcwd Hpriv Hs') as (bs' & [= <-] & Hl).
    by apply restore_decoded.
Qed.
End restart.

(** ** A concrete restart *)

#[local] Existing Instance silent_evaluator.

Definition scan_engine (n : Z) : Engine unit := set_blocks {[ "scan"%string := n ]} [] sample_engine.

Lemma scan_engine_inv n : engine_inv (scan_engine n).
Proof. apply set_blocks_inv; [by apply New_inv | vm_compute; discriminate]. Qed.

Lemma scan_persistable n : int64_range n -> persistable (scan_engine n).
Proof.
  intros Hn. apply map_Forall_singleton. split_and!; [reflexivity | | done].
  change maxReasonLength with (Z.to_nat 1024). simpl. lia.
Qed.

(** [sample_fs] with the counters of an engine in the state file. *)
Definition scan_fs : FS := mkFS (tree sample_fs) {[ 0%nat := mkInode (saved_text (scan_engine 3)) zeroTime ]} [].

Definition scan_save : list FS * FS * option string :=
  SaveState json_Encode no_faults zeroTime "/var/fw/state.json"
    (Some (mkEngineState (Some (saved_stats (scan_engine 5))))) scan_fs.

Lemma scan_saved : scan_save = (scan_save.1.1, scan_save.1.2, None).
Proof.
  assert (scan_save.2 = None) as H by (vm_compute; reflexivity). rewrite <-H. by destruct scan_save as [[]].
Qed.

(** The counters of an engine started on a file system. *)
Definition restarted (fs : FS) : gmap string Z :=
  blockStats (restoreFrom no_faults fs (map_order _ _) "/var/fw/state.json" sample_engine).

Lemma restart_after_crash_witness :
  restarted scan_fs = {[ "scan"%string := 3 ]} /\
  Forall (fun s => restarted s = {[ "scan"%string := 3 ]} \/ restarted s = {[ "scan"%string := 5 ]}) scan_save.1.1 /\
  restarted scan_save.1.2 = {[ "scan"%string := 5 ]}.
Proof.
  split; [vm_compute; reflexivity |].
  destruct (restart_after_crash no_faults zeroTime "/var/fw/state.json"
    [""; "var"; "fw"]%string "state.json" (map_order _ _) scan_fs scan_save.1.1 scan_save.1.2
    (scan_engine 3) (scan_engine 5) sample_engine
    (scan_engine_inv 3) (scan_engine_inv 5)) as [H1 H2].
  - apply scan_persistable. unfold int64_range. lia.
  - apply scan_persistable. unfold int64_range. lia.
  - reflexivity.
  - exact sample_file_path.
  - reflexivity.
  - check_names.
  - reflexivity.
  - exact sample_tmp_private.
  - vm_compute. split_and!; reflexivity.
  - vm_compute. reflexivity.
  - eapply saveState_run; [discriminate | exact scan_saved].
  - split; [|exact (H2 scan_saved)].
    apply Forall_forall. intros s Hs. apply H1, elem_of_app. by left.
Defined.

(** ** Reasons that are not valid UTF-8

    [recordBlock] cuts a reason at 1024 bytes, which can be the middle of a rune; the
    encoder then writes U+FFFD.  Two such reasons become one: a restarted engine has
    one counter where there were two. *)
Fixpoint repeat_char (n : nat) (c : Ascii.ascii) : string :=
  match n with O => "" | S n' => String c (repeat_char n' c) end.

(** 1023 letters and one more rune of two bytes. *)
Definition long_reason (lead : nat) : string :=
  repeat_char (Z.to_nat 1023) (Ascii.ascii_of_nat 120) +:+ String (Ascii.ascii_of_nat lead) (String (Ascii.ascii_of_nat 169) "").

Definition two_reasons : Engine unit :=
  set_blocks {[ truncate (long_reason 195) := 3; truncate (long_reason 196) := 4 ]} [] sample_engine.

Theorem cut_reasons_merge :
  valid_utf8 (codes (long_reason 195)) = true /\ valid_utf8 (codes (long_reason 196)) = true /\
  size (blockStats two_reasons) = 2%nat /\
  match json_Decode (saved_text two_reasons) with
  | inl (mkEngineState (Some m)) => size m = 1%nat
  | _ => False
  end.
Proof. vm_compute. split_and!; reflexivity. Qed.
