(* ===== verification/PolicyFile.v ===== *)
(** * The policy file: reading and hot reload

    [readPolicyFile], [pollPolicyFile] and [watchPolicyFile] of
    src/cmd/server/main.go.  Other processes can change the file system between two
    system calls, so each call sees a state of its own: every [Lstat] of the symlink walk,
    the open, the [fstat] of the descriptor and the read.  (The read loop of [io.ReadAll]
    is one read.)  The interface [policyReloader] is a class; the embedded evaluator
    implements it. *)
From Stdlib Require Import ZArith Lia ZifyBool.
From stdpp Require Import base gmap sets list strings pretty fin_maps.
From S2P Require Import Prelude GoTime GoNet GoFS SecurePath Opa.

Local Open Scope Z_scope.

Definition maxPolicyFileSize : Z := 10 * 1024 * 1024.

(** The interface: [Load] returns an error and the new state of the target. *)
Class policyReloader (E : Type) : Type := reload : string -> E -> option string * E.

#[export] Instance embedded_reloader (R : Rego) : policyReloader (EmbeddedEvaluator R) := Opa.Load R.

(** The file behind a descriptor. *)
Definition file_of (fs : FS) (n : node) : option inode :=
  match n with NFile ino => inodes fs !! ino | _ => None end.

(** The states that the system calls of one guarded read see, in program order:
    [at_lstat cur] is that of the [Lstat] of [cur]. *)
Record Snapshots : Type := mkSnapshots {
  at_lstat : string -> FS;
  at_open : FS;
  at_fstat : FS;
  at_read : FS;
}.

(** Nothing changes during the read. *)
Definition steady (fs : FS) : Snapshots := mkSnapshots (fun _ => fs) fs fs fs.

(** The file of a descriptor in a later state; an open file is not removed. *)
Definition later (i : inode) (fs : FS) (n : node) : inode := default i (file_of fs n).

(** [readPolicyFile]: the text and the modification time of the opened file. *)
Definition readPolicyFile (flt : Faults) (s : Snapshots) (path : string) : (string * Time) + string :=
  match RejectSymlinkWalk flt (at_lstat s) (Dir path) with
  | Some e => inr e
  | None =>
      match open_read flt (at_open s) path with
      | inr e => inr ("opening policy file: " +:+ errno_text e)
      | inl f =>
          match fault flt OpFstat path with
          | Some e => inr ("stating policy file: " +:+ e)
          | None =>
              match file_of (at_open s) f with
              | None => inr ("policy path is not a regular file: " +:+ path)
              | Some opened =>
                  let fi := later opened (at_fstat s) f in
                  let size := Z.of_nat (length (i_data fi)) in
                  if maxPolicyFileSize <? size then
                    inr ("policy file too large: " +:+ pretty size +:+ " bytes (max " +:+
                         pretty maxPolicyFileSize +:+ ")")
                  else
                    match fault flt OpRead path with
                    | Some e => inr ("reading policy file: " +:+ e)
                    | None =>
                        let data := take (Z.to_nat (maxPolicyFileSize + 1)) (i_data (later fi (at_read s) f)) in
                        if maxPolicyFileSize <? Z.of_nat (length data) then
                          inr ("policy file grew beyond " +:+ pretty maxPolicyFileSize +:+ " bytes while reading")
                        else inl (text data, i_mtime fi)
                    end
              end
          end
      end
  end.

(** The modification time [os.Stat] reports; [other] is the one of something that is
    not a regular file. *)
Definition stat_mtime (other : Time) (fs : FS) (n : node) : Time :=
  match file_of fs n with Some i => i_mtime i | None => other end.

(** What one poll sees: the file system of the [Stat], those of the read, failures, and
    the time of a non-regular file. *)
Record PollEnv : Type := mkPollEnv {
  pe_stat : FS;
  pe_snapshots : Snapshots;
  pe_faults : Faults;
  pe_other : Time;
}.

Section poll.
Context {E : Type} `{policyReloader E}.

(** The evaluator, the record of the last reload, and the policies handed to
    [Load]. *)
Record Watcher : Type := mkWatcher { w_eval : E; lastMod : Time; loads : list string }.

(** [pollPolicyFile]: the time to sleep. *)
Definition pollPolicyFile (v : PollEnv) (path : string) (w : Watcher) : Z * Watcher :=
  match Stat (pe_faults v) (pe_stat v) path with
  | inr _ => (30 * Second, w)
  | inl n =>
      let modTime := stat_mtime (pe_other v) (pe_stat v) n in
      if time_is_zero (lastMod w) || time_after modTime (lastMod w) then
        match readPolicyFile (pe_faults v) (pe_snapshots v) path with
        | inr _ => (30 * Second, w)
        | inl (data, verifiedMod) =>
            match reload data (w_eval w) with
            | (Some _, ev) => (30 * Second, mkWatcher ev (lastMod w) (loads w ++ [data]))
            | (None, ev) => (5 * Second, mkWatcher ev verifiedMod (loads w ++ [data]))
            end
        end
      else (5 * Second, w)
  end.

(** [watchPolicyFile]: the polls of a run, from the seed. *)
Definition watchPolicyFile (path : string) (ev : E) (seed : Time) (vs : list PollEnv) : Watcher :=
  foldl (fun w v => (pollPolicyFile v path w).2) (mkWatcher ev seed []) vs.
End poll.
Arguments Watcher E : clear implicits.
