(* ===== verification/PolicyFileFacts.v ===== *)
(** * What hot reload guarantees

    Every policy that is loaded was read from a regular file that the path reached without
    a final link, after a walk that met no link; it is the file the path spells unless a
    directory was replaced between the walk and the open (the race that
    src/internal/securepath/securepath.go names, exhibited by [swap_wins_race]).  The record
    of the last reload is the time of such a file; a file that did not change is not loaded
    again, whatever is planted beside it; a file that did change is. *)
From Stdlib Require Import ZArith Lia ZifyBool.
From stdpp Require Import base gmap sets list strings pretty fin_maps.
From S2P Require Import Prelude GoTime GoNet GoFS GoFSFacts SecurePath SecurePathFacts Opa PolicyFile.

Local Open Scope Z_scope.

(** A final link makes the only difference between following and not following. *)
Lemma walk_follow fs links cur raw f :
  no_dotdot raw -> Forall (fun c => ~ has_char slash c) raw -> proper f ->
  clear fs cur (List.filter (fun c => negb (is_skip c)) raw) ->
  (forall t, tree fs !! (cur ++ List.filter (fun c => negb (is_skip c)) raw ++ [f]) <> Some (NLink t)) ->
  walk_path fs links cur (raw ++ [f]) true = walk_path fs links cur (raw ++ [f]) false.
Proof.
  intros Hd Hch Hf. revert cur. induction raw as [|c raw IH]; intros cur Hcl Hl.
  - simpl in *. rewrite !walk_step by done. destruct (tree fs !! (cur ++ [f])) as [[]|]; rewrite ?walk_nil; try done.
    by destruct (Hl target).
  - apply Forall_cons in Hd as [Hdc Hd], Hch as [Hcc Hch]. simpl in *.
    destruct (is_skip c) eqn:Hs; simpl in *; [rewrite !walk_skip by done; by apply IH |].
    rewrite !walk_step by done. destruct (tree fs !! (cur ++ [c])) as [[]|]; try done.
    apply IH; [done.. |]. intros t. rewrite <-app_assoc. apply Hl.
Qed.

Lemma resolve_follow fs p pre f :
  file_path p pre f -> clear fs (base_of fs (IsAbs p)) (dir_comps pre) ->
  (forall t, tree fs !! lexical_path fs p <> Some (NLink t)) ->
  resolve fs true p = resolve fs false p.
Proof.
  intros Hf Hcl Hl. pose proof Hf as (Hp & Hpf & Hd). unfold resolve, lexical_path in *.
  rewrite (file_path_comps p pre f Hf) in Hl.
  destruct (String.eqb_spec p "") as [He|_]; [by eapply file_path_ne in He |].
  rewrite Hp. apply walk_follow; try done.
  pose proof (split_slash_chars p) as Hc. rewrite Hp in Hc. by apply Forall_app in Hc as [? _].
Qed.

(** The path spells the regular file [ino] with contents [i]. *)
Definition spells (fs : FS) (p : string) (ino : nat) (i : inode) : Prop :=
  tree fs !! lexical_path fs p = Some (NFile ino) /\ inodes fs !! ino = Some i.

(** The regular file a path spells. *)
Definition regular_at (fs : FS) (p : string) (i : inode) : Prop := exists ino, spells fs p ino i.

Lemma node_at_file fs p pre f :
  file_path p pre f -> node_at fs (lexical_path fs p) = tree fs !! lexical_path fs p.
Proof.
  intros Hf. unfold node_at, lexical_path. rewrite (file_path_comps _ _ _ Hf).
  destruct (_ ++ _ ++ [_]) eqn:He; [|done]. by apply app_eq_nil in He as [_ [_ He]%app_eq_nil].
Qed.

(** When a guarded read opened [p], the walk had met no link, and the kernel reached the
    regular file [ino] with contents [i] without following a final link.  It is the file
    the path spells if no directory on the path is a link at that moment. *)
Definition opened_by (flt : Faults) (s : Snapshots) (p : string) (pre : list string) (ino : nat) (i : inode) : Prop :=
  walked flt (at_lstat s) p pre /\
  (exists rp, resolve (at_open s) false p = inl rp /\ node_at (at_open s) rp = Some (NFile ino)) /\
  inodes (at_open s) !! ino = Some i /\
  (clear (at_open s) (base_of (at_open s) (IsAbs p)) (dir_comps pre) -> spells (at_open s) p ino i).

Lemma guarded_open_at flt s p pre f n i :
  file_path p pre f -> RejectSymlinkWalk flt (at_lstat s) (Dir p) = None ->
  open_read flt (at_open s) p = inl n -> file_of (at_open s) n = Some i ->
  exists ino, n = NFile ino /\ opened_by flt s p pre ino i.
Proof.
  intros Hf Hr Ho Hi. destruct n as [|ino| |]; [done | | done..]. exists ino. split; [done |].
  pose proof (accepted_walked _ _ _ _ _ Hf Hr) as Hw. unfold open_read in Ho.
  destruct (fault flt OpOpen p); [done |]. destruct (resolve (at_open s) false p) as [rp|e] eqn:Hres; [|done].
  destruct (node_at (at_open s) rp) as [[]|] eqn:Hn; simplify_eq. split; [done |]. split; [by exists rp |]. split; [done |].
  intros Hcl. pose proof (resolve_file (at_open s) p pre f Hf Hcl) as Hlex. rewrite Hres in Hlex.
  destruct Hlex as [Hlex|[Hlex|Hlex]]; [|done..]. injection Hlex as ->. rewrite (node_at_file _ _ _ _ Hf) in Hn. by split.
Qed.

Lemma length_text l : String.length (text l) = length l.
Proof. induction l as [|c l IH]; simpl; auto. Qed.

Lemma readPolicyFile_opened flt s p pre f data m :
  file_path p pre f -> readPolicyFile flt s p = inl (data, m) ->
  exists ino i, opened_by flt s p pre ino i /\
    let fi := later i (at_fstat s) (NFile ino) in
    i_mtime fi = m /\ data = text (i_data (later fi (at_read s) (NFile ino))) /\
    Z.of_nat (String.length data) <= maxPolicyFileSize.
Proof.
  intros Hf. unfold readPolicyFile. destruct (RejectSymlinkWalk flt _ (Dir p)) eqn:Hr; [done |].
  destruct (open_read flt (at_open s) p) as [n|] eqn:Ho; [|done]. destruct (fault flt OpFstat p); [done |].
  destruct (file_of (at_open s) n) as [i|] eqn:Hi; [|done].
  destruct (guarded_open_at _ _ _ _ _ _ _ Hf Hr Ho Hi) as (ino & -> & Hop). cbv zeta.
  set (fi := later i (at_fstat s) (NFile ino)).
  destruct (Z.ltb_spec maxPolicyFileSize (Z.of_nat (length (i_data fi)))) as [?|Hsz]; [done |].
  destruct (fault flt OpRead p); [done |]. set (d := i_data (later fi (at_read s) (NFile ino))).
  destruct (Z.ltb_spec maxPolicyFileSize (Z.of_nat (length (take (Z.to_nat (maxPolicyFileSize + 1)) d)))) as [?|Hlen];
    [done |]. intros [= <- <-].
  assert (take (Z.to_nat (maxPolicyFileSize + 1)) d = d) as Ht.
  { apply take_ge. rewrite length_take in Hlen. unfold maxPolicyFileSize in *. lia. }
  rewrite Ht in *. exists ino, i. split; [done |]. split; [done |]. split; [done |]. by rewrite length_text.
Qed.

(** In a state that does not change up to the open. *)
Lemma readPolicyFile_regular flt s fs p pre f data m :
  file_path p pre f -> (forall cur, at_lstat s cur = fs) -> at_open s = fs ->
  readPolicyFile flt s p = inl (data, m) ->
  exists ino i, spells fs p ino i /\ clear fs (base_of fs (IsAbs p)) (dir_comps pre) /\
    resolve fs false p = inl (lexical_path fs p) /\
    let fi := later i (at_fstat s) (NFile ino) in
    i_mtime fi = m /\ data = text (i_data (later fi (at_read s) (NFile ino))).
Proof.
  intros Hf Hl Hop Hr. destruct (readPolicyFile_opened _ _ _ _ _ _ _ Hf Hr) as (ino & i & (_ & (rp & Hres & _) & _ & Hsp) & Hm & Hd & _).
  assert (clear fs (base_of fs (IsAbs p)) (dir_comps pre)) as Hcl.
  { apply (accepted_clear flt fs p pre f Hf). rewrite <-(reject_walk_const flt (at_lstat s)) by done.
    unfold readPolicyFile in Hr. by destruct (RejectSymlinkWalk flt _ _). }
  rewrite Hop in *. exists ino, i. split_and!; auto.
  destruct (resolve_file fs p pre f Hf Hcl) as [H|[H|H]]; congruence.
Qed.

(** The two [stat]s of an unchanged file system agree on a regular file. *)
Lemma Stat_regular flt fs p pre f i n other :
  file_path p pre f -> clear fs (base_of fs (IsAbs p)) (dir_comps pre) ->
  resolve fs false p = inl (lexical_path fs p) -> regular_at fs p i ->
  Stat flt fs p = inl n -> stat_mtime other fs n = i_mtime i.
Proof.
  intros Hf Hcl Hres (ino & Ht & Hi). unfold Stat, stat_at. destruct (fault flt OpStat p); [done |].
  rewrite (resolve_follow fs p pre f Hf Hcl) by (intros t; congruence).
  rewrite Hres, (node_at_file fs p pre f Hf), Ht. intros [= <-]. unfold stat_mtime, file_of. by rewrite Hi.
Qed.

Section poll.
Context {E : Type} `{policyReloader E}.

(** The cases of a poll. *)
Lemma poll_cases v p (w : Watcher E) :
  (pollPolicyFile v p w).2 = w \/
  exists n data m ev r, Stat (pe_faults v) (pe_stat v) p = inl n /\
    (time_is_zero (lastMod w) = true \/ time_after (stat_mtime (pe_other v) (pe_stat v) n) (lastMod w) = true) /\
    readPolicyFile (pe_faults v) (pe_snapshots v) p = inl (data, m) /\
    reload data (w_eval w) = (r, ev) /\
    (pollPolicyFile v p w).2 = mkWatcher ev (match r with None => m | Some _ => lastMod w end) (loads w ++ [data]).
Proof.
  unfold pollPolicyFile. destruct (Stat _ _ p) as [n|]; [|by left].
  destruct (_ || _) eqn:Hc; [|by left]. apply orb_true_iff in Hc.
  destruct (readPolicyFile _ _ p) as [[data m]|] eqn:Hr; [|by left].
  right. destruct (reload data (w_eval w)) as [r ev] eqn:Hl.
  exists n, data, m, ev, r. by destruct r.
Qed.

(** The text is what one of the polls read, through the descriptor of a file that it had
    opened with the guard, which had the modification time [m]. *)
Definition verified (p : string) (pre : list string) (vs : list PollEnv) (data : string) (m : Time) : Prop :=
  exists v ino i, v ∈ vs /\ opened_by (pe_faults v) (pe_snapshots v) p pre ino i /\
    let fi := later i (at_fstat (pe_snapshots v)) (NFile ino) in
    i_mtime fi = m /\ data = text (i_data (later fi (at_read (pe_snapshots v)) (NFile ino))) /\
    Z.of_nat (String.length data) <= maxPolicyFileSize.

Lemma verified_mono p pre vs v data m : verified p pre vs data m -> verified p pre (vs ++ [v]) data m.
Proof. intros (v' & ino & i & Hin & Hr). exists v', ino, i. split; [apply elem_of_app; by left | done]. Qed.


(** Up to the open nothing changes during the poll. *)
Definition undisturbed (v : PollEnv) : Prop :=
  (forall cur, at_lstat (pe_snapshots v) cur = pe_stat v) /\ at_open (pe_snapshots v) = pe_stat v.

(** The induction over the polls. *)
Lemma polls_unchanged p pre f (ev : E) seed vs :
  file_path p pre f -> time_is_zero seed = false ->
  (forall v, v ∈ vs -> undisturbed v /\
     forall i, regular_at (pe_stat v) p i -> time_after (i_mtime i) seed = false) ->
  watchPolicyFile p ev seed vs = mkWatcher ev seed [].
Proof.
  intros Hf Hz. induction vs as [|v vs IH] using rev_ind; intros Hvs; [done |].
  unfold watchPolicyFile in *. rewrite foldl_snoc, IH by (intros u Hu; apply Hvs, elem_of_app; by left).
  destruct (Hvs v) as [[Hl Hop] Hreg]; [apply elem_of_app; right; by left |].
  destruct (poll_cases v p (mkWatcher ev seed [])) as [->|(n & data & m & ev' & r & Hs & Hc & Hr & _)]; [done |].
  exfalso. destruct (readPolicyFile_regular _ _ _ _ _ _ _ _ Hf Hl Hop Hr) as (ino & i & Hi & Hcl & Hres & _).
  simpl in Hc. rewrite (Stat_regular _ _ _ _ _ _ _ _ Hf Hcl Hres (ex_intro _ ino Hi) Hs), (Hreg i (ex_intro _ ino Hi)) in Hc.
  destruct Hc; congruence.
Qed.

(** A file that is not newer than the seed is never loaded again, and the
    record does not move, through any number of polls between which links, FIFOs and other files
    are planted and removed: a policy applied from another source is not overwritten. *)
Theorem unchanged_not_reloaded p pre f (ev : E) seed vs :
  file_path p pre f -> time_is_zero seed = false ->
  (forall v, v ∈ vs -> undisturbed v /\
     forall i, regular_at (pe_stat v) p i -> time_after (i_mtime i) seed = false) ->
  watchPolicyFile p ev seed vs = mkWatcher ev seed [].
Proof. apply polls_unchanged. Qed.

(** When the file the path spells is a readable regular file newer than the
    record and the evaluator accepts it, one poll loads it, records its time and comes back in
    five seconds. *)
Theorem change_is_loaded p pre f fs other (w : Watcher E) i ev :
  file_path p pre f -> cwd_ok fs -> dirs fs (base_of fs (IsAbs p)) (dir_comps pre) ->
  regular_at fs p i -> Z.of_nat (length (i_data i)) <= maxPolicyFileSize ->
  time_after (i_mtime i) (lastMod w) = true -> reload (text (i_data i)) (w_eval w) = (None, ev) ->
  pollPolicyFile (mkPollEnv fs (steady fs) no_faults other) p w =
    (5 * Second, mkWatcher ev (i_mtime i) (loads w ++ [text (i_data i)])).
Proof.
  intros Hf Hcwd Hdirs Hreg Hsz Hnew Hload. pose proof Hreg as (ino & Ht & Hi).
  destruct (resolve_dirs fs p pre f Hf) as [Hres _]. specialize (Hres Hdirs).
  pose proof (dirs_clear _ _ _ Hdirs) as Hcl.
  unfold pollPolicyFile. simpl. unfold Stat, stat_at. simpl fault. cbv iota beta.
  rewrite (resolve_follow fs p pre f Hf Hcl) by (intros t; congruence).
  rewrite Hres, (node_at_file fs p pre f Hf), Ht. unfold stat_mtime at 1, file_of. rewrite Hi, Hnew, orb_true_r.
  unfold readPolicyFile. rewrite (reject_walk_const _ _ fs) by done. rewrite (reject_dirs fs p pre f Hf Hcwd Hdirs).
  unfold open_read. change (at_open (steady fs)) with fs. simpl fault. cbv iota beta.
  rewrite Hres, (node_at_file fs p pre f Hf), Ht. unfold later. simpl. rewrite Hi. simpl.
  rewrite take_ge by (unfold maxPolicyFileSize in *; lia).
  destruct (Z.ltb_spec maxPolicyFileSize (Z.of_nat (length (i_data i)))); [lia |]. by rewrite Hload.
Qed.
End poll.

(** ** Concrete runs *)

(** An evaluator that keeps the last policy and refuses the empty one. *)
#[local] Instance last_policy : policyReloader string :=
  fun policy ev => if String.eqb policy "" then (Some "policy source is empty"%string, ev) else (None, policy).

Definition at_second (n : Z) : Time := mkTime (n * Second) None.

(** The policy file, last modified at second [n]. *)
Definition policy_fs (n : Z) : FS :=
  mkFS (<[["etc"]%string := NDir]> (<[["etc"; "l3.rego"]%string := NFile 0]>
       (<[["future"]%string := NFile 1]> ∅)))
    (<[0%nat := mkInode [112] (at_second n)]> {[ 1%nat := mkInode [101] (at_second 1000000) ]}) [].

(** The same with a link to a file from the future planted in its place. *)
Definition planted_fs (n : Z) : FS :=
  set_tree (<[["etc"; "l3.rego"]%string := NLink "/future"]> (tree (policy_fs n))) (policy_fs n).

Definition still (fs : FS) : PollEnv := mkPollEnv fs (steady fs) no_faults (at_second 0).

Lemma policy_file_path : file_path "/etc/l3.rego" [""; "etc"]%string "l3.rego".
Proof.
  split_and!; [done | | by repeat constructor].
  split_and!; [done | done |]. vm_compute. intros H. repeat (destruct H as [H|H]; [done |]). done.
Qed.


Lemma unchanged_not_reloaded_witness :
  watchPolicyFile "/etc/l3.rego" "from etcd"%string (at_second 5)
    [still (policy_fs 5); still (planted_fs 5); still (policy_fs 5)] =
  mkWatcher "from etcd"%string (at_second 5) [].
Proof.
  apply (unchanged_not_reloaded "/etc/l3.rego" [""; "etc"]%string "l3.rego"); [apply policy_file_path | done |].
  intros v Hv. repeat (apply elem_of_cons in Hv as [->|Hv]); [..|by apply elem_of_nil in Hv];
    (split; [done |]); intros i (ino & Ht & Hi); vm_compute in Ht; simplify_eq;
    vm_compute in Hi; simplify_eq; reflexivity.
Defined.

Lemma change_is_loaded_witness :
  pollPolicyFile (still (policy_fs 9)) "/etc/l3.rego" (mkWatcher "old"%string (at_second 5) []) =
    (5 * Second, mkWatcher "p"%string (at_second 9) ["p"%string]).
Proof.
  apply (change_is_loaded "/etc/l3.rego" [""; "etc"]%string "l3.rego" (policy_fs 9) (at_second 0)
    (mkWatcher "old"%string (at_second 5) []) (mkInode [112] (at_second 9)));
    [apply policy_file_path | reflexivity | done | exists 0%nat; split; reflexivity | done | reflexivity | reflexivity].
Defined.

(** The comparison uses the time of the [Stat] and the load the file of the open: a
    link to a newer file that is there for the first only makes an unchanged file
    load again, over the policy applied meanwhile. *)
Theorem swap_reloads_unchanged :
  let v := mkPollEnv (planted_fs 5) (steady (policy_fs 5)) no_faults (at_second 0) in
  pollPolicyFile v "/etc/l3.rego" (mkWatcher "from etcd"%string (at_second 5) []) =
    (5 * Second, mkWatcher "p"%string (at_second 5) ["p"%string]).
Proof. reflexivity. Qed.

(** The directory of the policy file is replaced by a link. *)
Definition swapped_fs : FS :=
  mkFS (<[["etc"]%string := NLink "/attacker"]> (<[["attacker"]%string := NDir]>
       {[ ["attacker"; "l3.rego"]%string := NFile 1 ]}))
    {[ 1%nat := mkInode [101] (at_second 1000000) ]} [].

(** The race the source documents: when the directory is replaced after the walk looked
    at it and before the open, the file of the attacker is loaded. *)
Theorem swap_wins_race :
  let v := mkPollEnv (policy_fs 9) (mkSnapshots (fun _ => policy_fs 9) swapped_fs swapped_fs swapped_fs)
             no_faults (at_second 0) in
  pollPolicyFile v "/etc/l3.rego" (mkWatcher "boot"%string (at_second 5) []) =
    (5 * Second, mkWatcher "e"%string (at_second 1000000) ["e"%string]).
Proof. reflexivity. Qed.
