(* ===== verification/Plane.v ===== *)
(** * Reloading the policy under traffic

    The evaluator is shared: packets are evaluated while the watcher of the policy file,
    the etcd synchronizer or the admin API load new policies into it.  [Load] has two
    critical sections (embed.go), so packets are decided before, between and after them.
    Theorems: every packet is decided by the policy of the last load that succeeded, and
    an edit of the policy file comes into force and stays. *)
From Stdlib Require Import ZArith Lia ZifyBool Strings.Byte.
From stdpp Require Import base gmap sets list strings pretty relations.
From S2P Require Import Prelude GoTime GoFloat GoNet Packet PacketFacts Conntrack RateLimit L2Filter ThreatIntel Opa OpaFacts ShippedPolicy ShippedPolicyFacts Engine PacketSteps EngineFacts EngineInv EndToEnd Guarantees GoFS GoFSFacts SecurePath SecurePathFacts PolicyFile PolicyFileFacts.

Local Open Scope Z_scope.

(** The evaluator behind the pointer of the engine changes. *)
Definition set_eval {E} (ev : option E) (e : Engine E) : Engine E :=
  mkEngine ev (conntrack e) (ratelimit e) (auditOnly e) (failClosed e) (auditLog e)
    (alertRouter e) (alertsFired e) (geoipReader e) (threatIntel e) (pcapWriter e) (l2Filter e)
    (packetsProcessed e) (packetsAllowed e) (packetsBlocked e) (blockStats e) (recentBlocks e).

(** So also in the middle of a packet. *)
Definition with_eval {E} (ev : option E) (m : Machine E) : Machine E := mkMachine (set_eval ev (m_engine m)) (m_task m).

Section plane.
Context (R : Rego).
Context (NewPacket : list byte -> LayerType -> option DecodedPacket).
Notation engine := (Engine (EmbeddedEvaluator R)).

(** ** The shared evaluator *)

(** [pl_phase] is the policy whose [Load] is between its critical sections; the load mutex
    admits one.  [pl_governing] is the policy of the last [Load] that returned nil. *)
Record Plane : Type := mkPlane {
  pl_phase : option string;
  pl_governing : string;
  pl_machine : Machine (EmbeddedEvaluator R);
}.

Definition pl_engine (s : Plane) : engine := m_engine (pl_machine s).

Inductive plane_step : Plane -> Plane -> Prop :=
| plane_engine phase g m m' :
    engine_step NewPacket m m' -> plane_step (mkPlane phase g m) (mkPlane phase g m')
| plane_begin policy g m ev ev' :
    eval (m_engine m) = Some ev -> load_swap R policy ev = (None, ev') ->
    plane_step (mkPlane None g m) (mkPlane (Some policy) g (with_eval (Some ev') m))
| plane_reject policy g m ev err ev' :
    eval (m_engine m) = Some ev -> load_swap R policy ev = (Some err, ev') ->
    plane_step (mkPlane None g m) (mkPlane None g (with_eval (Some ev') m))
| plane_end policy g m ev r ev' :
    eval (m_engine m) = Some ev -> load_rebuild R ev = (r, ev') ->
    plane_step (mkPlane (Some policy) g m)
      (mkPlane None (match r with None => policy | Some _ => g end) (with_eval (Some ev') m)).

(** The prepared query is that of the governing policy, with the time limit [T]. *)
Definition plane_inv (T : Z) (s : Plane) : Prop :=
  exists ev p, eval (pl_engine s) = Some ev /\ e_prepared R ev = Some p /\ e_evalTimeout R ev = T /\
    valid_policy R (pl_governing s) p /\
    (forall policy, pl_phase s = Some policy ->
       CompileModules R policy = inl (e_compiler R ev) /\ Some decisionQuery ∈ Modules R (e_compiler R ev)).

Lemma plane_step_inv T s s' : plane_step s s' -> plane_inv T s -> plane_inv T s'.
Proof.
  intros Hs (ev & p & Hev & Hp & HT & Hv & Hc). unfold plane_inv.
  destruct Hs as [phase g m m' Hst|policy g m ev0 ev' H1 H2|policy g m ev0 err ev' H1 H2|policy g m ev0 r ev' H1 H2];
    unfold pl_engine in *; cbn [pl_machine pl_governing pl_phase] in *.
  - pose proof (engine_step_config _ _ _ Hst) as (Heq & _). rewrite Heq. by exists ev, p.
  - rewrite Hev in H1. injection H1 as <-. pose proof (load_swap_spec R policy ev) as Hs. rewrite H2 in Hs.
    destruct Hs as (c & Hcm & Hm & ->). eexists _, p. split_and!; try done. by intros ? [= <-].
  - rewrite Hev in H1. injection H1 as <-. pose proof (load_swap_spec R policy ev) as Hs. rewrite H2 in Hs. subst ev'.
    by exists ev, p.
  - rewrite Hev in H1. injection H1 as <-. destruct (Hc policy eq_refl) as [Hcm Hm].
    unfold load_rebuild, rebuild in H2. destruct (PrepareForEval R decisionQuery (e_compiler R ev)) as [q|err] eqn:Hq;
      injection H2 as <- <-.
    + eexists _, q. split_and!; try done. by exists (e_compiler R ev).
    + by exists ev, p.
Qed.

Lemma plane_start_inv policy timeout ev e :
  NewEmbedded R policy timeout = inl ev -> eval e = Some ev -> plane_inv timeout (mkPlane None policy (idle e)).
Proof.
  unfold NewEmbedded. case_bool; [done |]. destruct (CompileModules R policy) as [c|] eqn:Hc; [|done].
  destruct (verifyPolicyPackage R c) eqn:Hv; [done |]. apply verifyPolicyPackage_spec in Hv.
  unfold rebuild. simpl. destruct (PrepareForEval R decisionQuery c) as [p|] eqn:Hp; [|done].
  intros [= <-] He. eexists _, p. split_and!; try done. by exists c.
Qed.

(** The mode does not change. *)
Lemma plane_step_audit s s' : plane_step s s' -> auditOnly (pl_engine s') = auditOnly (pl_engine s).
Proof. intros [phase g m m' Hst| | |]; try done. by pose proof (engine_step_config _ _ _ Hst) as (_ & ? & _). Qed.

Lemma plane_run T s s' :
  rtc plane_step s s' -> plane_inv T s ->
  plane_inv T s' /\ auditOnly (pl_engine s') = auditOnly (pl_engine s).
Proof.
  induction 1 as [|s1 s2 s3 Hs _ IH]; intros Hi; [done |]. destruct (IH (plane_step_inv _ _ _ Hs Hi)) as [? ->].
  split; [done |]. by apply plane_step_audit.
Qed.

(** The query of [policy], run within the time limit, permits the input. *)
Definition policy_permits (policy : string) (T : Z) (input : Input) : Prop :=
  exists p results, valid_policy R policy p /\
    Eval R p (if T <=? 0 then 500 * Millisecond else T) input = inl results /\ Allowed (extract results) = true.

Lemma valid_policy_unique policy p q : valid_policy R policy p -> valid_policy R policy q -> p = q.
Proof. intros (c & Hc & _ & Hp) (d & Hd & _ & Hq). rewrite Hc in Hd. injection Hd as <-. congruence. Qed.

Lemma governing_allows T s input :
  plane_inv T s -> auditOnly (pl_engine s) = false ->
  (policy_allows (pl_engine s) input <-> policy_permits (pl_governing s) T input).
Proof.
  intros (ev & p & Hev & Hp & HT & Hv & _) Ha. unfold policy_allows, policy_permits. rewrite Hev, Ha.
  change (Evaluate ev input) with (Evaluate_embedded R ev input). unfold Evaluate_embedded. rewrite Hp, HT. split.
  - intros (r & Hr & [Hal|]); [|done]. exists p. destruct (Eval R p _ input) as [results|err]; [|done].
    injection Hr as <-. eauto.
  - intros (q & results & Hq & He & Hal). rewrite (valid_policy_unique _ _ _ Hv Hq), He. eauto.
Qed.

(** A parsed packet is accepted by the checks of the engine and [allows]. *)
Definition passes (allows : Input -> Prop) v pi (size : Z) (e : engine) : Prop :=
  checks R v pi size e /\ exists flow input, presents v pi size e flow input /\ allows input.

Lemma handler_passes v id raw pi (e : engine) :
  ParsePacket NewPacket raw = Ok pi ->
  ((packetHandler NewPacket v (mkAttribute id (Some raw)) e).2 = inl 0 <->
   passes (policy_allows e) v pi (zlen raw) e).
Proof.
  intros Hp. destruct (packetHandler_result NewPacket v (mkAttribute id (Some raw)) e) as [[-> Ha]|[-> Ha]].
  - split; [intros _ | done]. destruct Ha as (raw' & pi' & [= <-] & Hp' & [H1 H2 H3 H4 (flow & i & Hf & Hg & Hal)]).
    rewrite Hp in Hp'. injection Hp' as <-. split; [done |]. by exists flow, i.
  - split; [done |]. intros [(H1 & H2 & H3 & H4) (flow & i & [Hf Hg] & Hal)]. destruct Ha.
    exists raw, pi. split; [done |]. split; [done |]. split; try done. by exists flow, i.
Qed.

Lemma passes_iff (P Q : Input -> Prop) v pi size e :
  (forall i, P i <-> Q i) -> passes P v pi size e <-> passes Q v pi size e.
Proof.
  intros Hiff. unfold passes. split; intros [Hc (flow & i & Hpr & Hp)]; (split; [done |]); exists flow, i;
    (split; [done |]); by apply Hiff.
Qed.
End plane.

(** C8: While policies are loaded under traffic, from any source and also broken ones, and at any
    point of the handling of other packets, a parsed packet is accepted exactly when the checks of the
    engine pass and the policy of the last [Load] that returned nil (the start-up policy until then)
    permits it.  A packet that is decided between the two critical sections of a [Load] still follows
    the earlier policy, and a [Load] that fails changes no decision. *)
Theorem last_load_governs (R : Rego) NewPacket policy T ev (e0 : Engine (EmbeddedEvaluator R)) phase g e t v id raw pi :
  NewEmbedded R policy T = inl ev -> eval e0 = Some ev -> auditOnly e0 = false ->
  rtc (plane_step R NewPacket) (mkPlane R None policy (idle e0)) (mkPlane R phase g (mkMachine e t)) ->
  ParsePacket NewPacket raw = Ok pi ->
  ((packetHandler NewPacket v (mkAttribute id (Some raw)) e).2 = inl 0 <->
   passes R (policy_permits R g T) v pi (zlen raw) e).
Proof.
  intros Hn Hev Ha Hr Hp. pose proof (plane_start_inv R policy T ev e0 Hn Hev) as Hi.
  destruct (plane_run R NewPacket T _ _ Hr Hi) as [Hi' Ha']. unfold pl_engine in Ha'. cbn [pl_machine m_engine idle] in Ha'.
  rewrite (handler_passes R NewPacket v id raw pi e Hp). apply passes_iff. intros i.
  apply (governing_allows R T (mkPlane R phase g (mkMachine e t)) i Hi'). unfold pl_engine. cbn. congruence.
Qed.

(** ** An edit of the policy file *)

(** What a poll can do while the file the path spells stays as it is and loads: nothing,
    or load it and record its time. *)
Section quiet.
Context {E : Type} `{policyReloader E}.
Context (p : string) (pre : list string) (f : string) (fs : FS) (i : inode).
Context (Hfile : file_path p pre f) (Hreg : regular_at fs p i).

Lemma regular_unique i' : regular_at fs p i' -> i' = i.
Proof. intros (ino & Ht & Hi). destruct Hreg as (ino' & Ht' & Hi'). congruence. Qed.

Lemma quiet_poll flt o (w : Watcher E) ev :
  reload (text (i_data i)) (w_eval w) = (None, ev) ->
  let r := (pollPolicyFile (mkPollEnv fs (steady fs) flt o) p w).2 in
  r = w \/
  (time_is_zero (lastMod w) || time_after (i_mtime i) (lastMod w) = true /\
   r = mkWatcher ev (i_mtime i) (loads w ++ [text (i_data i)])).
Proof.
  intros Hl. cbv zeta.
  destruct (poll_cases (mkPollEnv fs (steady fs) flt o) p w) as [->|(n & data & m & ev' & r & Hs & Hc & Hr & Hload & ->)];
    [by left | right]. cbn [pe_stat pe_snapshots pe_faults pe_other] in *.
  destruct (readPolicyFile_regular _ (steady fs) fs _ _ _ _ _ Hfile ltac:(done) eq_refl Hr) as (ino & i' & Hsp & Hcl & Hres & Hm & Hd).
  assert (i' = i) as -> by (apply regular_unique; by exists ino). destruct Hsp as [_ Hi].
  unfold later in Hm, Hd. cbn in Hm, Hd. rewrite Hi in Hm, Hd. cbn in Hm, Hd.
  rewrite (Stat_regular _ _ _ _ _ _ _ _ Hfile Hcl Hres Hreg Hs) in Hc. subst data m.
  rewrite Hl in Hload. injection Hload as <- <-. split; [|done]. apply orb_true_iff. by destruct Hc; [left | right].
Qed.

Lemma time_after_irrefl t : time_after t t = false.
Proof. unfold time_after, time_diff. destruct (mono t); by rewrite Z.sub_diag. Qed.

(** The loaded file is not loaded again. *)
Lemma quiet_poll_loaded flt o (w : Watcher E) :
  time_is_zero (i_mtime i) = false -> lastMod w = i_mtime i ->
  (pollPolicyFile (mkPollEnv fs (steady fs) flt o) p w).2 = w.
Proof.
  intros Hz Hm. destruct (poll_cases (mkPollEnv fs (steady fs) flt o) p w) as [->|(n & data & m & ev' & r & Hs & Hc & Hr & _)];
    [done | exfalso]. cbn [pe_stat pe_snapshots pe_faults pe_other] in *.
  destruct (readPolicyFile_regular _ (steady fs) fs _ _ _ _ _ Hfile ltac:(done) eq_refl Hr) as (_ & _ & _ & Hcl & Hres & _).
  rewrite (Stat_regular _ _ _ _ _ _ _ _ Hfile Hcl Hres Hreg Hs), Hm, time_after_irrefl, Hz in Hc. by destruct Hc.
Qed.
End quiet.

Lemma poll_sleep {E} `{policyReloader E} v p (w : Watcher E) : (pollPolicyFile v p w).1 <= 30 * Second.
Proof.
  unfold pollPolicyFile, Second. destruct (Stat _ _ _); [|done]. case_bool; [|done].
  destruct (readPolicyFile _ _ _) as [[data m]|]; [|done]. by destruct (reload data (w_eval w)) as [[] ?].
Qed.

Section watched.
Context (R : Rego) (NewPacket : list byte -> LayerType -> option DecodedPacket) (path : string).

(** The engine beside the record of [watchPolicyFile] and the policies it handed to [Load]. *)
Record Watched : Type := mkWatched {
  wt_machine : Machine (EmbeddedEvaluator R);
  wt_lastMod : Time;
  wt_loads : list string;
}.

Definition wt_engine (s : Watched) : Engine (EmbeddedEvaluator R) := m_engine (wt_machine s).

(** A poll of the watcher acts on the evaluator of the engine. *)
Definition poll_engine (v : PollEnv) (s : Watched) : Watched :=
  match eval (wt_engine s) with
  | None => s
  | Some ev =>
      let w := (pollPolicyFile v path (mkWatcher ev (wt_lastMod s) (wt_loads s))).2 in
      mkWatched (with_eval (Some (w_eval w)) (wt_machine s)) (lastMod w) (loads w)
  end.

(** The polls of a run, among the steps of the engine. *)
Inductive watched_run : list PollEnv -> Watched -> Watched -> Prop :=
| run_nil s : watched_run [] s s
| run_engine vs k k' m l s' :
    engine_step NewPacket k k' -> watched_run vs (mkWatched k' m l) s' -> watched_run vs (mkWatched k m l) s'
| run_poll v vs s s' : watched_run vs (poll_engine v s) s' -> watched_run (v :: vs) s s'.

Lemma Load_valid policy q (ev : EmbeddedEvaluator R) :
  policy <> ""%string -> valid_policy R policy q ->
  exists ev', reload policy ev = (None, ev') /\ e_prepared R ev' = Some q /\ e_policy R ev' = policy /\
    e_evalTimeout R ev' = e_evalTimeout R ev.
Proof.
  intros Hne (c & Hc & Hm & Hq). unfold reload, embedded_reloader, Load, load_swap. destruct (String.eqb_spec policy "") as [|_]; [done |].
  rewrite Hc, (proj2 (verifyPolicyPackage_spec R c) Hm). unfold load_rebuild, rebuild. cbn. rewrite Hq. cbn. by eexists.
Qed.

Context (pre : list string) (f : string) (fs : FS) (i : inode) (q : prepared R) (T : Z) (audit : bool).
Context (Hfile : file_path path pre f) (Hcwd : cwd_ok fs) (Hdirs : dirs fs (base_of fs (IsAbs path)) (dir_comps pre)).
Context (Hreg : regular_at fs path i) (Hsize : Z.of_nat (length (i_data i)) <= maxPolicyFileSize).
Context (Hz : time_is_zero (i_mtime i) = false) (Hne : text (i_data i) <> ""%string).
Context (Hq : valid_policy R (text (i_data i)) q).

(** Before the load of the file, and after it. *)
Definition waiting (m : Time) (l : list string) (s : Watched) : Prop :=
  (exists ev, eval (wt_engine s) = Some ev /\ e_evalTimeout R ev = T) /\ auditOnly (wt_engine s) = audit /\
  wt_lastMod s = m /\ wt_loads s = l.

Definition in_force (l : list string) (s : Watched) : Prop :=
  (exists ev, eval (wt_engine s) = Some ev /\ e_prepared R ev = Some q /\ e_policy R ev = text (i_data i) /\
     e_evalTimeout R ev = T) /\
  auditOnly (wt_engine s) = audit /\ wt_lastMod s = i_mtime i /\ wt_loads s = l ++ [text (i_data i)].

Lemma poll_waiting flt o m l s :
  waiting m l s -> waiting m l (poll_engine (mkPollEnv fs (steady fs) flt o) s) \/
                   in_force l (poll_engine (mkPollEnv fs (steady fs) flt o) s).
Proof.
  intros ((ev & Hev & HT) & Ha & <- & <-). unfold poll_engine. rewrite Hev.
  destruct (Load_valid _ q ev Hne Hq) as (ev' & Hl & Hp & Hpol & HT').
  destruct (quiet_poll path pre f fs i Hfile Hreg flt o (mkWatcher ev (wt_lastMod s) (wt_loads s)) ev' Hl)
    as [->|[_ ->]]; cbn [w_eval lastMod loads].
  - left. split_and!; try done. by exists ev.
  - right. split_and!; try done. exists ev'. by rewrite <-HT.
Qed.

Lemma poll_loads o m l s :
  waiting m l s -> time_after (i_mtime i) m = true ->
  in_force l (poll_engine (mkPollEnv fs (steady fs) no_faults o) s).
Proof.
  intros ((ev & Hev & HT) & Ha & <- & <-) Hn. unfold poll_engine. rewrite Hev.
  destruct (Load_valid _ q ev Hne Hq) as (ev' & Hl & Hp & Hpol & HT').
  rewrite (change_is_loaded path pre f fs o (mkWatcher ev (wt_lastMod s) (wt_loads s)) i ev') by done.
  split_and!; try done. exists ev'. by rewrite <-HT.
Qed.

Lemma poll_in_force flt o l s : in_force l s -> in_force l (poll_engine (mkPollEnv fs (steady fs) flt o) s).
Proof.
  intros ((ev & Hev & Hp) & Ha & Hm & Hl). unfold poll_engine. rewrite Hev.
  rewrite (quiet_poll_loaded path pre f fs i Hfile Hreg flt o) by done. cbn [w_eval lastMod loads].
  split_and!; try done. by exists ev.
Qed.

Lemma engine_waiting m l k k' m' l' :
  engine_step NewPacket k k' -> waiting m l (mkWatched k m' l') -> waiting m l (mkWatched k' m' l').
Proof.
  intros Hs. pose proof (engine_step_config _ _ _ Hs) as (H1 & H2 & _).
  unfold waiting, wt_engine. cbn [wt_machine wt_lastMod wt_loads] in *. by rewrite H1, H2.
Qed.

Lemma engine_in_force l k k' m' l' :
  engine_step NewPacket k k' -> in_force l (mkWatched k m' l') -> in_force l (mkWatched k' m' l').
Proof.
  intros Hs. pose proof (engine_step_config _ _ _ Hs) as (H1 & H2 & _).
  unfold in_force, wt_engine. cbn [wt_machine wt_lastMod wt_loads] in *. by rewrite H1, H2.
Qed.

Definition sees (v : PollEnv) : Prop := exists flt o, v = mkPollEnv fs (steady fs) flt o.

Lemma run_in_force vs l s s' : watched_run vs s s' -> Forall sees vs -> in_force l s -> in_force l s'.
Proof.
  induction 1 as [|vs k k' m' l' s' Hs _ IH|v vs s s' _ IH]; intros Hv Hf; [done | |].
  - apply IH; [done |]. by eapply engine_in_force.
  - apply Forall_cons in Hv as [(flt & o & ->) Hv]. apply IH; [done |]. by apply poll_in_force.
Qed.

Lemma run_loads vs m l s s' :
  watched_run vs s s' -> Forall sees vs -> (exists o, mkPollEnv fs (steady fs) no_faults o ∈ vs) ->
  waiting m l s -> time_after (i_mtime i) m = true -> in_force l s'.
Proof.
  induction 1 as [|vs k k' m' l' s' Hs _ IH|v vs s s' Hrest IH]; intros Hv [o Ho] Hw Hn.
  - by apply elem_of_nil in Ho.
  - apply IH; eauto. by eapply engine_waiting.
  - apply Forall_cons in Hv as [Hsee Hv]. apply elem_of_cons in Ho as [<-|Ho].
    + eapply run_in_force; [exact Hrest | done |]. by eapply poll_loads.
    + destruct Hsee as (flt & o' & ->). destruct (poll_waiting flt o' m l s Hw) as [Hw'|Hf].
      * by apply IH; eauto.
      * by eapply run_in_force.
Qed.

(** The policy in force decides. *)
Lemma in_force_decides l s v id raw pi :
  in_force l s -> audit = false -> ParsePacket NewPacket raw = Ok pi ->
  ((packetHandler NewPacket v (mkAttribute id (Some raw)) (wt_engine s)).2 = inl 0 <->
   passes R (policy_permits R (text (i_data i)) T) v pi (zlen raw) (wt_engine s)).
Proof.
  intros ((ev & Hev & Hp & _ & HT) & Ha & _) Hau Hpk. rewrite (handler_passes R NewPacket v id raw pi _ Hpk).
  apply passes_iff. intros j. apply (governing_allows R T (mkPlane R None (text (i_data i)) (wt_machine s)) j);
    [|by unfold pl_engine; rewrite <-Hau, <-Ha]. by exists ev, q.
Qed.
End watched.

(** C9: Once a new policy is in the policy file (a regular file of at most 10 MiB, newer than the last
    reload, that the evaluator accepts: any policy that compiles, declares the decision package and
    prepares), the first poll that meets no failing system call brings it into force, and it stays in
    force: however polls, failing or not, alternate with the steps of packets, maintenance and restores,
    afterwards the evaluator runs the query of that policy with its old time limit, a parsed packet is
    accepted (outside audit-only mode) exactly when the checks of the engine pass and that policy permits
    it, the policy has been loaded exactly once, and polls are never more than 30 seconds apart. *)
Theorem edit_takes_effect (R : Rego) NewPacket path pre f fs i q vs e ev m l s' :
  file_path path pre f -> cwd_ok fs -> dirs fs (base_of fs (IsAbs path)) (dir_comps pre) ->
  regular_at fs path i -> Z.of_nat (length (i_data i)) <= maxPolicyFileSize ->
  time_is_zero (i_mtime i) = false -> text (i_data i) <> ""%string -> valid_policy R (text (i_data i)) q ->
  eval e = Some ev -> time_after (i_mtime i) m = true ->
  watched_run R NewPacket path vs (mkWatched R (idle e) m l) s' ->
  Forall (sees fs) vs -> (exists o, mkPollEnv fs (steady fs) no_faults o ∈ vs) ->
  (exists ev', eval (wt_engine R s') = Some ev' /\ e_prepared R ev' = Some q /\ e_policy R ev' = text (i_data i) /\
     e_evalTimeout R ev' = e_evalTimeout R ev) /\
  (auditOnly e = false -> forall v id raw pi, ParsePacket NewPacket raw = Ok pi ->
     ((packetHandler NewPacket v (mkAttribute id (Some raw)) (wt_engine R s')).2 = inl 0 <->
      passes R (policy_permits R (text (i_data i)) (e_evalTimeout R ev)) v pi (zlen raw) (wt_engine R s'))) /\
  wt_lastMod R s' = i_mtime i /\ wt_loads R s' = l ++ [text (i_data i)] /\
  forall v (w : Watcher (EmbeddedEvaluator R)), (pollPolicyFile v path w).1 <= 30 * Second.
Proof.
  intros Hf Hcwd Hd Hreg Hsz Hz Hne Hq He Hn Hrun Hv Ho.
  assert (in_force R i q (e_evalTimeout R ev) (auditOnly e) l s') as Hin.
  { eapply (run_loads R NewPacket path pre f fs i q _ _ Hf Hcwd Hd Hreg Hsz Hz Hne Hq vs m l); try done.
    split_and!; try done. by exists ev. }
  pose proof Hin as (H1 & _ & H2 & H3). split_and!; try done; [|intros v w; apply poll_sleep].
  intros Ha v id raw pi Hp. by eapply in_force_decides.
Qed.

(** ** Concrete runs *)

(** The policy of the repository with every port open. *)
Definition open_config : PolicyConfig :=
  mkPolicyConfig (allowed_subnets shipped) [] [] [] [] 100 10 10000 500 1000 true true true true false true 20 [] [] [] [].

(** An interpreter for two policies: the text "p" has the constants of the repository, any
    other text has every port open. *)
Definition two_policies (b : Builtins) : Rego :=
  mkRego PolicyConfig PolicyConfig (fun s => inl (if String.eqb s "p" then shipped else open_config))
    (fun _ => [Some decisionQuery]) (fun _ c => inl c) (fun c _ i => inl [[Some (document c i)]]).

#[local] Existing Instance sample_builtins.
#[local] Notation SR := (two_policies sample_builtins).

Definition open_evaluator : EmbeddedEvaluator SR := mkEmbedded SR (Some open_config) open_config 0 "open" false.

Definition open_engine : Engine (EmbeddedEvaluator SR) :=
  New (Some open_evaluator) (NewTable DefaultConfig) (NewLimiter f0 f0) true false false None None None None None.

Definition edited : inode := mkInode [112] (at_second 9).

(** Every system call of the poll fails. *)
Definition all_fail : Faults := mkFaults (fun _ _ => Some "input/output error"%string) 0.

Definition failing_poll : PollEnv := mkPollEnv (policy_fs 9) (steady (policy_fs 9)) all_fail (at_second 0).

(** A poll, a packet that goes on for [n] actions, and a poll in the middle of it. *)
Definition poll_packet_poll (v1 v2 : PollEnv) (n : nat) (s0 : Watched SR) : Watched SR :=
  let s := poll_engine SR "/etc/l3.rego" v1 s0 in
  poll_engine SR "/etc/l3.rego" v2
    (mkWatched SR (advance n (mkMachine (wt_engine SR s)
       (Some (callback_task reference_decoder sample_env (fun _ _ => None) sample_attribute))))
       (wt_lastMod SR s) (wt_loads SR s)).

Lemma watched_steps vs k k' m l s' :
  rtc (engine_step reference_decoder) k k' ->
  watched_run SR reference_decoder "/etc/l3.rego" vs (mkWatched SR k' m l) s' ->
  watched_run SR reference_decoder "/etc/l3.rego" vs (mkWatched SR k m l) s'.
Proof. induction 1 as [|k1 k2 k3 Hs _ IH]; [done |]. intros Hr. eapply run_engine; [exact Hs | by apply IH]. Qed.

Lemma poll_packet_poll_run v1 v2 n e m l :
  watched_run SR reference_decoder "/etc/l3.rego" [v1; v2] (mkWatched SR (idle e) m l)
    (poll_packet_poll v1 v2 n (mkWatched SR (idle e) m l)).
Proof.
  apply run_poll. unfold poll_packet_poll. set (s := poll_engine SR _ v1 _).
  assert (m_task (wt_machine SR s) = None) as Ht by (subst s; unfold poll_engine; by destruct (eval _)).
  clearbody s. destruct s as [[e' t] m' l']. cbn in Ht. subst t. unfold wt_engine. cbn [wt_machine m_engine wt_lastMod wt_loads].
  eapply run_engine; [apply (step_packet reference_decoder e' sample_env (fun _ _ => None) _ sample_attribute_size) |].
  eapply watched_steps; [apply (advance_run reference_decoder n) |]. apply run_poll, run_nil.
Qed.

Definition after_edit : Watched SR :=
  poll_packet_poll failing_poll (still (policy_fs 9)) 3 (mkWatched SR (idle open_engine) (at_second 5) []).

Lemma shipped_valid : valid_policy SR (text (i_data edited)) shipped.
Proof. exists shipped. split; [reflexivity |]. split; [by left | reflexivity]. Qed.

Lemma edit_takes_effect_witness :
  wt_loads SR after_edit = ["p"%string] /\
  ((packetHandler reference_decoder sample_env (mkAttribute (Some 1) (Some (tcp_packet x50 x51 x10))) (wt_engine SR after_edit)).2
     = inl 0 <->
   passes SR (policy_permits SR "p" 0) sample_env ack_info 40 (wt_engine SR after_edit)).
Proof.
  destruct (edit_takes_effect SR reference_decoder "/etc/l3.rego" [""; "etc"]%string "l3.rego" (policy_fs 9) edited
    shipped [failing_poll; still (policy_fs 9)] open_engine open_evaluator (at_second 5) [] after_edit) as (_ & H2 & _ & H3 & _);
    [exact policy_file_path | reflexivity | done | exists 0%nat; split; reflexivity | done | reflexivity | discriminate
    | exact shipped_valid | reflexivity | reflexivity
    | exact (poll_packet_poll_run failing_poll (still (policy_fs 9)) 3 open_engine (at_second 5) []) | | |].
  - apply List.Forall_cons; [by exists all_fail, (at_second 0) |].
    apply List.Forall_cons; [by exists no_faults, (at_second 0) | apply List.Forall_nil].
  - exists (at_second 0). right. left.
  - split; [exact H3 |]. exact (H2 eq_refl sample_env (Some 1) (tcp_packet x50 x51 x10) ack_info ack_parses).
Defined.

(** A load of the other policy into the engine with the open one. *)

Definition swapped : EmbeddedEvaluator SR := mkEmbedded SR (Some open_config) shipped 0 "p" false.
Definition reloaded : EmbeddedEvaluator SR := mkEmbedded SR (Some shipped) shipped 0 "p" true.

(** The load in the middle of a packet, between its flow lookup and its evaluation. *)
Definition midway : Machine (EmbeddedEvaluator SR) :=
  advance 3 (mkMachine open_engine (Some (callback_task reference_decoder sample_env (fun _ _ => None) sample_attribute))).

Lemma midway_run : rtc (engine_step reference_decoder) (idle open_engine) midway.
Proof.
  eapply rtc_l; [apply (step_packet reference_decoder open_engine sample_env (fun _ _ => None) _ sample_attribute_size) |].
  exact (advance_run reference_decoder 3 _).
Qed.

Definition after_load : Engine (EmbeddedEvaluator SR) :=
  set_eval (Some reloaded) (set_eval (Some swapped) (m_engine midway)).

Lemma plane_steps g m m' :
  rtc (engine_step reference_decoder) m m' -> rtc (plane_step SR reference_decoder) (mkPlane SR None g m) (mkPlane SR None g m').
Proof. induction 1 as [|m1 m2 m3 Hs _ IH]; [apply rtc_refl |]. eapply rtc_l; [apply plane_engine; exact Hs | exact IH]. Qed.

Lemma load_run m :
  eval (m_engine m) = Some open_evaluator ->
  rtc (plane_step SR reference_decoder) (mkPlane SR None "open" m)
    (mkPlane SR None "p" (mkMachine (set_eval (Some reloaded) (set_eval (Some swapped) (m_engine m))) (m_task m))).
Proof.
  intros He. eapply rtc_l; [by eapply (plane_begin SR reference_decoder "p" "open" m) |].
  eapply rtc_l; [by eapply (plane_end SR reference_decoder "p" "open" (with_eval (Some swapped) m)) |]. apply rtc_refl.
Qed.

Lemma reload_run :
  rtc (plane_step SR reference_decoder) (mkPlane SR None "open" (idle open_engine))
    (mkPlane SR None "p" (mkMachine after_load (m_task midway))).
Proof.
  etransitivity; [apply (plane_steps "open"), midway_run |]. apply (load_run midway).
  destruct (machine_run_config _ _ _ midway_run) as (-> & _). reflexivity.
Qed.

Lemma last_load_governs_witness :
  (packetHandler reference_decoder sample_env (mkAttribute (Some 1) (Some (tcp_packet x50 x51 x10))) after_load).2 = inl 0 <->
  passes SR (policy_permits SR "p" 0) sample_env ack_info 40 after_load.
Proof.
  apply (last_load_governs SR reference_decoder "open" 0 open_evaluator open_engine None "p" after_load (m_task midway));
    [reflexivity | reflexivity | reflexivity | exact reload_run | exact ack_parses].
Defined.
