(* ===== verification/GeoIP.v ===== *)
(** * Package [geoip]: opening the country database

    [NewReader] and [Close] of src/internal/geoip/geoip.go ([LookupCountry] is in
    [Engine]).  The decoder of the third-party package, [maxminddb.OpenBytes], is an
    argument.  As for the policy file, every system call sees a state of the
    file system of its own. *)
From Stdlib Require Import ZArith Lia ZifyBool.
From stdpp Require Import base gmap sets list strings pretty fin_maps.
From S2P Require Import Prelude GoTime GoNet GoFS GoFSFacts SecurePath SecurePathFacts Engine PolicyFile PolicyFileFacts.

Local Open Scope Z_scope.

Definition maxGeoIPFileSize : Z := 512 * 1024 * 1024.

(** [NewReader]; [None] is the nil reader of an empty path.  Unlike
    [readPolicyFile], what was read is not measured again. *)
Definition NewReader (flt : Faults) (OpenBytes : list Z -> geoDB + string) (s : Snapshots) (path : string)
  : option geoDB + string :=
  if String.eqb path "" then inl None
  else
    match RejectSymlinkWalk flt (at_lstat s) (Dir path) with
    | Some e => inr e
    | None =>
        match open_read flt (at_open s) path with
        | inr e => inr ("opening GeoIP database " +:+ path +:+ ": " +:+ errno_text e)
        | inl f =>
            match fault flt OpFstat path with
            | Some e => inr ("stating GeoIP database " +:+ path +:+ ": " +:+ e)
            | None =>
                match file_of (at_open s) f with
                | None => inr ("GeoIP database path is not a regular file: " +:+ path)
                | Some opened =>
                    let fi := later opened (at_fstat s) f in
                    let size := Z.of_nat (length (i_data fi)) in
                    if maxGeoIPFileSize <? size then
                      inr ("GeoIP database " +:+ path +:+ " too large: " +:+ pretty size +:+ " bytes (max " +:+
                           pretty maxGeoIPFileSize +:+ ")")
                    else
                      match fault flt OpRead path with
                      | Some e => inr ("reading GeoIP database " +:+ path +:+ ": " +:+ e)
                      | None =>
                          match OpenBytes (take (Z.to_nat (maxGeoIPFileSize + 1)) (i_data (later fi (at_read s) f))) with
                          | inr e => inr ("opening GeoIP database " +:+ path +:+ ": " +:+ e)
                          | inl db => inl (Some db)
                          end
                      end
                end
            end
        end
    end.

(** [Close]; [db_Close] is what closing the database gives. *)
Definition geo_Close (db_Close : geoDB -> option string) (r : option geoDB) : option string :=
  match r with None => None | Some db => db_Close db end.

Lemma NewReader_spec flt OpenBytes s p pre f r :
  file_path p pre f -> NewReader flt OpenBytes s p = inl r ->
  exists db ino i, r = Some db /\ opened_by flt s p pre ino i /\
    let fi := later i (at_fstat s) (NFile ino) in
    Z.of_nat (length (i_data fi)) <= maxGeoIPFileSize /\
    OpenBytes (take (Z.to_nat (maxGeoIPFileSize + 1)) (i_data (later fi (at_read s) (NFile ino)))) = inl db.
Proof.
  intros Hf. unfold NewReader. destruct (String.eqb_spec p "") as [->|_]; [by eapply file_path_ne in Hf |].
  destruct (RejectSymlinkWalk flt _ (Dir p)) eqn:Hr; [done |].
  destruct (open_read flt (at_open s) p) as [n|] eqn:Ho; [|done]. destruct (fault flt OpFstat p); [done |].
  destruct (file_of (at_open s) n) as [i|] eqn:Hi; [|done].
  destruct (guarded_open_at _ _ _ _ _ _ _ Hf Hr Ho Hi) as (ino & -> & Hop). cbv zeta.
  set (fi := later i (at_fstat s) (NFile ino)).
  destruct (Z.ltb_spec maxGeoIPFileSize (Z.of_nat (length (i_data fi)))) as [?|Hsz]; [done |].
  destruct (fault flt OpRead p); [done |].
  destruct (OpenBytes _) as [db|] eqn:Hb; [|done]. intros [= <-]. by exists db, ino, i.
Qed.

(** A reader is returned for a path only when the walk met no link, the path led without a
    final link to a regular file of at most 512 MB (the one it spells, if no directory on it is a
    link at that moment) and its contents decode; at most 512 MB and one byte are ever decoded. *)
Theorem geo_database_verified flt OpenBytes s p pre f r :
  file_path p pre f -> NewReader flt OpenBytes s p = inl r ->
  exists db ino i, r = Some db /\ opened_by flt s p pre ino i /\
    let fi := later i (at_fstat s) (NFile ino) in
    Z.of_nat (length (i_data fi)) <= maxGeoIPFileSize /\
    OpenBytes (take (Z.to_nat (maxGeoIPFileSize + 1)) (i_data (later fi (at_read s) (NFile ino)))) = inl db.
Proof. apply NewReader_spec. Qed.

Definition one_country : geoDB := fun _ => Ok (Some "nz"%string).

Lemma geo_database_verified_witness :
  NewReader no_faults (fun _ => inl one_country) (steady (policy_fs 5)) "/etc/l3.rego" = inl (Some one_country) /\
  exists ino i, opened_by no_faults (steady (policy_fs 5)) "/etc/l3.rego" [""; "etc"]%string ino i.
Proof.
  assert (NewReader no_faults (fun _ => inl one_country) (steady (policy_fs 5)) "/etc/l3.rego" =
          inl (Some one_country)) as H by reflexivity.
  split; [exact H |].
  destruct (geo_database_verified no_faults (fun _ => inl one_country) (steady (policy_fs 5)) "/etc/l3.rego"
    [""; "etc"]%string "l3.rego" (Some one_country) policy_file_path H) as (db & ino & i & _ & Hs & _).
  by exists ino, i.
Defined.
