(* ===== verification/AuditLog.v ===== *)
(** * Package [audit]: the rotating log

    Translated from src/internal/audit/audit.go.  The events are those of the
    engine.  The encoder of package [encoding/json] ([enc], one line per event) and
    the formatted length of an event ([fmtLen]) are parameters.  A logger's
    methods run under its mutex. *)
From Stdlib Require Import ZArith Lia ZifyBool.
From stdpp Require Import base gmap sets list strings pretty fin_maps sorting.
From S2P Require Import Prelude GoTime Engine GoFS SecurePath.

Local Open Scope Z_scope.
Local Open Scope io_scope.

Definition DefaultMaxSizeMB : Z := 100.
Definition DefaultMaxBackups : Z := 5.
Definition maxCleanupEntries : nat := 4096.

Record AuditConfig : Type := mkAuditConfig {
  au_Path : string;
  MaxSizeMB : Z;
  MaxBackups : Z;
}.

(** The descriptor of the log file: its inode, or closed. *)
Inductive fd : Type := FdOpen (ino : nat) | FdClosed.

Record Logger : Type := mkLogger {
  lg_file : fd;
  lg_cfg : AuditConfig;
  lg_size : Z;
  lg_closed : bool;
  lg_encErr : option string;
}.

Definition with_file (f : fd) (l : Logger) : Logger := mkLogger f (lg_cfg l) (lg_size l) (lg_closed l) (lg_encErr l).

(** [openAuditFile]: the inode of the opened file. *)
Definition openAuditFile (flt : Faults) (now : Time) (path : string) : IO (nat + string) :=
  do opened := open_write flt now false path in
  match opened with
  | inr e => io_ret (inr (errno_text e))
  | inl h =>
      match fault flt OpFstat path with
      | Some e => io_ret (inr e)
      | None =>
          match h with
          | HFile ino => io_ret (inl ino)
          | HFifo => io_ret (inr ("audit log path is not a regular file: " +:+ path))
          end
      end
  end.

(** The configuration [NewLogger] works with. *)
Definition audit_defaults (c : AuditConfig) : AuditConfig :=
  mkAuditConfig
    (if String.eqb (au_Path c) "" then "/tmp/l3-firewall/audit.log" else au_Path c)
    (if MaxSizeMB c <=? 0 then DefaultMaxSizeMB else MaxSizeMB c)
    (if MaxBackups c <=? 0 then DefaultMaxBackups else MaxBackups c).

Definition NewLogger (flt : Faults) (now : Time) (c : AuditConfig) : IO (Logger + string) :=
  let c := audit_defaults c in
  let path := au_Path c in
  if has_dotdot path then io_ret (inr ("path traversal rejected: " +:+ path))
  else
    let dir := Dir path in
    do made := MkdirAll flt dir in
    match made with
    | Some e => io_ret (inr ("creating audit log directory " +:+ dir +:+ ": " +:+ errno_text e))
    | None =>
        do rejected := io_ask (fun fs => RejectSymlinkComponents flt fs dir) in
        match rejected with
        | Some e => io_ret (inr e)
        | None =>
            do opened := openAuditFile flt now path in
            match opened with
            | inr e => io_ret (inr ("opening audit log " +:+ path +:+ ": " +:+ e))
            | inl ino =>
                match fault flt OpFstat path with
                | Some e => io_ret (inr ("stating audit log " +:+ path +:+ ": " +:+ e))
                | None =>
                    do size := io_ask (fun fs => match inodes fs !! ino with
                                                 | Some i => Z.of_nat (length (i_data i))
                                                 | None => 0
                                                 end) in
                    io_ret (inl (mkLogger (FdOpen ino) c size false None))
                end
            end
        end
    end.

(** ** Time stamps *)

(** The year, month and day of a day counted from January 1, 1970. *)
Definition civil (days : Z) : Z * Z * Z :=
  let z := days + 719468 in
  let era := z / 146097 in
  let doe := z - era * 146097 in
  let yoe := (doe - doe / 1460 + doe / 36524 - doe / 146096) / 365 in
  let doy := doe - (365 * yoe + yoe / 4 - yoe / 100) in
  let mp := (5 * doy + 2) / 153 in
  let d := doy - (153 * mp + 2) / 5 + 1 in
  let m := if mp <? 10 then mp + 3 else mp - 9 in
  (yoe + era * 400 + (if m <=? 2 then 1 else 0), m, d).

(** At least [n] digits, with leading zeros. *)
Fixpoint zeros (n : nat) : string := match n with O => "" | S n' => "0" +:+ zeros n' end.
Definition pad (n : nat) (x : Z) : string :=
  let s := pretty x in zeros (n - String.length s) +:+ s.

(** [UTC().Format("20060102T150405Z")] *)
Definition utc_stamp (t : Time) : string :=
  let s := unix t in
  let '(y, m, d) := civil (s / 86400) in
  pad 4 y +:+ pad 2 m +:+ pad 2 d +:+ "T" +:+ pad 2 (s / 3600 mod 24) +:+ pad 2 (s / 60 mod 60)
    +:+ pad 2 (s mod 60) +:+ "Z".

(** ** Rotation *)

(** The backups among the names of a directory, as paths. *)
Definition backup_paths (dir prefix : string) (names : list string) : list string :=
  Join dir <$> List.filter (String.prefix prefix) names.

(** [sort.Strings] *)
Definition sort_strings (l : list string) : list string := merge_sort String.le l.

(** The removal loop: failures are ignored. *)
Fixpoint remove_all (flt : Faults) (paths : list string) : IO unit :=
  match paths with
  | [] => io_ret tt
  | p :: paths' => do _ := os_Remove flt p in remove_all flt paths'
  end.

Definition cleanupLocked (flt : Faults) (ro : range_order (list string) node) (c : AuditConfig) : IO unit :=
  let dir := Dir (au_Path c) in
  let prefix := Base (au_Path c) +:+ "." in
  do names := io_ask (read_names flt ro maxCleanupEntries dir) in
  match names with
  | None => io_ret tt
  | Some names =>
      let matches := backup_paths dir prefix names in
      let n := Z.of_nat (length matches) in
      if n <=? MaxBackups c then io_ret tt
      else remove_all flt (take (Z.to_nat (n - MaxBackups c)) (sort_strings matches))
  end.

Definition rotateLocked (flt : Faults) (ro : range_order (list string) node) (now : Time) (l : Logger)
  : IO (option string * Logger) :=
  let path := au_Path (lg_cfg l) in
  do rejected := io_ask (fun fs => RejectSymlinkComponents flt fs (Dir path)) in
  match rejected with
  | Some e => io_ret (Some e, l)
  | None =>
      match lg_file l with
      | FdClosed => io_ret (Some "closing current audit log: file already closed"%string, l)
      | FdOpen _ =>
          let l := with_file FdClosed l in
          match fault flt OpClose path with
          | Some e => io_ret (Some ("closing current audit log: " +:+ e), l)
          | None =>
              let rotatedPath := path +:+ "." +:+ utc_stamp now in
              do renamed := os_Rename flt path rotatedPath in
              match renamed with
              | Some e => io_ret (Some ("renaming audit log: " +:+ errno_text e), l)
              | None =>
                  do opened := openAuditFile flt now path in
                  match opened with
                  | inr e => io_ret (Some ("opening new audit log: " +:+ e), l)
                  | inl ino =>
                      do _ := cleanupLocked flt ro (lg_cfg l) in
                      io_ret (None, mkLogger (FdOpen ino) (lg_cfg l) 0 (lg_closed l) None)
                  end
              end
          end
      end
  end.

(** ** Logging *)
Section log.
Context (enc : AuditEvent -> list Z + string) (fmtLen : AuditEvent -> Z).

(** The encoder writes one line to the descriptor.  It keeps the error of a write that
    failed and returns it for every later event, without writing. *)
Definition encode_event (flt : Faults) (now : Time) (l : Logger) (e : AuditEvent) : IO (option string * Logger) :=
  match lg_encErr l with
  | Some err => io_ret (Some err, l)
  | None =>
      match enc e with
      | inr err => io_ret (Some err, l)
      | inl bs =>
          do err := match lg_file l with
                    | FdClosed => io_ret (Some "file already closed"%string)
                    | FdOpen ino => write_all flt now (au_Path (lg_cfg l)) (HFile ino) bs
                    end in
          io_ret (err, mkLogger (lg_file l) (lg_cfg l) (lg_size l) (lg_closed l) err)
      end
  end.

Definition Log (flt : Faults) (ro : range_order (list string) node) (now : Time) (e : AuditEvent)
    (l : Logger) : IO (option string * Logger) :=
  if lg_closed l then io_ret (Some "audit logger is closed"%string, l)
  else
    do rotated := if wrap64 (MaxSizeMB (lg_cfg l) * 1024 * 1024) <=? lg_size l
                  then rotateLocked flt ro now l else io_ret (None, l) in
    let '(err, l) := rotated in
    match err with
    | Some err => io_ret (Some ("rotating audit log: " +:+ err), l)
    | None =>
        do encoded := encode_event flt now l e in
        let '(err, l) := encoded in
        match err with
        | Some err => io_ret (Some ("encoding audit event: " +:+ err), l)
        | None => io_ret (None, mkLogger (lg_file l) (lg_cfg l) (wrap64 (lg_size l + fmtLen e)) (lg_closed l)
                          (lg_encErr l))
        end
    end.
End log.

(** [Close]; closing twice is harmless. *)
Definition au_Close (flt : Faults) (l : Logger) : option string * Logger :=
  if lg_closed l then (None, l)
  else
    let l' := mkLogger FdClosed (lg_cfg l) (lg_size l) true (lg_encErr l) in
    match lg_file l with
    | FdClosed => (Some "file already closed"%string, l')
    | FdOpen _ => (fault flt OpClose (au_Path (lg_cfg l)), l')
    end.
