(* ===== verification/TimeStamp.v ===== *)
(** * Time stamps sort as the times do

    The names of rotated audit logs end in the UTC time of the rotation, and cleanup
    removes the names that sort first.  Here: the stamps of two times in the years
    1970 to 9999 compare as the times do, so the names that sort first are the oldest.
    The calendar computation is proved to count the days in order. *)
From Stdlib Require Import ZArith Lia ZifyBool.
From stdpp Require Import base list strings pretty.
From S2P Require Import Prelude GoTime AuditLog.

Local Open Scope Z_scope.

(** ** The order of strings *)
Definition slt (s t : string) : Prop := String.compare s t = Lt.

Lemma ascii_compare_refl c : Ascii.compare c c = Eq.
Proof. unfold Ascii.compare. apply N.compare_refl. Qed.

Lemma slt_app s s' t t' : String.length s = String.length s' -> slt s s' -> slt (s +:+ t) (s' +:+ t').
Proof.
  unfold slt. revert s'. induction s as [|c s IH]; intros [|c' s'] Hl; try done.
  change (String.compare (String c s) (String c' s') = Lt ->
          String.compare (String c (s +:+ t)) (String c' (s' +:+ t')) = Lt). simpl.
  destruct (Ascii.compare c c'); [|done..]. injection Hl as Hl. auto.
Qed.

Lemma slt_app_r s t t' : slt t t' -> slt (s +:+ t) (s +:+ t').
Proof.
  unfold slt. induction s as [|c s IH]; [done |]. intros Ht.
  change (String.compare (String c (s +:+ t)) (String c (s +:+ t')) = Lt). simpl.
  rewrite ascii_compare_refl. auto.
Qed.

Lemma slt_le_ne s t : slt s t -> String.le s t /\ s <> t.
Proof.
  unfold slt, String.le, String.leb. intros H. rewrite H. split; [done |]. intros ->.
  pose proof (String.compare_antisym t t) as He. by rewrite H in He.
Qed.

Lemma slt_not_le s t : slt s t -> ~ String.le t s.
Proof. unfold slt, String.le, String.leb. intros H. rewrite String.compare_antisym, H. by intros []. Qed.

(** ** Digits *)
Definition digit (x : Z) : Ascii.ascii := pretty_N_char (Z.to_N x).

(** The last [n] decimal digits of [x]. *)
Fixpoint digits (n : nat) (x : Z) : string :=
  match n with
  | O => ""
  | S n' => digits n' (x / 10) +:+ String (digit (x mod 10)) ""
  end.

Lemma digits_length n x : String.length (digits n x) = n.
Proof. revert x. induction n as [|n IH]; intros x; simpl; [done |]. rewrite str_length_app, IH. simpl. lia. Qed.

Lemma digit_lt x y : 0 <= x < y -> y < 10 -> slt (String (digit x) "") (String (digit y) "").
Proof.
  intros Hx Hy.
  assert (x = 0 \/ x = 1 \/ x = 2 \/ x = 3 \/ x = 4 \/ x = 5 \/ x = 6 \/ x = 7 \/ x = 8) as Hc by lia.
  assert (y = 1 \/ y = 2 \/ y = 3 \/ y = 4 \/ y = 5 \/ y = 6 \/ y = 7 \/ y = 8 \/ y = 9) as Hd by lia.
  repeat (destruct Hc as [->|Hc]; [|]); subst; repeat (destruct Hd as [->|Hd]; [|]); subst;
    solve [reflexivity | lia].
Qed.

Lemma digits_lt n x y : 0 <= x < y -> y < 10 ^ Z.of_nat n -> slt (digits n x) (digits n y).
Proof.
  revert x y. induction n as [|n IH]; intros x y Hx Hy; [simpl in Hy; lia |].
  rewrite Nat2Z.inj_succ, Z.pow_succ_r in Hy by lia. simpl.
  destruct (Z_lt_ge_dec (x / 10) (y / 10)) as [Hlt|Hge].
  - apply slt_app; [by rewrite !digits_length |]. apply IH; [|apply Z.div_lt_upper_bound; lia].
    split; [apply Z.div_pos; lia | done].
  - assert (x / 10 = y / 10) as ->.
    { pose proof (Z.div_le_mono x y 10). lia. }
    apply slt_app_r, digit_lt; pose proof (Z.mod_pos_bound x 10); pose proof (Z.mod_pos_bound y 10);
      pose proof (Z.div_mod x 10); pose proof (Z.div_mod y 10); pose proof (Z.div_le_mono x y 10); lia.
Qed.

(** Leading zeros are the digits of a number that is short enough. *)
Lemma zeros_snoc n : zeros n +:+ "0" = zeros (S n).
Proof. induction n as [|n IH]; [done |]. change ("0" +:+ (zeros n +:+ "0") = "0" +:+ zeros (S n)). by rewrite IH. Qed.

Lemma digits_zero n : digits n 0 = zeros n.
Proof. induction n as [|n IH]; [done |]. rewrite <-zeros_snoc, <-IH. reflexivity. Qed.

Lemma digits_zeros m k x : 0 <= x < 10 ^ Z.of_nat k -> digits (m + k) x = zeros m +:+ digits k x.
Proof.
  revert x. induction k as [|k IH]; intros x Hx.
  - simpl in Hx. replace x with 0 by lia. rewrite Nat.add_0_r, digits_zero. simpl.
    symmetry. induction m as [|m IHm]; [done |]. change ("0" +:+ (zeros m +:+ "") = "0" +:+ zeros m). by rewrite IHm.
  - rewrite Nat.add_succ_r. simpl. rewrite IH; [by rewrite str_app_assoc |].
    rewrite Nat2Z.inj_succ, Z.pow_succ_r in Hx by lia.
    split; [apply Z.div_pos; lia | apply Z.div_lt_upper_bound; lia].
Qed.

Lemma digit_N x : pretty_N_char (x mod 10) = digit (Z.of_N x mod 10).
Proof. unfold digit. change 10 with (Z.of_N 10). by rewrite <-N2Z.inj_mod, N2Z.id. Qed.

(** Printing produces the digits, without a leading zero. *)
Lemma pretty_go_digits x s :
  exists k, pretty_N_go x s = digits k (Z.of_N x) +:+ s /\ Z.of_N x < 10 ^ Z.of_nat k /\
    (x = 0%N /\ k = 0%nat \/ (1 <= k)%nat /\ 10 ^ (Z.of_nat k - 1) <= Z.of_N x).
Proof.
  revert s. induction (N.lt_wf_0 x) as [x _ IH]; intros s.
  destruct (decide (x = 0%N)) as [->|Hx]; [exists 0%nat; split_and!; auto; done |].
  rewrite pretty_N_go_step by lia.
  destruct (IH (x `div` 10)%N ltac:(apply N.div_lt; lia) (String (pretty_N_char (x mod 10)) s)) as (k & -> & Hlt & Hge).
  rewrite N2Z.inj_div in Hlt, Hge. rewrite N2Z.inj_div. change (Z.of_N 10) with 10 in *.
  exists (S k). simpl. rewrite digit_N, str_app_assoc. split; [done |].
  pose proof (Z.div_mod (Z.of_N x) 10). pose proof (Z.mod_pos_bound (Z.of_N x) 10).
  rewrite Nat2Z.inj_succ, Z.pow_succ_r by lia. split; [lia |]. right. split; [lia |].
  replace (Z.succ (Z.of_nat k) - 1) with (Z.of_nat k) by lia.
  destruct Hge as [[_ ->]|[Hk Hge]]; [simpl; lia |].
  replace (Z.of_nat k) with (Z.succ (Z.of_nat k - 1)) by lia. rewrite Z.pow_succ_r by lia. lia.
Qed.

(** A number that fits is printed as its digits. *)
Lemma pad_digits n x : (1 <= n)%nat -> 0 <= x < 10 ^ Z.of_nat n -> pad n x = digits n x.
Proof.
  intros Hn Hx. unfold pad. destruct x as [|p|p]; [| |lia].
  - change (zeros (n - 1) +:+ "0" = digits n 0). rewrite zeros_snoc, digits_zero. f_equal. lia.
  - change (pretty (Z.pos p)) with (pretty_N_go (N.pos p) "").
    destruct (pretty_go_digits (N.pos p) "") as (k & -> & Hlt & [[? _]|[Hk Hge]]); [done |].
    change (Z.of_N (N.pos p)) with (Z.pos p) in *. rewrite str_app_nil, digits_length.
    assert (k <= n)%nat.
    { destruct (decide (k <= n)%nat) as [|Hkn]; [done |]. exfalso.
      pose proof (Z.pow_le_mono_r 10 (Z.of_nat n) (Z.of_nat k - 1)). lia. }
    rewrite <-digits_zeros by lia. f_equal. lia.
Qed.

(** ** The calendar *)

(** The days in the first [y] years of an era of 400 years, which begin in March. *)
Definition year_days (y : Z) : Z := 365 * y + y / 4 - y / 100.

Ltac div_lia := Z.to_euclidean_division_equations; lia.

Lemma year_days_split c a b :
  0 <= c <= 3 -> 0 <= a <= 24 -> 0 <= b <= 3 ->
  year_days (100 * c + 4 * a + b) = 36524 * c + 1461 * a + 365 * b.
Proof.
  unfold year_days. intros.
  replace ((100 * c + 4 * a + b) / 4) with (25 * c + a) by div_lia.
  replace ((100 * c + 4 * a + b) / 100) with c by div_lia. lia.
Qed.

Lemma year_days_mono y y' : 0 <= y <= y' -> year_days y <= year_days y'.
Proof. unfold year_days. intros H. div_lia. Qed.

(** A day of an era by century, leap cycle, year and day. *)
Lemma day_split doe :
  0 <= doe < 146097 ->
  exists c a b s, 0 <= c <= 3 /\ 0 <= a <= 24 /\ 0 <= b <= 3 /\ 0 <= s < 366 /\ (s = 365 -> b = 3) /\
    (c < 3 -> a = 24 -> b = 3 -> s <> 365) /\ doe = 36524 * c + 1461 * a + 365 * b + s.
Proof.
  intros H. set (c := Z.min 3 (doe / 36524)). set (r := doe - 36524 * c). set (a := r / 1461).
  set (t := r - 1461 * a). set (b := Z.min 3 (t / 365)). exists c, a, b, (t - 365 * b).
  assert (0 <= c <= 3 /\ 0 <= r /\ (c < 3 -> r < 36524) /\ r <= 36524) by (unfold r, c; div_lia).
  assert (0 <= a <= 24 /\ 0 <= t < 1461) by (unfold t, a; div_lia).
  assert (0 <= b <= 3 /\ (b = 3 /\ 1095 <= t \/ b < 3 /\ 0 <= t - 365 * b < 365)) by (unfold b; div_lia).
  unfold t, r in *. lia.
Qed.

Definition year_of (doe : Z) : Z := (doe - doe / 1460 + doe / 36524 - doe / 146096) / 365.

Lemma year_of_split c a b s :
  0 <= c <= 3 -> 0 <= a <= 24 -> 0 <= b <= 3 -> 0 <= s < 366 -> (s = 365 -> b = 3) ->
  (c < 3 -> a = 24 -> b = 3 -> s <> 365) ->
  year_of (36524 * c + 1461 * a + 365 * b + s) = 100 * c + 4 * a + b.
Proof.
  intros Hc Ha Hb Hs Hb3 Hn. unfold year_of.
  destruct (Z.eq_dec (36524 * c + 1461 * a + 365 * b + s) 146096) as [E|E].
  { rewrite E. vm_compute (_ / 365). lia. }
  set (doe := 36524 * c + 1461 * a + 365 * b + s) in *.
  assert (doe / 146096 = 0) as -> by (apply Z.div_small; lia).
  assert (doe / 36524 = c) as -> by (unfold doe in *; div_lia).
  set (t := 365 * b + s). set (e := if 1460 <=? a + t + 24 * c then 1 else 0).
  assert (doe / 1460 = 25 * c + a + e) as ->.
  { symmetry. apply (Z.div_unique _ _ _ (a + t + 24 * c - 1460 * e)).
    - left. unfold e, t. case Z.leb_spec; lia.
    - unfold doe, t. lia. }
  symmetry. apply (Z.div_unique _ _ _ (s - e)); [left | unfold doe; lia]. unfold e, t. case Z.leb_spec; lia.
Qed.

(** The year a day of an era belongs to. *)
Lemma year_of_spec doe :
  0 <= doe < 146097 ->
  0 <= year_of doe < 400 /\ year_days (year_of doe) <= doe /\ doe - year_days (year_of doe) <= 365 /\
  (year_of doe < 399 -> doe < year_days (year_of doe + 1)).
Proof.
  intros (c & a & b & s & Hc & Ha & Hb & Hs & Hb3 & Hn & ->)%day_split.
  rewrite year_of_split by done. split; [lia |]. rewrite year_days_split by lia. split; [lia |]. split; [lia |].
  intros Hlt. destruct (Z.eq_dec b 3) as [->|Hb']; [destruct (Z.eq_dec a 24) as [->|Ha']|].
  - replace (100 * c + 4 * 24 + 3 + 1) with (100 * (c + 1) + 4 * 0 + 0) by lia. rewrite year_days_split by lia. lia.
  - replace (100 * c + 4 * a + 3 + 1) with (100 * c + 4 * (a + 1) + 0) by lia. rewrite year_days_split by lia. lia.
  - replace (100 * c + 4 * a + b + 1) with (100 * c + 4 * a + (b + 1)) by lia. rewrite year_days_split by lia. lia.
Qed.

(** The month, counted from March, and the day of the month. *)
Definition month_of (doy : Z) : Z := (5 * doy + 2) / 153.
Definition day_of (doy : Z) : Z := doy - (153 * month_of doy + 2) / 5 + 1.

Lemma month_spec doy : 0 <= doy <= 365 -> 0 <= month_of doy <= 11 /\ 1 <= day_of doy <= 31.
Proof. unfold day_of, month_of. intros H. div_lia. Qed.

Lemma month_mono doy doy' :
  0 <= doy < doy' -> doy' <= 365 ->
  month_of doy < month_of doy' \/ month_of doy = month_of doy' /\ day_of doy < day_of doy'.
Proof.
  intros H H'. destruct (Z.eq_dec (month_of doy) (month_of doy')) as [He|Hne].
  - right. split; [done |]. unfold day_of. rewrite He. lia.
  - left. unfold month_of in *. pose proof (Z.div_le_mono (5 * doy + 2) (5 * doy' + 2) 153). lia.
Qed.

(** Dates in calendar order. *)
Definition date_lt (a b : Z * Z * Z) : Prop :=
  let '(y, m, d) := a in let '(y', m', d') := b in
  y < y' \/ y = y' /\ (m < m' \/ m = m' /\ d < d').

Definition date_of (year doy : Z) : Z * Z * Z :=
  let m := if month_of doy <? 10 then month_of doy + 3 else month_of doy - 9 in
  (year + (if m <=? 2 then 1 else 0), m, day_of doy).

Lemma date_of_mono year year' doy doy' :
  0 <= doy <= 365 -> 0 <= doy' <= 365 -> year < year' \/ year = year' /\ doy < doy' ->
  date_lt (date_of year doy) (date_of year' doy').
Proof.
  intros H H' Hlt. pose proof (month_spec doy H). pose proof (month_spec doy' H').
  assert (year < year' \/ year = year' /\ (month_of doy < month_of doy' \/
    month_of doy = month_of doy' /\ day_of doy < day_of doy')) as Hc.
  { destruct Hlt as [|[? ?]]; [by left | right]. split; [done | apply month_mono; lia]. }
  unfold date_of, date_lt. repeat case Z.ltb_spec; repeat case Z.leb_spec; lia.
Qed.

Definition era_of (days : Z) : Z := (days + 719468) / 146097.
Definition day_of_era (days : Z) : Z := days + 719468 - era_of days * 146097.

Lemma civil_date days :
  let doe := day_of_era days in
  civil days = date_of (year_of doe + era_of days * 400) (doe - year_days (year_of doe)).
Proof. reflexivity. Qed.

(** Later days have later dates. *)
Lemma civil_mono days days' : days < days' -> date_lt (civil days) (civil days').
Proof.
  intros Hlt. rewrite !civil_date.
  assert (forall x, 0 <= day_of_era x < 146097) as Hr.
  { intros x. unfold day_of_era, era_of. div_lia. }
  pose proof (year_of_spec _ (Hr days)) as (? & ? & ? & ?).
  pose proof (year_of_spec _ (Hr days')) as (? & ? & ? & Hn).
  apply date_of_mono; [lia | lia |].
  assert (era_of days <= era_of days') by (apply Z.div_le_mono; lia).
  destruct (Z.eq_dec (era_of days) (era_of days')) as [He|Hne]; [|left; lia].
  assert (day_of_era days < day_of_era days') by (unfold day_of_era; lia).
  destruct (Z_lt_ge_dec (year_of (day_of_era days')) (year_of (day_of_era days))) as [Hy|Hy].
  - exfalso. pose proof (year_days_mono (year_of (day_of_era days') + 1) (year_of (day_of_era days))). lia.
  - destruct (Z.eq_dec (year_of (day_of_era days)) (year_of (day_of_era days'))) as [Hye|]; [|lia].
    right. rewrite Hye. lia.
Qed.

(** The dates of the days from 1970 to 9999. *)
Lemma civil_range days :
  0 <= days <= 2932896 ->
  let '(y, m, d) := civil days in 0 <= y < 10 ^ 4 /\ 0 <= m < 10 ^ 2 /\ 0 <= d < 10 ^ 2.
Proof.
  intros Hd.
  assert (forall lo hi, lo <= days <= hi -> (date_lt (civil lo) (civil days) \/ lo = days) /\
    (date_lt (civil days) (civil hi) \/ days = hi)) as Hb.
  { intros lo hi H. split; [destruct (Z.eq_dec lo days) | destruct (Z.eq_dec days hi)]; auto;
      left; apply civil_mono; lia. }
  destruct (Hb _ _ Hd) as [H1 H2]. vm_compute (civil 0) in H1. vm_compute (civil 2932896) in H2.
  destruct H1 as [H1|<-]; [|by vm_compute]. destruct H2 as [H2| ->]; [|by vm_compute].
  rewrite civil_date in *. unfold date_of, date_lt in *.
  set (doy := day_of_era days - _) in *. assert (0 <= doy <= 365) as Hdoy.
  { pose proof (year_of_spec (day_of_era days)) as Hy. unfold doy.
    assert (0 <= day_of_era days < 146097) by (unfold day_of_era, era_of; div_lia). lia. }
  pose proof (month_spec doy Hdoy). revert H1 H2. repeat case Z.ltb_spec; repeat case Z.leb_spec; lia.
Qed.

(** ** Stamps *)

(** The first second of the year 10000. *)
Definition year_10000 : Z := 253402300800.

Lemma slt_field n x x' t t' :
  (1 <= n)%nat -> 0 <= x < 10 ^ Z.of_nat n -> 0 <= x' < 10 ^ Z.of_nat n ->
  x < x' \/ x = x' /\ slt t t' -> slt (pad n x +:+ t) (pad n x' +:+ t').
Proof.
  intros Hn Hx Hx' [Hlt|[-> Ht]]; [|by apply slt_app_r].
  rewrite !pad_digits by done. apply slt_app; [by rewrite !digits_length | apply digits_lt; lia].
Qed.

(** The time of day. *)
Lemma clock_lt s s' :
  0 <= s < s' -> s / 86400 = s' / 86400 ->
  slt (pad 2 (s / 3600 mod 24) +:+ pad 2 (s / 60 mod 60) +:+ pad 2 (s mod 60) +:+ "Z")
      (pad 2 (s' / 3600 mod 24) +:+ pad 2 (s' / 60 mod 60) +:+ pad 2 (s' mod 60) +:+ "Z").
Proof.
  intros Hs Hd.
  assert (s / 3600 mod 24 < s' / 3600 mod 24 \/ s / 3600 mod 24 = s' / 3600 mod 24 /\
    (s / 60 mod 60 < s' / 60 mod 60 \/ s / 60 mod 60 = s' / 60 mod 60 /\ s mod 60 < s' mod 60)) as Ht by div_lia.
  assert (forall u n, 0 < n <= 100 -> 0 <= u mod n < 10 ^ 2) as Hu.
  { intros u n Hn. pose proof (Z.mod_pos_bound u n). lia. }
  apply slt_field; [lia | by apply Hu | by apply Hu |]. destruct Ht as [?|[? Ht]]; [by left | right; split; [done |]].
  apply slt_field; [lia | by apply Hu | by apply Hu |]. destruct Ht as [?|[? Ht]]; [by left | right; split; [done |]].
  apply slt_field; [lia | by apply Hu | by apply Hu |]. by left.
Qed.

(** Stamps of times in the years 1970 to 9999 sort as the times do. *)
Theorem utc_stamp_lt t t' :
  0 <= unix t < unix t' -> unix t' < year_10000 -> slt (utc_stamp t) (utc_stamp t').
Proof.
  unfold year_10000, utc_stamp. set (s := unix t). set (s' := unix t'). intros Hs Hs'.
  pose proof (civil_range (s / 86400) ltac:(div_lia)) as Hr.
  pose proof (civil_range (s' / 86400) ltac:(div_lia)) as Hr'.
  assert (date_lt (civil (s / 86400)) (civil (s' / 86400)) \/ s / 86400 = s' / 86400) as Hc.
  { destruct (Z.eq_dec (s / 86400) (s' / 86400)); [by right | left; apply civil_mono].
    pose proof (Z.div_le_mono s s' 86400). lia. }
  assert (let '(y, m, d) := civil (s / 86400) in let '(y', m', d') := civil (s' / 86400) in
    y < y' \/ y = y' /\ (m < m' \/ m = m' /\ (d < d' \/ d = d' /\ s / 86400 = s' / 86400))) as Hlex.
  { destruct Hc as [Hc|He].
    - destruct (civil (s / 86400)) as [[y m] d], (civil (s' / 86400)) as [[y' m'] d']. simpl in Hc. lia.
    - rewrite He. destruct (civil (s' / 86400)) as [[y' m'] d']. lia. }
  destruct (civil (s / 86400)) as [[y m] d], (civil (s' / 86400)) as [[y' m'] d'].
  destruct Hr as (Hy & Hm & Hd), Hr' as (Hy' & Hm' & Hd').
  apply slt_field; [lia | done | done |]. destruct Hlex as [?|[? Hlex]]; [by left | right; split; [done |]].
  apply slt_field; [lia | done | done |]. destruct Hlex as [?|[? Hlex]]; [by left | right; split; [done |]].
  apply slt_field; [lia | done | done |]. destruct Hlex as [?|[? Hlex]]; [by left | right; split; [done |]].
  apply slt_app_r. by apply clock_lt.
Qed.
