(* ===== verification/DirFacts.v ===== *)
(** * Directories: names, sorting and removal

    What the two cleanups (of audit backups and of captures) share: the names a
    directory lists, the order of the paths they make, which names are the oldest
    of a sorted list, and the effect of removing a list of paths. *)
From Stdlib Require Import ZArith Lia ZifyBool.
From stdpp Require Import base gmap sets list strings pretty fin_maps sorting.
From S2P Require Import Prelude GoTime GoFS GoFSFacts SecurePath SecurePathFacts AuditLog.

Local Open Scope Z_scope.

(** ** Sorted names *)

(** [n] is not among the [k] greatest of [l]. *)
Definition outranked (k : nat) (l : list string) (n : string) : Prop :=
  (k <= length (filter (fun m => String.le n m /\ n <> m) l))%nat.

Lemma str_le_anti (a b : string) : String.le a b -> String.le b a -> a = b.
Proof. intros. by apply (anti_symm String.le). Qed.

Lemma length_filter_all {A} (P : A -> Prop) `{forall x, Decision (P x)} l :
  Forall P l -> length (filter P l) = length l.
Proof. induction 1 as [|x l Hx _ IH]; [done |]. rewrite filter_cons_True by done. simpl. by rewrite IH. Qed.

Lemma sorted_rank a x b :
  StronglySorted String.le (a ++ x :: b) -> NoDup (a ++ x :: b) ->
  length (filter (fun m => String.le x m /\ x <> m) (a ++ x :: b)) = length b.
Proof.
  intros Hs (_ & Hax & Hxb)%NoDup_app. apply NoDup_cons in Hxb as [Hxb _].
  rewrite filter_app, length_app, filter_cons_False by naive_solver.
  rewrite length_filter_none, length_filter_all; [done | |]; apply Forall_forall; intros y Hy.
  - apply StronglySorted_app_1_r in Hs. inversion_clear Hs as [|?? _ Hall].
    split; [by eapply Forall_forall in Hall | by intros ->].
  - intros [Hxy Hne]. apply Hne, str_le_anti; [done |].
    eapply StronglySorted_app_1_elem_of; [exact Hs | done | by left].
Qed.

(** In a sorted list without repetitions the elements before the last [k] are the
    outranked ones. *)
Lemma sorted_take_outranked k l x :
  StronglySorted String.le l -> NoDup l ->
  x ∈ take (length l - k) l <-> x ∈ l /\ outranked k l x.
Proof.
  intros Hs Hn. unfold outranked. rewrite elem_of_take. split.
  - intros (i & Hi & Hlt). split; [by eapply list_elem_of_lookup_2 |].
    destruct (list_elem_of_split_length _ _ _ Hi) as (a & b & -> & ->).
    rewrite sorted_rank by done. rewrite length_app in Hlt. simpl in Hlt. lia.
  - intros [(a & b & ->)%list_elem_of_split Hr]. rewrite sorted_rank in Hr by done.
    exists (length a). split; [by apply list_lookup_middle | rewrite length_app; simpl; lia].
Qed.

Lemma sort_strings_spec l :
  sort_strings l ≡ₚ l /\ StronglySorted String.le (sort_strings l).
Proof.
  unfold sort_strings. split; [apply merge_sort_Permutation |].
  apply Sorted_StronglySorted; [apply _ | apply Sorted_merge_sort, _].
Qed.

(** The elements the cleanup takes from the front of the sorted list. *)
Lemma sort_take_outranked k l x :
  NoDup l -> x ∈ take (length l - k) (sort_strings l) <-> x ∈ l /\ outranked k l x.
Proof.
  intros Hn. destruct (sort_strings_spec l) as [Hp Hs].
  rewrite <-(Permutation_length Hp), sorted_take_outranked by (done || by rewrite Hp).
  unfold outranked. by rewrite Hp.
Qed.

(** ** Paths in one directory *)
Lemma str_le_prefix s a b : String.le (s +:+ a) (s +:+ b) <-> String.le a b.
Proof.
  induction s as [|c s IH]; [done |]. rewrite <-IH.
  change (String.leb (String c (s +:+ a)) (String c (s +:+ b)) <-> String.leb (s +:+ a) (s +:+ b)).
  unfold String.leb. simpl. assert (Ascii.compare c c = Eq) as -> by (unfold Ascii.compare; apply N.compare_refl). done.
Qed.

Lemma str_app_inj_l s a b : s +:+ a = s +:+ b -> a = b.
Proof. induction s as [|c s IH]; [done |]. intros H. apply IH. by injection H. Qed.

(** A path in the directory of [cs] starts with the same text whatever its name. *)
Lemma path_text_snoc abs cs : exists s, forall n, path_text abs (cs ++ [n]) = s +:+ n.
Proof.
  assert (exists s, forall n, join_slash (cs ++ [n]) = s +:+ n) as [s Hs].
  { induction cs as [|c cs [s IH]]; [by exists ""%string |].
    exists (c +:+ String slash s). intros n. simpl app.
    assert (forall l, l <> [] -> join_slash (c :: l) = c +:+ String slash (join_slash l)) as Hj by (by intros []).
    rewrite Hj by (by destruct cs). rewrite IH. by rewrite str_app_assoc. }
  destruct abs; [exists (String slash s) | exists s]; intros n; simpl; [by rewrite Hs |].
  rewrite Hs. destruct (cs ++ [n]) eqn:He; [by destruct cs | done].
Qed.

Lemma outranked_paths k abs cs ns n :
  outranked k ((fun m => path_text abs (cs ++ [m])) <$> ns) (path_text abs (cs ++ [n])) <-> outranked k ns n.
Proof.
  destruct (path_text_snoc abs cs) as [s Hs]. unfold outranked.
  rewrite (list_fmap_ext _ (fun m => s +:+ m) ns) by (intros; apply Hs). rewrite Hs.
  replace (length (filter _ ((fun m => s +:+ m) <$> ns)))
    with (length (filter (fun m => String.le n m /\ n <> m) ns)); [done |].
  induction ns as [|m ns IH]; [done |]. simpl. rewrite !filter_cons.
  destruct (decide (String.le n m /\ n <> m)) as [[Hle Hne]|Hno].
  - rewrite decide_True; [simpl; by rewrite IH |].
    split; [by apply str_le_prefix | intros He; by apply Hne, (str_app_inj_l s)].
  - rewrite decide_False; [done |]. intros [Hle Hne]. apply Hno.
    split; [by apply str_le_prefix in Hle | by intros ->].
Qed.

Lemma path_text_inj abs cs m n : path_text abs (cs ++ [m]) = path_text abs (cs ++ [n]) -> m = n.
Proof. destruct (path_text_snoc abs cs) as [s Hs]. rewrite !Hs. apply str_app_inj_l. Qed.

(** Sorting paths sorts names. *)
Lemma sorted_names abs cs ms :
  exists ns, sort_strings ((fun n => path_text abs (cs ++ [n])) <$> ms) =
      (fun n => path_text abs (cs ++ [n])) <$> ns /\ ns ≡ₚ ms.
Proof.
  destruct (sort_strings_spec ((fun n => path_text abs (cs ++ [n])) <$> ms)) as [Hp _].
  destruct (Permutation_map_inv _ _ Hp) as (ns & Hns & Hperm). by exists ns.
Qed.

(** The front of the sorted paths of [ms] are the paths of the outranked names. *)
Lemma sorted_paths k abs cs ms :
  NoDup ms ->
  exists ns, take (length ms - k) (sort_strings ((fun n => path_text abs (cs ++ [n])) <$> ms)) =
      (fun n => path_text abs (cs ++ [n])) <$> ns /\
    forall n, n ∈ ns <-> n ∈ ms /\ outranked k ms n.
Proof.
  intros Hn. destruct (sorted_names abs cs ms) as (ns & Hns & _).
  set (g := fun n => path_text abs (cs ++ [n])) in *.
  assert (Inj (=) (=) g) as Hg by (intros m n; apply path_text_inj).
  exists (take (length ms - k) ns). split; [rewrite Hns; symmetry; apply fmap_take |].
  intros n. rewrite <-(list_elem_of_fmap_inj g).
  replace (g <$> take (length ms - k) ns) with (take (length (g <$> ms) - k) (sort_strings (g <$> ms)))
    by (rewrite length_fmap, Hns; symmetry; apply fmap_take).
  rewrite sort_take_outranked by (by apply NoDup_fmap). rewrite list_elem_of_fmap_inj by done.
  by assert (outranked k (g <$> ms) (g n) <-> outranked k ms n) as -> by apply outranked_paths.
Qed.

(** ** One directory *)
Section dir.
Context (abs : bool) (cs : list string) (Hcs : Forall proper cs).

(** The directory exists under the name it spells. *)
Definition dir_ok (fs : FS) : Prop :=
  dirs fs (base_of fs abs) cs /\ node_at fs (base_of fs abs ++ cs) = Some NDir.

Lemma dirs_walk_text fs links cur l follow :
  Forall proper l -> dirs fs cur l -> walk_path fs links cur l follow = inl (cur ++ l).
Proof.
  intros Hl. revert cur. induction Hl as [|c l Hc Hl IH]; intros cur Hd; [by rewrite walk_nil, app_nil_r |].
  destruct Hd as [Hn Hd]. rewrite walk_step, Hn, IH by done. by rewrite <-app_assoc.
Qed.

Lemma resolve_dir fs follow :
  dir_ok fs -> resolve fs follow (path_text abs cs) = inl (base_of fs abs ++ cs).
Proof. intros [Hd _]. rewrite resolve_text by done. by apply dirs_walk_text. Qed.

Lemma resolve_child fs n :
  dir_ok fs -> proper n -> resolve fs false (path_text abs (cs ++ [n])) = inl (base_of fs abs ++ cs ++ [n]).
Proof.
  intros [Hd _] Hn. rewrite resolve_text by (apply Forall_app; auto).
  rewrite dirs_walk by (by rewrite ?filter_proper; auto using proper_no_dotdot, proper_chars).
  by rewrite filter_proper.
Qed.

Lemma elem_of_names fs ro d n :
  n ∈ omap last (range_keys ro (children fs d)) <-> is_Some (tree fs !! (d ++ [n])).
Proof.
  rewrite list_elem_of_omap. split.
  - intros (k & Hk%elem_of_range_keys & Hl). destruct Hk as [v Hv].
    apply map_lookup_filter_Some in Hv as [Hv [c Hc]]. simpl in Hc. subst k.
    rewrite last_snoc in Hl. injection Hl as ->. eauto.
  - intros [v Hv]. exists (d ++ [n]). rewrite last_snoc. split; [|done].
    apply elem_of_range_keys. exists v. apply map_lookup_filter_Some. split; [done | by exists n].
Qed.

Lemma NoDup_names fs ro d : NoDup (omap last (range_keys ro (children fs d))).
Proof.
  pose proof (NoDup_range_keys ro (children fs d)) as Hn.
  assert (forall k, k ∈ range_keys ro (children fs d) -> exists c, k = d ++ [c]) as Hk.
  { intros k [v Hv]%elem_of_range_keys. by apply map_lookup_filter_Some in Hv as [_ ?]. }
  induction Hn as [|k ks Hnk Hn IH]; [constructor |].
  destruct (Hk k) as [c ->]; [by left |]. simpl. rewrite last_snoc. constructor; [|apply IH; intros; apply Hk; by right].
  rewrite list_elem_of_omap. intros (k' & Hk' & Hl). destruct (Hk k') as [c' ->]; [by right |].
  rewrite last_snoc in Hl. by injection Hl as ->.
Qed.

(** A file, a link, or an empty directory. *)
Definition removable (fs : FS) (q : list string) : Prop :=
  tree fs !! q <> Some NDir \/ children fs q = ∅.

(** The removal of one name. *)
Lemma remove_child fs n :
  dir_ok fs -> proper n ->
  let d := base_of fs abs ++ cs in
  exists fs', (os_Remove no_faults (path_text abs (cs ++ [n])) fs).1.2 = fs' /\
    inodes fs' = inodes fs /\ cwd fs' = cwd fs /\
    (removable fs (d ++ [n]) -> tree fs' = delete (d ++ [n]) (tree fs)) /\
    (~ removable fs (d ++ [n]) -> tree fs' = tree fs).
Proof.
  intros Hd Hn d. eexists. split; [done |]. unfold os_Remove. simpl fault. cbv iota beta.
  rewrite resolve_child, app_assoc by done. fold d.
  assert (node_at fs (d ++ [n]) = tree fs !! (d ++ [n])) as ->.
  { unfold node_at. destruct (d ++ [n]) eqn:He; [by destruct d | done]. }
  unfold removable. destruct (tree fs !! (d ++ [n])) as [[]|] eqn:Ht; simpl.
  - case_decide as Hc; simpl; split_and!; try done.
    + intros [?|He]; [done |]. destruct Hc as [Hc|Hc]; [by destruct d | done].
    + intros Hr. destruct Hr. right. by apply dec_stable; intros ?; apply Hc; right.
  - split_and!; try done. intros Hr. destruct Hr. by left.
  - split_and!; try done. intros Hr. destruct Hr. by left.
  - split_and!; try done. intros Hr. destruct Hr. by left.
  - split_and!; try done. intros _. by rewrite delete_id.
Qed.

(** Removing a name changes nothing above it or beside it. *)
Lemma dir_ok_delete fs fs' n :
  cwd fs' = cwd fs -> tree fs' = delete (base_of fs abs ++ cs ++ [n]) (tree fs) -> dir_ok fs -> dir_ok fs'.
Proof.
  intros Hc Ht [Hd Hn]. unfold dir_ok.
  replace (base_of fs' abs) with (base_of fs abs) by (destruct abs; simpl; congruence). split.
  - eapply dirs_ext; [|exact Hd]. intros q Hq. rewrite Ht, lookup_delete_ne; [done |].
    intros <-. rewrite !length_app in Hq. simpl in Hq. lia.
  - unfold node_at in *. rewrite Ht. destruct (base_of fs abs ++ cs) eqn:He; [done |].
    rewrite lookup_delete_ne; [done |]. rewrite app_assoc, He. intros Hl%(f_equal length).
    rewrite length_app in Hl. simpl in Hl. lia.
Qed.

Lemma removable_delete fs fs' d m n :
  tree fs' = delete (d ++ [m]) (tree fs) -> m <> n -> removable fs' (d ++ [n]) <-> removable fs (d ++ [n]).
Proof.
  intros Ht Hne. unfold removable. rewrite Ht, lookup_delete_ne by (intros [= ->]%app_inv_head; done).
  assert (children fs' (d ++ [n]) = children fs (d ++ [n])) as ->; [|done].
  unfold children. rewrite Ht. apply map_eq. intros q. rewrite map_filter_delete.
  destruct (decide (q = d ++ [m])) as [->|]; [rewrite lookup_delete_eq | by rewrite lookup_delete_ne].
  symmetry. apply map_lookup_filter_None. right. intros x _ [c Hc]. simpl in Hc.
  apply (f_equal length) in Hc. rewrite !length_app in Hc. simpl in Hc. lia.
Qed.

#[local] Instance removable_dec fs q : Decision (removable fs q).
Proof. unfold removable. apply _. Defined.

(** What one removal does, seen from the rest of the list. *)
Lemma remove_child_step fs n :
  dir_ok fs -> proper n ->
  let d := base_of fs abs ++ cs in
  exists tr fs1 r, os_Remove no_faults (path_text abs (cs ++ [n])) fs = (tr, fs1, r) /\
    inodes fs1 = inodes fs /\ cwd fs1 = cwd fs /\ dir_ok fs1 /\
    (forall m, m <> n -> removable fs1 (d ++ [m]) <-> removable fs (d ++ [m])) /\
    (~ removable fs (d ++ [n]) -> ~ removable fs1 (d ++ [n])) /\
    (removable fs (d ++ [n]) -> tree fs1 !! (d ++ [n]) = None) /\
    (forall q, (q = d ++ [n] -> ~ removable fs q) -> tree fs1 !! q = tree fs !! q).
Proof.
  intros Hok Hn d. destruct (remove_child fs n Hok Hn) as (fs1 & H1 & Hi & Hc & Hyes & Hno).
  fold d in Hyes, Hno. destruct (os_Remove _ _ fs) as [[tr fs1'] r]. simpl in H1. subst fs1'.
  exists tr, fs1, r. split; [done |]. split_and!; [done | done |..].
  - destruct (decide (removable fs (d ++ [n]))) as [Hr|Hr].
    + eapply dir_ok_delete; [done | | exact Hok]. rewrite (Hyes Hr). unfold d. by rewrite app_assoc.
    + destruct Hok as [Ha Hb]. unfold dir_ok, node_at in *. rewrite (Hno Hr).
      replace (base_of fs1 abs) with (base_of fs abs) by (destruct abs; simpl; congruence).
      split; [|done]. eapply dirs_ext; [|exact Ha]. intros q _. by rewrite (Hno Hr).
  - intros m Hm. destruct (decide (removable fs (d ++ [n]))) as [Hr|Hr].
    + by apply (removable_delete fs fs1 d n m (Hyes Hr)).
    + unfold removable, children. by rewrite (Hno Hr).
  - intros Hr. unfold removable, children in *. by rewrite (Hno Hr).
  - intros Hr. by rewrite (Hyes Hr), lookup_delete_eq.
  - intros q Hq. destruct (decide (removable fs (d ++ [n]))) as [Hr|Hr]; [|by rewrite (Hno Hr)].
    rewrite (Hyes Hr), lookup_delete_ne; [done |]. intros <-. by apply Hq.
Qed.

(** The removal of a list of names. *)
Lemma remove_all_children fs ns :
  dir_ok fs -> Forall proper ns ->
  let d := base_of fs abs ++ cs in
  exists tr fs', remove_all no_faults ((fun n => path_text abs (cs ++ [n])) <$> ns) fs = (tr, fs', tt) /\
    inodes fs' = inodes fs /\ cwd fs' = cwd fs /\
    (forall n, n ∈ ns -> removable fs (d ++ [n]) -> tree fs' !! (d ++ [n]) = None) /\
    (forall q, (forall n, n ∈ ns -> q = d ++ [n] -> ~ removable fs q) -> tree fs' !! q = tree fs !! q).
Proof.
  intros Hok Hns. revert fs Hok. induction Hns as [|n ns Hn Hns IH]; intros fs Hok d.
  { exists [], fs. split_and!; try done. by intros n ?%elem_of_nil. }
  destruct (remove_child_step fs n Hok Hn) as (tr1 & fs1 & r & H1 & Hi1 & Hc1 & Hok1 & Hrem & Hstay & Hgone & Hkeep).
  fold d in Hrem, Hstay, Hgone, Hkeep.
  assert (base_of fs1 abs = base_of fs abs) as Hb by (destruct abs; simpl; congruence).
  destruct (IH fs1 Hok1) as (tr2 & fs2 & H2 & Hi2 & Hc2 & Hin & Hout). rewrite Hb in Hin, Hout. fold d in Hin, Hout.
  exists (tr1 ++ tr2), fs2. cbn [fmap list_fmap remove_all]. unfold io_bind. rewrite H1, H2.
  split_and!; [done | congruence | congruence | |].
  - intros m Hm Hr. destruct (decide (m = n)) as [->|Hmn].
    + destruct (decide (n ∈ ns)) as [Hn'|Hn']; [apply Hin; [done | left; by rewrite (Hgone Hr)] |].
      rewrite Hout; [by apply Hgone |]. by intros m' ? [= ->]%app_inv_head.
    + apply elem_of_cons in Hm as [->|Hm]; [done |]. apply Hin; [done | by apply Hrem].
  - intros q Hq. rewrite Hout; [apply Hkeep; intros ->; by apply (Hq n); [left |] |].
    intros m Hm -> Hr. destruct (decide (m = n)) as [->|Hmn].
    + apply Hstay in Hr; [done |]. by apply (Hq n); [left |].
    + apply (Hq m); [by right | done | by apply Hrem].
Qed.
End dir.
