(* ===== verification/AuditLogFacts.v ===== *)
(** * What the audit log guarantees

    Cleanup keeps exactly the greatest names among the backups; an event is
    appended whole to the current file; a rotation moves the file aside and
    starts an empty one.  A rotation that fails after the old file is closed is
    never repaired. *)
From Stdlib Require Import ZArith Lia ZifyBool.
From stdpp Require Import base gmap sets list strings pretty fin_maps sorting.
From S2P Require Import Prelude GoTime Engine GoFS GoFSFacts SecurePath SecurePathFacts AuditLog TimeStamp DirFacts.

Local Open Scope Z_scope.
Local Open Scope io_scope.

(** ** Cleanup *)
(** The rank of a name does not depend on the order of the list. *)
#[export] Instance outranked_proper k : Proper ((≡ₚ) ==> (=) ==> iff) (outranked k).
Proof. intros l l' Hp n ? <-. unfold outranked. by rewrite Hp. Qed.

Lemma outranked_length k l n : n ∈ l -> outranked k l n -> (k < length l)%nat.
Proof.
  unfold outranked. intros Hn Hr. apply list_elem_of_split in Hn as (a & b & ->).
  rewrite filter_app, filter_cons_False, length_app in Hr by naive_solver.
  pose proof (length_filter (fun m => String.le n m /\ n <> m) a).
  pose proof (length_filter (fun m => String.le n m /\ n <> m) b).
  rewrite length_app. simpl. lia.
Qed.

Lemma Base_file p pre f : file_path p pre f -> Base p = f.
Proof.
  intros Hf. pose proof Hf as (Hp & (Hs & _) & _). unfold Base.
  destruct (String.eqb_spec p "") as [He|_]; [by eapply file_path_ne in He |].
  rewrite Hp, List.filter_app. simpl. unfold is_skip in Hs. apply orb_false_iff in Hs as [-> _].
  simpl. by rewrite last_snoc.
Qed.

(** The names of a directory are names. *)
Definition names_ok (fs : FS) (d : list string) : Prop :=
  forall n, is_Some (tree fs !! (d ++ [n])) -> proper n.

(** [bs] lists the backups in directory [d]: the names that start with [prefix]. *)
Definition backups_in (fs : FS) (d : list string) (prefix : string) (bs : list string) : Prop :=
  NoDup bs /\ forall n, n ∈ bs <-> is_Some (tree fs !! (d ++ [n])) /\ String.prefix prefix n = true.

Lemma matching_names fs ro d prefix bs :
  backups_in fs d prefix bs ->
  List.filter (String.prefix prefix) (omap last (range_keys ro (children fs d))) ≡ₚ bs.
Proof.
  intros [Hn Hin]. apply NoDup_Permutation; [by apply NoDup_ListNoDup, List.NoDup_filter, NoDup_ListNoDup, NoDup_names | done |].
  intros n. rewrite Hin, <-(elem_of_names fs ro), list_elem_of_In, filter_In, <-list_elem_of_In. done.
Qed.

(** The names the cleanup removes: the backups that [keep] others outrank. *)
Definition stale (keep : Z) (bs : list string) (n : string) : Prop :=
  n ∈ bs /\ outranked (Z.to_nat keep) bs n.

(** The effect of a cleanup of directory [d]. *)
Definition cleaned (keep : Z) (bs : list string) (d : list string) (fs fs' : FS) : Prop :=
  inodes fs' = inodes fs /\ cwd fs' = cwd fs /\
  (forall n, stale keep bs n -> removable fs (d ++ [n]) -> tree fs' !! (d ++ [n]) = None) /\
  (forall q, (forall n, stale keep bs n -> q <> d ++ [n]) -> tree fs' !! q = tree fs !! q).

Lemma read_names_all fs ro abs cs :
  Forall proper cs -> dir_ok abs cs fs ->
  (size (children fs (base_of fs abs ++ cs)) <= maxCleanupEntries)%nat ->
  read_names no_faults ro maxCleanupEntries (path_text abs cs) fs =
    Some (omap last (range_keys ro (children fs (base_of fs abs ++ cs)))).
Proof.
  intros Hcs Hok Hsize. unfold read_names. simpl fault. cbv iota beta.
  rewrite resolve_dir by done. destruct Hok as [_ ->]. f_equal. apply take_ge.
  etransitivity; [|exact Hsize]. rewrite <-(length_range_keys ro).
  generalize (range_keys ro (children fs (base_of fs abs ++ cs))). clear.
  intros l. induction l as [|x l IH]; [done |]. cbn [omap list_omap]. destruct (last x); simpl in *; lia.
Qed.

Lemma cleanup_spec ro c fs pre f bs :
  file_path (au_Path c) pre f -> 0 <= MaxBackups c ->
  let abs := IsAbs (au_Path c) in
  let d := base_of fs abs ++ dir_comps pre in
  dir_ok abs (dir_comps pre) fs -> names_ok fs d ->
  (size (children fs d) <= maxCleanupEntries)%nat ->
  backups_in fs d (f +:+ ".") bs ->
  exists tr fs', cleanupLocked no_faults ro c fs = (tr, fs', tt) /\ cleaned (MaxBackups c) bs d fs fs'.
Proof.
  intros Hf Hmb abs d Hok Hnames Hsize Hbs. pose proof (dir_comps_proper _ _ _ Hf) as Hcs.
  unfold cleanupLocked. rewrite (Base_file _ _ _ Hf), (Dir_spec _ _ _ Hf). fold (dir_comps pre) abs.
  unfold io_ask, io_bind. rewrite read_names_all by done. fold d.
  set (names := omap last (range_keys ro (children fs d))).
  pose proof (matching_names fs ro d (f +:+ ".") bs Hbs) as Hperm. fold names in Hperm.
  set (ms := List.filter (String.prefix (f +:+ ".")) names) in *.
  assert (Forall proper ms) as Hms.
  { apply Forall_forall. intros n Hn. rewrite Hperm in Hn. by apply Hbs in Hn as [Hn%Hnames _]. }
  assert (backup_paths (path_text abs (dir_comps pre)) (f +:+ ".") names =
          (fun n => path_text abs (dir_comps pre ++ [n])) <$> ms) as ->.
  { unfold backup_paths. fold ms. apply list_fmap_ext. intros i n Hi%list_elem_of_lookup_2.
    apply Join_text; [done |]. by eapply Forall_forall in Hms. }
  rewrite length_fmap, (Permutation_length Hperm).
  case_bool.
  { exists [], fs. split; [done |]. split_and!; try done. intros n [Hn Hr] _.
    pose proof (outranked_length _ _ _ Hn Hr). lia. }
  destruct (sorted_paths (Z.to_nat (MaxBackups c)) abs (dir_comps pre) ms) as (ns & Hns & Hin).
  { rewrite Hperm. apply Hbs. }
  replace (Z.to_nat (Z.of_nat (length bs) - MaxBackups c)) with (length ms - Z.to_nat (MaxBackups c))%nat
    by (rewrite (Permutation_length Hperm); lia).
  rewrite Hns. assert (forall n, n ∈ ns <-> stale (MaxBackups c) bs n) as Hstale.
  { intros n. rewrite Hin. unfold stale. by rewrite Hperm. }
  destruct (remove_all_children abs (dir_comps pre) Hcs fs ns Hok) as (tr & fs' & -> & Hi & Hc & Hyes & Hno).
  { apply Forall_forall. intros n Hn%Hstale. apply Hnames, Hbs, Hn. }
  exists ([] ++ tr), fs'. split; [done |]. split_and!; try done.
  - intros n Hn%Hstale. by apply Hyes.
  - intros q Hq. apply Hno. intros n Hn%Hstale ->. by destruct (Hq n).
Qed.

(** ** Rotation *)
Lemma not_numeric_slash : not_numeric slash.
Proof. split; [|done]. intros x. unfold pretty_N_char. by repeat case_match. Qed.

Lemma pad_chars n x : ~ has_char slash (pad n x).
Proof.
  unfold pad. rewrite has_char_app. intros [Hz|Hp].
  - revert Hz. generalize (n - String.length (pretty x))%nat. intros k. induction k as [|k IH]; [done |].
    simpl. by intros [?|?%IH].
  - by apply pretty_Z_sep in Hp; [| apply not_numeric_slash].
Qed.

Lemma utc_stamp_chars t : ~ has_char slash (utc_stamp t).
Proof.
  unfold utc_stamp. destruct (civil _) as [[y m] d]. rewrite !has_char_app.
  intros H. repeat destruct H as [H|H]; try (by apply pad_chars in H); done.
Qed.

(** The name of a backup. *)
Definition rotated_name (f : string) (now : Time) : string := f +:+ "." +:+ utc_stamp now.

Lemma name_ne_log f t : f <> rotated_name f t.
Proof.
  intros He. apply (f_equal String.length) in He. unfold rotated_name in He.
  rewrite !str_length_app in He. simpl in He. lia.
Qed.

Lemma utc_stamp_length t : (1 <= String.length (utc_stamp t))%nat.
Proof.
  unfold utc_stamp. destruct (civil _) as [[y m] d]. rewrite !str_length_app. simpl. lia.
Qed.

Lemma rotated_proper f now : proper f -> proper (rotated_name f now).
Proof.
  intros (Hs & Hd & Hc). assert (3 <= String.length (rotated_name f now))%nat as Hlen.
  { unfold rotated_name. rewrite !str_length_app. pose proof (utc_stamp_length now).
    destruct f; [done |]. simpl. lia. }
  split_and!.
  - unfold is_skip. apply orb_false_iff. split; apply String.eqb_neq; intros He; rewrite He in Hlen; simpl in Hlen; lia.
  - intros He. rewrite He in Hlen. simpl in Hlen. lia.
  - unfold rotated_name. rewrite !has_char_app. intros [?|[Hdot|?%utc_stamp_chars]]; [done | | done].
    simpl in Hdot. by destruct Hdot.
Qed.

Section rotation.
Context (fs : FS) (now : Time) (path : string) (pre : list string) (f : string).
Context (Hf : file_path path pre f).

Let d : list string := base_of fs (IsAbs path) ++ dir_comps pre.
Let rp : list string := d ++ [f].
Let rot : list string := d ++ [rotated_name f now].

Lemma lexical_rp : lexical_path fs path = rp.
Proof. unfold lexical_path, rp, d. rewrite (file_path_comps _ _ _ Hf). by rewrite <-app_assoc. Qed.

Lemma rotated_path :
  file_path (path +:+ "." +:+ utc_stamp now) pre (rotated_name f now) /\
  IsAbs (path +:+ "." +:+ utc_stamp now) = IsAbs path /\
  lexical_path fs (path +:+ "." +:+ utc_stamp now) = rot.
Proof.
  assert (file_path (path +:+ ("." +:+ utc_stamp now)) pre (f +:+ ("." +:+ utc_stamp now)) /\
          IsAbs (path +:+ ("." +:+ utc_stamp now)) = IsAbs path) as [H1 H2].
  { apply file_path_sibling; [done | apply (rotated_proper f now), Hf |].
    rewrite has_char_app. intros [Hdot|?%utc_stamp_chars]; [|done]. simpl in Hdot. by destruct Hdot. }
  split_and!; [done | done |]. unfold lexical_path. rewrite H2, (file_path_comps _ _ _ H1).
  unfold rot, d. by rewrite <-app_assoc.
Qed.

Lemma rp_ne_rot : rp <> rot.
Proof. unfold rp, rot. intros [= He]%app_inv_head. by apply name_ne_log in He. Qed.

(** The tree after the file was moved aside and a new one created. *)
Definition moved (ino ino2 : nat) (fs2 : FS) : Prop :=
  tree fs2 = <[rp := NFile ino2]> (<[rot := NFile ino]> (delete rp (tree fs))) /\
  inodes fs2 = <[ino2 := mkInode [] now]> (inodes fs) /\ cwd fs2 = cwd fs /\ ino2 ∉ dom (inodes fs).

Lemma dir_ok_ext fs' :
  cwd fs' = cwd fs ->
  (forall q, (length q <= length d)%nat -> tree fs' !! q = tree fs !! q) ->
  dir_ok (IsAbs path) (dir_comps pre) fs -> dir_ok (IsAbs path) (dir_comps pre) fs'.
Proof.
  intros Hc Hq [Hd Hn]. unfold dir_ok.
  replace (base_of fs' (IsAbs path)) with (base_of fs (IsAbs path)) by (destruct (IsAbs path); simpl; congruence).
  fold d. fold d in Hn. split; [eapply dirs_ext; [|exact Hd]; intros q ?; apply Hq; unfold d; rewrite length_app; lia |].
  unfold node_at in *. destruct d eqn:He; [done |]. rewrite <-He in *. by rewrite Hq.
Qed.

Lemma short_ne n q : (length q <= length d)%nat -> q <> d ++ [n].
Proof. intros Hl ->. rewrite length_app in Hl. simpl in Hl. lia. Qed.

Lemma node_at_snoc fs' n : node_at fs' (d ++ [n]) = tree fs' !! (d ++ [n]).
Proof. unfold node_at. by destruct (d ++ [n]) eqn:He; [destruct d |]. Qed.

Lemma rename_open ino :
  dir_ok (IsAbs path) (dir_comps pre) fs ->
  tree fs !! rp = Some (NFile ino) -> tree fs !! rot = None ->
  exists fs1 fs2 ino2, os_Rename no_faults path (path +:+ "." +:+ utc_stamp now) fs = ([fs1], fs1, None) /\
    openAuditFile no_faults now path fs1 = ([fs2], fs2, inl ino2) /\ moved ino ino2 fs2.
Proof.
  intros Hok Hp Hr. pose proof rp_ne_rot as Hne. destruct rotated_path as (Hrf & Hra & Hrl).
  set (fs1 := set_tree (<[rot := NFile ino]> (delete rp (tree fs))) fs).
  assert (dir_ok (IsAbs path) (dir_comps pre) fs1) as Hok1.
  { apply dir_ok_ext; [done | | done]. intros q Hq. simpl.
    by rewrite lookup_insert_ne, lookup_delete_ne by (apply not_eq_sym; by apply short_ne). }
  destruct Hok as [Hd _], Hok1 as [Hd1 _].
  exists fs1. unfold os_Rename. simpl fault. cbv iota beta.
  destruct (resolve_dirs fs path pre f Hf) as [-> _]; [|done].
  destruct (resolve_dirs fs _ pre _ Hrf) as [-> _]; [|by rewrite Hra].
  rewrite Hrl, lexical_rp. unfold rp, rot. rewrite !node_at_snoc. fold rp rot. rewrite Hp, Hr. simpl same_file. cbv iota.
  eexists _, _. split; [done |].
  unfold openAuditFile, io_bind, open_write. simpl fault. cbv iota beta.
  destruct (resolve_dirs fs1 path pre f Hf) as [-> _]; [|done].
  replace (lexical_path fs1 path) with rp by (symmetry; apply lexical_rp).
  unfold rp. rewrite node_at_snoc. fold rp.
  assert (tree fs1 !! rp = None) as ->.
  { simpl. by rewrite lookup_insert_ne, lookup_delete_eq. }
  unfold create_at, io_set, io_ret. simpl. split; [done |].
  split_and!; try done. apply is_fresh.
Qed.

Lemma prefix_longer (s : string) c : String.prefix (s +:+ String c "") s = false.
Proof.
  induction s as [|a s IH]; [done |].
  change (String.prefix (String a (s +:+ String c "")) (String a s) = false). simpl.
  by destruct (Ascii.ascii_dec a a).
Qed.

(** The directory after the move: one more name. *)
Lemma moved_names ino ino2 fs2 n :
  moved ino ino2 fs2 -> tree fs !! rp = Some (NFile ino) ->
  is_Some (tree fs2 !! (d ++ [n])) <-> n = rotated_name f now \/ is_Some (tree fs !! (d ++ [n])).
Proof.
  intros (Ht & _) Hp. rewrite Ht. destruct (decide (n = f)) as [->|Hnf].
  { fold rp. rewrite lookup_insert_eq, Hp. naive_solver. }
  rewrite lookup_insert_ne by (unfold rp; intros [= ->]%app_inv_head; done).
  destruct (decide (n = rotated_name f now)) as [->|Hnr].
  { fold rot. rewrite lookup_insert_eq. naive_solver. }
  rewrite lookup_insert_ne by (unfold rot; intros [= He]%app_inv_head; congruence).
  rewrite lookup_delete_ne by (unfold rp; intros [= ->]%app_inv_head; done). naive_solver.
Qed.

Lemma moved_size ino ino2 fs2 :
  moved ino ino2 fs2 -> tree fs !! rp = Some (NFile ino) ->
  (size (children fs2 d) <= S (size (children fs d)))%nat.
Proof.
  intros Hm Hp. assert (dom (children fs2 d) ⊆ {[ rot ]} ∪ dom (children fs d)) as Hsub.
  { intros q [v Hv]%elem_of_dom. apply map_lookup_filter_Some in Hv as [Hv [n Hn]]. simpl in Hn. subst q.
    destruct (proj1 (moved_names ino ino2 fs2 n Hm Hp)) as [->|[w Hw]]; [eauto | set_solver |].
    apply elem_of_union_r, elem_of_dom. exists w. apply map_lookup_filter_Some. split; [done | by exists n]. }
  apply subseteq_size in Hsub. rewrite size_dom in Hsub.
  pose proof (size_union_alt {[rot]} (dom (children fs d))) as Hu. rewrite size_singleton in Hu.
  pose proof (subseteq_size (dom (children fs d) ∖ {[rot]}) (dom (children fs d)) ltac:(set_solver)).
  rewrite size_dom in *. lia.
Qed.
End rotation.

(** When the directory holds no more names than one scan reads, cleanup removes
    exactly the backups that at least [MaxBackups] other backups sort after (of those, the files,
    links and empty directories), in whatever order the directory lists them, and touches nothing
    else. *)
Theorem audit_keeps_newest ro c fs pre f bs :
  file_path (au_Path c) pre f -> 0 <= MaxBackups c ->
  let abs := IsAbs (au_Path c) in
  let d := base_of fs abs ++ dir_comps pre in
  dir_ok abs (dir_comps pre) fs -> names_ok fs d ->
  (size (children fs d) <= maxCleanupEntries)%nat ->
  backups_in fs d (f +:+ ".") bs ->
  exists tr fs', cleanupLocked no_faults ro c fs = (tr, fs', tt) /\ cleaned (MaxBackups c) bs d fs fs'.
Proof. apply cleanup_spec. Qed.

(** The state in which a rotation starts: the logger writes to the file the path
    spells and the backup's name is free. *)
Record rotating (fs : FS) (now : Time) (l : Logger) (pre : list string) (f : string) (ino : nat) (i : inode) : Prop := {
  ro_path : file_path (au_Path (lg_cfg l)) pre f;
  ro_keep : 0 <= MaxBackups (lg_cfg l);
  ro_cwd : cwd_ok fs;
  ro_dir : dir_ok (IsAbs (au_Path (lg_cfg l))) (dir_comps pre) fs;
  ro_names : names_ok fs (base_of fs (IsAbs (au_Path (lg_cfg l))) ++ dir_comps pre);
  ro_scan : (size (children fs (base_of fs (IsAbs (au_Path (lg_cfg l))) ++ dir_comps pre)) < maxCleanupEntries)%nat;
  ro_ok : fs_ok fs;
  ro_fd : lg_file l = FdOpen ino;
  ro_file : tree fs !! (base_of fs (IsAbs (au_Path (lg_cfg l))) ++ dir_comps pre ++ [f]) = Some (NFile ino);
  ro_data : inodes fs !! ino = Some i;
  ro_free : tree fs !! (base_of fs (IsAbs (au_Path (lg_cfg l))) ++ dir_comps pre ++ [rotated_name f now]) = None;
}.

(** The backups after the rotation, with the new one. *)
Definition backups_after (fs : FS) (d : list string) (f new : string) (bs : list string) : Prop :=
  NoDup bs /\ forall n, n ∈ bs <-> (n = new \/ is_Some (tree fs !! (d ++ [n]))) /\ String.prefix (f +:+ ".") n = true.

(** A rotation, before the event is written. *)
Lemma rotate_spec ro fs now l pre f ino i bs :
  rotating fs now l pre f ino i ->
  let d := base_of fs (IsAbs (au_Path (lg_cfg l))) ++ dir_comps pre in
  backups_after fs d f (rotated_name f now) bs ->
  exists tr fs2 fs3 ino2, rotateLocked no_faults ro now l fs =
      (tr, fs3, (None, mkLogger (FdOpen ino2) (lg_cfg l) 0 (lg_closed l) None)) /\
    moved fs now (au_Path (lg_cfg l)) pre f ino ino2 fs2 /\ cleaned (MaxBackups (lg_cfg l)) bs d fs2 fs3.
Proof.
  intros [Hf Hkeep Hcwd Hok Hnames Hscan Hfs Hfd Hp Hi Hr] d [Hnd Hbs].
  rewrite app_assoc in Hp, Hr. fold d in Hp, Hr, Hnames, Hscan.
  destruct (rename_open fs now _ pre f Hf ino Hok Hp Hr) as (fs1 & fs2 & ino2 & Hren & Hopen & Hm).
  pose proof Hm as (Ht & _ & Hc & _).
  assert (base_of fs2 (IsAbs (au_Path (lg_cfg l))) = base_of fs (IsAbs (au_Path (lg_cfg l)))) as Hb
    by (destruct (IsAbs _); simpl; congruence).
  destruct (cleanup_spec ro (lg_cfg l) fs2 pre f bs Hf Hkeep) as (tr & fs3 & Hcl & Hcleaned).
  - apply (dir_ok_ext fs now _ pre f); [exact Hc | | exact Hok]. intros q Hq. rewrite Ht.
    by rewrite !lookup_insert_ne, lookup_delete_ne by (apply not_eq_sym; by apply short_ne).
  - rewrite Hb. fold d. intros n [->|Hn]%(moved_names fs now _ pre f Hf ino ino2 fs2 n Hm Hp);
      [apply rotated_proper, Hf | by apply Hnames].
  - rewrite Hb. pose proof (moved_size fs now _ pre f Hf ino ino2 fs2 Hm Hp). fold d. unfold d in *. lia.
  - rewrite Hb. split; [done |]. intros n. by rewrite Hbs, (moved_names fs now _ pre f Hf ino ino2 fs2 n Hm Hp).
  - rewrite Hb in Hcleaned. eexists _, fs2, fs3, ino2. split; [|split; [done | exact Hcleaned]].
    unfold rotateLocked. eapply io_bind_eq; [done |].
    rewrite (reject_dirs fs (au_Path (lg_cfg l)) pre f Hf Hcwd (proj1 Hok)), Hfd.
    eapply io_bind_eq; [exact Hren |]. eapply io_bind_eq; [exact Hopen |].
    eapply io_bind_eq; [exact Hcl | done].
Qed.

Section logging.
Context (enc : AuditEvent -> list Z + string) (fmtLen : AuditEvent -> Z).

Lemma append_data now ino bs fs q :
  file_data (append_bytes now ino bs fs) q =
    match tree fs !! q with
    | Some (NFile k) => if decide (k = ino) then (fun i => i_data i ++ bs) <$> inodes fs !! ino
                        else i_data <$> inodes fs !! k
    | _ => None
    end.
Proof.
  unfold file_data, append_bytes. destruct (inodes fs !! ino) as [i|] eqn:Hi; simpl.
  - destruct (tree fs !! q) as [[|k| |]|]; try done. case_decide as Hk.
    + subst k. by rewrite lookup_insert_eq.
    + by rewrite lookup_insert_ne.
  - destruct (tree fs !! q) as [[|k| |]|]; try done. case_decide as Hk; [subst k |]; by rewrite ?Hi.
Qed.

Lemma encode_ok now l e line ino fs :
  lg_encErr l = None -> lg_file l = FdOpen ino -> enc e = inl line ->
  encode_event enc no_faults now l e fs =
    (List.map (fun k => append_bytes now ino (take k line) fs) (seq 0 (S (length line))),
     append_bytes now ino line fs, (None, l)).
Proof.
  intros He Hf Henc. unfold encode_event. rewrite He, Henc, Hf. destruct l as [file cfg size closed err].
  simpl in He, Hf. subst. unfold io_bind, write_all. simpl fault. cbv iota beta. cbn [fst snd].
  simpl. by rewrite firstn_all, app_nil_r.
Qed.

(** Logging an event that is due for rotation moves the whole log to a backup with
    the time in its name, starts a new file that holds exactly the event, removes the
    stale backups and changes no other file. *)
Lemma rotation_spec ro fs now l pre f ino i e line bs :
  rotating fs now l pre f ino i -> lg_closed l = false ->
  wrap64 (MaxSizeMB (lg_cfg l) * 1024 * 1024) <= lg_size l -> enc e = inl line ->
  let d := base_of fs (IsAbs (au_Path (lg_cfg l))) ++ dir_comps pre in
  let gone := stale (MaxBackups (lg_cfg l)) bs in
  backups_after fs d f (rotated_name f now) bs ->
  exists tr fs' ino2,
    Log enc fmtLen no_faults ro now e l fs =
      (tr, fs', (None, mkLogger (FdOpen ino2) (lg_cfg l) (wrap64 (0 + fmtLen e)) false None)) /\
    file_data fs' (d ++ [f]) = Some line /\
    (~ gone (rotated_name f now) -> file_data fs' (d ++ [rotated_name f now]) = Some (i_data i)) /\
    (forall n, gone n -> n <> rotated_name f now -> is_Some (file_data fs (d ++ [n])) ->
     file_data fs' (d ++ [n]) = None) /\
    (forall q, q <> d ++ [f] -> q <> d ++ [rotated_name f now] -> (forall n, gone n -> q <> d ++ [n]) ->
     file_data fs' q = file_data fs q).
Proof.
  intros Hro Hopen Hdue Henc d gone Hbs.
  destruct (rotate_spec ro fs now l pre f ino i bs Hro Hbs) as (tr & fs2 & fs3 & ino2 & Hrot & Hm & Hcl).
  fold d in Hcl. pose proof (rp_ne_rot fs now (au_Path (lg_cfg l)) pre f) as Hne. fold d in Hne.
  destruct Hro as [Hf _ _ _ _ _ Hfs _ _ Hi _], Hm as (Ht & Hin & _ & Hfresh), Hcl as (Hin3 & _ & Hgone & Hkeep).
  fold d in Ht. fold gone in Hgone, Hkeep.
  exists (tr ++ List.map (fun k => append_bytes now ino2 (take k line) fs3) (seq 0 (S (length line))) ++ []),
    (append_bytes now ino2 line fs3), ino2.
  assert (forall q, q <> d ++ [f] -> q <> d ++ [rotated_name f now] -> tree fs2 !! q = tree fs !! q) as Hother.
  { intros q H1 H2. by rewrite Ht, !lookup_insert_ne, lookup_delete_ne by (by apply not_eq_sym). }
  assert (forall k, k ∈ dom (inodes fs) -> k <> ino2) as Hold by (intros k Hk ->; done).
  assert (forall n, gone n -> n <> f) as Hgf.
  { intros n [Hn _] ->. apply Hbs in Hn as [_ Hn]. by rewrite prefix_longer in Hn. }
  split_and!.
  - unfold Log. rewrite Hopen. eapply io_bind_eq; [by rewrite (proj2 (Z.leb_le _ _) Hdue) |].
    eapply io_bind_eq; [by apply encode_ok |].
    simpl. by rewrite Hopen.
  - rewrite append_data, Hkeep by (intros n Hn [= <-]%app_inv_head; by apply Hgf in Hn).
    rewrite Ht, lookup_insert_eq, decide_True by done. by rewrite Hin3, Hin, lookup_insert_eq.
  - intros Hs. rewrite append_data, Hkeep by (intros n Hn He; apply Hs; by apply app_inv_head in He as [= ->]).
    rewrite Ht, lookup_insert_ne, lookup_insert_eq by done.
    assert (ino <> ino2) by (apply Hold; by eapply elem_of_dom_2).
    rewrite decide_False, Hin3, Hin, lookup_insert_ne by done. by rewrite Hi.
  - intros n Hn Hnew [dt Hd]. rewrite append_data, Hgone; [done.. |]. left.
    rewrite Hother by (intros [= He]%app_inv_head; first [by apply (Hgf n) | by apply Hnew]). unfold file_data in Hd.
    destruct (tree fs !! _) as [[]|]; done.
  - intros q Hq Hqr Hqb. rewrite append_data, Hkeep by done. rewrite Hother by done.
    unfold file_data. destruct (tree fs !! q) as [[|k| |]|] eqn:Hk; try done.
    destruct (Hfs q k Hk) as [j Hj]. assert (k <> ino2) by (apply Hold; by eapply elem_of_dom_2).
    rewrite decide_False, Hin3, Hin, lookup_insert_ne by done. done.
Qed.

(** How many of the times are later. *)
Definition newer (t : Time) (ts : list Time) : nat := length (filter (fun t' => unix t < unix t') ts).

Lemma length_filter_map {A B} (g : A -> B) (P : B -> Prop) (Q : A -> Prop)
    `{forall x, Decision (P x), forall x, Decision (Q x)} l :
  Forall (fun x => P (g x) <-> Q x) l -> length (filter P (g <$> l)) = length (filter Q l).
Proof.
  induction 1 as [|x l Hx _ IH]; [done |]. rewrite fmap_cons, !filter_cons.
  destruct (decide (P (g x))), (decide (Q x)); simpl; try tauto; lia.
Qed.

(** The backups that sort after another are those of later times. *)
Lemma stale_times keep f ts t :
  Forall (fun t => 0 <= unix t < year_10000) ts -> t ∈ ts ->
  stale keep (rotated_name f <$> ts) (rotated_name f t) <-> (Z.to_nat keep <= newer t ts)%nat.
Proof.
  intros Hall Ht. unfold stale, outranked, newer.
  rewrite (length_filter_map (rotated_name f) _ (fun t' => unix t < unix t')).
  { split; [by intros [_ ?] |]. intros ?. split; [|done]. by apply list_elem_of_fmap_2. }
  eapply Forall_impl; [exact Hall |]. intros t' Ht'. eapply Forall_forall in Hall; [|exact Ht]. cbn beta in *.
  assert (forall a b, 0 <= unix a < unix b -> unix b < year_10000 -> slt (rotated_name f a) (rotated_name f b)) as Hlt.
  { intros a b H1 H2. apply slt_app_r, slt_app_r. by apply utc_stamp_lt. }
  destruct (Z.lt_trichotomy (unix t) (unix t')) as [H|[H|H]].
  - split; [done |]. intros _. apply slt_le_ne, Hlt; lia.
  - assert (rotated_name f t = rotated_name f t') as -> by (unfold rotated_name, utc_stamp; by rewrite H).
    split; [by intros [_ []] | lia].
  - split; [|lia]. intros [Hle _]. exfalso. revert Hle. apply slt_not_le, Hlt; lia.
Qed.

(** C40: Logging an event that is due for rotation moves the whole log to a backup
    named by the time and starts a new file that holds exactly the event; of the backups, the new one
    among them, exactly the [MaxBackups] newest survive unchanged and the older ones are removed,
    whatever order the directory lists them in; no other file changes.  This holds when no system call
    fails, the name of the new backup is free and the directory has at most the 4096 entries that the
    cleanup reads. *)
Theorem rotation_keeps_newest ro fs now l pre f ino i e line ts :
  rotating fs now l pre f ino i -> lg_closed l = false ->
  wrap64 (MaxSizeMB (lg_cfg l) * 1024 * 1024) <= lg_size l -> enc e = inl line ->
  let d := base_of fs (IsAbs (au_Path (lg_cfg l))) ++ dir_comps pre in
  let keep := MaxBackups (lg_cfg l) in
  0 < keep -> Forall (fun t => 0 <= unix t < unix now) ts -> 0 <= unix now < year_10000 ->
  backups_after fs d f (rotated_name f now) (rotated_name f <$> now :: ts) ->
  exists tr fs' ino2,
    Log enc fmtLen no_faults ro now e l fs =
      (tr, fs', (None, mkLogger (FdOpen ino2) (lg_cfg l) (wrap64 (0 + fmtLen e)) false None)) /\
    file_data fs' (d ++ [f]) = Some line /\
    file_data fs' (d ++ [rotated_name f now]) = Some (i_data i) /\
    (forall t dt, t ∈ ts -> file_data fs (d ++ [rotated_name f t]) = Some dt ->
     file_data fs' (d ++ [rotated_name f t]) = if Z.of_nat (newer t (now :: ts)) <? keep then Some dt else None) /\
    (forall q, q <> d ++ [f] -> (forall t, t ∈ now :: ts -> q <> d ++ [rotated_name f t]) ->
     file_data fs' q = file_data fs q).
Proof.
  intros Hro Hopen Hdue Henc d keep Hkeep Hts Hnow Hbs.
  assert (Forall (fun t => 0 <= unix t < year_10000) (now :: ts)) as Hall.
  { constructor; [done |]. eapply Forall_impl; [exact Hts |]. simpl. lia. }
  destruct (rotation_spec ro fs now l pre f ino i e line _ Hro Hopen Hdue Henc Hbs)
    as (tr & fs' & ino2 & Hrun & Hlog & Hnew & Hgone & Hother). fold d keep in Hlog, Hnew, Hgone, Hother.
  assert (newer now (now :: ts) = 0%nat) as Hnewest.
  { apply length_filter_none. constructor; [lia |]. eapply Forall_impl; [exact Hts |]. simpl. lia. }
  exists tr, fs', ino2. split_and!; [done | done | | |].
  - apply Hnew. rewrite stale_times by (done || by left). lia.
  - intros t dt Ht Hdt. assert (t ∈ now :: ts) as Hin by (by right).
    assert (rotated_name f t <> rotated_name f now) as Hne.
    { eapply Forall_forall in Hts; [|exact Ht]. simpl in Hts. apply slt_le_ne, slt_app_r, slt_app_r, utc_stamp_lt; lia. }
    pose proof (stale_times keep f _ _ Hall Hin) as Hst. case Z.ltb_spec; intros Hk.
    + rewrite Hother, Hdt; [done | intros [= He]%app_inv_head | by intros [= ?]%app_inv_head |].
      * symmetry in He. by apply name_ne_log in He.
      * intros n Hn [= <-]%app_inv_head. apply Hst in Hn. lia.
    + apply Hgone; [apply Hst; lia | done | eauto].
  - intros q Hq Hqb. apply Hother; [done | apply Hqb; by left |].
    intros n [(t & -> & Ht)%list_elem_of_fmap _]. by apply Hqb.
Qed.

(** A rotation that fails once the old file is closed leaves a logger that refuses
    every event from then on, also when the cause has gone. *)
Theorem failed_rotation_is_final ro fs now l e flt :
  lg_closed l = false -> lg_file l = FdClosed ->
  wrap64 (MaxSizeMB (lg_cfg l) * 1024 * 1024) <= lg_size l ->
  exists err, Log enc fmtLen flt ro now e l fs = ([], fs, (Some err, l)).
Proof.
  intros Hopen Hfd Hdue. unfold Log. rewrite Hopen, (proj2 (Z.leb_le _ _) Hdue).
  unfold rotateLocked, io_bind, io_ask. rewrite Hfd.
  destruct (RejectSymlinkComponents flt fs _); simpl; eauto.
Qed.

(** One write that fails (a full disk, say) silences a log that is not due for rotation: no later event is
    written, also when the cause has gone, and since the size no longer grows no rotation replaces
    the encoder. *)
Theorem failed_write_is_final ro fs now l e flt line ino err :
  lg_closed l = false -> lg_encErr l = None -> lg_file l = FdOpen ino ->
  lg_size l < wrap64 (MaxSizeMB (lg_cfg l) * 1024 * 1024) ->
  enc e = inl line -> fault flt OpWrite (au_Path (lg_cfg l)) = Some err ->
  exists tr fs' l', Log enc fmtLen flt ro now e l fs =
      (tr, fs', (Some ("encoding audit event: " +:+ err), l')) /\
    forall flt' ro' now' e' fs'', Log enc fmtLen flt' ro' now' e' l' fs'' =
      ([], fs'', (Some ("encoding audit event: " +:+ err), l')).
Proof.
  intros Hc He Hf Hs Henc Hw. destruct l as [file cfg size closed encErr]. simpl in *. subst.
  eexists _, _, (mkLogger (FdOpen ino) cfg size false (Some err)). split.
  - unfold Log. cbn [lg_closed lg_cfg lg_size lg_encErr lg_file]. rewrite (proj2 (Z.leb_gt _ _) Hs).
    eapply io_bind_eq; [done |]. cbv beta iota. eapply io_bind_eq.
    + unfold encode_event. cbn [lg_closed lg_cfg lg_size lg_encErr lg_file]. rewrite Henc.
      eapply io_bind_eq; [unfold write_all; by rewrite Hw | done].
    + done.
  - intros flt' ro' now' e' fs''. unfold Log. cbn [lg_closed lg_cfg lg_size lg_encErr lg_file].
    rewrite (proj2 (Z.leb_gt _ _) Hs). done.
Qed.
End logging.

(** ** Concrete runs *)
Definition audit_names : list string :=
  ["audit.log"; "audit.log.20240101T000000Z"; "audit.log.20240102T000000Z"; "other"]%string.

(** A log directory with two backups. *)
Definition audit_fs : FS :=
  mkFS (<[["log"]%string := NDir]>
        (list_to_map (imap (fun k n => (["log"; n]%string, NFile k)) audit_names)))
    (list_to_map (imap (fun k _ => (k, mkInode [Z.of_nat k] zeroTime)) audit_names)) [].

Definition audit_cfg : AuditConfig := mkAuditConfig "/log/audit.log" 1 1.

Lemma audit_file_path : file_path "/log/audit.log" [""; "log"]%string "audit.log".
Proof.
  split_and!; [done | | by repeat constructor].
  split_and!; [done | done |]. vm_compute. intros H. repeat (destruct H as [H|H]; [done |]). done.
Qed.

Lemma audit_dir_ok : dir_ok true ["log"]%string audit_fs.
Proof. by repeat split. Qed.

Lemma audit_listing n : is_Some (tree audit_fs !! (["log"]%string ++ [n])) <-> n ∈ audit_names.
Proof.
  rewrite <-(elem_of_names audit_fs (map_order _ _) ["log"]%string n).
  assert (omap last (range_keys (map_order _ _) (children audit_fs ["log"]%string)) ≡ₚ audit_names) as ->; [|done].
  vm_compute. solve_Permutation.
Qed.

Lemma audit_names_proper : Forall proper audit_names.
Proof.
  repeat constructor; try done; vm_compute; intros H; repeat (destruct H as [H|H]; [done |]); done.
Qed.

Lemma audit_names_ok : names_ok audit_fs ["log"]%string.
Proof. intros n Hn%audit_listing. by eapply Forall_forall in Hn; [|apply audit_names_proper]. Qed.

(** The listing restricted to the backups. *)
Lemma audit_backups new (Hnew : new ∉ audit_names) (Hp : String.prefix "audit.log." new = true) :
  backups_after audit_fs ["log"]%string "audit.log" new
    [new; "audit.log.20240101T000000Z"; "audit.log.20240102T000000Z"]%string.
Proof.
  split.
  - constructor; [|repeat constructor; set_solver]. intros Hin. apply Hnew. unfold audit_names. set_solver.
  - intros n. rewrite audit_listing. unfold audit_names. rewrite !elem_of_cons, elem_of_nil. split.
    + intros [->|[->|[->|[]]]]; (split; [tauto | done]).
    + intros [[->|[->|[->|[->|[->|[]]]]]] Hpre]; try tauto; by vm_compute in Hpre.
Qed.

Lemma audit_keeps_newest_witness :
  exists tr fs', cleanupLocked no_faults (map_order _ _) audit_cfg audit_fs = (tr, fs', tt) /\
    tree fs' !! ["log"; "audit.log.20240101T000000Z"]%string = None /\
    tree fs' !! ["log"; "audit.log.20240102T000000Z"]%string = Some (NFile 2).
Proof.
  destruct (audit_keeps_newest (map_order _ _) audit_cfg audit_fs [""; "log"]%string "audit.log"
    ["audit.log.20240101T000000Z"; "audit.log.20240102T000000Z"]%string audit_file_path)
    as (tr & fs' & Hrun & _ & _ & Hgone & Hkept).
  - done.
  - exact audit_dir_ok.
  - exact audit_names_ok.
  - vm_compute. lia.
  - split; [repeat constructor; set_solver |]. intros n. change (base_of audit_fs (IsAbs (au_Path audit_cfg)) ++ _)
      with ["log"]%string. rewrite audit_listing. unfold audit_names. rewrite !elem_of_cons, elem_of_nil. split.
    + intros [->|[->|[]]]; (split; [tauto | done]).
    + intros [[->|[->|[->|[->|[]]]]] Hpre]; try tauto; by vm_compute in Hpre.
  - exists tr, fs'. split; [done |]. split.
    + apply (Hgone "audit.log.20240101T000000Z"%string); [split; [by left | vm_compute; lia] | by left].
    + etransitivity; [apply (Hkept ["log"; "audit.log.20240102T000000Z"]%string) | reflexivity].
      intros n [Hn Hr] He. injection He as <-. vm_compute in Hr. lia.
Defined.

(** January 3, 2024, and an encoder that writes the type of the event. *)
Definition jan3 : Time := mkTime (1704240000 * Second) None.

Definition type_line (e : AuditEvent) : list Z + string :=
  inl [Z.of_nat (String.length (a_Type e)); 10].

Definition full_logger : Logger := mkLogger (FdOpen 0) audit_cfg (1024 * 1024) false None.

Lemma audit_rotating : rotating audit_fs jan3 full_logger [""; "log"]%string "audit.log" 0 (mkInode [0] zeroTime).
Proof.
  split; try done; [exact audit_file_path | exact audit_names_ok | vm_compute; lia |].
  intros q ino Hq. apply elem_of_map_to_list in Hq.
  assert (Forall (fun kv => match kv.2 with NFile n => (n < 4)%nat | _ => True end) (map_to_list (tree audit_fs))) as Hall
    by (vm_compute; repeat constructor; lia).
  eapply Forall_forall in Hall; [|exact Hq]. simpl in Hall.
  do 4 (destruct ino as [|ino]; [vm_compute; eauto |]). lia.
Qed.

Definition jan (n : Z) : Time := mkTime ((1703980800 + 86400 * n) * Second) None.

Lemma rotation_keeps_newest_witness :
  exists tr fs' l', Log type_line (fun _ => 40) no_faults (map_order _ _) jan3
      (mkAuditEvent jan3 "packet_block" "" "" "" "" 0 0 0 "") full_logger audit_fs = (tr, fs', (None, l')) /\
    file_data fs' ["log"; "audit.log"]%string = Some [12; 10] /\
    file_data fs' ["log"; "audit.log.20240103T000000Z"]%string = Some [0] /\
    file_data fs' ["log"; "audit.log.20240102T000000Z"]%string = None.
Proof.
  destruct (rotation_keeps_newest type_line (fun _ => 40) (map_order _ _) audit_fs jan3 full_logger [""; "log"]%string
    "audit.log" 0 (mkInode [0] zeroTime) (mkAuditEvent jan3 "packet_block" "" "" "" "" 0 0 0 "") [12; 10]
    [jan 1; jan 2] audit_rotating) as (tr & fs' & ino2 & Hrun & Hnew & Hold & Hgone & _).
  - done.
  - vm_compute. discriminate.
  - done.
  - done.
  - repeat constructor; vm_compute; congruence.
  - split; vm_compute; congruence.
  - exact (audit_backups "audit.log.20240103T000000Z" ltac:(vm_compute; set_solver) eq_refl).
  - exists tr, fs', (mkLogger (FdOpen ino2) audit_cfg 40 false None). split_and!; [exact Hrun | exact Hnew | exact Hold |].
    assert (rotated_name "audit.log" (jan 2) = "audit.log.20240102T000000Z"%string) as Hn by (vm_compute; reflexivity).
    specialize (Hgone (jan 2) [2]). rewrite Hn in Hgone.
    etransitivity; [apply Hgone; [right; by left | reflexivity] | vm_compute; reflexivity].
Defined.

(** Two rotations within one second give both backups the same name: the second
    replaces the first, whose events are lost. *)
Theorem same_second_loses_backup :
  let e := mkAuditEvent jan3 "packet_block" "" "" "" "" 0 0 0 "" in
  let log := Log type_line (fun _ => 1024 * 1024) no_faults (map_order _ _) jan3 e in
  let '(_, fs1, (r1, l1)) := log full_logger audit_fs in
  let '(_, fs2, (r2, l2)) := log l1 fs1 in
  r1 = None /\ r2 = None /\
  tree fs1 !! ["log"; "audit.log.20240103T000000Z"]%string = Some (NFile 0) /\
  Forall (fun kv => kv.2 <> NFile 0) (map_to_list (tree fs2)).
Proof. vm_compute. split_and!; try reflexivity. repeat constructor; discriminate. Qed.
