(* ===== verification/EventText.v ===== *)
(** * The texts of audit events and alerts

    What the JSON encoder writes for an [AuditEvent] (the struct tags of
    src/internal/audit/audit.go), and the body of the webhook request that [fire] of
    src/internal/alert/alert.go sends.  Time stamps follow [time.RFC3339Nano] and
    [time.RFC3339]; the offset of the local time zone at an instant is an argument. *)
From Stdlib Require Import ZArith Lia ZifyBool.
From stdpp Require Import base gmap sets list strings pretty.
From S2P Require Import Prelude GoTime GoNet GoNetFacts Alert Engine GoFS GoFSFacts Persist GoJSON GoJSONFacts AuditLog AuditLogFacts.

Local Open Scope Z_scope.

(** ** Time stamps *)

(** [appendInt] *)
Definition appendInt (x : Z) (width : nat) : string := if x <? 0 then "-" +:+ pad width (- x) else pad width x.

(** The fraction of a second: nine digits without trailing zeros, nothing for zero. *)
Fixpoint strip_zeros (n : nat) (x : Z) : string :=
  match n with
  | O => ""
  | S n' => if x mod 10 =? 0 then strip_zeros n' (x / 10) else pad n x
  end.

Definition fraction (t : Time) : string :=
  let ns := wall t mod Second in
  if ns =? 0 then "" else "." +:+ strip_zeros 9 ns.

(** The offset [zone] in seconds east of Greenwich. *)
Definition zone_text (zone : Z) : string :=
  if zone =? 0 then "Z"
  else
    let minutes := Z.quot zone 60 in
    (if minutes <? 0 then "-" else "+") +:+ pad 2 (Z.abs minutes / 60) +:+ ":" +:+ pad 2 (Z.abs minutes mod 60).

(** The year a time stamp shows. *)
Definition shown_year (zone : Z) (t : Time) : Z := (civil ((unix t + zone) / 86400)).1.1.

Definition rfc3339 (nanos : bool) (zone : Z) (t : Time) : string :=
  let s := unix t + zone in
  let '(y, m, d) := civil (s / 86400) in
  appendInt y 4 +:+ "-" +:+ pad 2 m +:+ "-" +:+ pad 2 d +:+ "T" +:+ pad 2 (s / 3600 mod 24) +:+ ":" +:+
  pad 2 (s / 60 mod 60) +:+ ":" +:+ pad 2 (s mod 60) +:+ (if nanos then fraction t else "") +:+ zone_text zone.

(** [Time.MarshalJSON] *)
Definition time_json (zone : Z) (t : Time) : string + string :=
  if negb ((0 <=? shown_year zone t) && (shown_year zone t <=? 9999)) then
    inr "Time.MarshalJSON: year outside of range [0,9999]"%string
  else if negb (zone =? 0) && (24 <=? Z.abs (Z.quot zone 60) / 60) then
    inr "Time.MarshalJSON: timezone hour outside of range [0,23]"%string
  else inl (rfc3339 true zone t).

(** ** Audit events *)
Definition omitempty_string (k v : string) : list (string * scalar) :=
  if String.eqb v "" then [] else [(k, SStr v)].
Definition omitempty_int (k : string) (z : Z) : list (string * scalar) :=
  if z =? 0 then [] else [(k, SInt z)].

Definition event_members (stamp : string) (e : AuditEvent) : list (string * scalar) :=
  [("timestamp"%string, SStr stamp); ("type"%string, SStr (a_Type e))] ++
  omitempty_string "trace_id" (a_TraceID e) ++
  omitempty_string "src_ip" (a_SrcIP e) ++
  omitempty_string "dst_ip" (a_DstIP e) ++
  omitempty_string "protocol" (a_Protocol e) ++
  omitempty_int "src_port" (a_SrcPort e) ++
  omitempty_int "dst_port" (a_DstPort e) ++
  omitempty_int "packet_size" (a_PacketSize e) ++
  omitempty_string "reason" (a_Reason e).

(** What [Encode] writes: the object and a newline. *)
Definition event_line (zone : Time -> Z) (e : AuditEvent) : list Z + string :=
  match time_json (zone (a_Timestamp e)) (a_Timestamp e) with
  | inr err => inr ("json: error calling MarshalJSON for type time.Time: " +:+ err)
  | inl stamp => inl (object_text (event_members stamp e) ++ [10])
  end.

(** ** Alerts *)

(** The payload is a map: its members are sorted by name. *)
Definition payload_members (e : AlertEvent) : list (string * scalar) :=
  [("event_type"%string, SStr "l3_firewall_alert");
   ("message"%string, SStr (al_Message e));
   ("source"%string, SStr (al_Source e));
   ("timestamp"%string, SStr (rfc3339 false 0 (al_Timestamp e)));
   ("type"%string, SStr (AlertType_String (al_Type e)))].

Record Post : Type := mkPost { post_url : string; post_ctype : string; post_body : list Z }.

(** [fire]: the request; what the webhook answers is only logged. *)
Definition fire (r : Router) (e : AlertEvent) : Post :=
  mkPost (WebhookURL (r_cfg r)) "application/json" (object_text (payload_members e)).

(** ** What readers of the texts find *)

(** Examples of time stamps. *)
Example stamp_utc : rfc3339 false 0 (mkTime (1704067199 * Second + 5) None) = "2023-12-31T23:59:59Z"%string.
Proof. vm_compute. reflexivity. Qed.

Example stamp_local :
  rfc3339 true (-12600) (mkTime (1704067199 * Second + 1000) None) = "2023-12-31T20:29:59.000001-03:30"%string.
Proof. vm_compute. reflexivity. Qed.

(** Printable: no control characters. *)
Definition printable (bs : list Z) : Prop := Forall (fun b => 32 <= b) bs.

Lemma hex_digit_printable x : 0 <= x -> 32 <= hex_digit x.
Proof. unfold hex_digit. case_match; lia. Qed.

Lemma escape_byte_printable b : 0 <= b -> printable (escape_byte b).
Proof.
  intros Hb. unfold escape_byte, printable.
  pose proof (hex_digit_printable (b / 16) ltac:(apply Z.div_pos; lia)).
  pose proof (hex_digit_printable (b mod 16) ltac:(apply Z.mod_pos_bound; lia)).
  repeat case_match; repeat constructor; lia.
Qed.

Lemma next_rune_printable b r bs r' :
  next_rune b r = (Rune bs, r') -> bs = [b] \/ printable bs.
Proof.
  unfold next_rune, is2, is3, is4, cont, printable. intros H.
  repeat case_match; simplify_eq; first [by left | right; repeat constructor; lia].
Qed.

Lemma escape_chunk_printable c : chunk_ok c -> printable (escape_chunk c).
Proof.
  destruct c as [bs|]; simpl; [|intros _; repeat constructor; lia].
  intros (b & bs' & -> & Hb & Hn). destruct (next_rune_printable _ _ _ _ (Hn [])) as [[= ->]|Hp];
    [by apply escape_byte_printable |].
  destruct bs' as [|b' bs']; [by apply escape_byte_printable |].
  repeat case_decide; [repeat constructor; lia.. | done].
Qed.

Lemma quote_printable s : printable (quote (codes s)).
Proof.
  unfold quote, escaped, printable. pose proof (runes_ok (codes s) (byte_codes s)) as Hr.
  apply Forall_app; split; [repeat constructor; lia |]. apply Forall_app; split; [|repeat constructor; lia].
  apply Forall_concat, Forall_fmap. eapply Forall_impl; [exact Hr | apply escape_chunk_printable].
Qed.

Lemma pretty_printable (z : Z) : printable (codes (pretty z)).
Proof.
  destruct z as [|p|p].
  - change (codes (pretty 0)) with [48]. repeat constructor; lia.
  - destruct (decimal_pretty p) as (l & -> & Hl & _). eapply Forall_impl; [exact Hl |]. unfold digit_ok. intros; simpl; lia.
  - change (pretty (Z.neg p)) with ("-" +:+ pretty (Z.pos p)). rewrite codes_app.
    destruct (decimal_pretty p) as (l & -> & Hl & _). apply Forall_app; split; [repeat constructor; vm_compute; congruence |].
    eapply Forall_impl; [exact Hl |]. unfold digit_ok. intros; simpl; lia.
Qed.

Lemma member_printable kv : printable (member_text kv).
Proof.
  unfold member_text. apply Forall_app; split; [apply quote_printable |]. constructor; [lia |].
  destruct kv as [k [s|z]]; [apply quote_printable | apply pretty_printable].
Qed.

Lemma object_printable l : printable (object_text l).
Proof.
  unfold object_text. constructor; [lia |]. apply Forall_app; split; [|repeat constructor; lia].
  induction l as [|kv [|kv' l] IH]; [constructor | apply member_printable |].
  change (printable (member_text kv ++ 44 :: comma_sep (member_text <$> kv' :: l))).
  apply Forall_app; split; [apply member_printable |]. constructor; [lia | exact IH].
Qed.

(** A flat object is read as its members. *)
Lemma parse_object_text l :
  Forall (fun kv => scalar_ok kv.2) l -> parse_json (object_text l) = inl (JObj (read_text <$> l), []).
Proof.
  intros Hl. unfold parse_json, object_text. cbn [app length].
  set (bs := comma_sep (member_text <$> l) ++ [125]).
  assert (length l <= S (length bs))%nat as Hlen.
  { unfold bs. pose proof (comma_sep_length (member_text <$> l)). rewrite length_fmap, length_app in *. simpl. lia. }
  change maxNestingDepth with (S (Z.to_nat 9999)). destruct (2 * S (length bs))%nat as [|n] eqn:Hn; [lia |].
  unfold bs. apply parse_object; [lia | done].
Qed.

(** The lines of a text, the last one without its newline. *)
Fixpoint lines (bs : list Z) : list (list Z) :=
  match bs with
  | [] => []
  | b :: r =>
      if b =? 10 then [] :: lines r
      else match lines r with
           | [] => [[b]]
           | l :: ls => (b :: l) :: ls
           end
  end.

Lemma lines_line l : 10 ∉ l -> forall rest, lines (l ++ 10 :: rest) = l :: lines rest.
Proof.
  intros Hl rest. induction l as [|b l IH]; [done |]. simpl. apply not_elem_of_cons in Hl as [Hb Hl].
  rewrite IH by done. by destruct (Z.eqb_spec b 10); [congruence |].
Qed.

(** A text that is empty or ends with a newline. *)
Definition whole_lines (bs : list Z) : Prop := exists ls, Forall (fun l => 10 ∉ l) ls /\ bs = concat ((fun l => l ++ [10]) <$> ls).

Lemma lines_concat ls : Forall (fun l => 10 ∉ l) ls -> forall rest, lines (concat ((fun l => l ++ [10]) <$> ls) ++ rest) = ls ++ lines rest.
Proof.
  induction 1 as [|l ls Hl _ IH]; intros rest; [done |]. rewrite fmap_cons. simpl.
  rewrite <-!app_assoc. simpl. by rewrite lines_line, IH.
Qed.

Lemma printable_line bs : printable bs -> 10 ∉ bs.
Proof. intros Hp Hin. unfold printable in Hp. rewrite Forall_forall in Hp. specialize (Hp _ Hin). simpl in Hp. lia. Qed.

(** ** The audit trail *)

(** The numbers of an event fit their types. *)
Definition event_ok (e : AuditEvent) : Prop :=
  int64_range (a_SrcPort e) /\ int64_range (a_DstPort e) /\ int64_range (a_PacketSize e).

Lemma omitempty_string_ok k v : Forall (fun kv => scalar_ok kv.2) (omitempty_string k v).
Proof. unfold omitempty_string. destruct (String.eqb v ""); repeat constructor. Qed.

Lemma omitempty_int_ok k z : int64_range z -> Forall (fun kv => scalar_ok kv.2) (omitempty_int k z).
Proof. intros Hz. unfold omitempty_int. destruct (z =? 0); constructor; [done | constructor]. Qed.

Lemma event_members_ok stamp e : event_ok e -> Forall (fun kv => scalar_ok kv.2) (event_members stamp e).
Proof.
  intros (Hs & Hd & Hp). unfold event_members. rewrite !Forall_app.
  split_and!; auto using omitempty_string_ok, omitempty_int_ok. by repeat constructor.
Qed.

(** The value of the first member with a name. *)
Fixpoint assoc (k : string) (kvs : list (string * scalar)) : option scalar :=
  match kvs with
  | [] => None
  | (n, x) :: kvs' => if String.eqb k n then Some x else assoc k kvs'
  end.

Definition str_field (s : string) : option scalar := if String.eqb s "" then None else Some (SStr s).
Definition int_field (n : Z) : option scalar := if n =? 0 then None else Some (SInt n).

(** What a reader of the log looks up under each name: the field of the event, unless it is
    empty or zero. *)
Definition named_field (stamp : string) (e : AuditEvent) (k : string) : option scalar :=
  if String.eqb k "timestamp" then Some (SStr stamp)
  else if String.eqb k "type" then Some (SStr (a_Type e))
  else if String.eqb k "trace_id" then str_field (a_TraceID e)
  else if String.eqb k "src_ip" then str_field (a_SrcIP e)
  else if String.eqb k "dst_ip" then str_field (a_DstIP e)
  else if String.eqb k "protocol" then str_field (a_Protocol e)
  else if String.eqb k "src_port" then int_field (a_SrcPort e)
  else if String.eqb k "dst_port" then int_field (a_DstPort e)
  else if String.eqb k "packet_size" then int_field (a_PacketSize e)
  else if String.eqb k "reason" then str_field (a_Reason e)
  else None.

Lemma assoc_app k a b : assoc k (a ++ b) = match assoc k a with Some x => Some x | None => assoc k b end.
Proof. induction a as [|[n x] a IH]; simpl; [done |]. by destruct (String.eqb k n). Qed.

Lemma assoc_string k n s : assoc k (omitempty_string n s) = if String.eqb k n then str_field s else None.
Proof. unfold omitempty_string, str_field. destruct (String.eqb s ""); simpl; by destruct (String.eqb k n). Qed.

Lemma assoc_int k n z : assoc k (omitempty_int n z) = if String.eqb k n then int_field z else None.
Proof. unfold omitempty_int, int_field. destruct (z =? 0); simpl; by destruct (String.eqb k n). Qed.

Lemma event_members_fields stamp e k : assoc k (event_members stamp e) = named_field stamp e k.
Proof.
  unfold event_members, named_field. rewrite !assoc_app, !assoc_string, !assoc_int. simpl assoc.
  destruct (String.eqb k "timestamp"); [done |]. destruct (String.eqb k "type"); [done |].
  destruct (String.eqb_spec k "trace_id") as [->|_]; [by destruct (str_field (a_TraceID e)) |].
  destruct (String.eqb_spec k "src_ip") as [->|_]; [by destruct (str_field (a_SrcIP e)) |].
  destruct (String.eqb_spec k "dst_ip") as [->|_]; [by destruct (str_field (a_DstIP e)) |].
  destruct (String.eqb_spec k "protocol") as [->|_]; [by destruct (str_field (a_Protocol e)) |].
  destruct (String.eqb_spec k "src_port") as [->|_]; [by destruct (int_field (a_SrcPort e)) |].
  destruct (String.eqb_spec k "dst_port") as [->|_]; [by destruct (int_field (a_DstPort e)) |].
  destruct (String.eqb_spec k "packet_size") as [->|_]; [by destruct (int_field (a_PacketSize e)) |].
  by destruct (String.eqb k "reason").
Qed.

(** C36: As long as no rotation is due and no system call fails, logging an event appends exactly one line
    to the log, whatever bytes its addresses, protocol and reason hold, and a JSON reader finds in that
    line one object whose members are those of the event under the names of the struct tags, empty ones
    left out, each string with its invalid UTF-8 replaced: no event can forge, split or hide another. *)
Theorem audit_line_faithful zone fmtLen ro fs now l e ino i stamp :
  lg_closed l = false -> lg_encErr l = None -> lg_file l = FdOpen ino -> inodes fs !! ino = Some i ->
  lg_size l < wrap64 (MaxSizeMB (lg_cfg l) * 1024 * 1024) ->
  time_json (zone (a_Timestamp e)) (a_Timestamp e) = inl stamp -> event_ok e -> whole_lines (i_data i) ->
  exists tr fs' i' line,
    Log (event_line zone) fmtLen no_faults ro now e l fs =
      (tr, fs', (None, mkLogger (FdOpen ino) (lg_cfg l) (wrap64 (lg_size l + fmtLen e)) false None)) /\
    inodes fs' !! ino = Some i' /\ whole_lines (i_data i') /\ lines (i_data i') = lines (i_data i) ++ [line] /\
    parse_json line = inl (JObj (read_text <$> event_members stamp e), []) /\
    (forall k, assoc k (event_members stamp e) = named_field stamp e k) /\
    tree fs' = tree fs /\ (forall k, k <> ino -> inodes fs' !! k = inodes fs !! k).
Proof.
  intros Hc He Hf Hi Hs Ht Hok (ls & Hls & Hd). set (line := object_text (event_members stamp e)).
  assert (event_line zone e = inl (line ++ [10])) as Hline by (unfold event_line; by rewrite Ht).
  assert (10 ∉ line) as Hnl by (apply printable_line, object_printable).
  assert (append_bytes now ino (line ++ [10]) fs = set_inode ino (mkInode (i_data i ++ line ++ [10]) now) fs) as Happ
    by (unfold append_bytes; by rewrite Hi).
  eexists _, (set_inode ino (mkInode (i_data i ++ line ++ [10]) now) fs), (mkInode (i_data i ++ line ++ [10]) now), line.
  split_and!.
  - unfold Log. rewrite Hc, (proj2 (Z.leb_gt _ _) Hs). eapply io_bind_eq; [done |]. cbv beta iota.
    eapply io_bind_eq; [by apply (encode_ok _ now l e (line ++ [10]) ino) |]. rewrite Happ. by rewrite Hf, Hc, He.
  - apply lookup_insert_eq.
  - exists (ls ++ [line]). split; [apply Forall_app; by repeat constructor |].
    rewrite fmap_app, concat_app. simpl. by rewrite Hd, app_nil_r.
  - cbn [i_data]. rewrite Hd, lines_concat by done. rewrite (lines_line line Hnl []).
    pose proof (lines_concat ls Hls []) as Hls'. rewrite !app_nil_r in Hls'. by rewrite Hls'.
  - apply parse_object_text. by apply event_members_ok.
  - apply event_members_fields.
  - done.
  - intros k Hk. apply lookup_insert_ne. congruence.
Qed.

(** Whatever bytes the message and the source of an alert hold, the webhook gets a single JSON object with
    the five members of the payload and nothing else. *)
Theorem alert_payload_faithful r e :
  parse_json (post_body (fire r e)) = inl (JObj (read_text <$> payload_members e), []) /\
  (payload_members e).*1 = ["event_type"; "message"; "source"; "timestamp"; "type"]%string /\
  printable (post_body (fire r e)).
Proof.
  split_and!; [|done | apply object_printable]. apply parse_object_text. by repeat constructor.
Qed.

(** ** A hostile reason *)
Definition forged : AuditEvent :=
  mkAuditEvent (mkTime (1704067199 * Second) None) "packet_block" "" "10.0.0.1" "" "tcp" 80 443 60
    (text (codes "x" ++ [34; 125; 10; 123; 34])).

Definition empty_log : FS := mkFS ∅ {[ 0%nat := mkInode [] zeroTime ]} [].

Lemma audit_line_faithful_witness :
  exists tr fs' i' line,
    Log (event_line (fun _ => 0)) (fun _ => 40) no_faults (map_order _ _) zeroTime forged
      (mkLogger (FdOpen 0) audit_cfg 0 false None) empty_log =
      (tr, fs', (None, mkLogger (FdOpen 0) audit_cfg (wrap64 (0 + 40)) false None)) /\
    inodes fs' !! 0%nat = Some i' /\ lines (i_data i') = [line] /\
    parse_json line = inl (JObj (read_text <$> event_members "2023-12-31T23:59:59Z" forged), []).
Proof.
  destruct (audit_line_faithful (fun _ => 0) (fun _ => 40) (map_order _ _) empty_log zeroTime
    (mkLogger (FdOpen 0) audit_cfg 0 false None) forged 0 (mkInode [] zeroTime) "2023-12-31T23:59:59Z")
    as (tr & fs' & i' & line & Hlog & Hi & _ & Hl & Hp & _); [reflexivity.. | | |].
  - split_and!; vm_compute; split; congruence.
  - by exists [].
  - exists tr, fs', i', line. split; [exact Hlog |]. split; [exact Hi |]. split; [exact Hl | exact Hp].
Defined.
