(* ===== verification/Capture.v ===== *)
(** * Package [capture]: rotating packet captures

    Translated from src/internal/capture/capture.go.  The capture format is a
    library outside the repository: the file header and the record of a packet are
    parameters.  A writer's methods run under its mutex. *)
From Stdlib Require Import ZArith Lia ZifyBool Strings.Byte.
From stdpp Require Import base gmap sets list strings pretty fin_maps sorting.
From S2P Require Import Prelude GoTime Packet GoFS SecurePath AuditLog.

Local Open Scope Z_scope.
Local Open Scope io_scope.

Definition maxPacketSize : Z := 65536.
Definition cap_maxCleanupEntries : nat := 4096.

Record CaptureConfig : Type := mkCaptureConfig {
  cap_Dir : string;
  MaxFiles : Z;
  MaxPackets : Z;
}.

Record Writer : Type := mkWriter {
  wr_cfg : CaptureConfig;
  curFile : option handle;
  curFileN : Z;
  pktCount : Z;
  wr_closed : bool;
}.

(** [NewWriter]; a nil writer is [None]. *)
Definition NewWriter (flt : Faults) (c : CaptureConfig) : IO (option Writer + string) :=
  if String.eqb (cap_Dir c) "" then io_ret (inl None)
  else
    let c := mkCaptureConfig (cap_Dir c) (if MaxFiles c <=? 0 then 10 else MaxFiles c)
               (if MaxPackets c <=? 0 then 10000 else MaxPackets c) in
    do made := MkdirAll flt (cap_Dir c) in
    match made with
    | Some e => io_ret (inr ("creating pcap dir " +:+ cap_Dir c +:+ ": " +:+ errno_text e))
    | None =>
        do rejected := io_ask (fun fs => RejectSymlinkComponents flt fs (cap_Dir c)) in
        match rejected with
        | Some e => io_ret (inr e)
        | None => io_ret (inl (Some (mkWriter c None 0 0 false)))
        end
    end.

(** [fmt.Sprintf("blocked_%05d.pcap", n)] *)
Definition capture_name (n : Z) : string := "blocked_" +:+ pad 5 n +:+ ".pcap".

(** [strings.HasSuffix] *)
Definition has_suffix (suffix s : string) : bool :=
  (String.length suffix <=? String.length s)%nat &&
  String.eqb (String.substring (String.length s - String.length suffix) (String.length suffix) s) suffix.

Definition is_capture (name : string) : bool :=
  String.prefix "blocked_" name && has_suffix ".pcap" name.

(** The removal loop: at most [budget] paths, never the current one. *)
Fixpoint remove_stale (flt : Faults) (current : string) (budget : nat) (paths : list string) : IO unit :=
  match budget, paths with
  | O, _ | _, [] => io_ret tt
  | S budget', p :: paths' =>
      if String.eqb p current then remove_stale flt current budget paths'
      else do _ := os_Remove flt p in remove_stale flt current budget' paths'
  end.

Definition cap_cleanupLocked (flt : Faults) (ro : range_order (list string) node) (w : Writer) : IO unit :=
  let dir := cap_Dir (wr_cfg w) in
  let oldIdx := curFileN w - MaxFiles (wr_cfg w) in
  do _ := if 1 <=? oldIdx then os_Remove flt (Join dir (capture_name oldIdx)) else io_ret None in
  do names := io_ask (read_names flt ro cap_maxCleanupEntries dir) in
  match names with
  | None => io_ret tt
  | Some names =>
      let matches := Join dir <$> List.filter is_capture names in
      let n := Z.of_nat (length matches) in
      if n <=? MaxFiles (wr_cfg w) then io_ret tt
      else
        let current := Join dir (capture_name (curFileN w)) in
        remove_stale flt current (Z.to_nat (n - MaxFiles (wr_cfg w))) (sort_strings matches)
  end.

Section capture.
Context (header : list Z) (record : Time -> list byte -> list Z + string).

Definition cap_rotateLocked (flt : Faults) (ro : range_order (list string) node) (now : Time) (w : Writer)
  : IO (option string * Writer) :=
  let dir := cap_Dir (wr_cfg w) in
  do rejected := io_ask (fun fs => RejectSymlinkComponents flt fs dir) in
  match rejected with
  | Some e => io_ret (Some e, w)
  | None =>
      let n := curFileN w + 1 in
      let w := mkWriter (wr_cfg w) None n (pktCount w) (wr_closed w) in
      let fname := Join dir (capture_name n) in
      do opened := open_write flt now true fname in
      match opened with
      | inr e => io_ret (Some ("creating pcap file " +:+ fname +:+ ": " +:+ errno_text e), w)
      | inl f =>
          do written := write_all flt now fname f header in
          match written with
          | Some e => io_ret (Some ("writing pcap header: " +:+ e), w)
          | None =>
              let w := mkWriter (wr_cfg w) (Some f) n 0 (wr_closed w) in
              do _ := cap_cleanupLocked flt ro w in
              io_ret (None, w)
          end
      end
  end.

(** [fw.WritePacket] *)
Definition write_packet (flt : Faults) (now : Time) (w : Writer) (raw : list byte) : IO (option string) :=
  match record now raw, curFile w with
  | inr e, _ => io_ret (Some e)
  | inl bs, Some f => write_all flt now (Join (cap_Dir (wr_cfg w)) (capture_name (curFileN w))) f bs
  | inl _, None => io_ret None
  end.

(** [WriteBlock] of a writer that is not nil. *)
Definition WriteBlock (flt : Faults) (ro : range_order (list string) node) (now : Time) (raw : list byte)
    (w : Writer) : IO (option string * Writer) :=
  if maxPacketSize <? zlen raw then
    io_ret (Some ("packet too large: " +:+ pretty (zlen raw) +:+ " bytes (max " +:+ pretty maxPacketSize +:+ ")"), w)
  else if wr_closed w then io_ret (Some "pcap writer is closed"%string, w)
  else
    do rotated := match curFile w with
                  | Some _ => if MaxPackets (wr_cfg w) <=? pktCount w
                              then cap_rotateLocked flt ro now w else io_ret (None, w)
                  | None => cap_rotateLocked flt ro now w
                  end in
    let '(err, w) := rotated in
    match err with
    | Some e => io_ret (Some e, w)
    | None =>
        do err := write_packet flt now w raw in
        match err with
        | Some e => io_ret (Some e, w)
        | None => io_ret (None, mkWriter (wr_cfg w) (curFile w) (curFileN w) (pktCount w + 1) (wr_closed w))
        end
    end.
End capture.

(** [Close] of a writer that is not nil; a second call closes the file again,
    which is an error. *)
Definition cap_Close (flt : Faults) (w : Writer) : option string * Writer :=
  let w' := mkWriter (wr_cfg w) (curFile w) (curFileN w) (pktCount w) true in
  match curFile w with
  | None => (None, w')
  | Some _ =>
      (if wr_closed w then Some "file already closed"%string
       else fault flt OpClose (Join (cap_Dir (wr_cfg w)) (capture_name (curFileN w))), w')
  end.
