(* ===== verification/CaptureFacts.v ===== *)
(** * What the capture writer guarantees

    After a rotation no more than [MaxFiles] captures are left, the current one is
    among them, and nothing that is not a capture is touched; a file holds the
    header and one record per packet. *)
From Stdlib Require Import ZArith Lia ZifyBool Strings.Byte.
From stdpp Require Import base gmap sets list strings pretty fin_maps sorting.
From S2P Require Import Prelude GoTime Packet GoFS GoFSFacts SecurePath SecurePathFacts AuditLog DirFacts.
From S2P Require Import AuditLogFacts Capture.

Local Open Scope Z_scope.
Local Open Scope io_scope.

(** ** Names of captures *)

(** The number a string of digits denotes, after [acc]. *)
Fixpoint digits_val (acc : N) (s : string) : N :=
  match s with
  | EmptyString => acc
  | String c s' => digits_val (10 * acc + (Ascii.N_of_ascii c - 48)) s'
  end.

Lemma pretty_char_val x : (x < 10)%N -> (Ascii.N_of_ascii (pretty_N_char x) - 48 = x)%N.
Proof.
  intros Hx. assert (x = 0 \/ x = 1 \/ x = 2 \/ x = 3 \/ x = 4 \/ x = 5 \/ x = 6 \/ x = 7 \/ x = 8 \/ x = 9)%N as H by lia.
  repeat destruct H as [->|H]; try done. by subst.
Qed.

Lemma pretty_go_val x s : digits_val 0 (pretty_N_go x s) = digits_val x s.
Proof.
  revert s. induction (N.lt_wf_0 x) as [x _ IH]; intros s.
  destruct (decide (x = 0)%N) as [->|Hne]; [by rewrite pretty_N_go_0 |].
  rewrite pretty_N_go_step by lia. rewrite IH by (apply N.div_lt; lia). cbn [digits_val].
  rewrite pretty_char_val by (apply N.mod_lt; lia). f_equal. pose proof (N.div_mod x 10). lia.
Qed.

Lemma pretty_val z : 0 <= z -> digits_val 0 (pretty z) = Z.to_N z.
Proof.
  intros Hz. assert (forall n : N, digits_val 0 (pretty n) = n) as HN.
  { intros n. unfold pretty, pretty_N. case_decide as Hn; [by subst n |]. by rewrite pretty_go_val. }
  destruct z as [|p|p]; [done | exact (HN (N.pos p)) | lia].
Qed.

Lemma pad_val k z : 0 <= z -> digits_val 0 (pad k z) = Z.to_N z.
Proof.
  intros Hz. unfold pad. rewrite <-(pretty_val z Hz).
  generalize (k - String.length (pretty z))%nat. intros n. induction n as [|n IH]; [done |]. exact IH.
Qed.

Lemma str_app_inv_r (a b c : string) : a +:+ c = b +:+ c -> a = b.
Proof.
  intros H. assert (String.length a = String.length b) as Hl.
  { apply (f_equal String.length) in H. rewrite !str_length_app in H. lia. }
  revert b H Hl. induction a as [|x a IH]; intros [|y b] H Hl; try done.
  change (String x (a +:+ c) = String y (b +:+ c)) in H. injection H as -> H. f_equal. apply IH; [done |].
  simpl in Hl. lia.
Qed.

Lemma capture_name_inj m n : 0 <= m -> 0 <= n -> capture_name m = capture_name n -> m = n.
Proof.
  intros Hm Hn H. unfold capture_name in H. apply str_app_inj_l, str_app_inv_r, (f_equal (digits_val 0)) in H.
  rewrite !pad_val in H by done. lia.
Qed.

Lemma capture_name_proper n : proper (capture_name n).
Proof.
  split_and!; [done | done |]. unfold capture_name. rewrite !has_char_app. intros [H|[H|H]].
  - vm_compute in H. repeat (destruct H as [H|H]; [done |]). done.
  - by apply pad_chars in H.
  - vm_compute in H. repeat (destruct H as [H|H]; [done |]). done.
Qed.

Lemma prefix_app (s t : string) : String.prefix s (s +:+ t) = true.
Proof.
  induction s as [|a s IH]; [by destruct t |].
  change (String.prefix (String a s) (String a (s +:+ t)) = true). simpl. by destruct (Ascii.ascii_dec a a).
Qed.

Lemma is_capture_name n : is_capture (capture_name n) = true.
Proof.
  unfold is_capture, capture_name. apply andb_true_iff. split; [apply prefix_app |].
  unfold has_suffix. rewrite !str_length_app. apply andb_true_iff.
  split; [apply Nat.leb_le; simpl; lia |]. apply String.eqb_eq.
  generalize (pad 5 n). intros s. change (String.length ".pcap") with 5%nat.
  replace (String.length "blocked_" + (String.length s + 5) - 5)%nat with (8 + String.length s)%nat by (simpl; lia).
  change (String.substring (8 + String.length s) 5 ("blocked_" +:+ s +:+ ".pcap"))
    with (String.substring (String.length s) 5 (s +:+ ".pcap")).
  induction s as [|c s IH]; [done |]. exact IH.
Qed.

(** What is left of [ms] once [k] names other than [cn] are gone. *)
Lemma survivors (ms ns R bs : list string) cn k m :
  NoDup ms -> ns ≡ₚ ms -> R = take k (filter (fun n => n <> cn) ns) -> NoDup bs ->
  1 <= m -> k = Z.to_nat (Z.of_nat (length ms) - m) ->
  (forall n, n ∈ bs <-> n ∈ ms /\ n ∉ R) -> Z.of_nat (length bs) <= m.
Proof.
  intros Hn Hp HR Hb Hm Hk Hin.
  assert (bs ++ R ≡ₚ ms) as Hall.
  { assert (NoDup ns) as Hns by (by rewrite Hp).
    assert (NoDup R) as HnR by (subst R; apply (sublist_NoDup _ (filter (fun n => n <> cn) ns)); [by apply NoDup_filter | apply sublist_take]).
    apply NoDup_Permutation; [apply NoDup_app; split_and!; [done | | done] | done |].
    - by intros n [_ ?]%Hin.
    - intros n. rewrite elem_of_app, Hin. split; [|destruct (decide (n ∈ R)); tauto].
      intros [[? _]|Hr]; [done |]. subst R. apply elem_of_take in Hr as (j & Hj & _).
      apply list_elem_of_lookup_2, list_elem_of_filter in Hj as [_ Hj]. by rewrite Hp in Hj. }
  apply Permutation_length in Hall. rewrite length_app in Hall.
  assert (length ms - 1 <= length (filter (fun n => n <> cn) ns))%nat as Hf.
  { rewrite <-(Permutation_length Hp). assert (NoDup ns) as Hns by (by rewrite Hp). clear - Hns.
    induction Hns as [|x ns Hx Hns IH]; [simpl; lia |]. rewrite filter_cons. case_decide as Hd; simpl; [lia |].
    subst x. rewrite length_filter_all; [lia |]. apply Forall_forall. by intros y Hy ->. }
  assert (length R = k `min` length (filter (fun n => n <> cn) ns))%nat as HlR by (subst R; apply length_take).
  lia.
Qed.

(** ** Paths below the capture directory *)
Section retention.
Context (dir : string) (Hdir : dir <> ""%string) (Hdd : no_dotdot (split_slash dir)).

Lemma comps_ok : Forall proper (comps dir).
Proof. by apply comps_proper. Qed.

Lemma Join_raw n : proper n -> Join dir n = path_text (IsAbs dir) (comps dir ++ [n]).
Proof.
  intros Hn. destruct (proper_text n Hn) as [Hc Hd]. unfold Join.
  destruct (String.eqb_spec dir "") as [?|_]; [done |].
  rewrite Clean_text by (by apply no_dotdot_cat). rewrite comps_cat, Hc. f_equal. by destruct dir.
Qed.

Lemma dirs_walk_raw fs links cur raw follow :
  Forall (fun c => c <> ".."%string) raw -> Forall (fun c => ~ has_char slash c) raw ->
  dirs fs cur (List.filter (fun c => negb (is_skip c)) raw) ->
  walk_path fs links cur raw follow = inl (cur ++ List.filter (fun c => negb (is_skip c)) raw).
Proof.
  intros Hd Hch. revert cur. induction raw as [|c raw IH]; intros cur Hds; [by rewrite walk_nil, app_nil_r |].
  apply Forall_cons in Hd as [Hdc Hd], Hch as [Hcc Hch]. simpl in *.
  destruct (is_skip c) eqn:Hs; simpl in *; [rewrite walk_skip by done; by apply IH |].
  destruct Hds as [Hn Hds]. rewrite walk_step, Hn, IH by done. by rewrite <-app_assoc.
Qed.

Lemma read_names_raw fs ro :
  dir_ok (IsAbs dir) (comps dir) fs ->
  (size (children fs (base_of fs (IsAbs dir) ++ comps dir)) <= cap_maxCleanupEntries)%nat ->
  read_names no_faults ro cap_maxCleanupEntries dir fs =
    Some (omap last (range_keys ro (children fs (base_of fs (IsAbs dir) ++ comps dir)))).
Proof.
  intros Hok Hsize. rewrite <-(read_names_all fs ro (IsAbs dir) (comps dir) comps_ok Hok Hsize).
  unfold read_names. simpl fault. cbv iota beta. rewrite resolve_dir by (done || apply comps_ok).
  unfold resolve. destruct (String.eqb_spec dir "") as [?|_]; [done |].
  by rewrite dirs_walk_raw by (done || apply split_slash_chars || apply Hok).
Qed.

(** The removal loop removes a prefix of the names other than the current one. *)
Lemma remove_stale_eq abs cs cn budget ns fs :
  remove_stale no_faults (path_text abs (cs ++ [cn])) budget ((fun n => path_text abs (cs ++ [n])) <$> ns) fs =
  remove_all no_faults ((fun n => path_text abs (cs ++ [n])) <$> take budget (filter (fun n => n <> cn) ns)) fs.
Proof.
  revert budget fs. induction ns as [|n ns IH]; intros budget fs; [by destruct budget |].
  destruct budget as [|budget]; [done |]. cbn [fmap list_fmap remove_stale].
  destruct (String.eqb_spec (path_text abs (cs ++ [n])) (path_text abs (cs ++ [cn]))) as [He%path_text_inj|Hne].
  - rewrite filter_cons_False by naive_solver. apply (IH (S budget)).
  - rewrite filter_cons_True by (by intros ->). cbn [take fmap list_fmap remove_all].
    unfold io_bind. destruct (os_Remove _ _ fs) as [[tr1 fs1] a]. by rewrite IH.
Qed.

(** [bs] lists the captures of a directory. *)
Definition captures_in (fs : FS) (d : list string) (bs : list string) : Prop :=
  NoDup bs /\ forall n, n ∈ bs <-> is_Some (tree fs !! (d ++ [n])) /\ is_capture n = true.

(** What a cleanup may do: remove captures other than the current one. *)
Definition pruned (d : list string) (cn : string) (fs fs' : FS) : Prop :=
  inodes fs' = inodes fs /\ cwd fs' = cwd fs /\
  tree fs' !! (d ++ [cn]) = tree fs !! (d ++ [cn]) /\
  (forall n, is_Some (tree fs' !! (d ++ [n])) -> is_Some (tree fs !! (d ++ [n]))) /\
  forall q, (forall n, is_capture n = true -> q <> d ++ [n]) -> tree fs' !! q = tree fs !! q.

(** The scan of the directory, with every capture a file. *)
Lemma scan_spec ro w fs cn :
  let d := base_of fs (IsAbs dir) ++ comps dir in
  dir_ok (IsAbs dir) (comps dir) fs -> names_ok fs d -> 1 <= MaxFiles (wr_cfg w) ->
  (size (children fs d) <= cap_maxCleanupEntries)%nat ->
  (forall n, is_capture n = true -> removable fs (d ++ [n])) ->
  cn = capture_name (curFileN w) -> is_Some (tree fs !! (d ++ [cn])) ->
  exists tr fs', (do names := io_ask (read_names no_faults ro cap_maxCleanupEntries dir) in
      match names with
      | None => io_ret tt
      | Some names =>
          let matches := Join dir <$> List.filter is_capture names in
          let n := Z.of_nat (length matches) in
          if n <=? MaxFiles (wr_cfg w) then io_ret tt
          else remove_stale no_faults (Join dir (capture_name (curFileN w)))
                 (Z.to_nat (n - MaxFiles (wr_cfg w))) (sort_strings matches)
      end) fs = (tr, fs', tt) /\
    pruned d cn fs fs' /\
    forall bs, captures_in fs' d bs -> Z.of_nat (length bs) <= MaxFiles (wr_cfg w).
Proof.
  intros d Hok Hnames Hmax Hsize Hrem Hcn Hcur. pose proof comps_ok as Hcs.
  unfold io_bind, io_ask. rewrite read_names_raw by done. fold d.
  set (names := omap last (range_keys ro (children fs d))).
  set (ms := List.filter is_capture names).
  assert (NoDup ms) as Hnd by (apply NoDup_ListNoDup, List.NoDup_filter, NoDup_ListNoDup, NoDup_names).
  assert (forall n, n ∈ ms <-> is_Some (tree fs !! (d ++ [n])) /\ is_capture n = true) as Hms.
  { intros n. rewrite <-(elem_of_names fs ro), list_elem_of_In. unfold ms. by rewrite filter_In, <-list_elem_of_In. }
  assert (cn ∈ ms) as Hcnm by (apply Hms; split; [done | subst cn; apply is_capture_name]).
  replace (Join dir <$> ms) with ((fun n => path_text (IsAbs dir) (comps dir ++ [n])) <$> ms); last first.
  { symmetry. apply list_fmap_ext. intros k n Hk%list_elem_of_lookup_2. apply Join_raw. by apply Hnames, Hms. }
  rewrite length_fmap. case_bool.
  { exists [], fs. split; [done |]. split; [by split_and! |]. intros bs [Hb1 Hb2].
    rewrite (Permutation_length (l' := ms)); [lia |]. apply NoDup_Permutation; [done | done |].
    intros n. by rewrite Hb2, Hms. }
  destruct (sorted_names (IsAbs dir) (comps dir) ms) as (ns & -> & Hperm).
  rewrite Join_raw, <-Hcn, remove_stale_eq by (apply capture_name_proper).
  set (k := Z.to_nat (Z.of_nat (length ms) - MaxFiles (wr_cfg w))).
  set (R := take k (filter (fun n => n <> cn) ns)).
  assert (forall n, n ∈ R -> n ∈ ms /\ n <> cn) as HR.
  { intros n Hn. apply elem_of_take in Hn as (j & Hj & _). apply list_elem_of_lookup_2, list_elem_of_filter in Hj.
    rewrite Hperm in Hj. tauto. }
  destruct (remove_all_children (IsAbs dir) (comps dir) Hcs fs R Hok) as (tr & fs' & -> & Hi & Hc & Hyes & Hno).
  { apply Forall_forall. intros n [Hn _]%HR. by apply Hnames, Hms. }
  fold d in Hyes, Hno. exists ([] ++ tr), fs'. split; [done |].
  assert (forall n, n ∉ R -> tree fs' !! (d ++ [n]) = tree fs !! (d ++ [n])) as Hout.
  { intros n Hn. apply Hno. by intros m Hm [= ->]%app_inv_head. }
  assert (forall n, n ∈ R -> tree fs' !! (d ++ [n]) = None) as Hin.
  { intros n Hn. apply Hyes; [done |]. apply Hrem, Hms, HR, Hn. }
  split.
  - split_and!; [done | done | apply Hout; by intros [_ ?]%HR | |].
    + intros n Hn. destruct (decide (n ∈ R)) as [HnR|HnR]; [rewrite Hin in Hn by done; by destruct Hn | by rewrite <-Hout].
    + intros q Hq. apply Hno. intros n Hn ->. destruct (Hq n); [|done]. apply Hms, HR, Hn.
  - intros bs [Hb1 Hb2]. apply (survivors ms ns R bs cn k); try done.
    intros n. rewrite Hb2. split.
    + intros [Hn Hcap]. destruct (decide (n ∈ R)) as [HnR|HnR]; [rewrite Hin in Hn by done; by destruct Hn |].
      split; [|done]. apply Hms. by rewrite <-Hout.
    + intros [Hn HnR]. rewrite Hout by done. by apply Hms.
Qed.
End retention.

Lemma pruned_trans d cn fs1 fs2 fs3 : pruned d cn fs1 fs2 -> pruned d cn fs2 fs3 -> pruned d cn fs1 fs3.
Proof.
  intros (Hi1 & Hc1 & Ht1 & Hs1 & Hq1) (Hi2 & Hc2 & Ht2 & Hs2 & Hq2).
  split_and!; [congruence | congruence | congruence | auto |]. intros q Hq. by rewrite Hq2, Hq1.
Qed.

Lemma children_mono fs fs' d :
  (forall n, is_Some (tree fs' !! (d ++ [n])) -> is_Some (tree fs !! (d ++ [n]))) ->
  (size (children fs' d) <= size (children fs d))%nat.
Proof.
  intros Hs. rewrite <-!size_dom. apply subseteq_size. intros q [v Hv]%elem_of_dom.
  apply map_lookup_filter_Some in Hv as [Hv [n Hn]]. simpl in Hn. subst q.
  destruct (Hs n) as [u Hu]; [eauto |]. apply elem_of_dom. exists u.
  apply map_lookup_filter_Some. split; [done | by exists n].
Qed.

(** The directory a writer cleans up: it exists, fits one scan, its captures are
    files, and the current one is there. *)
Record cleanable (w : Writer) (fs : FS) : Prop := {
  cl_dir : cap_Dir (wr_cfg w) <> ""%string;
  cl_dotdot : no_dotdot (split_slash (cap_Dir (wr_cfg w)));
  cl_ok : dir_ok (IsAbs (cap_Dir (wr_cfg w))) (comps (cap_Dir (wr_cfg w))) fs;
  cl_names : names_ok fs (lexical_path fs (cap_Dir (wr_cfg w)));
  cl_max : 1 <= MaxFiles (wr_cfg w);
  cl_cur : 0 <= curFileN w;
  cl_scan : (size (children fs (lexical_path fs (cap_Dir (wr_cfg w)))) <= cap_maxCleanupEntries)%nat;
  cl_files : forall n, is_capture n = true -> removable fs (lexical_path fs (cap_Dir (wr_cfg w)) ++ [n]);
  cl_current : is_Some (tree fs !! (lexical_path fs (cap_Dir (wr_cfg w)) ++ [capture_name (curFileN w)]));
}.

(** The removal by index is a removal of a capture that is not the current one. *)
Lemma indexed_removal w fs :
  cleanable w fs ->
  let dir := cap_Dir (wr_cfg w) in
  let d := lexical_path fs dir in
  exists tr fs1 r,
    (if 1 <=? curFileN w - MaxFiles (wr_cfg w)
     then os_Remove no_faults (Join dir (capture_name (curFileN w - MaxFiles (wr_cfg w)))) else io_ret None) fs
      = (tr, fs1, r) /\
    pruned d (capture_name (curFileN w)) fs fs1 /\ cleanable w fs1.
Proof.
  intros Hw dir d. pose proof Hw as [Hne Hdd Hok Hnames Hmax Hcur Hscan Hfiles Hcurrent].
  destruct (Z.leb_spec 1 (curFileN w - MaxFiles (wr_cfg w))) as [Hold|_];
    [|exists [], fs, None; split; [done |]; by split_and!].
  set (n := capture_name (curFileN w - MaxFiles (wr_cfg w))).
  assert (capture_name (curFileN w) <> n) as Hcn by (intros H%capture_name_inj; lia).
  rewrite Join_raw by (done || apply capture_name_proper).
  destruct (remove_child_step (IsAbs dir) (comps dir) (comps_ok dir Hdd) fs n Hok (capture_name_proper _))
    as (tr & fs1 & r & H1 & Hi & Hc & Hok1 & Hrem & _ & Hgone & Hkeep).
  exists tr, fs1, r. split; [exact H1 |]. change (base_of fs (IsAbs dir) ++ comps dir) with d in *.
  assert (lexical_path fs1 dir = d) as Hd1 by (unfold d, lexical_path, base_of; by rewrite Hc).
  assert (forall m, is_Some (tree fs1 !! (d ++ [m])) -> is_Some (tree fs !! (d ++ [m]))) as Hsub.
  { intros m Hm. destruct (decide (m = n)) as [->|Hmn].
    - rewrite Hgone in Hm by apply Hfiles, is_capture_name. by destruct Hm.
    - rewrite <-Hkeep; [done |]. by intros [= ->]%app_inv_head. }
  assert (tree fs1 !! (d ++ [capture_name (curFileN w)]) = tree fs !! (d ++ [capture_name (curFileN w)])) as Hsame.
  { apply Hkeep. intros He%app_inv_head. congruence. }
  split.
  - split_and!; try done. intros q Hq. apply Hkeep. intros ->. by destruct (Hq n); [apply is_capture_name |].
  - split; fold dir; rewrite ?Hd1; try done.
    + intros m Hm%Hsub. by apply Hnames.
    + etransitivity; [by apply children_mono | exact Hscan].
    + intros m Hm. destruct (decide (m = n)) as [->|Hmn]; [left; by rewrite Hgone by by apply Hfiles |].
      by apply Hrem, Hfiles.
    + by rewrite Hsame.
Qed.

(** The cleanup of a rotation leaves at most [MaxFiles] captures in the
    directory, whatever stale captures it found there and in whatever order they are listed; the
    current capture is kept and nothing that is not a capture is touched. *)
Theorem capture_retention ro w fs :
  cleanable w fs ->
  let d := lexical_path fs (cap_Dir (wr_cfg w)) in
  exists tr fs', cap_cleanupLocked no_faults ro w fs = (tr, fs', tt) /\
    pruned d (capture_name (curFileN w)) fs fs' /\
    forall bs, captures_in fs' d bs -> Z.of_nat (length bs) <= MaxFiles (wr_cfg w).
Proof.
  intros Hw d. destruct (indexed_removal w fs Hw) as (tr1 & fs1 & r & H1 & Hp1 & Hw1).
  destruct Hw1 as [Hne Hdd Hok Hnames Hmax Hcur Hscan Hfiles Hcurrent].
  assert (lexical_path fs1 (cap_Dir (wr_cfg w)) = d) as Hd1.
  { destruct Hp1 as (_ & Hc & _). unfold d, lexical_path, base_of. by rewrite Hc. }
  destruct (scan_spec (cap_Dir (wr_cfg w)) Hne Hdd ro w fs1 (capture_name (curFileN w)) Hok Hnames Hmax Hscan Hfiles
    eq_refl Hcurrent) as (tr2 & fs2 & H2 & Hp2 & Hlen).
  fold (lexical_path fs1 (cap_Dir (wr_cfg w))) in Hp2, Hlen. rewrite Hd1 in Hp2, Hlen.
  exists (tr1 ++ tr2), fs2. split; [|split; [by eapply pruned_trans | done]].
  unfold cap_cleanupLocked. eapply io_bind_eq; [exact H1 | exact H2].
Qed.

(** ** A concrete directory *)
Definition cap_names : list string :=
  ["blocked_00004.pcap"; "blocked_00001.pcap"; "blocked_9.pcap"; "notes.txt"]%string.

Definition cap_fs : FS :=
  mkFS (<[["cap"]%string := NDir]>
        (list_to_map (imap (fun k n => (["cap"; n]%string, NFile k)) cap_names)))
    (list_to_map (imap (fun k _ => (k, mkInode [Z.of_nat k] zeroTime)) cap_names)) [].

Definition cap_writer : Writer := mkWriter (mkCaptureConfig "/cap" 1 10) (Some (HFile 0)) 4 0 false.

Lemma cap_listing n : is_Some (tree cap_fs !! (["cap"]%string ++ [n])) <-> n ∈ cap_names.
Proof.
  rewrite <-(elem_of_names cap_fs (map_order _ _) ["cap"]%string n).
  assert (omap last (range_keys (map_order _ _) (children cap_fs ["cap"]%string)) ≡ₚ cap_names) as ->; [|done].
  vm_compute. solve_Permutation.
Qed.

Lemma cap_files q : tree cap_fs !! q = Some NDir -> q = ["cap"]%string.
Proof.
  intros Hq%elem_of_map_to_list.
  assert (Forall (fun kv => kv.2 = NDir -> kv.1 = ["cap"]%string) (map_to_list (tree cap_fs))) as Hall
    by (vm_compute; repeat constructor; discriminate).
  eapply Forall_forall in Hall; [|exact Hq]. by apply Hall.
Qed.

Lemma cap_cleanable : cleanable cap_writer cap_fs.
Proof.
  split; try done.
  - by repeat constructor.
  - intros n Hn%cap_listing. assert (Forall proper cap_names) as Hall.
    { repeat constructor; try done; vm_compute; intros H; repeat (destruct H as [H|H]; [done |]); done. }
    by eapply Forall_forall in Hall.
  - vm_compute. lia.
  - intros n _. left. by intros [= ?]%cap_files.
Qed.

Lemma capture_retention_witness :
  exists tr fs', cap_cleanupLocked no_faults (map_order _ _) cap_writer cap_fs = (tr, fs', tt) /\
    tree fs' !! ["cap"; "blocked_00004.pcap"]%string = Some (NFile 0) /\
    tree fs' !! ["cap"; "notes.txt"]%string = Some (NFile 3) /\
    tree fs' !! ["cap"; "blocked_9.pcap"]%string = None.
Proof.
  destruct (capture_retention (map_order _ _) cap_writer cap_fs cap_cleanable)
    as (tr & fs' & Hrun & (_ & _ & Hcur & _ & Hother) & _).
  exists tr, fs'. split; [done |]. split_and!.
  - etransitivity; [exact Hcur | reflexivity].
  - etransitivity; [apply Hother | reflexivity]. intros n Hn He. injection He as <-. by vm_compute in Hn.
  - vm_compute in Hrun. injection Hrun as _ <-. reflexivity.
Defined.

(** ** A second run

    The index of the captures starts again at one in every process, while the scan
    removes what sorts first: in a directory that an earlier run filled, the capture
    made before the current one is removed and those of the earlier run stay. *)
Definition old_names : list string :=
  ["blocked_00008.pcap"; "blocked_00009.pcap"; "blocked_00010.pcap"]%string.

Definition old_run : FS :=
  mkFS (<[["cap"]%string := NDir]>
        (list_to_map (imap (fun k n => (["cap"; n]%string, NFile k)) old_names)))
    (list_to_map (imap (fun k _ => (k, mkInode [Z.of_nat k] zeroTime)) old_names)) [].

(** Two blocked packets, one capture each. *)
Definition second_run : IO (option string * option string) :=
  do made := NewWriter no_faults (mkCaptureConfig "/cap" 3 1) in
  match made with
  | inl (Some w) =>
      let write := WriteBlock [1] (fun _ _ => inl [2]) no_faults (map_order _ _) zeroTime [x45] in
      do r1 := write w in
      do r2 := write r1.2 in
      io_ret (r1.1, r2.1)
  | _ => io_ret (None, None)
  end.

Theorem restart_removes_newest :
  let '(_, fs, r) := second_run old_run in
  r = (None, None) /\
  tree fs !! ["cap"; "blocked_00001.pcap"]%string = None /\
  tree fs !! ["cap"; "blocked_00009.pcap"]%string = Some (NFile 1) /\
  tree fs !! ["cap"; "blocked_00010.pcap"]%string = Some (NFile 2).
Proof. vm_compute. split_and!; reflexivity. Qed.
