(* ===== verification/Lifecycle.v ===== *)
(** * The life of the process: [Run], [Stop] and the shutdown of [main]

    Translated from [setLifecycle], [Run] and [Stop] of src/internal/engine/engine.go
    and from the end of [main] in src/cmd/server/main.go.  Four goroutines run: the main
    one, which is inside [Run]; the receive loop that the queue library starts; the
    maintenance goroutine; and the one that waits for a signal.  [step] is one statement
    of one of them, and one critical section of the callback of a packet (PacketSteps.v).
    The calls of the queue library return or fail; how long they take is not modelled.
    When main returns the process ends and nothing steps any more. *)
From Stdlib Require Import ZArith Lia ZifyBool.
From stdpp Require Import base gmap sets list strings pretty relations.
From S2P Require Import Prelude GoTime GoFloat GoNet Packet Conntrack RateLimit L2Filter ThreatIntel Alert Opa Engine PacketSteps EngineFacts EngineInv.

Local Open Scope Z_scope.

(** Where [Run] stands; the points with an error are on the error paths. *)
Inductive run_pc : Type :=
| RRestore | RSetLifecycle | ROpen | RMark | RRegister | RSpawn | RWait | RCloseQueue | RUnmark
| RAbortClose (err : string) | RAbortUnmark (err : string) | RAbortCancel (err : string)
| RReturned (err : option string).

(** Where the maintenance goroutine stands: not started, at its [select], after a tick about
    to clean up and then to save, about to save for the last time, returned. *)
Inductive saver_pc : Type := SNone | SSelect | SCleanup | STick | SFinal | SReturned.

(** Where the signal goroutine stands; [GCancel b] is inside [Stop] with a cancel
    function ([b] is true) or nil. *)
Inductive signal_pc : Type := GWait | GShutdown | GStop | GCancel (b : bool) | GMainCancel | GReturned.

(** Where [main] stands: inside [Run], waiting after an error, returned. *)
Inductive main_pc : Type := MRun | MWait | MExit.

Record Flags : Type := mkFlags {
  has_cancel : bool;    (* e.cancel is not nil *)
  ctx_done : bool;      (* the context of Run is cancelled *)
  main_done : bool;     (* the context of main is cancelled *)
  running : bool;       (* e.running *)
  queue_open : bool;    (* the queue is open *)
  receiving : bool;     (* the receive loop is alive *)
}.

(** [setLifecycle]: the cancel function is there from now on. *)
Definition setLifecycle (fl : Flags) : Flags :=
  mkFlags true (ctx_done fl) (main_done fl) (running fl) (queue_open fl) (receiving fl).

(** The call of the cancel function that [Stop] read, if it was not nil. *)
Definition Stop_cancel (read : bool) (fl : Flags) : Flags :=
  mkFlags (has_cancel fl) (ctx_done fl || read) (main_done fl) (running fl) (queue_open fl) (receiving fl).

Section lifecycle.
Context {E : Type} `{Evaluator E}.
Context (NewPacket : list Byte.byte -> LayerType -> option DecodedPacket) (statePath : string).

Record System : Type := mkSystem {
  s_run : run_pc;
  s_saver : saver_pc;
  s_signal : signal_pc;
  s_main : main_pc;
  s_flags : Flags;
  s_machine : Machine E;             (* the engine and the callback in progress *)
  s_saves : list (gmap string Z);   (* what was handed to persist.SaveState *)
}.

Definition s_engine (s : System) : Engine E := m_engine (s_machine s).

Definition on_engine (f : Engine E -> Engine E) (k : Machine E) : Machine E := mkMachine (f (m_engine k)) (m_task k).

(** The counters handed to [persist.SaveState]; nothing when no path is set. *)
Definition save_call (e : Engine E) (ws : list (gmap string Z)) : list (gmap string Z) :=
  if String.eqb statePath "" then ws else ws ++ [saved_stats e].

(** *** The main goroutine *)
Inductive run_step : System -> System -> Prop :=
| run_restore sv g fl e ws ro loaded :
    run_step (mkSystem RRestore sv g MRun fl e ws)
      (mkSystem RSetLifecycle sv g MRun fl (on_engine (restoreState ro statePath loaded) e) ws)
| run_setLifecycle sv g hc cd md rn q lp e ws :
    run_step (mkSystem RSetLifecycle sv g MRun (mkFlags hc cd md rn q lp) e ws)
      (mkSystem ROpen sv g MRun (setLifecycle (mkFlags hc cd md rn q lp)) e ws)
| run_open sv g hc cd md rn q lp e ws :
    run_step (mkSystem ROpen sv g MRun (mkFlags hc cd md rn q lp) e ws)
      (mkSystem RMark sv g MRun (mkFlags hc cd md rn true lp) e ws)
| run_open_error sv g hc cd md rn q lp e ws (queueNum : Z) err :
    run_step (mkSystem ROpen sv g MRun (mkFlags hc cd md rn q lp) e ws)
      (mkSystem (RAbortCancel ("opening NFQUEUE " +:+ pretty queueNum +:+ ": " +:+ err)) sv g MRun (mkFlags hc cd md rn q lp) e ws)
| run_mark sv g hc cd md rn q lp e ws :
    run_step (mkSystem RMark sv g MRun (mkFlags hc cd md rn q lp) e ws)
      (mkSystem RRegister sv g MRun (mkFlags hc cd md true q lp) e ws)
| run_register sv g hc cd md rn q lp e ws :
    run_step (mkSystem RRegister sv g MRun (mkFlags hc cd md rn q lp) e ws)
      (mkSystem RSpawn sv g MRun (mkFlags hc cd md rn q true) e ws)
| run_register_error sv g hc cd md rn q lp e ws err :
    run_step (mkSystem RRegister sv g MRun (mkFlags hc cd md rn q lp) e ws)
      (mkSystem (RAbortClose ("registering NFQUEUE handler: " +:+ err)) sv g MRun (mkFlags hc cd md rn q lp) e ws)
| run_abort_close sv g hc cd md rn q lp e ws err :
    run_step (mkSystem (RAbortClose err) sv g MRun (mkFlags hc cd md rn q lp) e ws)
      (mkSystem (RAbortUnmark err) sv g MRun (mkFlags hc cd md rn false lp) e ws)
| run_abort_unmark sv g hc cd md rn q lp e ws err :
    run_step (mkSystem (RAbortUnmark err) sv g MRun (mkFlags hc cd md rn q lp) e ws)
      (mkSystem (RAbortCancel err) sv g MRun (mkFlags hc cd md false q lp) e ws)
| run_abort_cancel sv g hc cd md rn q lp e ws err :
    run_step (mkSystem (RAbortCancel err) sv g MRun (mkFlags hc cd md rn q lp) e ws)
      (mkSystem (RReturned (Some err)) sv g MRun (mkFlags hc true md rn q lp) e ws)
| run_spawn sv g fl e ws :
    run_step (mkSystem RSpawn sv g MRun fl e ws) (mkSystem RWait SSelect g MRun fl e ws)
| run_wake sv g fl e ws :
    ctx_done fl = true ->
    run_step (mkSystem RWait sv g MRun fl e ws) (mkSystem RCloseQueue sv g MRun fl e ws)
| run_close sv g hc cd md rn q lp e ws :
    run_step (mkSystem RCloseQueue sv g MRun (mkFlags hc cd md rn q lp) e ws)
      (mkSystem RUnmark sv g MRun (mkFlags hc cd md rn false lp) e ws)
| run_unmark sv g hc cd md rn q lp e ws :
    run_step (mkSystem RUnmark sv g MRun (mkFlags hc cd md rn q lp) e ws)
      (mkSystem (RReturned None) sv g MRun (mkFlags hc cd md false q lp) e ws)
| main_exit sv g fl e ws :
    run_step (mkSystem (RReturned None) sv g MRun fl e ws) (mkSystem (RReturned None) sv g MExit fl e ws)
| main_wait sv g fl e ws err :
    run_step (mkSystem (RReturned (Some err)) sv g MRun fl e ws)
      (mkSystem (RReturned (Some err)) sv g MWait fl e ws)
| main_wake r sv g fl e ws :
    main_done fl = true ->
    run_step (mkSystem r sv g MWait fl e ws) (mkSystem r sv g MExit fl e ws).

(** *** The receive loop

    It takes one packet at a time and runs its callback, one critical section per step.  A
    callback that returns anything but 0 ends it, and so does an error of the queue that is
    not temporary; the library ends it some time after the context is cancelled. *)
Inductive receive_step : System -> System -> Prop :=
| recv_packet r sv g m hc cd md rn e ws v send attr :
    m <> MExit -> (forall raw, Payload attr = Some raw -> zlen raw < 2 ^ 63) ->
    receive_step (mkSystem r sv g m (mkFlags hc cd md rn true true) (mkMachine e None) ws)
      (mkSystem r sv g m (mkFlags hc cd md rn true true)
         (mkMachine e (Some (callback_task NewPacket v send attr))) ws)
| recv_action r sv g m fl e X (c : action X) k ws :
    m <> MExit ->
    receive_step (mkSystem r sv g m fl (mkMachine e (Some (Act c k))) ws)
      (mkSystem r sv g m fl (mkMachine (exec c e).1 (Some (k (exec c e).2))) ws)
| recv_return r sv g m hc cd md rn q lp e ws out n :
    m <> MExit ->
    receive_step (mkSystem r sv g m (mkFlags hc cd md rn q lp) (mkMachine e (Some (Done (out, n)))) ws)
      (mkSystem r sv g m (mkFlags hc cd md rn q (lp && (n =? 0))) (mkMachine e None) ws)
| recv_end r sv g m hc cd md rn q e ws :
    m <> MExit ->
    receive_step (mkSystem r sv g m (mkFlags hc cd md rn q true) (mkMachine e None) ws)
      (mkSystem r sv g m (mkFlags hc cd md rn q false) (mkMachine e None) ws).

(** *** The maintenance goroutine *)
Inductive saver_step : System -> System -> Prop :=
| saver_tick r g m fl e ws fo now :
    m <> MExit ->
    saver_step (mkSystem r SSelect g m fl e ws) (mkSystem r SCleanup g m fl (on_engine (expire_engine fo now) e) ws)
| saver_cleanup r g m fl e ws bo now :
    m <> MExit ->
    saver_step (mkSystem r SCleanup g m fl e ws) (mkSystem r STick g m fl (on_engine (cleanup_engine bo now) e) ws)
| saver_save r g m fl e ws :
    m <> MExit ->
    saver_step (mkSystem r STick g m fl e ws) (mkSystem r SSelect g m fl e (save_call (m_engine e) ws))
| saver_done r g m fl e ws :
    m <> MExit -> ctx_done fl = true ->
    saver_step (mkSystem r SSelect g m fl e ws) (mkSystem r SFinal g m fl e ws)
| saver_final r g m fl e ws :
    m <> MExit ->
    saver_step (mkSystem r SFinal g m fl e ws) (mkSystem r SReturned g m fl e (save_call (m_engine e) ws)).

(** *** The signal goroutine: the first signal shuts the admin server down, then calls
    [Stop], then cancels the context of main. *)
Inductive signal_step : System -> System -> Prop :=
| signal_arrives r sv m fl e ws :
    m <> MExit -> signal_step (mkSystem r sv GWait m fl e ws) (mkSystem r sv GShutdown m fl e ws)
| signal_shutdown r sv m fl e ws :
    m <> MExit -> signal_step (mkSystem r sv GShutdown m fl e ws) (mkSystem r sv GStop m fl e ws)
| signal_read r sv m fl e ws :
    m <> MExit -> signal_step (mkSystem r sv GStop m fl e ws) (mkSystem r sv (GCancel (has_cancel fl)) m fl e ws)
| signal_cancel r sv m b hc cd md rn q lp e ws :
    m <> MExit ->
    signal_step (mkSystem r sv (GCancel b) m (mkFlags hc cd md rn q lp) e ws)
      (mkSystem r sv GMainCancel m (Stop_cancel b (mkFlags hc cd md rn q lp)) e ws)
| signal_main r sv m hc cd md rn q lp e ws :
    m <> MExit ->
    signal_step (mkSystem r sv GMainCancel m (mkFlags hc cd md rn q lp) e ws)
      (mkSystem r sv GReturned m (mkFlags hc cd true rn q lp) e ws).

Inductive step (s s' : System) : Prop :=
| step_run : run_step s s' -> step s s'
| step_receive : receive_step s s' -> step s s'
| step_saver : saver_step s s' -> step s s'
| step_signal : signal_step s s' -> step s s'.

(** The process when main calls [Run]; the signal goroutine is already waiting. *)
Definition started_with (e : Engine E) : System :=
  mkSystem RRestore SNone GWait MRun (mkFlags false false false false false false) (idle e) [].
End lifecycle.
