(* ===== verification/LifecycleFacts.v ===== *)
(** * What the life cycle guarantees, and what it does not

    [Running] is true exactly from the store behind the opening of the queue to the store
    behind its closing; when [Run] returns the queue is closed.  Three schedules that end
    badly are exhibited: a signal that arrives before [Run] has set its cancel function is
    lost for good; the receive loop can end while the engine reports that it runs; main can
    return before the last save. *)
From Stdlib Require Import ZArith Lia ZifyBool Strings.Byte.
From stdpp Require Import base gmap sets list strings relations.
From S2P Require Import Prelude GoTime GoFloat GoNet Packet PacketFacts Conntrack RateLimit L2Filter ThreatIntel Alert Opa Engine PacketSteps EngineFacts EngineInv Lifecycle.

Local Open Scope Z_scope.

Tactic Notation "go_run" uconstr(c) := eapply rtc_l; [apply step_run; by eapply c |].
Ltac go_signal := eapply rtc_l; [apply step_signal; by constructor |].

(** [Run] from its [setLifecycle] to its wait, without an error. *)
Ltac run_along :=
  go_run run_setLifecycle; go_run run_open; go_run run_mark; go_run run_register; go_run run_spawn.

Section facts.
Context {E : Type} `{Evaluator E}.
Context (NewPacket : list Byte.byte -> LayerType -> option DecodedPacket) (statePath : string).

Notation Sys := (@System E).
Notation step := (step NewPacket statePath).
Notation run_step := (run_step statePath).

(** [Run] has marked the engine as running and not yet taken the mark away. *)
Definition marked (r : run_pc) : bool :=
  match r with RRegister | RSpawn | RWait | RCloseQueue | RUnmark | RAbortClose _ | RAbortUnmark _ => true | _ => false end.

Definition opened (r : run_pc) : bool :=
  match r with RMark | RRegister | RSpawn | RWait | RCloseQueue | RAbortClose _ => true | _ => false end.

Definition returned (r : run_pc) : bool := match r with RReturned _ => true | _ => false end.

(** [setLifecycle] has been called. *)
Definition cancellable (r : run_pc) : bool := match r with RRestore | RSetLifecycle => false | _ => true end.

(** The receive loop has been started. *)
Definition registered (r : run_pc) : bool :=
  match r with RSpawn | RWait | RCloseQueue | RUnmark | RReturned _ => true | _ => false end.

Definition spawned (r : run_pc) : bool :=
  match r with RWait | RCloseQueue | RUnmark | RReturned _ => true | _ => false end.

Definition failed (r : run_pc) : bool := match r with RReturned (Some _) => true | _ => false end.

(** [Stop] has been called. *)
Definition stopped (g : signal_pc) : bool := match g with GMainCancel | GReturned => true | _ => false end.

Record life_inv (s : Sys) : Prop := {
  li_running : running (s_flags s) = marked (s_run s);
  li_queue : queue_open (s_flags s) = opened (s_run s);
  li_cancel : has_cancel (s_flags s) = cancellable (s_run s);
  li_receiving : receiving (s_flags s) = true -> registered (s_run s) = true;
  li_saver : s_saver s <> SNone -> spawned (s_run s) = true;
  li_main : s_main s <> MRun -> returned (s_run s) = true;
  li_returned : returned (s_run s) = true -> ctx_done (s_flags s) = true;
  li_closing : s_run s = RCloseQueue \/ s_run s = RUnmark -> ctx_done (s_flags s) = true;
  li_cause : ctx_done (s_flags s) = true -> failed (s_run s) = true \/ stopped (s_signal s) = true;
}.

Lemma on_engine_inv f (k : Machine E) :
  (forall e, engine_inv e -> engine_inv (f e)) -> machine_inv k -> machine_inv (on_engine f k).
Proof. intros Hf [He Ht]. split; [by apply Hf | exact Ht]. Qed.

Lemma step_machine s s' : step s s' -> machine_inv (s_machine s) -> machine_inv (s_machine s').
Proof.
  intros [Hs|Hs|Hs|Hs] He; destruct Hs; simpl in *; try done.
  - apply on_engine_inv; [|done]. intros e1. apply restore_inv.
  - by eapply (engine_step_inv NewPacket); [apply step_packet |].
  - by eapply (engine_step_inv NewPacket); [apply step_action |].
  - apply on_engine_inv; [|done]. intros e1. apply expire_inv.
  - apply on_engine_inv; [|done]. intros e1. apply cleanup_inv.
Qed.

Ltac solve_life :=
  intros; simpl in *; try subst; simpl in *;
  first [done | congruence | by auto | by intuition congruence | by (rewrite orb_true_iff; auto)
        | by (rewrite andb_true_iff in *; naive_solver)].

Lemma run_life s s' : run_step s s' -> life_inv s -> life_inv s'.
Proof.
  intros Hs [Hr Hq Hc Hl Hsv Hm Hret Hcl Hwhy]. destruct Hs; simpl in *; split; simpl in *; solve_life.
Qed.

Lemma receive_life s s' : receive_step NewPacket s s' -> life_inv s -> life_inv s'.
Proof.
  intros Hs [Hr Hq Hc Hl Hsv Hm Hret Hcl Hwhy]. destruct Hs; simpl in *; split; simpl in *; solve_life.
Qed.

Lemma saver_life s s' : saver_step statePath s s' -> life_inv s -> life_inv s'.
Proof.
  intros Hs [Hr Hq Hc Hl Hsv Hm Hret Hcl Hwhy]. destruct Hs; simpl in *; split; simpl in *; solve_life.
Qed.

Lemma signal_life s s' : signal_step s s' -> life_inv s -> life_inv s'.
Proof.
  intros Hs [Hr Hq Hc Hl Hsv Hm Hret Hcl Hwhy]. destruct Hs; simpl in *; split; simpl in *; solve_life.
Qed.

Lemma life_reachable e0 s :
  rtc step (started_with e0) s -> engine_inv e0 -> life_inv s /\ machine_inv (s_machine s).
Proof.
  intros Hr He. remember (started_with e0) as s0 eqn:Hs0.
  assert (life_inv s0 /\ machine_inv (s_machine s0)) as Hi by (subst; split; [split; simpl; naive_solver | by apply idle_inv]).
  clear Hs0. induction Hr as [|s1 s2 s3 Hs _ IH]; [done |]. apply IH. destruct Hi as [Hl Hi].
  split; [|by eapply step_machine].
  destruct Hs; [by eapply run_life | by eapply receive_life | by eapply saver_life | by eapply signal_life].
Qed.

(** C35: In every interleaving of [Run], the critical sections of the receive loop, the maintenance
    goroutine and the signal handler, error paths included: the queue is open exactly from its opening to
    its closing in the code of [Run]; [Running] reports true exactly from the store that follows the
    opening to the store that follows the closing; when main returns the queue is closed and nothing is
    marked as running; packets are received only after [Run] has registered for them; [Run] returns only
    after an error or a call of [Stop]; and the engine's components stay well formed. *)
Theorem lifecycle_exact e0 s :
  rtc step (started_with e0) s -> engine_inv e0 ->
  running (s_flags s) = marked (s_run s) /\ queue_open (s_flags s) = opened (s_run s) /\
  (s_main s = MExit -> running (s_flags s) = false /\ queue_open (s_flags s) = false) /\
  (receiving (s_flags s) = true -> registered (s_run s) = true) /\
  (returned (s_run s) = true -> failed (s_run s) = true \/ stopped (s_signal s) = true) /\
  engine_inv (s_engine s).
Proof.
  intros Hr He. destruct (life_reachable _ _ Hr He) as [[H1 H2 _ H4 _ H6 H7 _ H9] [He' _]].
  split_and!; auto. intros Hm. assert (returned (s_run s) = true) as Hret by (apply H6; by rewrite Hm).
  rewrite H1, H2. by destruct (s_run s).
Qed.

(** ** Schedules that end badly *)

Lemma rtc_keeps (P : Sys -> Prop) :
  (forall s s', step s s' -> P s -> P s') -> forall s s', rtc step s s' -> P s -> P s'.
Proof. intros HP s s' Hr. induction Hr as [|s1 s2 s3 Hs _ IH]; eauto. Qed.

(** A state in which [Run] waits for a cancellation that nobody will make. *)
Definition unstoppable (s : Sys) : Prop :=
  s_run s = RWait /\ s_signal s = GReturned /\ s_main s = MRun /\ ctx_done (s_flags s) = false.

Lemma unstoppable_step s s' : step s s' -> unstoppable s -> unstoppable s'.
Proof.
  intros Hs (Hr & Hg & Hm & Hc). destruct Hs as [Hs|Hs|Hs|Hs]; destruct Hs; unfold unstoppable; simpl in *;
    simplify_eq; split_and!; congruence.
Qed.

(** When the signal arrives before [Run] has called [setLifecycle], [Stop] finds no
    cancel function; the handler has then returned, [Run] waits for ever and later
    signals are ignored. *)
Theorem early_signal_lost e0 :
  exists s, rtc step (started_with e0) s /\ s_signal s = GReturned /\
    forall s', rtc step s s' -> s_run s' = RWait /\ s_main s' = MRun.
Proof.
  eexists (mkSystem RWait SSelect GReturned MRun (mkFlags true false true true true true) _ _). split_and!.
  - unfold started_with.
    do 5 go_signal.
    eapply rtc_l; [apply step_run, (run_restore statePath _ _ _ _ _ (map_order _ _) (inl None)) |].
    run_along. apply rtc_refl.
  - done.
  - intros s' Hs'. by destruct (rtc_keeps unstoppable unstoppable_step _ _ Hs') as (? & _ & ? & _).
Qed.

(** The start of the queue, from any engine. *)
Definition waiting (e : Engine E) (ws : list (gmap string Z)) : Sys :=
  mkSystem RWait SSelect GWait MRun (mkFlags true false false true true true) (idle e) ws.

Lemma reach_waiting e0 : rtc step (started_with e0) (waiting (restoreState (map_order _ _) statePath (inl None) e0) []).
Proof.
  unfold started_with. eapply rtc_l; [apply step_run, (run_restore statePath _ _ _ _ _ (map_order _ _) (inl None)) |].
  run_along. apply rtc_refl.
Qed.

(** A callback that nothing interrupts, inside the process. *)
Lemma recv_run r sv g m hc cd md rn q lp ws t e e' out n :
  m <> MExit -> run t e = (e', inl (out, n)) ->
  rtc step (mkSystem r sv g m (mkFlags hc cd md rn q lp) (mkMachine e (Some t)) ws)
    (mkSystem r sv g m (mkFlags hc cd md rn q (lp && (n =? 0))) (idle e') ws).
Proof.
  intros Hm. revert e. induction t as [a|x|X c k IH]; intros e; simpl.
  - intros [= <- ->]. by apply rtc_once, step_receive, recv_return.
  - done.
  - intros Hr. eapply rtc_l; [by apply step_receive, recv_action |]. destruct (exec c e) as [e1 x]. by apply IH.
Qed.

Lemma recv_handled r sv g m hc cd md rn ws v send attr e e' out n :
  m <> MExit -> (forall raw, Payload attr = Some raw -> zlen raw < 2 ^ 63) ->
  handleQueuePacket NewPacket v send attr e = (e', out, inl n) ->
  rtc step (mkSystem r sv g m (mkFlags hc cd md rn true true) (idle e) ws)
    (mkSystem r sv g m (mkFlags hc cd md rn true (n =? 0)) (idle e') ws).
Proof.
  intros Hm Hraw Hh. eapply rtc_l; [by apply step_receive, (recv_packet NewPacket _ _ _ _ _ _ _ _ _ _ v send attr) |].
  apply (recv_run r sv g m hc cd md rn true true ws _ e e' out n Hm). by rewrite callback_uninterrupted, Hh.
Qed.

Lemma deaf_step s s' : step s s' -> receiving (s_flags s) = false /\ registered (s_run s) = true ->
  receiving (s_flags s') = false /\ registered (s_run s') = true.
Proof. intros Hs [Hl Hr]. destruct Hs as [Hs|Hs|Hs|Hs]; destruct Hs; simpl in *; by simplify_eq. Qed.

(** A message without a packet identifier (or a verdict that cannot be sent) ends the
    receive loop; [Run] does not notice, and the engine goes on reporting that it runs
    while no packet is ever received again. *)
Theorem deaf_but_running e0 :
  exists s, rtc step (started_with e0) s /\ running (s_flags s) = true /\ ctx_done (s_flags s) = false /\
    forall s', rtc step s s' -> receiving (s_flags s') = false.
Proof.
  set (e1 := restoreState (map_order _ _) statePath (inl None) e0).
  exists (mkSystem RWait SSelect GWait MRun (mkFlags true false false true true false) (idle e1) []). split_and!; try done.
  - etransitivity; [apply reach_waiting |].
    by apply (recv_handled RWait SSelect GWait MRun true false false true [] sample_env (fun _ _ => None) (mkAttribute None None) e1 e1 [] 1).
  - intros s' Hs'. by destruct (rtc_keeps _ deaf_step _ _ Hs').
Qed.
End facts.

(** ** Concrete runs *)
#[local] Existing Instance silent_evaluator.

(** An engine without evaluator that drops what it cannot decide. *)
Definition closed_engine : Engine unit :=
  New None (NewTable DefaultConfig) (NewLimiter f0 f0) true false false None None None None None.

Lemma closed_engine_inv : engine_inv closed_engine.
Proof. by apply New_inv. Qed.

Definition blocked_engine : Engine unit :=
  (packetHandler reference_decoder sample_env sample_attribute closed_engine).1.

(** The signal arrives after a packet was blocked and [Run] returns before the
    maintenance goroutine has saved: main returns and the counters are lost. *)
Theorem exit_before_save :
  exists s, rtc (step reference_decoder "/var/fw/state.json") (started_with closed_engine) s /\
    s_main s = MExit /\ s_saves s = [] /\ size (blockStats (s_engine s)) = 1%nat.
Proof.
  exists (mkSystem (RReturned None) SSelect GMainCancel MExit (mkFlags true true false false false true) (idle blocked_engine) []).
  split_and!; [|done | done | vm_compute; reflexivity].
  etransitivity; [exact (reach_waiting reference_decoder "/var/fw/state.json" closed_engine) |].
  etransitivity.
  { apply (recv_handled reference_decoder "/var/fw/state.json" RWait SSelect GWait MRun true false false true [] sample_env
      (fun _ _ => None) sample_attribute closed_engine blocked_engine [(1, NfDrop)] 0);
      [done | exact sample_attribute_size | vm_compute; reflexivity]. }
  do 4 go_signal.
  go_run run_wake. go_run run_close. go_run run_unmark. go_run main_exit. apply rtc_refl.
Qed.

(** A packet is under way and an expiry interrupts it. *)
Lemma lifecycle_exact_witness :
  exists s, rtc (step reference_decoder "/s") (started_with closed_engine) s /\ s_saver s = SCleanup /\
    m_task (s_machine s) <> None /\ running (s_flags s) = true /\ engine_inv (s_engine s).
Proof.
  set (e1 := restoreState (map_order _ _) "/s" (inl None) closed_engine).
  set (t := callback_task reference_decoder sample_env (fun _ _ => None) sample_attribute).
  set (s := mkSystem RWait SCleanup GWait MRun (mkFlags true false false true true true)
              (on_engine (expire_engine (map_order _ _) (mkTime 0 None)) (mkMachine e1 (Some t))) []).
  assert (rtc (step reference_decoder "/s") (started_with closed_engine) s) as Hs.
  { etransitivity; [exact (reach_waiting reference_decoder "/s" closed_engine) |].
    eapply rtc_l; [by apply step_receive, (recv_packet reference_decoder _ _ _ _ _ _ _ _ _ _ sample_env (fun _ _ => None)
      sample_attribute), sample_attribute_size |].
    apply rtc_once, step_saver. by apply saver_tick. }
  destruct (lifecycle_exact reference_decoder "/s" closed_engine s Hs closed_engine_inv) as (Hr & _ & _ & _ & _ & He).
  exists s. split; [exact Hs |]. split; [reflexivity |]. split; [discriminate |]. split; [exact Hr | exact He].
Defined.
