(* ===== verification/GoStrconv.v ===== *)
(** * Numbers in text

    The functions of the standard library that package [flag] reads values with:
    [strconv.ParseBool], [ParseUint] and [ParseInt] with base 0 and 64 bits,
    [ParseFloat] with 64 bits, and [time.ParseDuration].  Texts are lists of byte
    values; [None] is an error, of syntax or of range. *)
From Stdlib Require Import ZArith Lia ZifyBool SpecFloat.
From stdpp Require Import base list strings.
From S2P Require Import Prelude GoTime GoFloat GoNet L2Filter.

Local Open Scope Z_scope.

(** [c | ('x' - 'X')] *)
Definition lower (c : Z) : Z := Z.lor c 32.


(** ** Booleans *)
Definition ParseBool (s : string) : option bool :=
  if bool_decide (s ∈ ["1"; "t"; "T"; "true"; "TRUE"; "True"]%string) then Some true
  else if bool_decide (s ∈ ["0"; "f"; "F"; "false"; "FALSE"; "False"]%string) then Some false
  else None.

(** ** Underscores *)

(** The last character seen by [underscoreOK]: nothing, a digit or a base prefix, an
    underscore, or something else. *)
Inductive seen : Type := SawStart | SawDigit | SawUnderscore | SawOther.

Fixpoint underscore_loop (hex : bool) (saw : seen) (s : list Z) : bool :=
  match s with
  | [] => match saw with SawUnderscore => false | _ => true end
  | c :: s' =>
      if is_digit c || (hex && in_chars 97 102 (lower c)) then underscore_loop hex SawDigit s'
      else if c =? 95 then
        match saw with SawDigit => underscore_loop hex SawUnderscore s' | _ => false end
      else
        match saw with SawUnderscore => false | _ => underscore_loop hex SawOther s' end
  end.

Definition strip_sign (s : list Z) : bool * list Z :=
  match s with
  | c :: s' => if c =? 45 then (true, s') else if c =? 43 then (false, s') else (false, s)
  | [] => (false, [])
  end.

Definition underscoreOK (s : list Z) : bool :=
  let s := (strip_sign s).2 in
  match s with
  | 48 :: c :: s' =>
      if (lower c =? 98) || (lower c =? 111) || (lower c =? 120)
      then underscore_loop (lower c =? 120) SawDigit s'
      else underscore_loop false SawStart s
  | _ => underscore_loop false SawStart s
  end.

(** ** Integers *)

(** The base and the rest of a text whose base is 0. *)
Definition base_prefix (s : list Z) : Z * list Z :=
  match s with
  | 48 :: c :: d :: s' =>
      if lower c =? 98 then (2, d :: s')
      else if lower c =? 111 then (8, d :: s')
      else if lower c =? 120 then (16, d :: s')
      else (8, c :: d :: s')
  | 48 :: s' => (8, s')
  | _ => (10, s)
  end.

Definition digit_value (c : Z) : option Z :=
  if is_digit c then Some (c - 48)
  else if in_chars 97 122 (lower c) then Some (lower c - 97 + 10)
  else None.

(** The loop of [ParseUint]: the value and whether an underscore was seen. *)
Fixpoint uint_loop (base : Z) (s : list Z) (n : Z) (underscores : bool) : option (Z * bool) :=
  match s with
  | [] => Some (n, underscores)
  | c :: s' =>
      if c =? 95 then uint_loop base s' n true
      else
        match digit_value c with
        | None => None
        | Some d =>
            if base <=? d then None
            else if 2 ^ 64 <=? n * base + d then None
            else uint_loop base s' (n * base + d) underscores
        end
  end.

Definition ParseUint (s : list Z) : option Z :=
  match s with
  | [] => None
  | _ =>
      let '(base, rest) := base_prefix s in
      match uint_loop base rest 0 false with
      | None => None
      | Some (n, underscores) => if underscores && negb (underscoreOK s) then None else Some n
      end
  end.

Definition ParseInt (s : list Z) : option Z :=
  let '(neg, rest) := strip_sign s in
  match ParseUint rest with
  | None => None
  | Some un =>
      if neg then if 2 ^ 63 <? un then None else Some (- un)
      else if 2 ^ 63 <=? un then None else Some un
  end.

(** ** Floating-point numbers *)

(** [m * 2^e] rounded. *)
Definition round_binary (neg : bool) (m e : Z) : float64 :=
  match m with
  | Zpos p => binary_round prec64 emax64 neg p e
  | _ => S754_zero neg
  end.

(** [m * 10^e] rounded: for a negative exponent, the quotient of two integers. *)
Definition round_decimal (neg : bool) (m e : Z) : float64 :=
  match m with
  | Zpos p =>
      if 0 <=? e then round_binary neg (m * 10 ^ e) 0
      else
        let '(q, e', l) := SFdiv_core_binary prec64 emax64 m 0 (10 ^ (- e)) 0 in
        binary_round_aux prec64 emax64 neg q e' l
  | _ => S754_zero neg
  end.

(** The mantissa of [readFloat]: digits, at most one point, underscores anywhere.  [nd] is
    the number of digits after the point, when there is one. *)
Record mantissa : Type := mkMantissa {
  mant : Z;
  point : option Z;
  sawdigits : bool;
  sawunderscore : bool;
  rest_of : list Z;
}.

Fixpoint mantissa_loop (base : Z) (s : list Z) (m : Z) (nd : option Z) (digits unders : bool) : mantissa :=
  match s with
  | [] => mkMantissa m nd digits unders []
  | c :: s' =>
      if c =? 95 then mantissa_loop base s' m nd digits true
      else if c =? 46 then
        match nd with
        | Some _ => mkMantissa m nd digits unders s
        | None => mantissa_loop base s' m (Some 0) digits unders
        end
      else
        let next d := mantissa_loop base s' (m * base + d) ((fun k => k + 1) <$> nd) true unders in
        if is_digit c then next (c - 48)
        else if (base =? 16) && in_chars 97 102 (lower c) then next (lower c - 97 + 10)
        else mkMantissa m nd digits unders s
  end.

(** The exponent: at least one digit, and it stops growing at 10000. *)
Fixpoint exponent_loop (s : list Z) (e : Z) (unders : bool) : Z * bool * list Z :=
  match s with
  | [] => (e, unders, [])
  | c :: s' =>
      if c =? 95 then exponent_loop s' e true
      else if is_digit c then exponent_loop s' (if e <? 10000 then e * 10 + (c - 48) else e) unders
      else (e, unders, s)
  end.

Definition read_exponent (s : list Z) : option (Z * bool * list Z) :=
  let '(neg, rest) := strip_sign s in
  match rest with
  | c :: _ =>
      if is_digit c then
        let '(e, u, r) := exponent_loop rest 0 false in
        Some (if neg then - e else e, u, r)
      else None
  | [] => None
  end.

Definition fold_lower (s : list Z) : string := text (lower <$> s).

(** [special] *)
Definition special_float (s : list Z) : option float64 :=
  let '(neg, rest) := strip_sign s in
  let name := fold_lower rest in
  if (String.eqb name "inf" || String.eqb name "infinity")%string then Some (S754_infinity neg)
  else if String.eqb name "nan" && (length rest =? length s)%nat then Some S754_nan
  else None.

(** A hexadecimal number has a prefix and something behind it. *)
Definition float_base (s : list Z) : Z * list Z :=
  match s with
  | 48 :: c :: d :: r => if lower c =? 120 then (16, d :: r) else (10, s)
  | _ => (10, s)
  end.

(** [ParseFloat(s, 64)]; a value too large for the format is a range error. *)
Definition ParseFloat (s : list Z) : option float64 :=
  match special_float s with
  | Some f => Some f
  | None =>
      let '(neg, rest) := strip_sign s in
      let '(base, digits) := float_base rest in
      let m := mantissa_loop base digits 0 None false false in
      if negb (sawdigits m) then None
      else
        let frac := default 0 (point m) in
        let finish e unders (r : list Z) :=
          match r with
          | _ :: _ => None
          | [] =>
              if unders && negb (underscoreOK s) then None
              else
                let f := if base =? 16 then round_binary neg (mant m) (e - 4 * frac)
                         else round_decimal neg (mant m) (e - frac) in
                if isInf f then None else Some f
          end in
        match rest_of m with
        | c :: r =>
            if (if base =? 16 then lower c =? 112 else lower c =? 101) then
              match read_exponent r with
              | None => None
              | Some (e, u, r') => finish e (sawunderscore m || u) r'
              end
            else None
        | [] => if base =? 16 then None else finish 0 (sawunderscore m) []
        end
  end.

(** ** Durations *)

(** [leadingInt] *)
Fixpoint leadingInt (s : list Z) (x : Z) : option (Z * list Z) :=
  match s with
  | c :: s' =>
      if is_digit c then
        if 2 ^ 63 / 10 <? x then None
        else if 2 ^ 63 <? x * 10 + (c - 48) then None
        else leadingInt s' (x * 10 + (c - 48))
      else Some (x, s)
  | [] => Some (x, [])
  end.

(** [leadingFraction]: the digits after an overflow are dropped. *)
Fixpoint leadingFraction (s : list Z) (x : Z) (scale : float64) (overflow : bool) : Z * float64 * list Z :=
  match s with
  | c :: s' =>
      if is_digit c then
        if overflow then leadingFraction s' x scale true
        else if (2 ^ 63 - 1) / 10 <? x then leadingFraction s' x scale true
        else if 2 ^ 63 <? x * 10 + (c - 48) then leadingFraction s' x scale true
        else leadingFraction s' (x * 10 + (c - 48)) (fmul scale (of_int 10)) false
      else (x, scale, s)
  | [] => (x, scale, [])
  end.

(** The unit: up to the next digit or point. *)
Fixpoint unit_name (s : list Z) : list Z * list Z :=
  match s with
  | c :: s' =>
      if (c =? 46) || is_digit c then ([], s)
      else let '(u, r) := unit_name s' in (c :: u, r)
  | [] => ([], [])
  end.

(** [unitMap]; microseconds are written with "u", U+00B5 or U+03BC. *)
Definition unit_value (u : list Z) : option Z :=
  if bool_decide (u = codes "ns") then Some 1
  else if bool_decide (u = codes "us") || bool_decide (u = [194; 181; 115]) || bool_decide (u = [206; 188; 115])
  then Some 1000
  else if bool_decide (u = codes "ms") then Some Millisecond
  else if bool_decide (u = codes "s") then Some Second
  else if bool_decide (u = codes "m") then Some Minute
  else if bool_decide (u = codes "h") then Some (60 * Minute)
  else None.

(** [uint64] of a float: truncation. *)
Definition to_uint (f : float64) : Z :=
  match f with
  | S754_finite false m e => if 0 <=? e then Zpos m * 2 ^ e else Zpos m / 2 ^ (- e)
  | _ => 0
  end.

(** One round of the loop: the nanoseconds of the component and the rest. *)
Definition duration_part (s : list Z) : option (Z * list Z) :=
  match s with
  | [] => None
  | c :: _ =>
      if negb ((c =? 46) || is_digit c) then None
      else
        match leadingInt s 0 with
        | None => None
        | Some (v, s1) =>
            let pre := negb (length s1 =? length s)%nat in
            let '(f, scale, s2, post) :=
              match s1 with
              | 46 :: s1' =>
                  let '(f, scale, r) := leadingFraction s1' 0 f1 false in
                  (f, scale, r, negb (length r =? length s1')%nat)
              | _ => (0, f1, s1, false)
              end in
            if negb pre && negb post then None
            else
              let '(u, s3) := unit_name s2 in
              if (length u =? 0)%nat then None
              else
                match unit_value u with
                | None => None
                | Some unit =>
                    if 2 ^ 63 / unit <? v then None
                    else
                      let v := v * unit in
                      let v := if 0 <? f
                               then v + to_uint (fmul (of_int f) (fdiv (of_int unit) scale)) else v in
                      if (0 <? f) && (2 ^ 63 <? v) then None else Some (v, s3)
                end
        end
  end.

(** The loop, with a sum of 64 bits; a component is at least two bytes long, so the length bounds the rounds. *)
Fixpoint duration_loop (fuel : nat) (s : list Z) (d : Z) : option Z :=
  match s with
  | [] => Some d
  | _ =>
      match fuel with
      | O => None
      | S fuel' =>
          match duration_part s with
          | None => None
          | Some (v, s') =>
              let d := (d + v) mod 2 ^ 64 in
              if 2 ^ 63 <? d then None else duration_loop fuel' s' d
          end
      end
  end.

Definition ParseDuration (s : list Z) : option Z :=
  let '(neg, s) := strip_sign s in
  if bool_decide (s = [48]) then Some 0
  else
    match s with
    | [] => None
    | _ =>
        match duration_loop (length s) s 0 with
        | None => None
        | Some d => if neg then Some (- d) else if 2 ^ 63 - 1 <? d then None else Some d
        end
    end.
