(* ===== verification/Startup.v ===== *)
(** * Starting the server

    The body of [main] of src/cmd/server/main.go up to the call of [Run], and the HTTP
    servers of src/internal/admin/api.go and main.go.  A start is a computation over
    the file system that ends in a fatal error or in a [Server]: the components wired
    together.  Other processes may change the file system between any two of its calls
    ([h_others], and [h_reads] inside the two guarded reads); the network (etcd, the feeds) and the decoders of third-party packages
    are arguments. *)
From Stdlib Require Import ZArith Lia ZifyBool Strings.Byte.
From stdpp Require Import base gmap sets list strings pretty fin_maps.
From S2P Require Import Prelude GoTime GoFloat GoNet Packet Conntrack RateLimit ThreatIntel Alert Opa Engine Metrics Syncer Admin GoFS SecurePath PolicyFile GeoIP AuditLog Capture.

Local Open Scope Z_scope.

(** ** HTTP servers *)
Record HttpServer : Type := mkHttpServer {
  hs_Addr : string;
  hs_ReadHeaderTimeout : Z;
  hs_ReadTimeout : Z;
  hs_WriteTimeout : Z;
  hs_IdleTimeout : Z;
}.

Definition newServer (addr : string) : HttpServer :=
  mkHttpServer addr (5 * Second) (10 * Second) (10 * Second) (30 * Second).

Definition newMetricsServer (addr : string) : HttpServer :=
  mkHttpServer addr (5 * Second) (10 * Second) (10 * Second) (30 * Second).

(** What the goroutine of a server accepts connections on. *)
Inductive listening : Type :=
| PlainHTTP (addr : string)
| WithTLS (addr : string) (minVersion : Z).

Definition StartServer (addr : string) : HttpServer * listening := (newServer addr, PlainHTTP addr).

Definition VersionTLS12 : Z := 771.

(** [StartServerTLS]; [LoadX509KeyPair] gives an error or none, [Listen] the address
    bound. *)
Definition StartServerTLS (LoadX509KeyPair : string -> string -> option string) (Listen : string -> string + string)
    (addr certFile keyFile : string) : (HttpServer * string * listening) + string :=
  if String.eqb certFile "" || String.eqb keyFile "" then
    let '(srv, l) := StartServer addr in inl (srv, hs_Addr srv, l)
  else
    match LoadX509KeyPair certFile keyFile with
    | Some _ => let '(srv, l) := StartServer addr in inl (srv, hs_Addr srv, l)
    | None =>
        match Listen addr with
        | inr e => inr ("TLS listen: " +:+ e)
        | inl bound => inl (newServer "", bound, WithTLS bound VersionTLS12)
        end
    end.

(** ** Options *)

(** The values of the flags, under the names of [main]. *)
Record Options : Type := mkOptions {
  listenAddr : string;
  adminToken : string;
  adminReadToken : string;
  queueNum : Z;
  queueNumInput : Z;
  opaEmbed : string;
  opaFailClosed : bool;
  opaAuditOnly : bool;
  logFormat : string;
  metricsListen : string;
  rateLimitPPS : float64;
  rateLimitBPS : float64;
  conntrackMax : Z;
  conntrackIdle : Z;
  conntrackUDP : Z;
  conntrackICMP : Z;
  conntrackMaxFlowsPerSrc : Z;
  auditLogPath : string;
  alertWebhookURL : string;
  geoipDBPath : string;
  threatIntelURL : string;
  pcapDir : string;
  stateFile : string;
  etcdEndpoints : string;
  etcdKey : string;
}.

Definition default_options : Options :=
  mkOptions ":8082" "" "" 0 1 "./opa-policies/l3.rego" false false "text" "" f0 f0
    65536 (300 * Second) (30 * Second) (5 * Second) 0 "" "" "" "" "" "" "" "/l3-firewall/policy".

(** [strings.Split(s, ",")] *)
Definition comma : Ascii.ascii := Ascii.ascii_of_nat 44.

Fixpoint split_comma (s : string) : list string :=
  match s with
  | EmptyString => [""%string]
  | String c s' =>
      if Ascii.eqb c comma then ""%string :: split_comma s'
      else match split_comma s' with
           | [] => [String c ""]
           | h :: t => String c h :: t
           end
  end.

Definition trim (s : string) : string := text (TrimSpace (codes s)).

(** ** The environment of a start *)
Record Host (Reg : Type) : Type := mkHost {
  h_faults : Faults;
  h_others : nat -> FS -> FS;
  h_reads : nat -> FS -> Snapshots;
  h_now : Time;
  h_dial : SyncerConfig -> option string;
  h_etcd : getResponse;
  h_OpenBytes : list Z -> geoDB + string;
  h_get : string -> response + string;
  h_WriteBlock : Writer -> list byte -> res unit;
  h_metrics : Globals Reg Table;
}.
Arguments mkHost {Reg}.
Arguments h_faults {Reg}. Arguments h_others {Reg}. Arguments h_reads {Reg}. Arguments h_now {Reg}. Arguments h_dial {Reg}.
Arguments h_etcd {Reg}. Arguments h_OpenBytes {Reg}. Arguments h_get {Reg}. Arguments h_WriteBlock {Reg}.
Arguments h_metrics {Reg}.

(** Fatal errors end a start. *)
Definition fatal {A B} (m : IO (A + string)) (msg : string) (k : A -> IO (B + string)) : IO (B + string) :=
  do r := m in
  match r with
  | inl a => k a
  | inr e => io_ret (inr (msg +:+ ": " +:+ e))
  end.

Section startup.
Context {R : Rego} {Reg : Type} `{Registry Reg}.
Implicit Types (o : Options) (h : Host Reg).

(** What is running when [main] calls [Run]. *)
Record Server : Type := mkServer {
  sv_opaEval : EmbeddedEvaluator R;
  sv_syncer : option Syncer;
  sv_auditLogger : option Logger;
  sv_pcapCapture : option Writer;
  sv_refresher : option (list string * Z);
  sv_engine : Engine (EmbeddedEvaluator R);
  sv_statePath : string;
  sv_metrics : Globals Reg Table;
  sv_admin : API;
  sv_adminServer : option (HttpServer * listening);
  sv_watched : string * Time;
  sv_metricsServer : option HttpServer;
  sv_queue : Z;
}.

(** Other processes act. *)
Definition others h (n : nat) : IO unit := fun fs => ([h_others h n fs], h_others h n fs, tt).

(** The policy that is read and compiled: lines 183-198. *)
Definition load_policy o h : IO ((EmbeddedEvaluator R * Time) + string) :=
  if String.eqb (opaEmbed o) "" then io_ret (inr "--opa-embed is required"%string)
  else
    do seen := io_ask (h_reads h 0) in
    do _ := others h 0 in
    match readPolicyFile (h_faults h) seen (opaEmbed o) with
    | inr e => io_ret (inr ("failed to read policy file " +:+ opaEmbed o +:+ ": " +:+ e))
    | inl (policyData, policyModTime) =>
        match NewEmbedded R policyData 0 with
        | inr e => io_ret (inr ("failed to initialize OPA: " +:+ e))
        | inl opaEval => io_ret (inl (opaEval, policyModTime))
        end
    end.

(** The callback of the syncer always exists: the calls it gets are loads. *)
Definition onUpdate (ev : EmbeddedEvaluator R) (policy : string) : res unit :=
  match (Load R policy ev).1 with None => Ok tt | Some e => Err e end.

(** The syncer: lines 201-219.  [Start] loads the current value before it returns. *)
Definition start_syncer o h (ev : EmbeddedEvaluator R) : option Syncer * EmbeddedEvaluator R :=
  if String.eqb (etcdEndpoints o) "" then (None, ev)
  else
    let endpoints := List.map trim (split_comma (etcdEndpoints o)) in
    match effective_config (mkSyncerConfig endpoints (etcdKey o) 0) with
    | None => (None, ev)
    | Some cfg =>
        match h_dial h cfg with
        | Some _ => (None, ev)
        | None =>
            let s := Syncer.started (Some (onUpdate ev)) (h_etcd h) in
            (Some s, foldl (fun ev policy => (Load R policy ev).2) ev (calls s))
        end
    end.

Definition ctConfig o : Conntrack.Config :=
  mkConfig (conntrackMax o) (conntrackMaxFlowsPerSrc o) (conntrackIdle o) (conntrackUDP o) (conntrackICMP o) 0 0.

(** The audit log: lines 232-242. *)
Definition open_audit o h : IO (option Logger + string) :=
  if String.eqb (auditLogPath o) "" then io_ret (inl None)
  else
    do r := NewLogger (h_faults h) (h_now h) (mkAuditConfig (auditLogPath o) 0 0) in
    io_ret (match r with inl al => inl (Some al) | inr e => inr e end).

(** The webhook: lines 245-251. *)
Definition open_alerts o : option Router :=
  if String.eqb (alertWebhookURL o) "" then None
  else Some (NewRouter (mkAlertConfig (alertWebhookURL o) 0)).

(** The country database: lines 254-262. *)
Definition open_geoip o h : IO (option geoDB + string) :=
  if String.eqb (geoipDBPath o) "" then io_ret (inl None)
  else
    do seen := io_ask (h_reads h 1) in
    do _ := others h 3 in
    io_ret (NewReader (h_faults h) (h_OpenBytes h) seen (geoipDBPath o)).

(** The feeds: lines 265-282.  The first fetch trims the addresses, the refresher gets
    them as they are. *)
Definition open_feeds o h : option Blocklist * option (list string * Z) :=
  if String.eqb (threatIntelURL o) "" then (None, None)
  else
    let urls := split_comma (threatIntelURL o) in
    let bl := refresh_tick (h_get h) (List.map trim urls) (Some NewBlocklist) in
    (bl, (fun i => (urls, i)) <$> refresh_interval bl urls (30 * 60 * Second)).

(** The captures: lines 285-293. *)
Definition open_pcap o h : IO (option Writer + string) :=
  if String.eqb (pcapDir o) "" then io_ret (inl None)
  else NewWriter (h_faults h) (mkCaptureConfig (pcapDir o) 0 0).

(** The interface value [main] passes to the engine is never nil: it holds a pointer
    to a writer, which may be, and [WriteBlock] does nothing for a nil writer. *)
Definition pcap_interface h (w : option Writer) : option (list byte -> res unit) :=
  Some (match w with None => fun _ => Ok tt | Some w => h_WriteBlock h w end).

Definition main_version : string := "0.1.0".

(** [uint16] *)
Definition to_uint16 (z : Z) : Z := z mod 2 ^ 16.

(** [main] up to [eng.Run]. *)
Definition startup o h : IO (Server + string) :=
  do loaded := load_policy o h in
  match loaded with
  | inr e => io_ret (inr e)
  | inl (opaEval, policyModTime) =>
      let '(syncer, opaEval) := start_syncer o h opaEval in
      let ct := NewTable (ctConfig o) in
      do _ := others h 1 in
      fatal (open_audit o h) "failed to create audit logger" (fun auditLogger =>
      let alertRouter := open_alerts o in
      do _ := others h 2 in
      fatal (open_geoip o h) "failed to open GeoIP database" (fun geoIPReader =>
      let '(threatIntelBlocklist, refresher) := open_feeds o h in
      do _ := others h 4 in
      fatal (open_pcap o h) "failed to create pcap writer" (fun pcapCapture =>
      let rl := NewLimiter (rateLimitPPS o) (rateLimitBPS o) in
      let eng := Engine.New (Some opaEval) ct rl (opaFailClosed o) (opaAuditOnly o)
        (match auditLogger with Some _ => true | None => false end) alertRouter geoIPReader
        threatIntelBlocklist (pcap_interface h pcapCapture) None in
      match Init (Some Len) (h_metrics h) with
      | (Panic e, _) | (Err e, _) => io_ret (inr ("panic: " +:+ e))
      | (Ok _, globals) =>
          io_ret (inl (mkServer opaEval syncer auditLogger pcapCapture refresher eng (stateFile o) globals
            (Admin.New (h_now h) main_version (adminToken o) (adminReadToken o))
            (if String.eqb (listenAddr o) "" then None else Some (StartServer (listenAddr o)))
            (opaEmbed o, policyModTime)
            (if String.eqb (metricsListen o) "" then None else Some (newMetricsServer (metricsListen o)))
            (to_uint16 (queueNum o))))
      end)))
  end.
End startup.
Arguments Server R Reg : clear implicits.
