(* ===== verification/StartupFacts.v ===== *)
(** * What a start guarantees

    A start that reaches [Run] has a policy that was read with the guard of
    [readPolicyFile], an evaluator with a valid decision policy and an engine whose every reachable
    state is well formed; it fails exactly when one of the named files cannot be opened, and
    never because of the network; and the file watcher it starts leaves a policy that came
    from etcd during the start in force. *)
From Stdlib Require Import ZArith Lia ZifyBool Strings.Byte.
From stdpp Require Import base gmap sets list strings pretty fin_maps.
From S2P Require Import Prelude GoTime GoFloat GoNet Packet Conntrack RateLimit ThreatIntel Alert Opa OpaFacts Engine PacketSteps EngineInv Metrics Syncer Admin GoFS GoFSFacts SecurePath SecurePathFacts PolicyFile PolicyFileFacts GeoIP AuditLog Capture Startup.

Local Open Scope Z_scope.

(** The result of a computation and the file system it leaves. *)
Definition value {A} (m : IO A) (fs : FS) : A := (m fs).2.
Definition after {A} (m : IO A) (fs : FS) : FS := (m fs).1.2.

Definition failed {A} (m : IO (A + string)) (fs : FS) : Prop := exists e, value m fs = inr e.

Lemma value_bind {A B} (m : IO A) (k : A -> IO B) fs :
  value (io_bind m k) fs = value (k (value m fs)) (after m fs).
Proof. unfold value, after, io_bind. destruct (m fs) as [[? fs1] a]. simpl. by destruct (k a fs1) as [[? ?] ?]. Qed.

Lemma value_fatal {A B} (m : IO (A + string)) msg (k : A -> IO (B + string)) fs :
  value (fatal m msg k) fs =
  match value m fs with inl a => value (k a) (after m fs) | inr e => inr (msg +:+ ": " +:+ e) end.
Proof. unfold fatal. rewrite value_bind. by destruct (value m fs). Qed.

Section startup.
Context {R : Rego} {Reg : Type} `{Registry Reg}.
Implicit Types (o : Options) (h : Host Reg) (sv : Server R Reg).

(** The file systems in which the stages run. *)
Definition at_audit o h (fs : FS) : FS := h_others h 1 (after (load_policy (R := R) o h) fs).
Definition at_geoip o h (fs : FS) : FS := h_others h 2 (after (open_audit o h) (at_audit o h fs)).
Definition at_pcap o h (fs : FS) : FS := h_others h 4 (after (open_geoip o h) (at_geoip o h fs)).

(** The values of the stages, and what [startup] makes of them. *)
Lemma startup_stages o h fs :
  value (startup o h) fs =
  match value (load_policy (R := R) o h) fs with
  | inr e => inr e
  | inl (ev, seed) =>
      match value (open_audit o h) (at_audit o h fs) with
      | inr e => inr ("failed to create audit logger: " +:+ e)
      | inl al =>
          match value (open_geoip o h) (at_geoip o h fs) with
          | inr e => inr ("failed to open GeoIP database: " +:+ e)
          | inl geo =>
              match value (open_pcap o h) (at_pcap o h fs) with
              | inr e => inr ("failed to create pcap writer: " +:+ e)
              | inl w =>
                  match Init (Some Len) (h_metrics h) with
                  | (Panic e, _) | (Err e, _) => inr ("panic: " +:+ e)
                  | (Ok _, g) =>
                      let ev' := (start_syncer o h ev).2 in
                      inl (mkServer ev' (start_syncer o h ev).1 al w (open_feeds o h).2
                        (Engine.New (Some ev') (NewTable (ctConfig o)) (NewLimiter (rateLimitPPS o) (rateLimitBPS o))
                           (opaFailClosed o) (opaAuditOnly o) (match al with Some _ => true | None => false end)
                           (open_alerts o) geo (open_feeds o h).1 (pcap_interface h w) None)
                        (stateFile o) g (Admin.New (h_now h) main_version (adminToken o) (adminReadToken o))
                        (if String.eqb (listenAddr o) "" then None else Some (StartServer (listenAddr o)))
                        (opaEmbed o, seed)
                        (if String.eqb (metricsListen o) "" then None else Some (newMetricsServer (metricsListen o)))
                        (to_uint16 (queueNum o)))
                  end
              end
          end
      end
  end.
Proof.
  unfold startup. rewrite value_bind. destruct (value (load_policy o h) fs) as [[ev seed]|e]; [|done].
  destruct (start_syncer o h ev) as [s ev']. rewrite value_bind, value_fatal.
  change (after (others h 1) _) with (at_audit o h fs).
  destruct (value (open_audit o h) (at_audit o h fs)) as [al|e]; [|done]. rewrite value_bind, value_fatal.
  change (after (others h 2) _) with (at_geoip o h fs).
  destruct (value (open_geoip o h) (at_geoip o h fs)) as [geo|e]; [|done].
  destruct (open_feeds o h) as [bl rf]. rewrite value_bind, value_fatal.
  change (after (others h 4) _) with (at_pcap o h fs).
  destruct (value (open_pcap o h) (at_pcap o h fs)) as [w|e]; [|done].
  by destruct (Init (Some Len) (h_metrics h)) as [[] g].
Qed.

Lemma load_policy_inv o h fs ev seed :
  value (load_policy o h) fs = inl (ev, seed) ->
  exists data, readPolicyFile (h_faults h) (h_reads h 0 fs) (opaEmbed o) = inl (data, seed) /\
    NewEmbedded R data 0 = inl ev.
Proof.
  unfold load_policy. destruct (String.eqb (opaEmbed o) ""); [done |]. rewrite !value_bind. cbn.
  destruct (readPolicyFile _ _ _) as [[data m]|]; [|done].
  destruct (NewEmbedded R data 0) as [ev'|] eqn:Hn; [|done]. intros [= <- <-]. by exists data.
Qed.

(** What a server that started consists of. *)
Lemma startup_inv o h fs sv :
  value (startup o h) fs = inl sv ->
  exists data ev seed al geo w g, 
    readPolicyFile (h_faults h) (h_reads h 0 fs) (opaEmbed o) = inl (data, seed) /\
    NewEmbedded R data 0 = inl ev /\ sv_watched sv = (opaEmbed o, seed) /\
    sv_opaEval sv = (start_syncer o h ev).2 /\ sv_syncer sv = (start_syncer o h ev).1 /\
    sv_engine sv = Engine.New (Some (sv_opaEval sv)) (NewTable (ctConfig o))
      (NewLimiter (rateLimitPPS o) (rateLimitBPS o)) (opaFailClosed o) (opaAuditOnly o)
      (match al with Some _ => true | None => false end) (open_alerts o) geo (open_feeds o h).1
      (pcap_interface h w) None /\
    sv_auditLogger sv = al /\ sv_pcapCapture sv = w /\ sv_metrics sv = g.
Proof.
  rewrite startup_stages. destruct (value (load_policy o h) fs) as [[ev seed]|] eqn:Hl; [|done].
  destruct (load_policy_inv _ _ _ _ _ Hl) as (data & Hr & Hn).
  destruct (value (open_audit o h) _) as [al|]; [|done]. destruct (value (open_geoip o h) _) as [geo|]; [|done].
  destruct (value (open_pcap o h) _) as [w|]; [|done].
  destruct (Init (Some Len) (h_metrics h)) as [[m| |] g]; [|done..].
  intros [= <-]. by exists data, ev, seed, al, geo, w, g.
Qed.

(** The evaluator after the etcd value, if there is one, was loaded over the policy of the file. *)
Lemma start_syncer_inv o h ev : load_inv R (None, ev) -> load_inv R (None, (start_syncer o h ev).2).
Proof.
  intros He. unfold start_syncer. destruct (String.eqb (etcdEndpoints o) ""); [done |].
  destruct (effective_config _) as [cfg|]; [|done]. destruct (h_dial h cfg); [done |]. by apply Loads_inv.
Qed.


(** C34: A start fails exactly when the policy file cannot be read or compiled, or one of the audit
    log, the country database and the capture directory that the options name cannot be opened, in
    the file system its turn finds; in particular etcd and the feeds, reachable or not and whatever
    they answer, do not decide. *)
Theorem start_fails_exactly o h fs :
  fresh_process (h_metrics h) ->
  (failed (startup (R := R) o h) fs <->
   failed (load_policy (R := R) o h) fs \/ failed (open_audit o h) (at_audit o h fs) \/
   failed (open_geoip o h) (at_geoip o h fs) \/ failed (open_pcap o h) (at_pcap o h fs)) /\
  (forall dial etcd get,
     failed (startup (R := R) o (mkHost (h_faults h) (h_others h) (h_reads h) (h_now h) dial etcd (h_OpenBytes h) get
               (h_WriteBlock h) (h_metrics h))) fs <->
     failed (startup (R := R) o h) fs).
Proof.
  intros Hg.
  assert (forall h', h_metrics h' = h_metrics h ->
    (failed (startup (R := R) o h') fs <->
     failed (load_policy (R := R) o h') fs \/ failed (open_audit o h') (at_audit o h' fs) \/
     failed (open_geoip o h') (at_geoip o h' fs) \/ failed (open_pcap o h') (at_pcap o h' fs))) as Hall.
  { intros h' Hm. unfold failed. rewrite startup_stages, Hm.
    destruct (newMetrics_fresh (Some Len) _ Hg) as (r & Hi & _).
    unfold Init. destruct Hg as (-> & _). rewrite Hi. cbn [m initOnce registry].
    destruct (value (load_policy o h') fs) as [[ev seed]|e]; [|naive_solver].
    destruct (value (open_audit o h') _) as [al|e]; [|naive_solver].
    destruct (value (open_geoip o h') _) as [geo|e]; [|naive_solver].
    destruct (value (open_pcap o h') _) as [w|e]; naive_solver. }
  split; [by apply Hall |]. intros dial etcd get. rewrite (Hall h), Hall by done. reflexivity.
Qed.

(** When the policy file does not change after the start, no number of polls of the watcher, with
    whatever is planted at the path in between, touches the evaluator: a policy that etcd supplied during
    the start stays in force. *)
Theorem boot_policy_kept o h fs sv pre f vs :
  file_path (opaEmbed o) pre f -> value (startup o h) fs = inl sv ->
  time_is_zero (sv_watched sv).2 = false ->
  (forall v, v ∈ vs -> undisturbed v /\
     forall i, regular_at (pe_stat v) (opaEmbed o) i -> time_after (i_mtime i) (sv_watched sv).2 = false) ->
  watchPolicyFile (sv_watched sv).1 (sv_opaEval sv) (sv_watched sv).2 vs =
    mkWatcher (sv_opaEval sv) (sv_watched sv).2 [].
Proof.
  intros Hf Hs Hz Hvs. destruct (startup_inv _ _ _ _ Hs) as
    (data & ev & seed & al & geo & w & g & _ & _ & Hwat & _).
  rewrite Hwat in *. by eapply polls_unchanged.
Qed.
End startup.

(** ** Behaviours of the wiring *)
Section wiring.
Context {R : Rego} {Reg : Type} `{Registry Reg}.

(** No option reaches the L2 filter: the engine of the process has none. *)
Theorem l2_filter_never_set o (h : Host Reg) fs (sv : Server R Reg) :
  value (startup o h) fs = inl sv -> l2Filter (sv_engine sv) = None.
Proof.
  intros Hs. destruct (startup_inv _ _ _ _ Hs) as (data & ev & seed & al & geo & w & g & _ & _ & _ & _ & _ & -> & _).
  done.
Qed.

(** A queue number of more than 16 bits selects another queue. *)
Theorem queue_number_wraps o (h : Host Reg) fs (sv : Server R Reg) :
  value (startup o h) fs = inl sv -> sv_queue sv = queueNum o mod 65536.
Proof.
  rewrite startup_stages. destruct (value (load_policy o h) fs) as [[ev seed]|]; [|done].
  destruct (value (open_audit o h) _); [|done]. destruct (value (open_geoip o h) _); [|done].
  destruct (value (open_pcap o h) _); [|done]. destruct (Init (Some Len) (h_metrics h)) as [[]]; [|done..].
  by intros [= <-].
Qed.
End wiring.

(** An option with a space after the comma: the first fetch finds both feeds, the
    refresher asks for the second one with the space. *)
Definition two_feeds : string := "http://a/x, http://b/y".

Theorem refresher_keeps_spaces :
  List.map trim (split_comma two_feeds) = ["http://a/x"; "http://b/y"]%string /\
  forall Reg (h : Host Reg) (o : Options), threatIntelURL o = two_feeds ->
    (open_feeds o h).2 = None \/
    (open_feeds o h).2 = Some (["http://a/x"; " http://b/y"]%string, 1800 * Second).
Proof.
  split; [by vm_compute |]. intros Reg h o Ho. unfold open_feeds. rewrite Ho.
  change (String.eqb two_feeds "") with false. cbv iota.
  change (split_comma two_feeds) with ["http://a/x"; " http://b/y"]%string.
  destruct (refresh_tick _ _ _) as [bl|]; [right | left]; reflexivity.
Qed.

(** A key pair that is named but cannot be loaded is served without encryption, and the
    caller is told nothing. *)
Theorem broken_key_serves_plain LoadX509KeyPair Listen addr certFile keyFile e :
  LoadX509KeyPair certFile keyFile = Some e ->
  StartServerTLS LoadX509KeyPair Listen addr certFile keyFile = inl (newServer addr, addr, PlainHTTP addr).
Proof. intros He. unfold StartServerTLS. rewrite He. by destruct (_ || _). Qed.

(** ** A concrete start *)
Definition boot_fs : FS :=
  mkFS (<[["etc"]%string := NDir]> {[ ["etc"; "l3.rego"]%string := NFile 0 ]})
    {[ 0%nat := mkInode (codes "deny") (at_second 5) ]} [].

Definition boot_options : Options :=
  mkOptions ":8082" "" "" 0 1 "/etc/l3.rego" false false "text" "" f0 f0
    65536 (300 * Second) (30 * Second) (5 * Second) 0 "" "" "" "" "" "" " http://e:2379" "/l3-firewall/policy".

Definition boot_host : Host (gset string) :=
  mkHost no_faults (fun _ fs => fs) (fun _ => steady) (at_second 7) (fun _ => None) (inl [Some "other"%string])
    (fun _ => inr "not a database"%string) (fun _ => inr "unreachable"%string) (fun _ _ => Ok tt)
    (mkGlobals false None ∅).

Definition boot_eval : EmbeddedEvaluator sample_rego :=
  mkEmbedded sample_rego (Some "deny"%string) ("deny"%string) 0 "deny" false.

Lemma boot_fresh : fresh_process (h_metrics boot_host).
Proof. split; [done |]. split; [done |]. intros c _. apply not_elem_of_empty. Qed.

Lemma boot_starts : exists sv : Server sample_rego (gset string),
  value (startup boot_options boot_host) boot_fs = inl sv /\ sv_opaEval sv = boot_eval /\
  sv_watched sv = ("/etc/l3.rego"%string, at_second 5).
Proof.
  pose proof boot_fresh as Hg. destruct (newMetrics_fresh (Some Len) _ Hg) as (r & Hi & _).
  assert (value (load_policy (R := sample_rego) boot_options boot_host) boot_fs = inl (boot_eval, at_second 5)) as Hl
    by (vm_compute; reflexivity).
  eexists. split.
  - rewrite startup_stages, Hl.
    change (value (open_audit boot_options boot_host) _) with (inl None : option Logger + string). cbv beta iota.
    change (value (open_geoip boot_options boot_host) _) with (inl None : option geoDB + string). cbv beta iota.
    change (value (open_pcap boot_options boot_host) _) with (inl None : option Writer + string). cbv beta iota.
    unfold Init. destruct Hg as (-> & _). rewrite Hi. reflexivity.
  - split; [|reflexivity]. cbn [sv_opaEval]. vm_compute. reflexivity.
Qed.


Lemma start_fails_exactly_witness :
  ~ failed (startup (R := sample_rego) boot_options boot_host) boot_fs /\
  ~ failed (open_audit boot_options boot_host) (at_audit (R := sample_rego) boot_options boot_host boot_fs).
Proof.
  assert (~ failed (startup (R := sample_rego) boot_options boot_host) boot_fs) as Hok.
  { intros [e He]. destruct boot_starts as (sv & Hs & _). congruence. }
  split; [exact Hok |]. intros Ha. apply Hok.
  apply (proj1 (start_fails_exactly boot_options boot_host boot_fs boot_fresh)). right. left. exact Ha.
Defined.

Lemma boot_policy_kept_witness :
  exists sv : Server sample_rego (gset string),
    watchPolicyFile (sv_watched sv).1 (sv_opaEval sv) (sv_watched sv).2 [still boot_fs; still (planted_fs 5)] =
    mkWatcher boot_eval (at_second 5) [].
Proof.
  destruct boot_starts as (sv & Hs & He & Hw). exists sv.
  rewrite <-He. replace (at_second 5) with (sv_watched sv).2 by (by rewrite Hw).
  apply (boot_policy_kept boot_options boot_host boot_fs sv [""; "etc"]%string "l3.rego"
           [still boot_fs; still (planted_fs 5)] policy_file_path Hs); rewrite Hw; [reflexivity |].
  clear Hs He Hw sv. intros v Hv. apply elem_of_cons in Hv as [->|Hv]; [|apply elem_of_cons in Hv as [->|Hv]]; [..|by apply elem_of_nil in Hv];
    (split; [by split |]); intros i (ino & Ht & Hi); vm_compute in Ht; simplify_eq; vm_compute in Hi; by simplify_eq.
Defined.
