(* ===== verification/GoStrconvFacts.v ===== *)
(** * Numbers in text: what is read back

    A printed integer is read as itself by every reader that accepts it, and a reader
    gives no value outside its machine range. *)
From Stdlib Require Import ZArith Lia ZifyBool SpecFloat.
From stdpp Require Import base list strings pretty.
From S2P Require Import Prelude GoTime GoFloat GoFloatFacts GoNet GoNetFacts L2Filter GoJSON GoJSONFacts GoStrconv.

Local Open Scope Z_scope.

Lemma dec_val_mono acc l v : 0 <= acc -> dec_val acc l = Some v -> acc <= v.
Proof.
  revert acc. induction l as [|d l IH]; intros acc Ha; simpl; [intros [= ->]; lia |].
  destruct (is_digit d) eqn:Hd; [|done]. unfold is_digit in Hd. intros Hv. apply IH in Hv; lia.
Qed.

Lemma digit_is c : digit_ok c -> is_digit c = true.
Proof. unfold digit_ok, is_digit. lia. Qed.

(** A step of the value of a digit. *)
Lemma dec_val_cons acc c l v :
  0 <= acc -> digit_ok c -> dec_val acc (c :: l) = Some v ->
  dec_val (acc * 10 + (c - 48)) l = Some v /\ 0 <= acc * 10 + (c - 48) <= v /\ 10 * acc <= v.
Proof.
  intros Ha Hc Hv. cbn [dec_val] in Hv. rewrite (digit_is c Hc), (Z.mul_comm 10 acc) in Hv.
  unfold digit_ok in Hc. split; [done |]. apply dec_val_mono in Hv; lia.
Qed.

Lemma uint_loop_decimal l acc v u :
  Forall digit_ok l -> 0 <= acc -> v < 2 ^ 64 -> dec_val acc l = Some v -> uint_loop 10 l acc u = Some (v, u).
Proof.
  intros Hl. revert acc. induction Hl as [|c l Hc _ IH]; intros acc Ha Hb Hv; [by injection Hv as -> |].
  destruct (dec_val_cons acc c l v Ha Hc Hv) as (Hv' & Hlo & _).
  cbn [uint_loop]. unfold digit_value. rewrite (digit_is c Hc). unfold digit_ok in Hc.
  destruct (Z.eqb_spec c 95); [lia |]. destruct (Z.leb_spec 10 (c - 48)); [lia |].
  destruct (Z.leb_spec (2 ^ 64) (acc * 10 + (c - 48))); [lia |]. apply IH; [lia | done | done].
Qed.

(** A positive number starts with a digit that is not zero. *)
Lemma pretty_pos p :
  exists d l, codes (pretty (Z.pos p)) = d :: l /\ 49 <= d <= 57 /\ Forall digit_ok (d :: l) /\
    dec_val 0 (d :: l) = Some (Z.pos p).
Proof.
  destruct (decimal_pretty p) as (l & Hl & Hall & Hv & d & l' & -> & Hd). exists d, l'. split_and!; try done; lia.
Qed.

Lemma base_prefix_pos d l : 49 <= d -> base_prefix (d :: l) = (10, d :: l).
Proof.
  intros Hd. unfold base_prefix.
  destruct d as [|p|p]; try done. do 6 (destruct p as [p|p|]; try done); lia.
Qed.

Lemma ParseUint_pretty n : 0 <= n < 2 ^ 64 -> ParseUint (codes (pretty n)) = Some n.
Proof.
  intros Hn. destruct n as [|p|p]; [done | | lia].
  destruct (pretty_pos p) as (d & l & -> & Hd & Hall & Hv). unfold ParseUint. rewrite base_prefix_pos by lia.
  by rewrite (uint_loop_decimal _ 0 (Z.pos p)) by (done || lia).
Qed.

Lemma strip_digit d l : 48 <= d <= 57 -> strip_sign (d :: l) = (false, d :: l).
Proof. intros Hd. unfold strip_sign. destruct (Z.eqb_spec d 45); [lia |]. destruct (Z.eqb_spec d 43); [lia | done]. Qed.

(** A printed integer: a sign and a printed natural number. *)
Lemma pretty_sign n : strip_sign (codes (pretty n)) = (n <? 0, codes (pretty (Z.abs n))).
Proof.
  destruct n as [|p|p]; [done | |].
  - destruct (pretty_pos p) as (d & l & Hp & Hd & _). change (Z.abs (Z.pos p)) with (Z.pos p). rewrite Hp.
    apply strip_digit. lia.
  - done.
Qed.

Lemma ParseInt_pretty n : int64_range n -> ParseInt (codes (pretty n)) = Some n.
Proof.
  unfold int64_range. intros Hn. unfold ParseInt. rewrite pretty_sign, ParseUint_pretty by lia.
  destruct (Z.ltb_spec n 0).
  - destruct (Z.ltb_spec (2 ^ 63) (Z.abs n)); [lia |]. f_equal. lia.
  - destruct (Z.leb_spec (2 ^ 63) (Z.abs n)); [lia |]. f_equal. lia.
Qed.

(** ** Ranges *)
Lemma uint_loop_range base l n u m w :
  0 <= base -> 0 <= n < 2 ^ 64 -> uint_loop base l n u = Some (m, w) -> 0 <= m < 2 ^ 64.
Proof.
  intros Hb. revert n u. induction l as [|c l IH]; intros n u Hn; cbn [uint_loop]; [by intros [= <- _] |].
  destruct (c =? 95); [by apply IH |]. unfold digit_value.
  destruct (is_digit c) eqn:Hc; [|destruct (in_chars 97 122 (lower c)) eqn:Hl; [|done]].
  - destruct (base <=? c - 48); [done |]. destruct (Z.leb_spec (2 ^ 64) (n * base + (c - 48))); [done |].
    apply IH. unfold is_digit in Hc. split; [|lia]. apply Z.add_nonneg_nonneg; [apply Z.mul_nonneg_nonneg |]; lia.
  - destruct (base <=? lower c - 97 + 10); [done |].
    destruct (Z.leb_spec (2 ^ 64) (n * base + (lower c - 97 + 10))); [done |].
    apply IH. unfold in_chars in Hl. split; [|lia]. apply Z.add_nonneg_nonneg; [apply Z.mul_nonneg_nonneg |]; lia.
Qed.

Lemma base_prefix_base s : 0 <= (base_prefix s).1.
Proof.
  destruct s as [|c s]; [done |]. unfold base_prefix.
  destruct c as [|p|p]; try done. do 6 (destruct p as [p|p|]; try done).
  destruct s as [|c1 [|c2 s]]; try done. repeat case_match; done.
Qed.

Lemma ParseUint_range s n : ParseUint s = Some n -> 0 <= n < 2 ^ 64.
Proof.
  unfold ParseUint. destruct s as [|c s]; [done |]. pose proof (base_prefix_base (c :: s)) as Hb.
  destruct (base_prefix (c :: s)) as [base rest]. destruct (uint_loop base rest 0 false) as [[m u]|] eqn:Hu; [|done].
  case_bool; [done |]. intros [= <-]. eapply uint_loop_range; [| |exact Hu]; [exact Hb | lia].
Qed.

Lemma ParseInt_range s n : ParseInt s = Some n -> int64_range n.
Proof.
  unfold ParseInt, int64_range. destruct (strip_sign s) as [neg rest].
  destruct (ParseUint rest) as [un|] eqn:Hu; [|done]. apply ParseUint_range in Hu. destruct neg.
  - destruct (Z.ltb_spec (2 ^ 63) un); [done |]. intros [= <-]. lia.
  - destruct (Z.leb_spec (2 ^ 63) un); [done |]. intros [= <-]. lia.
Qed.

Lemma duration_loop_range fuel s d n : 0 <= d <= 2 ^ 63 -> duration_loop fuel s d = Some n -> 0 <= n <= 2 ^ 63.
Proof.
  revert s d. induction fuel as [|fuel IH]; intros [|c s] d Hd; cbn [duration_loop]; try done; try (by intros [= <-]).
  destruct (duration_part (c :: s)) as [[v s']|]; [|done].
  pose proof (Z.mod_pos_bound (d + v) (2 ^ 64) ltac:(lia)) as Hm.
  destruct (Z.ltb_spec (2 ^ 63) ((d + v) mod 2 ^ 64)); [done |]. apply IH. lia.
Qed.

Lemma ParseDuration_range s n : ParseDuration s = Some n -> int64_range n.
Proof.
  unfold ParseDuration, int64_range. destruct (strip_sign s) as [neg [|c rest]].
  - case_bool; [intros [= <-]; lia | done].
  - case_bool; [intros [= <-]; lia |].
    destruct (duration_loop _ _ 0) as [d|] eqn:Hd; [|done]. apply duration_loop_range in Hd; [|lia].
    destruct neg; [intros [= <-]; lia |]. destruct (Z.ltb_spec (2 ^ 63 - 1) d); [done |]. intros [= <-]. lia.
Qed.

(** ** Durations *)
Lemma leadingInt_decimal l acc v rest :
  Forall digit_ok l -> 0 <= acc -> v <= 2 ^ 63 -> dec_val acc l = Some v ->
  match rest with c :: _ => is_digit c = false | [] => True end ->
  leadingInt (l ++ rest) acc = Some (v, rest).
Proof.
  intros Hl Ha Hb Hv Hr. revert acc Ha Hv. induction Hl as [|c l Hc _ IH]; intros acc Ha Hv; cbn [app leadingInt].
  - injection Hv as ->. destruct rest as [|c rest]; [done |]. cbn [leadingInt]. by rewrite Hr.
  - destruct (dec_val_cons acc c l v Ha Hc Hv) as (Hv' & Hlo & Hten). rewrite (digit_is c Hc).
    pose proof (Z.div_le_lower_bound (2 ^ 63) 10 acc ltac:(lia) ltac:(lia)) as Hq.
    destruct (Z.ltb_spec (2 ^ 63 / 10) acc); [lia |].
    destruct (Z.ltb_spec (2 ^ 63) (acc * 10 + (c - 48))); [lia |]. apply IH; [lia | done].
Qed.

(** The digits of a natural number. *)
Lemma pretty_nat n :
  0 <= n -> exists c l, codes (pretty n) = c :: l /\ digit_ok c /\ Forall digit_ok (c :: l) /\ dec_val 0 (c :: l) = Some n.
Proof.
  intros Hn. destruct n as [|p|p]; [| |lia].
  - exists 48, []. split; [done |]. unfold digit_ok. split_and!; [lia | lia | by repeat constructor | done].
  - destruct (pretty_pos p) as (d & l & -> & Hd & Hall & Hv). exists d, l. unfold digit_ok. split_and!; [done | lia | lia | done | done].
Qed.

Lemma duration_part_ns n : 0 <= n <= 2 ^ 63 -> duration_part (codes (pretty n) ++ [110; 115]) = Some (n, []).
Proof.
  intros Hn. destruct (pretty_nat n ltac:(lia)) as (c & l & -> & Hc & Hall & Hv). unfold duration_part. cbn [app].
  rewrite (digit_is c Hc), orb_true_r. cbn [negb].
  change (c :: l ++ [110; 115]) with ((c :: l) ++ [110; 115]).
  rewrite (leadingInt_decimal (c :: l) 0 n [110; 115]) by (done || lia).
  assert ((length ([110; 115] : list Z)%Z =? length ((c :: l) ++ [110; 115])%Z)%nat = false) as ->.
  { apply Nat.eqb_neq. rewrite length_app. simpl. lia. }
  cbn. change (unit_value [110; 115]) with (Some 1). cbv iota. rewrite Z.div_1_r, Z.mul_1_r.
  destruct (Z.ltb_spec (2 ^ 63) n); [lia | done].
Qed.

Lemma ParseDuration_ns n : int64_range n -> ParseDuration (codes (pretty n +:+ "ns")) = Some n.
Proof.
  unfold int64_range. intros Hn. rewrite codes_app. change (codes "ns") with [110; 115]. unfold ParseDuration.
  assert (strip_sign (codes (pretty n) ++ [110; 115]) = (n <? 0, codes (pretty (Z.abs n)) ++ [110; 115])) as ->.
  { pose proof (pretty_sign n) as Hs. destruct n as [|p|p]; [done | | done].
    destruct (pretty_pos p) as (d & l & Hp & Hd & _). change (Z.abs (Z.pos p)) with (Z.pos p).
    rewrite Hp. cbn [app]. apply strip_digit. lia. }
  pose proof (duration_part_ns (Z.abs n) ltac:(lia)) as Hpart.
  destruct (pretty_nat (Z.abs n) ltac:(lia)) as (c & l & Hc & _). rewrite Hc in *. cbn [app] in *.
  destruct (bool_decide_reflect (c :: l ++ [110; 115] = [48])) as [He|_]; [by destruct l |].
  cbn [length duration_loop]. rewrite Hpart, Z.add_0_l, Z.mod_small by lia.
  destruct (Z.ltb_spec (2 ^ 63) (Z.abs n)); [lia |].
  assert (duration_loop (length (l ++ [110; 115])) [] (Z.abs n) = Some (Z.abs n)) as -> by (by destruct (length _)).
  destruct (Z.ltb_spec n 0); [f_equal; lia |]. destruct (Z.ltb_spec (2 ^ 63 - 1) (Z.abs n)); [lia | f_equal; lia].
Qed.

(** ** Floating-point numbers *)
Lemma mantissa_decimal l acc v :
  Forall digit_ok l -> l <> [] -> 0 <= acc -> dec_val acc l = Some v ->
  forall b, mantissa_loop 10 l acc None b false = mkMantissa v None true false [].
Proof.
  intros Hl. revert acc. induction Hl as [|c l Hc _ IH]; intros acc Hne Ha Hv b; [done |].
  destruct (dec_val_cons acc c l v Ha Hc Hv) as (Hv' & Hlo & _). cbn [mantissa_loop]. rewrite (digit_is c Hc).
  unfold digit_ok in Hc. destruct (Z.eqb_spec c 95); [lia |]. destruct (Z.eqb_spec c 46); [lia |]. cbn [fmap option_fmap option_map].
  destruct l as [|d l]; [by injection Hv' as -> |]. apply IH; [done | lia | done].
Qed.

Lemma lower_digit c : digit_ok c -> lower c = c.
Proof.
  unfold digit_ok. intros Hc.
  assert (c = 48 \/ c = 49 \/ c = 50 \/ c = 51 \/ c = 52 \/ c = 53 \/ c = 54 \/ c = 55 \/ c = 56 \/ c = 57) as H by lia.
  repeat destruct H as [->|H]; try done. by subst.
Qed.

Lemma special_digit c l : digit_ok c -> special_float (c :: l) = None.
Proof.
  intros Hc. unfold special_float. rewrite strip_digit by done. unfold fold_lower. rewrite fmap_cons, (lower_digit c Hc).
  unfold digit_ok in Hc.
  assert (c = 48 \/ c = 49 \/ c = 50 \/ c = 51 \/ c = 52 \/ c = 53 \/ c = 54 \/ c = 55 \/ c = 56 \/ c = 57) as H by lia.
  repeat destruct H as [->|H]; try done. by subst.
Qed.

Lemma round_decimal_int n : 0 <= n -> round_decimal false n 0 = of_int n.
Proof. intros Hn. destruct n as [|p|p]; [done | | lia]. unfold round_decimal. cbn [Z.leb Z.compare]. by rewrite Z.mul_1_r. Qed.

Lemma ParseFloat_pretty n : 0 <= n < 2 ^ 63 -> ParseFloat (codes (pretty n)) = Some (of_int n).
Proof.
  intros Hn. destruct n as [|p|p]; [vm_compute; done | | lia].
  destruct (pretty_pos p) as (d & l & -> & Hd & Hall & Hv). unfold ParseFloat.
  rewrite special_digit, strip_digit by (unfold digit_ok; lia).
  assert (float_base (d :: l) = (10, d :: l)) as ->.
  { unfold float_base. clear - Hd. destruct d as [|q|q]; try done. do 6 (destruct q as [q|q|]; try done); lia. }
  rewrite (mantissa_decimal (d :: l) 0 (Z.pos p)) by done. cbn [sawdigits negb rest_of Z.eqb Pos.eqb sawunderscore andb mant point default].
  rewrite Z.sub_0_r, round_decimal_int by lia.
  pose proof (of_int_spec (Z.pos p) ltac:(unfold int64_range; lia)) as Hs. by destruct (of_int (Z.pos p)).
Qed.

(** ** The fuel of durations *)
Lemma leadingInt_length s x v r : leadingInt s x = Some (v, r) -> (length r <= length s)%nat.
Proof.
  revert x. induction s as [|c s IH]; intros x; cbn [leadingInt]; [by intros [= _ <-] |].
  destruct (is_digit c); [|by intros [= _ <-]]. do 2 (case_bool; [done |]). intros Hl%IH. simpl. lia.
Qed.

Lemma leadingFraction_length s x scale o : (length (leadingFraction s x scale o).2 <= length s)%nat.
Proof.
  revert x scale o. induction s as [|c s IH]; intros x scale o; cbn [leadingFraction]; [done |].
  destruct (is_digit c); [|done]. cbn [length]. pose proof (fun x' sc o' => IH x' sc o') as Hle.
  repeat case_bool; (etrans; [apply Hle | lia]).
Qed.

Lemma unit_name_length s : (length (unit_name s).1 + length (unit_name s).2 = length s)%nat.
Proof.
  induction s as [|c s IH]; cbn [unit_name]; [done |]. case_bool; [done |].
  destruct (unit_name s) as [u r]. simpl in *. lia.
Qed.

Lemma duration_part_shorter s v r : duration_part s = Some (v, r) -> (length r < length s)%nat.
Proof.
  unfold duration_part. destruct s as [|c s]; [done |]. case_bool; [done |].
  destruct (leadingInt (c :: s) 0) as [[w s1]|] eqn:Hl; [|done]. apply leadingInt_length in Hl.
  set (q := match s1 with 46 :: s1' => _ | _ => _ end).
  assert (length q.1.2 <= length s1)%nat as Hq.
  { subst q. destruct s1 as [|d s1]; [done |]. destruct d as [|p|p]; try done.
    do 6 (destruct p as [p|p|]; try done). pose proof (leadingFraction_length s1 0 f1 false) as Hf.
    destruct (leadingFraction s1 0 f1 false) as [[f scale] r']. simpl in *. lia. }
  destruct q as [[[f scale] s2] post]. cbn [fst snd] in Hq. case_bool; [done |].
  pose proof (unit_name_length s2) as Hu. destruct (unit_name s2) as [u s3]. cbn [fst snd] in Hu.
  destruct (Nat.eqb_spec (length u) 0); [done |]. destruct (unit_value u); [|done]. do 2 (case_bool; [done |]).
  intros [= _ <-]. lia.
Qed.

(** The length of the text is enough fuel. *)
Lemma duration_loop_fuel n m s d :
  (length s <= n)%nat -> (length s <= m)%nat -> duration_loop n s d = duration_loop m s d.
Proof.
  revert m s d. induction n as [|n IH]; intros [|m] [|c s] d Hn Hm; simpl in Hn, Hm; try lia; try done.
  cbn [duration_loop]. destruct (duration_part (c :: s)) as [[v r]|] eqn:Hp; [|done].
  apply duration_part_shorter in Hp. cbn [length] in Hp. case_bool; [done |]. apply IH; lia.
Qed.
