(* ===== verification/Flags.v ===== *)
(** * The command line

    The flags of [main] (src/cmd/server/main.go), with the standard library's package
    [flag] as [main] uses it: the default flag set, which exits on an error.  A flag set
    maps names to values; a value keeps the kind it was declared with. *)
From Stdlib Require Import ZArith Lia ZifyBool.
From stdpp Require Import base gmap sets list strings pretty.
From S2P Require Import Prelude GoTime GoFloat GoNet GoFS Opa Metrics GoStrconv Startup.

Local Open Scope Z_scope.

(** ** Package [flag] *)
Inductive FlagValue : Type :=
| FString (s : string)
| FBool (b : bool)
| FUint (n : Z)
| FInt (n : Z)
| FFloat64 (f : float64)
| FDuration (d : Z).

(** The method [Set] of a value of the same kind. *)
Definition Set_value (v : FlagValue) (s : string) : option FlagValue :=
  match v with
  | FString _ => Some (FString s)
  | FBool _ => FBool <$> ParseBool s
  | FUint _ => FUint <$> ParseUint (codes s)
  | FInt _ => FInt <$> ParseInt (codes s)
  | FFloat64 _ => FFloat64 <$> ParseFloat (codes s)
  | FDuration _ => FDuration <$> ParseDuration (codes s)
  end.

Definition IsBoolFlag (v : FlagValue) : bool := match v with FBool _ => true | _ => false end.

(** The values of the flags, and the names that were set. *)
Record FlagSet : Type := mkFlagSet { fs_formal : gmap string FlagValue; fs_actual : gset string }.

Definition dash : Ascii.ascii := Ascii.ascii_of_nat 45.
Definition equals : Ascii.ascii := Ascii.ascii_of_nat 61.

(** The text before the first "=" and the text after it. *)
Fixpoint cut_equals (s : string) : string * option string :=
  match s with
  | EmptyString => (""%string, None)
  | String c s' =>
      if Ascii.eqb c equals then (""%string, Some s')
      else let '(n, v) := cut_equals s' in (String c n, v)
  end.

(** The search for "=" starts at the second character of the name. *)
Definition split_name (s : string) : string * option string :=
  match s with
  | EmptyString => (""%string, None)
  | String c s' => let '(n, v) := cut_equals s' in (String c n, v)
  end.

(** What an argument is: not a flag, the terminator, a malformed flag, or the text after
    one or two dashes. *)
Inductive argument : Type := NonFlag | Terminator | BadSyntax | Named (name : string).

Definition classify (s : string) : argument :=
  match s with
  | String c1 (String c2 s') =>
      if negb (Ascii.eqb c1 dash) then NonFlag
      else
        let name := if Ascii.eqb c2 dash then s' else String c2 s' in
        if Ascii.eqb c2 dash && String.eqb s' "" then Terminator
        else match name with
             | EmptyString => BadSyntax
             | String c _ => if Ascii.eqb c dash || Ascii.eqb c equals then BadSyntax else Named name
             end
  | _ => NonFlag
  end.

Inductive parsed : Type :=
| Done (f : FlagSet) (rest : list string)
| Next (f : FlagSet) (rest : list string)
| ErrHelp
| Failed (err : string).

Definition set_flag (name : string) (v : FlagValue) (f : FlagSet) : FlagSet :=
  mkFlagSet (<[name := v]> (fs_formal f)) ({[ name ]} ∪ fs_actual f).

(** [parseOne] *)
Definition parseOne (args : list string) (f : FlagSet) : parsed :=
  match args with
  | [] => Done f []
  | s :: rest =>
      match classify s with
      | NonFlag => Done f args
      | Terminator => Done f rest
      | BadSyntax => Failed ("bad flag syntax: " +:+ s)
      | Named text =>
          let '(name, value) := split_name text in
          match fs_formal f !! name with
          | None =>
              if String.eqb name "help" || String.eqb name "h" then ErrHelp
              else Failed ("flag provided but not defined: -" +:+ name)
          | Some v =>
              if IsBoolFlag v then
                match value with
                | Some x =>
                    match Set_value v x with
                    | Some v' => Next (set_flag name v' f) rest
                    | None => Failed ("invalid boolean value for -" +:+ name)
                    end
                | None => Next (set_flag name (FBool true) f) rest
                end
              else
                match value, rest with
                | Some x, _ =>
                    match Set_value v x with
                    | Some v' => Next (set_flag name v' f) rest
                    | None => Failed ("invalid value for flag -" +:+ name)
                    end
                | None, x :: rest' =>
                    match Set_value v x with
                    | Some v' => Next (set_flag name v' f) rest'
                    | None => Failed ("invalid value for flag -" +:+ name)
                    end
                | None, [] => Failed ("flag needs an argument: -" +:+ name)
                end
          end
      end
  end.

(** [Parse]: every round takes an argument. *)
Fixpoint parse_loop (fuel : nat) (args : list string) (f : FlagSet) : parsed :=
  match fuel with
  | O => Failed "out of fuel"
  | S fuel' =>
      match parseOne args f with
      | Next f' rest => parse_loop fuel' rest f'
      | r => r
      end
  end.

Definition Parse (args : list string) (f : FlagSet) : parsed := parse_loop (S (length args)) args f.

(** ** The flags of [main] *)
Definition declared : list (string * FlagValue) :=
  [ ("admin-listen", FString ":8082");
    ("admin-token", FString "");
    ("admin-read-token", FString "");
    ("queue", FUint 0);
    ("queue-input", FUint 1);
    ("opa-embed", FString "./opa-policies/l3.rego");
    ("opa-fail-closed", FBool false);
    ("opa-audit-only", FBool false);
    ("log-format", FString "text");
    ("metrics-listen", FString "");
    ("rate-limit-pps", FFloat64 f0);
    ("rate-limit-bps", FFloat64 f0);
    ("conntrack-max", FInt 65536);
    ("conntrack-idle", FDuration (5 * Minute));
    ("conntrack-udp-timeout", FDuration (30 * Second));
    ("conntrack-icmp-timeout", FDuration (5 * Second));
    ("conntrack-max-flows-per-src", FInt 0);
    ("audit-log", FString "");
    ("alert-webhook-url", FString "");
    ("geoip-db", FString "");
    ("threat-intel-url", FString "");
    ("pcap-dir", FString "");
    ("state-file", FString "");
    ("etcd-endpoints", FString "");
    ("etcd-key", FString "/l3-firewall/policy") ]%string.

Definition CommandLine : FlagSet := mkFlagSet (list_to_map declared) ∅.

(** The values behind the pointers the declarations return. *)
Section values.
Context (f : FlagSet).
Definition get_string (name : string) : string :=
  match fs_formal f !! name with Some (FString s) => s | _ => "" end.
Definition get_bool (name : string) : bool :=
  match fs_formal f !! name with Some (FBool b) => b | _ => false end.
Definition get_int (name : string) : Z :=
  match fs_formal f !! name with Some (FUint n) | Some (FInt n) | Some (FDuration n) => n | _ => 0 end.
Definition get_float (name : string) : float64 :=
  match fs_formal f !! name with Some (FFloat64 x) => x | _ => f0 end.

Definition options_of : Options :=
  mkOptions (get_string "admin-listen") (get_string "admin-token") (get_string "admin-read-token")
    (get_int "queue") (get_int "queue-input") (get_string "opa-embed") (get_bool "opa-fail-closed")
    (get_bool "opa-audit-only") (get_string "log-format") (get_string "metrics-listen")
    (get_float "rate-limit-pps") (get_float "rate-limit-bps") (get_int "conntrack-max")
    (get_int "conntrack-idle") (get_int "conntrack-udp-timeout") (get_int "conntrack-icmp-timeout")
    (get_int "conntrack-max-flows-per-src") (get_string "audit-log") (get_string "alert-webhook-url")
    (get_string "geoip-db") (get_string "threat-intel-url") (get_string "pcap-dir") (get_string "state-file")
    (get_string "etcd-endpoints") (get_string "etcd-key").
End values.

Inductive LogHandler : Type := JSONHandler | TextHandler.

(** What [main] has before it reads the policy: the options, the log handler, and whether
    it warns that the input queue is not served. *)
Record Invocation : Type := mkInvocation { iv_options : Options; iv_log : LogHandler; iv_warns : bool }.

(** [main] up to the policy; the arguments that are not flags are not looked at.  [inr] is
    the status the process exits with. *)
Definition main_flags (args : list string) : Invocation + Z :=
  match Parse args CommandLine with
  | Done f _ | Next f _ =>
      let o := options_of f in
      inl (mkInvocation o (if String.eqb (logFormat o) "json" then JSONHandler else TextHandler)
             (bool_decide ("queue-input"%string ∈ fs_actual f)))
  | ErrHelp => inr 0
  | Failed _ => inr 2
  end.

(** [main] up to [eng.Run]: an exit status, or what [startup] does with the options. *)
Definition main_start {R : Rego} {Reg : Type} `{Registry Reg} (args : list string) (h : Host Reg)
  : IO (Server R Reg + string) + Z :=
  match main_flags args with
  | inl iv => inl (startup (iv_options iv) h)
  | inr code => inr code
  end.
