(* ===== verification/FlagsFacts.v ===== *)
(** * What the command line decides

    Every option can be set and is set to what was written; values stay in their machine
    range; and an argument that is not a flag hides every flag behind it. *)
From Stdlib Require Import ZArith Lia ZifyBool.
From stdpp Require Import base gmap sets list strings pretty relations.
From S2P Require Import Prelude GoTime GoFloat GoNet GoFS Opa OpaFacts Metrics GoStrconv GoStrconvFacts Startup Flags.

Local Open Scope Z_scope.

(** ** The loop *)
Lemma parseOne_shorter args f f' rest : parseOne args f = Next f' rest -> (length rest < length args)%nat.
Proof.
  unfold parseOne. destruct args as [|s args]; [done |]. cbn [length].
  destruct (classify s) as [| | |t]; try done. destruct (split_name t) as [name value].
  destruct (fs_formal f !! name) as [v|]; [|by case_bool].
  destruct (IsBoolFlag v).
  - destruct value as [x|]; [destruct (Set_value v x); [|done]|]; intros [= _ <-]; lia.
  - destruct value as [x|], args as [|y args]; try done;
      (destruct (Set_value v _); [|done]); intros [= _ <-]; simpl; lia.
Qed.

Lemma parse_loop_fuel n m args f :
  (length args < n)%nat -> (length args < m)%nat -> parse_loop n args f = parse_loop m args f.
Proof.
  revert m args f. induction n as [|n IH]; intros [|m] args f Hn Hm; try lia. cbn [parse_loop].
  destruct (parseOne args f) as [|f' rest| |] eqn:Hp; try done.
  apply parseOne_shorter in Hp. apply IH; lia.
Qed.

(** The fuel is enough: [Parse] is the loop of the package. *)
Lemma Parse_step args f :
  Parse args f = match parseOne args f with Next f' rest => Parse rest f' | r => r end.
Proof.
  unfold Parse at 1. cbn [parse_loop]. destruct (parseOne args f) as [|f' rest| |] eqn:Hp; try done.
  apply parseOne_shorter in Hp. apply (parse_loop_fuel _ (S (length rest))); lia.
Qed.

Lemma Parse_ind (P : list string -> FlagSet -> Prop) :
  (forall args f, (forall f' rest, parseOne args f = Next f' rest -> P rest f') -> P args f) ->
  forall args f, P args f.
Proof.
  intros Hstep. assert (forall n args f, (length args < n)%nat -> P args f) as Hn.
  { induction n as [|n IH]; intros args f Hl; [lia |]. apply Hstep. intros f' rest Hp%parseOne_shorter. apply IH. lia. }
  intros args f. apply (Hn (S (length args))). lia.
Qed.

(** ** What is left over stays left over *)
Lemma parseOne_more args f more :
  match parseOne args f with
  | Next f' rest => parseOne (args ++ more) f = Next f' (rest ++ more)
  | Done f' rest => rest = [] \/ parseOne (args ++ more) f = Done f' (rest ++ more)
  | _ => True
  end.
Proof.
  unfold parseOne. destruct args as [|s args]; [by left |]. cbn [app].
  destruct (classify s) as [| | |t]; [by right | by right | done |]. destruct (split_name t) as [name value].
  destruct (fs_formal f !! name) as [v|]; [|by case_bool].
  destruct (IsBoolFlag v); [destruct value as [x|]; [by destruct (Set_value v x) | done] |].
  destruct value as [x|]; [by destruct (Set_value v x) |]. destruct args as [|x args]; [done |].
  cbn [app]. by destruct (Set_value v x).
Qed.

Lemma Parse_more args f f' w rest more :
  Parse args f = Done f' (w :: rest) -> Parse (args ++ more) f = Done f' (w :: rest ++ more).
Proof.
  revert args f. refine (Parse_ind _ _). intros args f IH. rewrite (Parse_step args), (Parse_step (args ++ more)).
  pose proof (parseOne_more args f more) as Hm. destruct (parseOne args f) as [f1 r|f1 r| |]; try done.
  - intros [= -> ->]. destruct Hm as [|Hm]; [done |]. by rewrite Hm.
  - intros Hp. rewrite Hm. by eapply IH.
Qed.



(** ** Ranges *)

(** Two values of one kind. *)
Definition same_kind (v w : FlagValue) : Prop :=
  match v, w with
  | FString _, FString _ | FBool _, FBool _ | FUint _, FUint _ | FInt _, FInt _
  | FFloat64 _, FFloat64 _ | FDuration _, FDuration _ => True
  | _, _ => False
  end.

Definition in_machine_range (v : FlagValue) : Prop :=
  match v with
  | FUint n => 0 <= n < 2 ^ 64
  | FInt n | FDuration n => int64_range n
  | _ => True
  end.

Lemma Set_value_ok v s v' : Set_value v s = Some v' -> same_kind v v' /\ in_machine_range v'.
Proof.
  destruct v; cbn [Set_value]; [intros [= <-]; done |..]; intros Hs; apply fmap_Some in Hs as (x & Hx & ->);
    (split; [done |]); try done; [by eapply ParseUint_range | by eapply ParseInt_range | by eapply ParseDuration_range].
Qed.

Lemma Set_value_kind v w s : same_kind v w -> Set_value v s = Set_value w s.
Proof. by destruct v, w. Qed.

Lemma same_kind_trans u v w : same_kind u v -> same_kind v w -> same_kind u w.
Proof. by destruct u, v, w. Qed.

(** Every declared flag has a value of its kind, in its range. *)
Definition well_typed (f : FlagSet) : Prop :=
  forall name v, (name, v) ∈ declared -> exists w, fs_formal f !! name = Some w /\ same_kind v w /\ in_machine_range w.

Lemma declared_NoDup : NoDup (fst <$> declared).
Proof. by apply (bool_decide_unpack _). Qed.

Lemma CommandLine_typed : well_typed CommandLine.
Proof.
  intros name v Hd. exists v. split; [apply elem_of_list_to_map_1; [exact declared_NoDup | done] |].
  split; [by destruct v |].
  assert (Forall (fun d => in_machine_range d.2) declared) as Hall
    by (repeat constructor; unfold in_machine_range, int64_range; cbn; unfold Minute, Second; lia).
  rewrite Forall_forall in Hall. exact (Hall _ Hd).
Qed.

Lemma set_flag_typed name v w f :
  well_typed f -> fs_formal f !! name = Some v -> same_kind v w -> in_machine_range w -> well_typed (set_flag name w f).
Proof.
  intros Hf Hv Hk Hr n u Hd. destruct (Hf n u Hd) as (x & Hx & Hk' & Hr'). cbn [set_flag fs_formal].
  destruct (decide (n = name)) as [->|Hne].
  - exists w. rewrite lookup_insert_eq. split_and!; [done | | done]. rewrite Hv in Hx. injection Hx as ->.
    by eapply same_kind_trans.
  - exists x. by rewrite lookup_insert_ne by done.
Qed.

Lemma parseOne_typed args f :
  well_typed f -> match parseOne args f with Next f' _ | Done f' _ => well_typed f' | _ => True end.
Proof.
  intros Hf. unfold parseOne. destruct args as [|s args]; [done |]. destruct (classify s) as [| | |t]; try done.
  destruct (split_name t) as [name value]. destruct (fs_formal f !! name) as [v|] eqn:Hv; [|by case_bool].
  assert (forall x, match Set_value v x with Some v' => well_typed (set_flag name v' f) | None => True end) as Hset.
  { intros x. destruct (Set_value v x) as [v'|] eqn:Hs; [|done]. apply Set_value_ok in Hs as [Hk Hr].
    by eapply set_flag_typed. }
  destruct (IsBoolFlag v) eqn:Hb.
  - destruct value as [x|]; [specialize (Hset x); by destruct (Set_value v x) |].
    eapply set_flag_typed; [done.. | by destruct v | done].
  - destruct value as [x|]; [specialize (Hset x); by destruct (Set_value v x) |]. destruct args as [|x args]; [done |].
    specialize (Hset x). by destruct (Set_value v x).
Qed.

Lemma Parse_typed args f :
  well_typed f -> match Parse args f with Next f' _ | Done f' _ => well_typed f' | _ => True end.
Proof.
  revert args f. refine (Parse_ind _ _). intros args f IH Hf. rewrite Parse_step.
  pose proof (parseOne_typed args f Hf) as Ht. destruct (parseOne args f) as [| | |]; try done. by apply IH.
Qed.

Lemma get_int_range f name v :
  well_typed f -> (name, v) ∈ declared ->
  match v with
  | FUint _ => 0 <= get_int f name < 2 ^ 64
  | FInt _ | FDuration _ => int64_range (get_int f name)
  | _ => True
  end.
Proof.
  intros Hf Hd. destruct (Hf name v Hd) as (w & Hw & Hk & Hr). unfold get_int. rewrite Hw. by destruct v, w.
Qed.

(** The values of the options that are numbers. *)
Definition numeric_ok (o : Options) : Prop :=
  0 <= queueNum o < 2 ^ 64 /\ 0 <= queueNumInput o < 2 ^ 64 /\ int64_range (conntrackMax o) /\
  int64_range (conntrackIdle o) /\ int64_range (conntrackUDP o) /\ int64_range (conntrackICMP o) /\
  int64_range (conntrackMaxFlowsPerSrc o).

Ltac in_declared := unfold declared; repeat (first [apply list_elem_of_here | apply list_elem_of_further]).

Lemma options_numeric f : well_typed f -> numeric_ok (options_of f).
Proof.
  intros Hf. pose proof (get_int_range f "queue" (FUint 0) Hf ltac:(in_declared)) as H1.
  pose proof (get_int_range f "queue-input" (FUint 1) Hf ltac:(in_declared)) as H2.
  pose proof (get_int_range f "conntrack-max" (FInt 65536) Hf ltac:(in_declared)) as H3.
  pose proof (get_int_range f "conntrack-idle" (FDuration (5 * Minute)) Hf ltac:(in_declared)) as H4.
  pose proof (get_int_range f "conntrack-udp-timeout" (FDuration (30 * Second)) Hf ltac:(in_declared)) as H5.
  pose proof (get_int_range f "conntrack-icmp-timeout" (FDuration (5 * Second)) Hf ltac:(in_declared)) as H6.
  pose proof (get_int_range f "conntrack-max-flows-per-src" (FInt 0) Hf ltac:(in_declared)) as H7.
  exact (conj H1 (conj H2 (conj H3 (conj H4 (conj H5 (conj H6 H7)))))).
Qed.

Lemma main_flags_numeric args iv : main_flags args = inl iv -> numeric_ok (iv_options iv).
Proof.
  unfold main_flags. pose proof (Parse_typed args CommandLine CommandLine_typed) as Ht.
  destruct (Parse args CommandLine) as [f rest|f rest| |]; try done; intros [= <-]; by apply options_numeric.
Qed.

(** ** Writing options down *)

(** An argument "--name=value". *)
Definition argument_of (name value : string) : string := "--" +:+ name +:+ "=" +:+ value.

(** A name a flag can be declared with. *)
Fixpoint no_equals (s : string) : bool :=
  match s with EmptyString => true | String c s' => negb (Ascii.eqb c equals) && no_equals s' end.

Definition plain_name (s : string) : bool :=
  no_equals s && match s with EmptyString => false | String c _ => negb (Ascii.eqb c dash) end.

Lemma cut_equals_app n x : no_equals n = true -> cut_equals (n +:+ "=" +:+ x) = (n, Some x).
Proof.
  induction n as [|c n IH]; [done |]. intros [Hc Hn]%andb_true_iff. apply negb_true_iff in Hc.
  change (cut_equals (String c n +:+ "=" +:+ x)) with
    (if Ascii.eqb c equals then (""%string, Some (n +:+ "=" +:+ x))
     else let '(m, v) := cut_equals (n +:+ "=" +:+ x) in (String c m, v)).
  by rewrite Hc, IH.
Qed.

Lemma classify_flag c s :
  Ascii.eqb c dash = false -> Ascii.eqb c equals = false ->
  classify (String dash (String dash (String c s))) = Named (String c s).
Proof. intros Hd He. unfold classify. rewrite Ascii.eqb_refl. cbn [negb andb String.eqb]. by rewrite Hd, He. Qed.

Lemma parse_argument name value rest f v v' :
  plain_name name = true -> fs_formal f !! name = Some v -> Set_value v value = Some v' ->
  parseOne (argument_of name value :: rest) f = Next (set_flag name v' f) rest.
Proof.
  intros Hn Hv Hs. unfold parseOne, argument_of.
  destruct name as [|c name]; [done |]. unfold plain_name in Hn. cbn [no_equals] in Hn.
  apply andb_true_iff in Hn as [[Hc Hn]%andb_true_iff Hd].
  assert (classify ("--" +:+ String c name +:+ "=" +:+ value) = Named (String c name +:+ "=" +:+ value)) as ->.
  { apply negb_true_iff in Hc, Hd. by apply (classify_flag c (name +:+ "=" +:+ value)). }
  assert (split_name (String c name +:+ "=" +:+ value) = (String c name, Some value)) as ->.
  { change (String c name +:+ "=" +:+ value) with (String c (name +:+ "=" +:+ value)). unfold split_name.
    by rewrite cut_equals_app. }
  rewrite Hv, Hs. by destruct (IsBoolFlag v).
Qed.

(** A list of arguments "--name=value" with the values they give. *)
Lemma Parse_arguments (l : list (string * string * FlagValue)) f :
  Forall (fun '(n, x, v') => plain_name n = true /\
            exists v, fs_formal f !! n = Some v /\ Set_value v x = Some v') l ->
  Parse ((fun '(n, x, _) => argument_of n x) <$> l) f =
  Done (foldl (fun f '(n, _, v') => set_flag n v' f) f l) [].
Proof.
  revert f. induction l as [|[[n x] v'] l IH]; intros f Hl; [done |].
  apply Forall_cons in Hl as [(Hn & v & Hv & Hs) Hl]. rewrite fmap_cons, Parse_step.
  rewrite (parse_argument n x _ f v v') by done. cbn [foldl]. apply IH.
  eapply Forall_impl; [exact Hl |]. intros [[m y] w'] (Hm & w & Hw & Hws). split; [done |].
  cbn [set_flag fs_formal]. destruct (decide (m = n)) as [->|Hne].
  - exists v'. rewrite lookup_insert_eq. split; [done |]. rewrite Hv in Hw. injection Hw as <-.
    rewrite <-Hws. symmetry. apply Set_value_kind. by eapply Set_value_ok.
  - exists w. by rewrite lookup_insert_ne by done.
Qed.

Lemma lookup_arguments (l : list (string * string * FlagValue)) f n x v' :
  NoDup ((fun a => a.1.1) <$> l) -> (n, x, v') ∈ l ->
  fs_formal (foldl (fun f '(n, _, v') => set_flag n v' f) f l) !! n = Some v'.
Proof.
  assert (forall l f, n ∉ ((fun a : string * string * FlagValue => a.1.1) <$> l) ->
    fs_formal (foldl (fun f '(n, _, v') => set_flag n v' f) f l) !! n = fs_formal f !! n) as Hother.
  { clear l f. induction l as [|[[m y] w] l IH]; intros f Hn; [done |]. rewrite fmap_cons, not_elem_of_cons in Hn.
    cbn [foldl]. rewrite IH by apply Hn. cbn [set_flag fs_formal fst] in *. apply lookup_insert_ne. by destruct Hn. }
  revert f. induction l as [|[[m y] w] l IH]; intros f Hnd Hin; [by apply elem_of_nil in Hin |].
  rewrite fmap_cons, NoDup_cons in Hnd. destruct Hnd as [Hm Hnd]. cbn [foldl].
  apply elem_of_cons in Hin as [[= <- <- <-]|Hin]; [|by apply IH].
  rewrite Hother by done. cbn [set_flag fs_formal]. apply lookup_insert_eq.
Qed.

Definition show_bool (b : bool) : string := if b then "true" else "false".

(** Every flag with the text of its value: durations in nanoseconds, rates as integers. *)
Definition written (o : Options) (pps bps : Z) : list (string * string * FlagValue) :=
  let str name s := (name, s, FString s) in
  let boolean name b := (name, show_bool b, FBool b) in
  let duration name d := (name, pretty d +:+ "ns", FDuration d) in
  [ str "admin-listen" (listenAddr o); str "admin-token" (adminToken o); str "admin-read-token" (adminReadToken o);
    ("queue", pretty (queueNum o), FUint (queueNum o));
    ("queue-input", pretty (queueNumInput o), FUint (queueNumInput o));
    str "opa-embed" (opaEmbed o);
    boolean "opa-fail-closed" (opaFailClosed o); boolean "opa-audit-only" (opaAuditOnly o);
    str "log-format" (logFormat o); str "metrics-listen" (metricsListen o);
    ("rate-limit-pps", pretty pps, FFloat64 (of_int pps)); ("rate-limit-bps", pretty bps, FFloat64 (of_int bps));
    ("conntrack-max", pretty (conntrackMax o), FInt (conntrackMax o));
    duration "conntrack-idle" (conntrackIdle o); duration "conntrack-udp-timeout" (conntrackUDP o);
    duration "conntrack-icmp-timeout" (conntrackICMP o);
    ("conntrack-max-flows-per-src", pretty (conntrackMaxFlowsPerSrc o), FInt (conntrackMaxFlowsPerSrc o));
    str "audit-log" (auditLogPath o); str "alert-webhook-url" (alertWebhookURL o); str "geoip-db" (geoipDBPath o);
    str "threat-intel-url" (threatIntelURL o); str "pcap-dir" (pcapDir o); str "state-file" (stateFile o);
    str "etcd-endpoints" (etcdEndpoints o); str "etcd-key" (etcdKey o) ]%string.

Definition args_of (o : Options) (pps bps : Z) : list string :=
  (fun '(n, x, _) => argument_of n x) <$> written o pps bps.

Lemma written_names o pps bps : (fun a => a.1.1) <$> written o pps bps = fst <$> declared.
Proof. done. Qed.

(** The text of a value is read as the value. *)
Lemma written_values o pps bps :
  numeric_ok o -> 0 <= pps < 2 ^ 63 -> 0 <= bps < 2 ^ 63 ->
  Forall2 (fun '(n, x, v') d => n = d.1 /\ plain_name n = true /\ Set_value d.2 x = Some v') (written o pps bps) declared.
Proof.
  intros (H1 & H2 & H3 & H4 & H5 & H6 & H7) Hp Hb. unfold written, declared.
  repeat apply Forall2_cons_2; try apply Forall2_nil_2; split; try done; split; try done; cbn [Set_value snd]; try done.
  all: try (by rewrite ParseUint_pretty by lia). all: try (by rewrite ParseFloat_pretty by lia).
  all: try (by rewrite ParseInt_pretty by done). all: try (by rewrite ParseDuration_ns by done).
  - by destruct (opaFailClosed o).
  - by destruct (opaAuditOnly o).
Qed.

Lemma written_parse o pps bps :
  numeric_ok o -> 0 <= pps < 2 ^ 63 -> 0 <= bps < 2 ^ 63 ->
  Parse (args_of o pps bps) CommandLine =
  Done (foldl (fun f '(n, _, v') => set_flag n v' f) CommandLine (written o pps bps)) [].
Proof.
  intros Ho Hp Hb. apply Parse_arguments. pose proof (written_values o pps bps Ho Hp Hb) as Hw.
  assert (forall d, d ∈ declared -> fs_formal CommandLine !! d.1 = Some d.2) as Hd.
  { intros [n v] Hd. apply elem_of_list_to_map_1; [exact declared_NoDup | done]. }
  revert Hw Hd. generalize (written o pps bps) declared. clear. intros l ds Hw Hd.
  induction Hw as [|[[n x] v'] d l ds (-> & Hn & Hs) _ IH]; [constructor |]. constructor.
  - split; [done |]. exists d.2. split; [|done]. apply Hd. by left.
  - apply IH. intros d' Hd'. apply Hd. by right.
Qed.

Ltac in_written := unfold written; repeat (first [apply list_elem_of_here | apply list_elem_of_further]).

Lemma written_options o pps bps :
  rateLimitPPS o = of_int pps -> rateLimitBPS o = of_int bps ->
  options_of (foldl (fun f '(n, _, v') => set_flag n v' f) CommandLine (written o pps bps)) = o.
Proof.
  intros Hp Hb.
  assert (forall n x v', (n, x, v') ∈ written o pps bps ->
    fs_formal (foldl (fun f '(n, _, v') => set_flag n v' f) CommandLine (written o pps bps)) !! n = Some v') as Hl.
  { intros n x v' Hin. eapply lookup_arguments; [|exact Hin]. rewrite written_names. exact declared_NoDup. }
  unfold options_of, get_string, get_bool, get_int, get_float.
  revert Hl. generalize (foldl (fun f '(n, _, v') => set_flag n v' f) CommandLine (written o pps bps)). intros f Hl.
  repeat (erewrite Hl; [|in_written; fail]). rewrite <-Hp, <-Hb. by destruct o.
Qed.

(** C19: Every combination of options can be given on the command line and arrives as it was meant: written
    as "--name=value" arguments, texts of any bytes, integers over their whole 64-bit range,
    durations in nanoseconds and rates as integers are parsed back to the same options. *)
Theorem flags_roundtrip o pps bps :
  numeric_ok o -> 0 <= pps < 2 ^ 63 -> 0 <= bps < 2 ^ 63 ->
  rateLimitPPS o = of_int pps -> rateLimitBPS o = of_int bps ->
  exists iv, main_flags (args_of o pps bps) = inl iv /\ iv_options iv = o.
Proof.
  intros Ho Hp Hb Hpe Hbe. unfold main_flags. rewrite (written_parse o pps bps Ho Hp Hb). eexists. split; [done |].
  cbn [iv_options]. by apply written_options.
Qed.

(** Options with an extreme duration and a token with "=" in it. *)
Definition odd_options : Options :=
  mkOptions ":8082" "a=b" "-x" 18446744073709551615 0 "/etc/l3.rego" true false "json" "" (of_int 5000) (of_int 0)
    (-9223372036854775808) 9223372036854775807 (-1) 0 0 "" "" "" "" "" "" "" "k".

Lemma flags_roundtrip_witness : exists iv, main_flags (args_of odd_options 5000 0) = inl iv /\ iv_options iv = odd_options.
Proof.
  apply (flags_roundtrip odd_options 5000 0); try lia; try reflexivity.
  unfold numeric_ok, int64_range, odd_options. cbn. lia.
Defined.

(** Without arguments the options are the defaults. *)
Lemma no_arguments : main_flags [] = inl (mkInvocation default_options TextHandler false).
Proof. vm_compute. reflexivity. Qed.
