(* ===== verification/Process.v ===== *)
(** * From the command line to the packet

    The whole process: [main] parses its arguments, [startup] loads the policy and builds
    the engine, and the engine decides packets.  The theorems of Guarantees.v hold of
    every engine a command line leads to. *)
From Stdlib Require Import ZArith Lia ZifyBool Strings.Byte.
From stdpp Require Import base gmap sets list strings pretty relations.
From S2P Require Import Prelude GoTime GoFloat GoNet Packet PacketFacts PacketSpec Conntrack RateLimit Opa OpaFacts ShippedPolicy ShippedPolicyFacts Engine PacketSteps EngineFacts EngineInv EndToEnd Guarantees Metrics GoFS SecurePathFacts PolicyFile PolicyFileFacts AuditLog Capture Startup StartupFacts GoStrconv Flags FlagsFacts.

Local Open Scope Z_scope.

Section process.
Context `{Builtins} {R : Rego} {Reg : Type} `{Registry Reg}.
Context (NewPacket : list byte -> LayerType -> option DecodedPacket) `{!GopacketSpec NewPacket}.

Lemma started_in_service c args (h : Host Reg) start fs (sv : Server R Reg) p e t :
  main_start args h = inl start -> value start fs = inl sv -> auditOnly (sv_engine sv) = false ->
  e_prepared R (sv_opaEval sv) = Some p -> runs_policy R c p ->
  rtc (engine_step NewPacket) (idle (sv_engine sv)) (mkMachine e t) -> in_service R c NewPacket e.
Proof.
  intros Hm Hs Ha Hp Hr Hrun. unfold main_start in Hm. destruct (main_flags args) as [iv|] eqn:Hf; [|done].
  injection Hm as <-. apply main_flags_numeric in Hf as (_ & _ & [_ Hmax] & _).
  destruct (startup_inv _ _ _ _ Hs) as (data & ev & seed & al & geo & w & g & _ & _ & _ & _ & _ & Heng & _).
  rewrite Heng in Ha, Hrun. cbn [New auditOnly] in Ha. rewrite Ha in Hrun.
  exists (sv_opaEval sv), p, (ctConfig (iv_options iv)). do 9 eexists. exists t. split; [exact Hmax |].
  split; [exact Hp |]. split; [done |]. exact Hrun.
Qed.

(** C3: Whatever the command line, a process that starts without audit-only mode, and whose policy runs
    as the rules of l3.rego with the constants [c], never lets through a TCP segment or UDP
    datagram with a blocked port, at any moment of any history of packets, maintenance and restores. *)
Theorem process_closes_ports c args (h : Host Reg) start fs (sv : Server R Reg) p e t v id proto seg raw :
  main_start args h = inl start -> value start fs = inl sv -> auditOnly (sv_engine sv) = false ->
  e_prepared R (sv_opaEval sv) = Some p -> runs_policy R c p ->
  rtc (engine_step NewPacket) (idle (sv_engine sv)) (mkMachine e t) ->
  zlen raw < 2 ^ 63 -> carries proto seg raw -> whole proto seg ->
  port_in_ranges (seg_DstPort seg) (blocked_ports c) = true \/
  port_in_ranges (seg_SrcPort seg) (blocked_ports c) = true ->
  (packetHandler NewPacket v (mkAttribute id (Some raw)) e).2 = inl 1.
Proof.
  intros Hm Hs Ha Hp Hr Hrun. pose proof (started_in_service c args h start fs sv p e t Hm Hs Ha Hp Hr Hrun) as Hin.
  apply in_service_enforcing in Hin. by apply ports_drop.
Qed.
End process.

(** ** A concrete process *)
#[local] Existing Instance sample_builtins.
#[local] Notation SR := (policy_rego sample_builtins).

Definition guarded_eval : EmbeddedEvaluator SR := mkEmbedded SR (Some shipped) tt 0 "deny" false.

Definition guarded_args : list string := ["--opa-embed=/etc/l3.rego"; "-admin-token"; "s3cret"]%string.

Definition guarded_options : Options :=
  mkOptions ":8082" "s3cret" "" 0 1 "/etc/l3.rego" false false "text" "" f0 f0
    65536 (300 * Second) (30 * Second) (5 * Second) 0 "" "" "" "" "" "" "" "/l3-firewall/policy".

Lemma guarded_flags : main_flags guarded_args = inl (mkInvocation guarded_options TextHandler false).
Proof. vm_compute. reflexivity. Qed.

Lemma load_policy_reads {R : Rego} {Reg} (o : Options) (h : Host Reg) fs data m ev :
  opaEmbed o <> ""%string -> readPolicyFile (h_faults h) (h_reads h 0 fs) (opaEmbed o) = inl (data, m) ->
  NewEmbedded R data 0 = inl ev -> value (load_policy o h) fs = inl (ev, m).
Proof.
  intros Hne Hr Hn. unfold load_policy. destruct (String.eqb_spec (opaEmbed o) ""); [done |]. rewrite !value_bind. cbn.
  by rewrite Hr, Hn.
Qed.

Lemma guarded_starts : exists sv : Server SR (gset string),
  value (startup guarded_options boot_host) boot_fs = inl sv /\ sv_opaEval sv = guarded_eval /\
  auditOnly (sv_engine sv) = false.
Proof.
  pose proof boot_fresh as Hg. destruct (newMetrics_fresh (Some Len) _ Hg) as (r & Hi & _).
  assert (value (load_policy (R := SR) guarded_options boot_host) boot_fs = inl (guarded_eval, at_second 5)) as Hl.
  { apply (load_policy_reads _ _ _ "deny"); [done | vm_compute; reflexivity | reflexivity]. }
  eexists. split.
  - rewrite startup_stages, Hl.
    change (value (open_audit guarded_options boot_host) _) with (inl None : option Logger + string). cbv beta iota.
    change (value (open_geoip guarded_options boot_host) _) with (inl None : option geoDB + string). cbv beta iota.
    change (value (open_pcap guarded_options boot_host) _) with (inl None : option Writer + string). cbv beta iota.
    unfold Init. destruct Hg as (-> & _). rewrite Hi. reflexivity.
  - split; reflexivity.
Qed.

Lemma guarded_main : main_start guarded_args boot_host = inl (startup (R := SR) guarded_options boot_host).
Proof. unfold main_start. by rewrite guarded_flags. Qed.

Lemma process_closes_ports_witness :
  exists sv : Server SR (gset string),
    value (startup guarded_options boot_host) boot_fs = inl sv /\
    (packetHandler reference_decoder sample_env (mkAttribute (Some 1) (Some (tcp_packet x50 x16 x02))) (sv_engine sv)).2
    = inl 1.
Proof.
  destruct guarded_starts as (sv & Hs & Hev & Ha). exists sv. split; [exact Hs |].
  apply (process_closes_ports reference_decoder shipped guarded_args boot_host (startup guarded_options boot_host)
           boot_fs sv shipped (sv_engine sv) None sample_env (Some 1) 6 (tcp_segment x50 x16 x02)).
  - exact guarded_main.
  - exact Hs.
  - exact Ha.
  - rewrite Hev. reflexivity.
  - by intros ? ? ?.
  - apply rtc_refl.
  - reflexivity.
  - exact (tcp_packet_carries x50 x16 x02).
  - left. split; [reflexivity | vm_compute; discriminate].
  - left. reflexivity.
Defined.
